(* ===== verification/_CoqProject ===== *)
-Q . S2P
Prelude.v
Effects.v
Memory.v
Api.v
DeepCopy.v
CacheStatusEdits.v
ApiServer.v
CacheUpdater.v
CacheConcurrency.v
StoreApi.v
SyncedStore.v
GoPath.v
GoFlag.v
Sha256.v
Utils.v
Template.v
PodTemplate.v
Registry.v
RegistryMemory.v
Manager.v
Job.v
Codec.v
Cluster.v
PvcController.v
PvController.v
PodController.v
ProvisionerController.v
CacheController.v
Watches.v
LayerApi.v
LayerStore.v
Prune.v
Lifecycle.v
ClaimLifecycle.v
ClaimEvents.v
VolumeEvents.v
LayerCmd.v
Signals.v
Scheme.v
