(* ===== verification/Prelude.v ===== *)
(** * k8storagex: a verification library

    k8storagex provisions host directories and layered, copy-on-write caches as
    PersistentVolumes.  It has two programs.  The manager ([cmd/manager]) runs
    controllers that watch claims, volumes, Pods and [StorageProvisioner]
    resources and start provisioner and deprovisioner Pods.  [layerfs]
    ([cmd/layerfs]) runs within such a Pod: it mounts the image of a cache as a
    container, commits and pushes what has changed when the volume is
    unmounted, and registers the volume in the status of a [Cache] resource.

    ** How the code is modelled

    A Go function without effects is a Rocq function; a pointer into a structure
    is an index, a w-bit integer a reduced [Z], an error an [option goerr].  A
    function that talks to its environment is a [prog] (Effects.v), a finite
    tree of calls: its runs are the sequences of calls with arbitrary answers,
    so that theorems about [runs] hold for every behaviour of the environment,
    failures included.  Panics are outcomes, deferred functions run in
    [finally].  A Go closure over variables of its caller takes and returns
    them.  A record of options or of an object has the fields that the program
    reads or writes.

    ** Files

    - Prelude.v: notations, errors, record updates, lemmas on lists and maps.
    - Effects.v: programs, their runs, their program logic [wp] and its tactics.
    - Memory.v: a heap with pointers and slices, readers and deep copies.
    - Api.v: the resources of [api/v1alpha1], the Kubernetes objects and the
      calls of the API client.  ApiServer.v: the optimistic concurrency control
      of the API server as a class with a concrete instance.  Cluster.v: a
      cluster in memory for concrete runs and for liveness.  DeepCopy.v: the
      resources as they lie in memory and their generated copy functions.
    - CacheStatusEdits.v, CacheUpdater.v, CacheConcurrency.v:
      [internal/ksync/sync.go], as edits of the status, as read-modify-write
      loops and as any number of concurrent updaters.
    - StoreApi.v, SyncedStore.v: the interface [layerfs.Store] and
      [internal/ksync/syncedstore.go].
    - LayerApi.v, LayerStore.v, Prune.v: [internal/layerfs].
    - LayerCmd.v, Signals.v: the commands of [cmd/layerfs] and its signal
      handling.
    - GoPath.v, GoFlag.v, Sha256.v: the parts of the Go library that the code
      depends on.
    - Utils.v, Template.v, PodTemplate.v, Job.v, Codec.v: [internal/utils] and
      [internal/template].
    - Registry.v, PvcController.v, PvController.v, PodController.v,
      ProvisionerController.v, CacheController.v: [internal/controllers].
    - RegistryMemory.v: the registry with its pointers and deep copies.
    - Watches.v: the [SetupWithManager] methods, the work queue of a controller
      and the argument for liveness under fair scheduling.
    - Lifecycle.v, ClaimLifecycle.v: the claim and the volume controller
      together, and the progress that their runs make.
    - ClaimEvents.v, VolumeEvents.v: the same as event-driven systems, with the
      watches, the queue, the kubelet and an environment that interferes.
    - Manager.v: [cmd/manager/main.go].  Scheme.v: the registration of the types
      with the schemes of the two programs.

    ** What is shown

    - Cache status: reachable states satisfy an invariant; registering and
      unregistering refine insertion into and deletion from a map of volumes;
      in every interleaving an accepted write of an updater applies its
      operation to the cache that is stored at that moment.
    - Stores: the synchronised store does exactly the registrations around the
      inner store; a failed mount leaves nothing behind, an unmount releases its
      container, a commit needs a change; pruning deletes only what nothing
      depends on, and terminates.
    - Commands: the storage is released last, without synchronisation the
      cluster is not called, with it the unmount has the result of the
      deregistration.
    - Controllers: when Pods and volumes are created, when finalizers are
      removed, when claims are deleted, when a cache is locked; the deprovisioner
      reads back what the provisioner recorded.
    - Events: in every fair execution claims are provisioned and volumes are
      freed, so that no change that a controller waits for is missed by its
      watches; the controllers of volumes and Pods are woken for nothing else
      than deleted volumes, their jobs and completed Pods.
    - Processes: signals cancel the contexts of layerfs before they end it, in
      every interleaving; the manager reads its command line back as written and
      starts only when everything is set up; both programs call the API only for
      kinds that are registered with their scheme.
    - Memory: deep copies share nothing with the original; the registry of
      pointers refines the registry of values, whatever its callers do to their
      memory, although it is filled through the address of one loop variable.
    - Registry, templates, jobs, codec, names, conditions: functional
      specifications, validity as a declarative condition, independence of the
      order of map iteration, round trips and bounds.

    Some theorems state behaviour that the code can hardly intend, such as
    [CacheStatusEdits.prepare_never_grants],
    [ProvisionerController.deleted_provisioner_stays_registered],
    [CacheController.reset_reported_on_creation],
    [CacheController.cache_finalizer_never_removed] and
    [Lifecycle.deprovisioner_runs_provisioner_command].

    ** Interfaces

    Code that is not part of the repository is a class or a signature, used by
    its documented behaviour only, with an instance for concrete runs:
    [OptimisticServer] (API server), [ConflictRetry] (client-go), [PushRetry]
    (containers/common), [EnvSubst] (a8m/envsubst), [Converter] (apimachinery),
    [ProvisionerCodec] (encoding/json), [ExternalTypes] and [ExternalCopies] (the
    structures of apimachinery and k8s.io/api in memory), [KubeSig] (API client), [LayerSig]
    (container storage and operating system), [CliSig] and [ProcessSig] (set-up
    of the two processes), [EventDispatch] (controller-runtime),
    [SchemeApi] (apimachinery).

    ** Bounds and fuel

    A status update is tried [backoff_Steps] = 10 times, a push is repeated 10 times:
    both are constants of the code.  [canDeprovision] loops twice, as in the code.
    The loops of [Match] take the length of the pattern, which is shown to be
    enough ([Match_fuel_enough]).  Removing the parents of an image takes the
    only fuel that a caller chooses: it must exceed the longest image history
    ([Prune.prune_terminates]).  Everything else is structural.

    ** Not modelled

    Log output, the parsing of the command line of layerfs by cobra (its flags
    come parsed), the link between a cancelled context and the calls of the local
    store (a cancelled context is an answer of the environment) and caches of the
    API client (a controller reads what is stored).  Memory is explicit for the resources and the registry only;
    elsewhere values are immutable, and the one place where the program shares
    memory between values, the containers of a Pod template, returns the changed
    value.  The controller of caches is modelled although the manager does not
    register it. *)

From Stdlib Require Export ZArith Lia.
From stdpp Require Export base strings numbers gmap.
From stdpp Require Export list.

Declare Scope go_scope.
Delimit Scope go_scope with go.

(** Go's [==] and [!=] on values with decidable equality. *)
Notation "x ==? y" := (bool_decide (x = y)) (at level 70, no associativity) : go_scope.
Notation "x !=? y" := (negb (bool_decide (x = y))) (at level 70, no associativity) : go_scope.
Notation "s +++ t" := (String.append s t) (at level 60, right associativity) : go_scope.
#[global] Open Scope go_scope.

(** ** Errors

    A Go [error] value is [option goerr], [None] being nil.  [ApiErr] is a
    [StatusError] of the Kubernetes API machinery with its reason, [Errorf] a
    plain message ([errors.New], [errors.Errorf], [fmt.Errorf] without [%w])
    and [Wrap] an error with a cause ([errors.Wrap], [errors.Wrapf],
    [fmt.Errorf] with [": %w"]). *)

Inductive api_reason :=
| ReasonNotFound
| ReasonAlreadyExists
| ReasonConflict
| ReasonOther.

Inductive goerr :=
| ApiErr (r : api_reason) (msg : string)
| Errorf (msg : string)
| Wrap (msg : string) (cause : goerr).

#[global] Instance api_reason_eq_dec : EqDecision api_reason.
Proof. solve_decision. Defined.
#[global] Instance goerr_eq_dec : EqDecision goerr.
Proof. solve_decision. Defined.

(** [err.Error()] *)
Fixpoint Error (e : goerr) : string :=
  match e with
  | ApiErr _ m => m
  | Errorf m => m
  | Wrap m c => m +++ ": " +++ Error c
  end.

(** [apierrors.ReasonForError], which looks through wrapped errors. *)
Fixpoint reason_of (e : goerr) : option api_reason :=
  match e with
  | ApiErr r _ => Some r
  | Errorf _ => None
  | Wrap _ c => reason_of c
  end.

Definition IsNotFound (e : goerr) : bool := reason_of e ==? Some ReasonNotFound.
Definition IsAlreadyExists (e : goerr) : bool := reason_of e ==? Some ReasonAlreadyExists.
Definition IsConflict (e : goerr) : bool := reason_of e ==? Some ReasonConflict.

(** [errors.Wrap(err, msg)]: nil stays nil. *)
Definition wrap_err (msg : string) (e : option goerr) : option goerr := Wrap msg <$> e.

Lemma wrap_err_None msg e : wrap_err msg e = None <-> e = None.
Proof. unfold wrap_err. by destruct e. Qed.

(** The formatting verb [%q] of a plain name, which needs no escape. *)
Definition quoted (s : string) : string :=
  String (Ascii.ascii_of_nat 34) (s +++ String (Ascii.ascii_of_nat 34) EmptyString).

(** ** Machine integers *)

(** The value of an [int64] expression whose mathematical value is [z]. *)
Definition int64 (z : Z) : Z := ((z + 2 ^ 63) `mod` 2 ^ 64 - 2 ^ 63)%Z.

Lemma int64_id z : (- 2 ^ 63 <= z < 2 ^ 63)%Z -> int64 z = z.
Proof. intros H. unfold int64. rewrite Z.mod_small; lia. Qed.

Lemma int64_bounds z : (- 2 ^ 63 <= int64 z < 2 ^ 63)%Z.
Proof. unfold int64. pose proof (Z.mod_pos_bound (z + 2 ^ 63) (2 ^ 64)). lia. Qed.

(** ** Go maps

    A [map[string]string] is [option (gmap string string)], [None] being the
    nil map: reading a nil map yields the zero value, ranging over it does
    nothing, writing to it panics. *)

Abbreviation strmap := (option (gmap string string)).

Definition map_index (m : strmap) (k : string) : string :=
  match m with
  | None => ""
  | Some g => default "" (g !! k)
  end.

#[global] Arguments map_index : simpl never.

Lemma map_index_insert (g : gmap string string) k v : map_index (Some (<[k := v]> g)) k = v.
Proof. unfold map_index. by rewrite lookup_insert_eq. Qed.

Lemma map_index_insert_ne (g : gmap string string) k k' v :
  k <> k' -> map_index (Some (<[k := v]> g)) k' = map_index (Some g) k'.
Proof. intros H. unfold map_index. by rewrite lookup_insert_ne. Qed.

(** ** Automation *)

Create HintDb k8s discriminated.

(** Destruct every [if]/[match] scrutinee of the goal, then close what is
    decided. *)
Ltac split_matches :=
  repeat (case_match; simplify_eq/=; try done).

Lemma bool_decide_neq_iff {A} `{EqDecision A} (x y : A) :
  negb (bool_decide (x = y)) = true <-> x <> y.
Proof. rewrite negb_true_iff. by rewrite bool_decide_eq_false. Qed.

(** ** Results of fallible calls *)

Inductive result (A : Type) :=
| Ok (a : A)
| Err (e : goerr).
Arguments Ok {A} a.
Arguments Err {A} e.

Definition err_of {A} (r : result A) : option goerr :=
  match r with Ok _ => None | Err e => Some e end.

(** ** Updating one field of a record

    [r <| f := v |>] is [r] with field [f] set to [v].  A record type declares
    how it is rebuilt from its fields with an instance of [Settable]; the
    setter of a field is found by abstracting that field. *)

Class Settable (R : Type) := rebuild : R -> R.

Class Setter {R E : Type} (f : R -> E) := set_field : (E -> E) -> R -> R.

Ltac find_setter :=
  match goal with
  | |- @Setter ?R _ ?f =>
      let build := eval cbv delta [rebuild] in (@rebuild R _) in
      let build := eval hnf in build in
      let p := eval pattern f in build in
      match p with
      | ?g _ => let s := eval cbv beta in (fun u => g (fun r => u (f r))) in exact s
      end
  end.

#[global] Hint Extern 1 (Setter _) => find_setter : typeclass_instances.

Notation "r <| f := v |>" := (set_field (f := f) (fun _ => v) r)
  (at level 1, f at level 0, left associativity) : go_scope.

(** ** Lists *)

Lemma Forall_sublist {A} (P : A -> Prop) l1 l2 :
  l1 `sublist_of` l2 -> Forall P l2 -> Forall P l1.
Proof. induction 1; inversion 1; subst; auto. Qed.

Lemma sublist_filter_mono {A} (P : A -> Prop) `{!forall x, Decision (P x)} l1 l2 :
  l1 `sublist_of` l2 -> filter P l1 `sublist_of` filter P l2.
Proof.
  induction 1; [done|rewrite !filter_cons; case_decide; by repeat constructor|].
  rewrite filter_cons. case_decide; by repeat constructor.
Qed.

(** In a list whose selected elements have pairwise distinct keys, the key of a
    selected element determines its position. *)
Lemma NoDup_filter_fmap_inj {A B} (P : A -> Prop) `{!forall x, Decision (P x)} (f : A -> B) l i j x y :
  NoDup (f <$> filter P l) -> l !! i = Some x -> l !! j = Some y ->
  P x -> P y -> f x = f y -> i = j.
Proof.
  revert i j. induction l as [|z l IH]; intros i j Hnd Hi Hj Hx Hy Hf; [done|].
  rewrite filter_cons in Hnd.
  assert (Hin : forall k w, l !! k = Some w -> P w -> P z -> f w <> f z).
  { intros k w Hk Hw Hz Heq. rewrite decide_True in Hnd by done.
    rewrite fmap_cons in Hnd. apply NoDup_cons in Hnd as [Hnd _]. apply Hnd.
    rewrite <- Heq. apply list_elem_of_fmap_2, list_elem_of_filter.
    split; [done|]. by eapply list_elem_of_lookup_2. }
  destruct i, j; simplify_eq/=;
    [done|exfalso; eapply (Hin _ _ Hj); congruence|exfalso; eapply (Hin _ _ Hi); congruence|].
  f_equal. eapply IH; eauto. case_decide; [|done].
  rewrite fmap_cons in Hnd. by apply NoDup_cons in Hnd as [_ ?].
Qed.

(** An element of a concatenation is in one of the parts. *)
Lemma app_eq_cons_split {A} (l1 l2 t1 t2 : list A) x :
  l1 ++ x :: l2 = t1 ++ t2 ->
  (exists k, l1 = t1 ++ k /\ t2 = k ++ x :: l2) \/ (exists k, t1 = l1 ++ x :: k /\ l2 = k ++ t2).
Proof.
  intros [(k & -> & ->)|(k & -> & E)]%app_eq_inv; [left; by exists k|].
  destruct k as [|y k]; simplify_eq/=; [left; exists []; by rewrite !app_nil_r|right; by exists k].
Qed.

Lemma omap_rev {A B} (f : A -> option B) (l : list A) : omap f (rev l) = rev (omap f l).
Proof.
  induction l as [|x l IH]; [done|]. simpl. rewrite omap_app, IH. simpl.
  destruct (f x); simpl; [done|by rewrite app_nil_r].
Qed.
