(* ===== verification/Effects.v ===== *)
(** * Effectful programs

    Code that talks to its environment (the Kubernetes API server, the
    container storage, the file system, the clock) is a value of [prog]: a
    finite tree whose nodes are the calls the code makes and whose branches
    are the answers the environment may give.  A program is executable against
    any handler of its calls ([exec]), has a set of traces ([runs]), and a
    program logic ([wp]) that reasons about what the code does for every
    possible answer. *)

From S2P Require Import Prelude.

(** The calls a component may make and the type of their answers. *)
Class Sig := { cmd : Type; resp : cmd -> Type }.

(** A Go function returns or panics. *)
Inductive outcome (A : Type) :=
| Returned (a : A)
| Panicked (msg : string).
Arguments Returned {A} a.
Arguments Panicked {A} msg.

Section Prog.
Context {S : Sig}.

Inductive prog (A : Type) : Type :=
| Ret (a : A)
| Panic (msg : string)
| Call (c : cmd) (k : resp c -> prog A).

Record event := Ev { ev_cmd : cmd; ev_resp : resp ev_cmd }.

End Prog.
Arguments Ret {S A} a.
Arguments Panic {S A} msg.
Arguments Call {S A} c k.

Fixpoint bind {S : Sig} {A B} (p : prog A) (f : A -> prog B) : prog B :=
  match p with
  | Ret a => f a
  | Panic m => Panic m
  | Call c k => Call c (fun x => bind (k x) f)
  end.

Definition call {S : Sig} (c : cmd) : prog (resp c) := Call c Ret.

(** A pure function that may panic. *)
Definition of_outcome {S : Sig} {A} (o : outcome A) : prog A :=
  match o with
  | Returned a => Ret a
  | Panicked m => Panic m
  end.

Declare Scope prog_scope.
Delimit Scope prog_scope with prog.
Notation "'let!' x := p 'in' q" := (bind p (fun x => q))
  (at level 10, x pattern, p at level 100, q at level 200) : prog_scope.
Notation "'do!' p 'in' q" := (bind p (fun _ => q))
  (at level 10, p at level 100, q at level 200) : prog_scope.
#[global] Open Scope prog_scope.

Section Semantics.
Context {S : Sig}.
Implicit Types tr h : list event.

(** [runs p tr o]: [p] can make the calls of [tr] in this order, receive the
    answers recorded there, and finish with [o]. *)
Fixpoint runs {A} (p : prog A) tr (o : outcome A) : Prop :=
  match p with
  | Ret a => tr = [] /\ o = Returned a
  | Panic m => tr = [] /\ o = Panicked m
  | Call c k => exists x tr', tr = Ev c x :: tr' /\ runs (k x) tr' o
  end.

(** Run a program against a handler: the answer to a call and the new state
    of the environment. *)
Fixpoint exec {St A} (hd : forall c : cmd, St -> resp c * St) (p : prog A) (s : St)
  : list event * outcome A * St :=
  match p with
  | Ret a => ([], Returned a, s)
  | Panic m => ([], Panicked m, s)
  | Call c k =>
      let '(x, s') := hd c s in
      let '(tr, o, s'') := exec hd (k x) s' in
      (Ev c x :: tr, o, s'')
  end.

(** [wp p G Q h]: started with the call history [h] (latest call first),
    every call [c] that [p] makes satisfies [G] of the history at that point,
    and whatever the environment answers [p] ends with a history and an
    outcome in [Q]. *)
Fixpoint wp {A} (p : prog A) (G : list event -> cmd -> Prop)
    (Q : list event -> outcome A -> Prop) h : Prop :=
  match p with
  | Ret a => Q h (Returned a)
  | Panic m => Q h (Panicked m)
  | Call c k => G h c /\ forall x, wp (k x) G Q (Ev c x :: h)
  end.

Lemma wp_mono {A} (p : prog A) (G G' : list event -> cmd -> Prop)
    (Q Q' : list event -> outcome A -> Prop) h :
  wp p G Q h ->
  (forall h' c, G h' c -> G' h' c) ->
  (forall h' o, Q h' o -> Q' h' o) ->
  wp p G' Q' h.
Proof.
  intros Hwp HG HQ. revert h Hwp.
  induction p as [a|m|c k IH]; intros h Hwp; simpl in *; [by auto..|].
  destruct Hwp as [? Hk]. split; [by auto|]. intros x. by apply IH.
Qed.

Lemma wp_bind {A B} (p : prog A) (f : A -> prog B) G Q h :
  wp (bind p f) G Q h <->
  wp p G (fun h' o => match o with
                      | Returned a => wp (f a) G Q h'
                      | Panicked m => Q h' (Panicked m)
                      end) h.
Proof.
  revert h. induction p as [a|m|c k IH]; intros h; simpl; [done..|].
  split; intros [HG Hk]; (split; [done|]); intros x; by apply IH.
Qed.

Lemma runs_bind {A B} (p : prog A) (f : A -> prog B) tr o :
  runs (bind p f) tr o <->
  (exists m, runs p tr (Panicked m) /\ o = Panicked m) \/
  (exists a tr1 tr2, tr = tr1 ++ tr2 /\ runs p tr1 (Returned a) /\ runs (f a) tr2 o).
Proof.
  revert tr. induction p as [a|m|c k IH]; intros tr; simpl.
  - split; [intros H; right; by exists a, [], tr|].
    intros [(m & [_ ?] & _)|(a' & tr1 & tr2 & -> & [-> [= ->]] & ?)]; done.
  - split; [intros [-> ->]; left; eauto|].
    intros [(m' & [-> [= ->]] & ->)|(a' & tr1 & tr2 & -> & [_ ?] & _)]; done.
  - split.
    + intros (x & tr' & -> & H). apply IH in H.
      destruct H as [(m & Hr & ->)|(a & tr1 & tr2 & -> & Hp & Hf)].
      * left. exists m. split; [|done]. by exists x, tr'.
      * right. exists a, (Ev c x :: tr1), tr2. split; [done|]. split; [|done].
        by exists x, tr1.
    + intros [(m & (x & tr' & -> & Hr) & ->)|(a & tr1 & tr2 & -> & (x & tr' & -> & Hr) & Hf)].
      * exists x, tr'. split; [done|]. apply IH. left. by exists m.
      * exists x, (tr' ++ tr2). split; [done|]. apply IH. right. by exists a, tr', tr2.
Qed.

(** The program logic is sound: it speaks about the runs of the program. *)
Lemma wp_post {A} (p : prog A) G (Q : list event -> outcome A -> Prop) h tr o :
  wp p G Q h -> runs p tr o -> Q (rev tr ++ h) o.
Proof.
  revert h tr. induction p as [a|m|c k IH]; intros h tr Hwp Hr; simpl in *.
  - by destruct Hr as [-> ->].
  - by destruct Hr as [-> ->].
  - destruct Hr as (x & tr' & -> & Hr). destruct Hwp as [_ Hwp].
    specialize (IH x _ _ (Hwp x) Hr). simpl. by rewrite <- app_assoc.
Qed.

Lemma wp_guard {A} (p : prog A) G (Q : list event -> outcome A -> Prop) h tr c x tr' o :
  wp p G Q h -> runs p (tr ++ Ev c x :: tr') o -> G (rev tr ++ h) c.
Proof.
  revert h tr. induction p as [a|m|c' k IH]; intros h tr Hwp Hr; simpl in *.
  - destruct Hr as [Hr _]. by destruct tr.
  - destruct Hr as [Hr _]. by destruct tr.
  - destruct Hr as (y & tr'' & Heq & Hr). destruct Hwp as [HG Hwp].
    destruct tr as [|e tr]; simpl in *.
    + by injection Heq as ->.
    + injection Heq as -> <-. specialize (IH y _ _ (Hwp y) Hr). by rewrite <- app_assoc.
Qed.

(** Every program has a run: programs never diverge. *)
Lemma runs_total {A} (p : prog A) (answer : forall c : cmd, resp c) :
  exists tr o, runs p tr o.
Proof.
  induction p as [a|m|c k IH]; simpl; [by eauto..|].
  destruct (IH (answer c)) as (tr & o & H). by exists (Ev c (answer c) :: tr), o, (answer c), tr.
Qed.

(** Completeness: what holds of every run is provable in the logic. *)
Lemma wp_complete {A} (p : prog A) (answer : forall c : cmd, resp c)
    (G : list event -> cmd -> Prop) (Q : list event -> outcome A -> Prop) h :
  (forall tr o, runs p tr o -> Q (rev tr ++ h) o) ->
  (forall tr c x tr' o, runs p (tr ++ Ev c x :: tr') o -> G (rev tr ++ h) c) ->
  wp p G Q h.
Proof.
  revert h. induction p as [a|m|c k IH]; intros h HQ HG; simpl in *.
  - by apply (HQ []).
  - by apply (HQ []).
  - split.
    + destruct (runs_total (k (answer c)) answer) as (tr & o & Hr).
      apply (HG [] c (answer c) tr o). by exists (answer c), tr.
    + intros x. apply IH.
      * intros tr o Hr. specialize (HQ (Ev c x :: tr) o). simpl in HQ.
        rewrite <- app_assoc in HQ. apply HQ. by exists x, tr.
      * intros tr c' y tr' o Hr. specialize (HG (Ev c x :: tr) c' y tr' o). simpl in HG.
        rewrite <- app_assoc in HG. apply HG. by exists x, (tr ++ Ev c' y :: tr').
Qed.

(** Executions are runs, so what the logic proves holds against every
    handler. *)
Lemma exec_runs {St A} (hd : forall c : cmd, St -> resp c * St) (p : prog A) s tr o s' :
  exec hd p s = (tr, o, s') -> runs p tr o.
Proof.
  revert s tr o s'. induction p as [a|m|c k IH]; intros s tr o s' H; simpl in *.
  - by simplify_eq.
  - by simplify_eq.
  - destruct (hd c s) as [x s1]. destruct (exec hd (k x) s1) as [[tr1 o1] s2] eqn:E.
    simplify_eq. exists x, tr1. split; [done|]. by eapply IH.
Qed.

Lemma exec_runs_proj {St A} (hd : forall c : cmd, St -> resp c * St) (p : prog A) s :
  runs p (exec hd p s).1.1 (exec hd p s).1.2.
Proof. destruct (exec hd p s) as [[tr o] s'] eqn:E. by apply exec_runs in E. Qed.

End Semantics.

(** ** Deferred calls

    [finally p f] continues with [f] however [p] ends; a function with a
    [defer] runs the deferred code in [f] and goes on panicking if [p] did. *)
Fixpoint finally {S : Sig} {A B} (p : prog A) (f : outcome A -> prog B) : prog B :=
  match p with
  | Ret a => f (Returned a)
  | Panic m => f (Panicked m)
  | Call c k => Call c (fun x => finally (k x) f)
  end.

Lemma wp_finally {S : Sig} {A B} (p : prog A) (f : outcome A -> prog B) G Q h :
  wp (finally p f) G Q h <-> wp p G (fun h' o => wp (f o) G Q h') h.
Proof.
  revert h. induction p as [a|m|c k IH]; intros h; simpl; [done..|].
  split; intros [HG Hk]; (split; [done|]); intros x; by apply IH.
Qed.

Lemma runs_finally {S : Sig} {A B} (p : prog A) (f : outcome A -> prog B) tr o :
  runs (finally p f) tr o <->
  exists o1 tr1 tr2, tr = tr1 ++ tr2 /\ runs p tr1 o1 /\ runs (f o1) tr2 o.
Proof.
  revert tr. induction p as [a|m|c k IH]; intros tr; simpl.
  - split; [intros Hr; by exists (Returned a), [], tr|].
    by intros (o1 & tr1 & tr2 & -> & [-> ->] & Hf).
  - split; [intros Hr; by exists (Panicked m), [], tr|].
    by intros (o1 & tr1 & tr2 & -> & [-> ->] & Hf).
  - split.
    + intros (x & tr' & -> & Hr). apply IH in Hr as (o1 & tr1 & tr2 & -> & Hp & Hf).
      exists o1, (Ev c x :: tr1), tr2. split; [done|]. split; [|done]. by exists x, tr1.
    + intros (o1 & tr1 & tr2 & -> & (x & tr' & -> & Hr) & Hf).
      exists x, (tr' ++ tr2). split; [done|]. apply IH. by exists o1, tr', tr2.
Qed.

(** ** Components side by side

    A component that uses two environments makes the calls of both. *)
Definition sum_sig (S T : Sig) : Sig :=
  {| cmd := cmd (Sig := S) + cmd (Sig := T);
     resp c := match c with inl a => resp a | inr b => resp b end |}.

Section Lift.
Context {S T : Sig}.

Fixpoint lift_l {A} (p : prog (S := S) A) : prog (S := sum_sig S T) A :=
  match p with
  | Ret a => Ret a
  | Panic m => Panic m
  | Call c k => Call (S := sum_sig S T) (inl c) (fun x => lift_l (k x))
  end.

Fixpoint lift_r {A} (p : prog (S := T) A) : prog (S := sum_sig S T) A :=
  match p with
  | Ret a => Ret a
  | Panic m => Panic m
  | Call c k => Call (S := sum_sig S T) (inr c) (fun x => lift_r (k x))
  end.

Definition event_l (e : event (S := S)) : event (S := sum_sig S T) :=
  Ev (S := sum_sig S T) (inl (ev_cmd e)) (ev_resp e).
Definition event_r (e : event (S := T)) : event (S := sum_sig S T) :=
  Ev (S := sum_sig S T) (inr (ev_cmd e)) (ev_resp e).

Lemma runs_lift_l {A} (p : prog (S := S) A) tr o :
  runs (lift_l p) tr o <-> exists tr0, tr = map event_l tr0 /\ runs p tr0 o.
Proof.
  revert tr. induction p as [a|m|c k IH]; intros tr; simpl.
  - split; [intros [-> ->]; by exists []|]. by intros (tr0 & -> & -> & ->).
  - split; [intros [-> ->]; by exists []|]. by intros (tr0 & -> & -> & ->).
  - split.
    + intros (x & tr' & -> & Hr). apply IH in Hr as (tr0 & -> & Hr).
      exists (Ev c x :: tr0). split; [done|]. by exists x, tr0.
    + intros (tr0 & -> & (x & tr' & -> & Hr)). exists x, (map event_l tr').
      split; [done|]. apply IH. by exists tr'.
Qed.

Lemma runs_lift_r {A} (p : prog (S := T) A) tr o :
  runs (lift_r p) tr o <-> exists tr0, tr = map event_r tr0 /\ runs p tr0 o.
Proof.
  revert tr. induction p as [a|m|c k IH]; intros tr; simpl.
  - split; [intros [-> ->]; by exists []|]. by intros (tr0 & -> & -> & ->).
  - split; [intros [-> ->]; by exists []|]. by intros (tr0 & -> & -> & ->).
  - split.
    + intros (x & tr' & -> & Hr). apply IH in Hr as (tr0 & -> & Hr).
      exists (Ev c x :: tr0). split; [done|]. by exists x, tr0.
    + intros (tr0 & -> & (x & tr' & -> & Hr)). exists x, (map event_r tr').
      split; [done|]. apply IH. by exists tr'.
Qed.

End Lift.

(** The history only grows while a program runs. *)
Lemma wp_frame {S : Sig} {A} (p : prog A) (G G' : list event -> cmd -> Prop)
    (Q Q' : list event -> outcome A -> Prop) h :
  wp p G Q h ->
  (forall h' c, h ⊆ h' -> G h' c -> G' h' c) ->
  (forall h' o, h ⊆ h' -> Q h' o -> Q' h' o) ->
  wp p G' Q' h.
Proof.
  intros Hwp HG HQ. cut (forall h0, h ⊆ h0 -> wp p G Q h0 -> wp p G' Q' h0); [by eauto|]. clear Hwp.
  induction p as [a|m|c k IH]; intros h0 Hh Hwp; simpl in *; [by auto..|].
  destruct Hwp as [? Hk]. split; [by auto|]. intros x. apply IH; [by auto..| |done].
  intros e He. apply list_elem_of_further, Hh, He.
Qed.

(** The history after a trace has the calls of the trace. *)
Lemma history_of_trace {S : Sig} (tr : list event) : rev tr ++ [] ⊆ tr.
Proof.
  intros e He. rewrite app_nil_r in He. apply list_elem_of_In. apply list_elem_of_In in He.
  by apply in_rev in He.
Qed.

(** ** Proof steps for the program logic *)

#[global] Arguments wp {S A} !p G Q h /.
#[global] Arguments bind {S A B} !p f /.

(** Move through a program: unfold binds, answer calls with an arbitrary
    response and split on the branches that depend on it. *)
Ltac wp_step :=
  match goal with
  | |- wp (bind _ _) _ _ _ => rewrite wp_bind
  | |- wp (Call _ _) _ _ _ => split; [|intros ?]
  | |- wp (Ret _) _ _ _ => simpl
  | |- wp (Panic _) _ _ _ => simpl
  | |- wp (if ?b then _ else _) _ _ _ => destruct b eqn:?
  | |- wp (match ?x with _ => _ end) _ _ _ => destruct x eqn:?
  end; simpl.

(** Symbolic execution without unfolding the functions that are called. *)
Ltac wp_go :=
  lazymatch goal with
  | |- wp (bind _ _) _ _ _ => rewrite wp_bind
  | |- wp (call _) _ _ _ => unfold call; split; [|intros ?]
  | |- wp (Call _ _) _ _ _ => split; [|intros ?]
  | |- _ /\ (forall x : resp _, _) => split; [|intros ?]
  | |- wp (Ret _) _ _ _ => idtac
  | |- wp (Panic _) _ _ _ => idtac
  | |- wp (if ?b then _ else _) _ _ _ => destruct b eqn:?
  | |- wp (match ?x with _ => _ end) _ _ _ => destruct x eqn:?
  | |- wp (of_outcome ?x) _ _ _ => destruct x eqn:?
  end; cbn [wp of_outcome bind].

(** Membership of a recorded call in an explicit history. *)
Ltac in_history := repeat (apply list_elem_of_here || apply list_elem_of_further || eassumption).
