(* ===== verification/Memory.v ===== *)
(** * Memory

    Where Go code shares memory through pointers, slices and maps, a value of
    the model does not show who else can change it.  Here memory is explicit: a
    heap of typed cells, programs [mem] that load and allocate them, and
    readers [rd] that give the pure value a structure stands for together with
    the cells it is made of.  [copies] says that a program makes a deep copy:
    the copy stands for the same value, all its cells are new, and the memory
    that was there before is unchanged. *)

From Stdlib Require Import Eqdep_dec.
From S2P Require Import Prelude.

Definition loc := positive.

(** The types of the cells and the structures they hold. *)
Class Cells := {
  cty : Type;
  cty_eq :: EqDecision cty;
  cval : cty -> Type
}.

Section Memory.
Context {C : Cells}.

Definition cell : Type := sigT cval.
Abbreviation heap := (gmap loc cell).

(** ** Programs

    [None] is the fault of a dangling pointer. *)

Definition mem (A : Type) : Type := heap -> option (A * heap).

#[export] Instance mem_ret : MRet mem := fun A a h => Some (a, h).
#[export] Instance mem_bind : MBind mem := fun A B f p h =>
  match p h with
  | Some (a, h) => f a h
  | None => None
  end.

Definition cast_cell (t : cty) (c : cell) : option (cval t) :=
  match decide (projT1 c = t) with
  | left e => Some (eq_rect _ cval (projT2 c) _ e)
  | right _ => None
  end.

Definition cell_at (t : cty) (l : loc) (h : heap) : option (cval t) := h !! l ≫= cast_cell t.

Definition load (t : cty) (l : loc) : mem (cval t) := fun h =>
  match cell_at t l h with
  | Some x => Some (x, h)
  | None => None
  end.

Definition alloc (t : cty) (x : cval t) : mem loc := fun h =>
  let l := fresh (dom h) in Some (l, <[l := existT t x]> h).

Definition store (t : cty) (l : loc) (x : cval t) : mem unit := fun h =>
  match h !! l with
  | Some _ => Some (tt, <[l := existT t x]> h)
  | None => None
  end.

(** A slice: a part of an array.  The nil slice is [None]. *)
Record slice := mkSlice { sl_array : loc; sl_off : nat; sl_len : nat }.

Definition window {A} (s : slice) (l : list A) : option (list A) :=
  if bool_decide (sl_off s + sl_len s <= length l) then Some (take (sl_len s) (drop (sl_off s) l)) else None.

(** ** Readers *)

Definition rd (A : Type) : Type := heap -> option (A * gset loc).

#[export] Instance rd_ret : MRet rd := fun A a h => Some (a, ∅).
#[export] Instance rd_bind : MBind rd := fun A B f p h =>
  match p h with
  | Some (a, F) => match f a h with Some (b, F') => Some (b, F ∪ F') | None => None end
  | None => None
  end.

Definition rd_cell (t : cty) (l : loc) : rd (cval t) := fun h =>
  match cell_at t l h with
  | Some x => Some (x, {[l]})
  | None => None
  end.

Definition rd_option {A} (o : option A) : rd A := fun _ =>
  match o with Some a => Some (a, ∅) | None => None end.

(** A reader depends on the cells it reports only, and these exist. *)
Class Framed {A} (p : rd A) : Prop := {
  framed : forall h h' a F, p h = Some (a, F) -> (forall l, l ∈ F -> h' !! l = h !! l) -> p h' = Some (a, F);
  framed_dom : forall h a F, p h = Some (a, F) -> F ⊆ dom h
}.

#[export] Instance framed_ret {A} (a : A) : Framed (mret a).
Proof. split; [done|]. intros h b F [= <- <-]. set_solver. Qed.

#[export] Instance framed_option {A} (o : option A) : Framed (rd_option o).
Proof. split; [done|]. intros h a F. unfold rd_option. destruct o; [|done]. intros [= <- <-]. set_solver. Qed.

#[export] Instance framed_bind {A B} (p : rd A) (f : A -> rd B) :
  Framed p -> (forall a, Framed (f a)) -> Framed (p ≫= f).
Proof.
  intros [Hp Hd] Hf. split; unfold mbind, rd_bind.
  - intros h h' b F. destruct (p h) as [[a F1]|] eqn:E; [|done]. destruct (f a h) as [[b' F2]|] eqn:E2; [|done].
    intros [= <- <-] Hh. rewrite (Hp _ _ _ _ E) by set_solver.
    rewrite (framed (p := f a) _ _ _ _ E2) by set_solver. done.
  - intros h b F. destruct (p h) as [[a F1]|] eqn:E; [|done]. destruct (f a h) as [[b' F2]|] eqn:E2; [|done].
    intros [= <- <-]. pose proof (Hd _ _ _ E). pose proof (framed_dom _ _ _ E2). set_solver.
Qed.

#[export] Instance framed_cell t l : Framed (rd_cell t l).
Proof.
  split; unfold rd_cell, cell_at.
  - intros h h' a F. destruct (h !! l ≫= cast_cell t) as [x|] eqn:E; [|done]. intros [= <- <-] Hh.
    rewrite Hh by set_solver. by rewrite E.
  - intros h a F. destruct (h !! l) as [c|] eqn:E; [|done]. simpl. destruct (cast_cell t c); [|done].
    intros [= <- <-] k ->%elem_of_singleton. by apply elem_of_dom.
Qed.

#[export] Instance framed_mapM {A B} (f : A -> rd B) l : (forall a, Framed (f a)) -> Framed (mapM f l).
Proof. intros Hf. induction l as [|a l IH]; simpl; apply _. Qed.

Lemma framed_mono {A} (p : rd A) `{!Framed p} h h' a F : h ⊆ h' -> p h = Some (a, F) -> p h' = Some (a, F).
Proof.
  intros Hs Hp. apply (framed _ _ _ _ Hp). intros l Hl. pose proof (framed_dom _ _ _ Hp _ Hl) as Hd.
  apply elem_of_dom in Hd as [c Hc]. rewrite Hc. by eapply lookup_weaken.
Qed.

(** ** Deep copies *)

(** [copying h p R]: whenever [p] is run on top of the memory [h], it returns,
    extends the memory and gives a result in [R] made of new cells. *)
Definition copying {A} (h : heap) (p : mem A) (R : heap -> A -> gset loc -> Prop) : Prop :=
  forall h1, h ⊆ h1 -> exists a h2 F,
    p h1 = Some (a, h2) /\ h1 ⊆ h2 /\ R h2 a F /\ F ⊆ dom h2 /\ F ## dom h1.

(** The results in [R] survive as long as their cells do. *)
Definition stable {A} (R : heap -> A -> gset loc -> Prop) : Prop :=
  forall h h' a F, R h a F -> h ⊆ h' -> R h' a F.

Definition reads {A V} (r : A -> rd V) (v : V) : heap -> A -> gset loc -> Prop :=
  fun h a F => r a h = Some (v, F).

Lemma reads_stable {A V} (r : A -> rd V) v : (forall a, Framed (r a)) -> stable (reads r v).
Proof. intros Hr h h' a F Ha Hs. by eapply framed_mono. Qed.

Definition copies {M V} (c : M -> mem M) (r : M -> rd V) : Prop :=
  forall h m v F, r m h = Some (v, F) -> copying h (c m) (reads r v).

Lemma copying_ret {A} h (a : A) : copying h (mret a) (fun _ b F => b = a /\ F = ∅).
Proof. intros h1 Hs. exists a, h1, ∅. split_and!; set_solver. Qed.

Lemma copying_bind {A B} h (p : mem A) (f : A -> mem B) R1 R2 :
  stable R1 -> copying h p R1 -> (forall a, copying h (f a) (R2 a)) ->
  copying h (p ≫= f) (fun h' b F => exists a F1 F2, F = F1 ∪ F2 /\ R1 h' a F1 /\ R2 a h' b F2).
Proof.
  intros HR Hp Hf h1 Hs. destruct (Hp h1 Hs) as (a & h2 & F1 & E1 & Hs1 & H1 & Hd1 & Hn1).
  destruct (Hf a h2) as (b & h3 & F2 & E2 & Hs2 & H2 & Hd2 & Hn2); [by etransitivity|].
  exists b, h3, (F1 ∪ F2). unfold mbind, mem_bind. rewrite E1. split; [done|]. split; [by etransitivity|].
  pose proof (subseteq_dom _ _ Hs1). pose proof (subseteq_dom _ _ Hs2).
  split; [exists a, F1, F2; split_and!; [done|by eapply HR|done]|]. set_solver.
Qed.

Lemma copying_mono {A} h (p : mem A) (R R' : heap -> A -> gset loc -> Prop) :
  copying h p R -> (forall h' a F, R h' a F -> R' h' a F) -> copying h p R'.
Proof.
  intros Hp HR h1 Hs. destruct (Hp h1 Hs) as (a & h2 & F & E & Hs1 & H1 & Hd). exists a, h2, F.
  split_and!; try done; [by apply HR|by destruct Hd..].
Qed.

Lemma cast_cell_eq t (x : cval t) : cast_cell t (existT t x) = Some x.
Proof.
  unfold cast_cell. cbn. destruct (decide (t = t)) as [e|n]; [|done].
  f_equal. symmetry. apply (eq_rect_eq_dec (fun a b => decide (a = b))).
Qed.

Lemma copying_load {A} t l (f : cval t -> mem A) R h x :
  cell_at t l h = Some x -> copying h (f x) R -> copying h (x ← load t l; f x) R.
Proof.
  intros Hx Hf h1 Hs. unfold mbind, mem_bind, load.
  assert (E : cell_at t l h1 = Some x).
  { unfold cell_at in *. destruct (h !! l) as [c|] eqn:E; [|done]. by rewrite (lookup_weaken _ _ _ _ E Hs). }
  rewrite E. by apply Hf.
Qed.

Lemma copying_alloc h t (x : cval t) : copying h (alloc t x) (fun h' l F => cell_at t l h' = Some x /\ F = {[l]}).
Proof.
  intros h1 Hs. set (l := fresh (dom h1)). assert (Hl : l ∉ dom h1) by apply is_fresh.
  exists l, (<[l := existT t x]> h1), {[l]}. split; [done|].
  split; [by apply insert_subseteq, not_elem_of_dom|]. split; [|set_solver].
  split; [|done]. unfold cell_at. rewrite lookup_insert_eq. simpl. apply cast_cell_eq.
Qed.

(** *** Pointers and slices *)

Definition copy_ptr (t : cty) (c : cval t -> mem (cval t)) (p : option loc) : mem (option loc) :=
  match p with
  | None => mret None
  | Some l => x ← load t l; y ← c x; l' ← alloc t y; mret (Some l')
  end.

Definition rd_ptr {V} (t : cty) (r : cval t -> rd V) (p : option loc) : rd (option V) :=
  match p with
  | None => mret None
  | Some l => x ← rd_cell t l; v ← r x; mret (Some v)
  end.

#[export] Instance framed_ptr {V} t (r : cval t -> rd V) p : (forall x, Framed (r x)) -> Framed (rd_ptr t r p).
Proof. intros Hr. destruct p; simpl; apply _. Qed.

(** The cells of an array of [A]. *)
Class ArrayOf (A : Type) := {
  array_ty : cty;
  of_array : cval array_ty -> list A;
  to_array : list A -> cval array_ty;
  of_to_array : forall l, of_array (to_array l) = l
}.

Definition copy_slice {A} `{!ArrayOf A} (c : A -> mem A) (s : option slice) : mem (option slice) :=
  match s with
  | None => mret None
  | Some s =>
      a ← load array_ty (sl_array s);
      match window s (of_array a) with
      | None => fun _ => None
      | Some l => l ← mapM c l; a' ← alloc array_ty (to_array l); mret (Some (mkSlice a' 0 (length l)))
      end
  end.

Definition rd_slice {A V} `{!ArrayOf A} (r : A -> rd V) (s : option slice) : rd (option (list V)) :=
  match s with
  | None => mret None
  | Some s => a ← rd_cell array_ty (sl_array s); l ← rd_option (window s (of_array a)); vs ← mapM r l; mret (Some vs)
  end.

#[export] Instance framed_slice {A V} `{!ArrayOf A} (r : A -> rd V) s :
  (forall x, Framed (r x)) -> Framed (rd_slice r s).
Proof. intros Hr. destruct s; simpl; apply _. Qed.

Lemma rd_bind_Some {A B} (p : rd A) (f : A -> rd B) h b F :
  (p ≫= f) h = Some (b, F) <->
  exists a F1 F2, F = F1 ∪ F2 /\ p h = Some (a, F1) /\ f a h = Some (b, F2).
Proof.
  unfold mbind, rd_bind. destruct (p h) as [[a F1]|]; [|naive_solver].
  split.
  - destruct (f a h) as [[b' F2]|] eqn:E; [|done]. intros [= <- <-]. by exists a, F1, F2.
  - intros (a' & G1 & G2 & -> & [= <- <-] & Hf). by rewrite Hf.
Qed.

Lemma rd_cell_Some t l h x F : rd_cell t l h = Some (x, F) <-> cell_at t l h = Some x /\ F = {[l]}.
Proof. unfold rd_cell. destruct (cell_at t l h); naive_solver. Qed.

Lemma copies_ret {A} : copies (M := A) (V := A) mret mret.
Proof. intros h m v F [= <- <-]. eapply copying_mono; [apply copying_ret|]. by intros h' a F [-> ->]. Qed.

Lemma copies_nil {A V} (r : option A -> rd (option V)) h :
  r None = mret None -> copying h (mret None) (reads r None).
Proof.
  intros Hr. eapply copying_mono; [apply copying_ret|]. intros h' a F [-> ->]. unfold reads. by rewrite Hr.
Qed.

(** A new cell that holds the result of [p]. *)
Lemma copying_new {A B} h (p : mem A) R t (g : A -> cval t) (f : A -> loc -> B) :
  stable R -> copying h p R ->
  copying h (y ← p; l ← alloc t (g y); mret (f y l)) (fun h' b F =>
    exists y l F1, R h' y F1 /\ cell_at t l h' = Some (g y) /\ b = f y l /\ F = {[l]} ∪ F1).
Proof.
  intros HR Hp. eapply copying_mono.
  - eapply copying_bind; [done|done|]. intros y.
    eapply copying_bind; [|apply copying_alloc|intros l; apply copying_ret].
    intros h1 h2 k G Hk Hs. apply rd_cell_Some. apply rd_cell_Some in Hk. exact (framed_mono (rd_cell t k) _ _ _ _ Hs Hk).
  - intros h' b F (y & G1 & G2 & -> & Hy & k & G3 & G4 & -> & [Hk ->] & -> & ->).
    exists y, k, G1. split_and!; [done..|set_solver].
Qed.

Lemma copies_ptr {V} t (c : cval t -> mem (cval t)) (r : cval t -> rd V) :
  (forall x, Framed (r x)) -> copies c r -> copies (copy_ptr t c) (rd_ptr t r).
Proof.
  intros Hr Hc h [l|] v F; simpl; [|intros [= <- <-]; by apply copies_nil].
  intros (x & F1 & F2 & -> & [Hx ->]%rd_cell_Some & (w & F3 & F4 & -> & Hw & [= <- <-])%rd_bind_Some)%rd_bind_Some.
  eapply copying_load; [done|].
  eapply copying_mono; [apply copying_new with (g := id) (f := fun _ => Some); [|by apply (Hc _ _ _ _ Hw)]; by apply reads_stable|].
  intros h' p G (y & k & G1 & Hy & Hk & -> & ->). unfold reads in *. simpl. apply rd_bind_Some.
  exists y, {[k]}, (G1 ∪ ∅). split; [set_solver|]. split; [by apply rd_cell_Some|].
  apply rd_bind_Some. by exists w, G1, ∅.
Qed.

Lemma copies_mapM {A V} (c : A -> mem A) (r : A -> rd V) :
  (forall x, Framed (r x)) -> copies c r -> copies (mapM c) (mapM r).
Proof.
  intros Hr Hc h l. induction l as [|a l IH]; intros vs F; simpl.
  - intros [= <- <-]. eapply copying_mono; [apply copying_ret|]. by intros h' b F [-> ->].
  - intros (v & F1 & F2 & -> & Hv & (ws & F3 & F4 & -> & Hws & [= <- <-])%rd_bind_Some)%rd_bind_Some.
    eapply copying_mono.
    + eapply copying_bind; [|by apply (Hc _ _ _ _ Hv)|]; [by apply reads_stable|]. intros b.
      eapply copying_bind; [|by apply (IH _ _ Hws)|]; [apply reads_stable; apply _|]. intros k. apply copying_ret.
    + intros h' b F (y & G1 & G2 & -> & Hy & ys & G3 & G4 & -> & Hys & -> & ->). unfold reads in *. simpl.
      apply rd_bind_Some. exists v, G1, (G3 ∪ ∅). split; [done|]. split; [done|].
      apply rd_bind_Some. by exists ws, G3, ∅.
Qed.

Lemma mapM_length {A V} (r : A -> rd V) l h vs F : mapM r l h = Some (vs, F) -> length vs = length l.
Proof.
  revert vs F. induction l as [|a l IH]; intros vs F; simpl; [by intros [= <- <-]|].
  intros (v & F1 & F2 & -> & _ & (ws & F3 & F4 & -> & Hws%IH & [= <- <-])%rd_bind_Some)%rd_bind_Some.
  simpl. by f_equal.
Qed.

Lemma window_full {A} a (l : list A) : window (mkSlice a 0 (length l)) l = Some l.
Proof. unfold window. simpl. rewrite bool_decide_eq_true_2 by lia. by rewrite drop_0, take_ge. Qed.

Lemma copies_slice {A V} `{!ArrayOf A} (c : A -> mem A) (r : A -> rd V) :
  (forall x, Framed (r x)) -> copies c r -> copies (copy_slice c) (rd_slice r).
Proof.
  intros Hr Hc h [s|] v F; simpl; [|intros [= <- <-]; by apply copies_nil].
  intros (x & F1 & F2 & -> & [Hx ->]%rd_cell_Some & H)%rd_bind_Some.
  apply rd_bind_Some in H as (l & F3 & F4 & -> & Hl & (vs & F5 & F6 & -> & Hvs & [= <- <-])%rd_bind_Some).
  eapply copying_load; [done|]. unfold rd_option in Hl.
  destruct (window s (of_array x)) as [l'|]; [|done]. injection Hl as -> <-.
  eapply copying_mono.
  { apply copying_new with (g := to_array) (f := fun l a => Some (mkSlice a 0 (length l)));
      [|by apply (copies_mapM _ _ Hr Hc _ _ _ _ Hvs)]. apply reads_stable; apply _. }
  intros h' p G (y & k & G1 & Hy & Hk & -> & ->). unfold reads in *. simpl. apply rd_bind_Some.
  exists (to_array y), {[k]}, (∅ ∪ (G1 ∪ ∅)). split; [set_solver|]. split; [by apply rd_cell_Some|].
  apply rd_bind_Some. exists y, ∅, (G1 ∪ ∅). rewrite of_to_array, window_full. split_and!; [done..|].
  apply rd_bind_Some. by exists vs, G1, ∅.
Qed.

(** A slice whose nil and empty values mean the same. *)
Definition rd_list {A V} `{!ArrayOf A} (r : A -> rd V) (s : option slice) : rd (list V) :=
  l ← rd_slice r s; mret (default [] l).

Lemma copies_fmap {A V W} (c : A -> mem A) (r : A -> rd V) (f : V -> W) :
  (forall x, Framed (r x)) -> copies c r -> copies c (fun x => v ← r x; mret (f v)).
Proof.
  intros Hr Hc h m w F (v & F1 & F2 & -> & Hv & [= <- <-])%rd_bind_Some.
  eapply copying_mono; [by apply (Hc _ _ _ _ Hv)|]. intros h' a G Ha. apply rd_bind_Some.
  exists v, G, ∅. split; [set_solver|done].
Qed.

Lemma copies_list {A V} `{!ArrayOf A} (c : A -> mem A) (r : A -> rd V) :
  (forall x, Framed (r x)) -> copies c r -> copies (copy_slice c) (rd_list r).
Proof. intros Hr Hc. apply copies_fmap; [intros; apply _|by apply copies_slice]. Qed.

(** A copy that is isolated from the original: it does not fault, the memory
    that was there is unchanged, the copy stands for the same value and shares
    no cell with the original, so what changes the one leaves the value of the
    other alone. *)
Definition isolates {M V} (c : M -> mem M) (r : M -> rd V) : Prop :=
  forall h m v F, r m h = Some (v, F) ->
  exists m' h' F', c m h = Some (m', h') /\ h ⊆ h' /\ r m' h' = Some (v, F') /\ F ## F' /\
    forall h2, ((forall l, l ∈ F -> h2 !! l = h !! l) -> r m h2 = Some (v, F)) /\
      ((forall l, l ∈ F' -> h2 !! l = h' !! l) -> r m' h2 = Some (v, F')).

Lemma copies_isolates {M V} (c : M -> mem M) (r : M -> rd V) :
  (forall x, Framed (r x)) -> copies c r -> isolates c r.
Proof.
  intros Hr Hc h m v F Hm. destruct (Hc _ _ _ _ Hm h) as (m' & h' & F' & E & Hs & Hr' & Hd & Hn); [done|].
  exists m', h', F'. split; [done|]. split; [done|]. split; [done|].
  split; [pose proof (framed_dom _ _ _ Hm); set_solver|]. intros h2. split; intros Hl; by eapply framed.
Qed.

End Memory.

#[export] Instance framed_list {C : Cells} {A V} `{!ArrayOf A} (r : A -> rd V) s :
  (forall x, Framed (r x)) -> Framed (rd_list r s).
Proof. intros Hr. unfold rd_list. apply _. Qed.

(** ** Proof steps for structures

    The copy of a structure copies its fields one after the other. *)

Create HintDb copies.
#[export] Hint Resolve copies_ret copies_ptr copies_slice copies_list : copies.
#[export] Hint Extern 1 (forall x, Framed _) => intros; apply _ : copies.
#[export] Hint Extern 1 (stable (reads _ _)) => apply reads_stable; intros; apply _ : copies.

Lemma copies_elim {C : Cells} {M V} (c : M -> mem M) (r : M -> rd V) h m v F :
  r m h = Some (v, F) -> copies c r -> copying h (c m) (reads r v).
Proof. intros Hm Hc. by eapply Hc. Qed.

Ltac copy_fields :=
  lazymatch goal with
  | |- copying _ (mret _) _ => apply copying_ret
  | |- copying _ (_ ≫= _) _ =>
      eapply copying_bind;
        [|eapply copies_elim; [eassumption|solve [eauto with copies]]|intros ?; copy_fields];
        solve [auto with copies]
  end.

Ltac copies_struct c r :=
  let H := fresh "Hread" in let G := fresh "Hpost" in
  intros ? ? ? ? H; unfold r in H;
  repeat (apply rd_bind_Some in H as (? & ? & ? & -> & ? & H)); injection H as <- <-;
  unfold c; eapply copying_mono; [copy_fields|];
  intros ? ? ? G; repeat destruct G as (? & ? & ? & -> & ? & G); destruct G as [-> ->];
  unfold reads in *; unfold r; cbn beta iota zeta;
  repeat (apply rd_bind_Some; do 3 eexists; split; [reflexivity|split; [eassumption|]]); reflexivity.
