(* ===== verification/Api.v ===== *)
(** * Kubernetes objects and the API client

    The custom resources of [api/v1alpha1] and, of the core Kubernetes types,
    the fields that the code reads or writes.  [KubeSig] is the signature of
    the environment the controllers and the cache synchronisation talk to: the
    API client ([client.Client] of controller-runtime), the event recorder and
    the clock. *)

From S2P Require Import Prelude Effects.

(** Instants, in nanoseconds ([time.Time], [metav1.Time]). *)
Abbreviation Time := Z.

Definition Minute : Z := 60 * 1000000000.

(** ** Core types *)

Record NamespacedName := mkNamespacedName { nn_Name : string; nn_Namespace : string }.
#[global] Instance NamespacedName_eq_dec : EqDecision NamespacedName.
Proof. solve_decision. Defined.
#[global] Instance NamespacedName_countable : Countable NamespacedName.
Proof.
  refine (inj_countable' (fun n => (nn_Name n, nn_Namespace n))
    (fun p => mkNamespacedName p.1 p.2) _); by intros [].
Defined.

(** [types.NamespacedName.String()] *)
Definition nn_String (n : NamespacedName) : string := nn_Namespace n +++ "/" +++ nn_Name n.

Record ObjectMeta := mkObjectMeta {
  om_Name : string;
  om_Namespace : string;
  om_UID : string;
  om_ResourceVersion : string;
  om_Generation : Z;
  om_DeletionTimestamp : option Time;
  om_Finalizers : list string;
  om_Annotations : strmap
}.
#[global] Instance ObjectMeta_settable : Settable ObjectMeta := fun r =>
  mkObjectMeta (om_Name r) (om_Namespace r) (om_UID r) (om_ResourceVersion r)
    (om_Generation r) (om_DeletionTimestamp r) (om_Finalizers r) (om_Annotations r).
#[global] Instance ObjectMeta_eq_dec : EqDecision ObjectMeta.
Proof. solve_decision. Defined.

(** The zero value of [metav1.ObjectMeta]. *)
Definition ObjectMeta_zero : ObjectMeta := mkObjectMeta "" "" "" "" 0 None [] None.

Definition om_key (m : ObjectMeta) : NamespacedName := mkNamespacedName (om_Name m) (om_Namespace m).

(** [metav1.Condition] *)
Record Condition := mkCondition {
  cd_Type : string;
  cd_Status : string;
  cd_ObservedGeneration : Z;
  cd_LastTransitionTime : Time;
  cd_Reason : string;
  cd_Message : string
}.
#[global] Instance Condition_settable : Settable Condition := fun r =>
  mkCondition (cd_Type r) (cd_Status r) (cd_ObservedGeneration r)
    (cd_LastTransitionTime r) (cd_Reason r) (cd_Message r).
#[global] Instance Condition_eq_dec : EqDecision Condition.
Proof. solve_decision. Defined.

Definition ConditionTrue := "True".
Definition ConditionFalse := "False".

(** [corev1.EnvVar]; the [ValueFrom] source is copied along with the struct
    and never inspected. *)
Record EnvVar := mkEnvVar { ev_Name : string; ev_Value : string; ev_ValueFrom : option string }.
#[global] Instance EnvVar_eq_dec : EqDecision EnvVar.
Proof. solve_decision. Defined.

Record VolumeMount := mkVolumeMount { vm_Name : string; vm_MountPath : string }.
#[global] Instance VolumeMount_settable : Settable VolumeMount := fun r =>
  mkVolumeMount (vm_Name r) (vm_MountPath r).
#[global] Instance VolumeMount_eq_dec : EqDecision VolumeMount.
Proof. solve_decision. Defined.

(** [corev1.Container]; [Command] distinguishes nil from the empty slice. *)
Record Container := mkContainer {
  ct_Name : string;
  ct_Image : string;
  ct_Command : option (list string);
  ct_Args : list string;
  ct_Env : list EnvVar;
  ct_VolumeMounts : list VolumeMount
}.
#[global] Instance Container_settable : Settable Container := fun r =>
  mkContainer (ct_Name r) (ct_Image r) (ct_Command r) (ct_Args r) (ct_Env r) (ct_VolumeMounts r).
#[global] Instance Container_eq_dec : EqDecision Container.
Proof. solve_decision. Defined.

(** [corev1.PersistentVolumeClaimVolumeSource] *)
Record ClaimSource := mkClaimSource { cs_ClaimName : string; cs_ReadOnly : bool }.
#[global] Instance ClaimSource_eq_dec : EqDecision ClaimSource.
Proof. solve_decision. Defined.

(** [corev1.Volume]: a claim source or some other source, kept opaque. *)
Record PodVolume := mkPodVolume {
  pv_Name : string;
  pv_PersistentVolumeClaim : option ClaimSource;
  pv_OtherSource : string
}.
#[global] Instance PodVolume_eq_dec : EqDecision PodVolume.
Proof. solve_decision. Defined.

Record PodSpec := mkPodSpec {
  ps_NodeName : string;
  ps_RestartPolicy : string;
  ps_ServiceAccountName : string;
  ps_Containers : list Container;
  ps_Volumes : list PodVolume
}.
#[global] Instance PodSpec_settable : Settable PodSpec := fun r =>
  mkPodSpec (ps_NodeName r) (ps_RestartPolicy r) (ps_ServiceAccountName r)
    (ps_Containers r) (ps_Volumes r).
#[global] Instance PodSpec_eq_dec : EqDecision PodSpec.
Proof. solve_decision. Defined.
Definition PodSpec_zero : PodSpec := mkPodSpec "" "" "" [] [].

Definition RestartPolicyNever := "Never".
Definition RestartPolicyOnFailure := "OnFailure".
Definition PodSucceeded := "Succeeded".
Definition PodFailed := "Failed".

Record Pod := mkPod { pod_Meta : ObjectMeta; pod_Spec : PodSpec; pod_Phase : string }.
#[global] Instance Pod_settable : Settable Pod := fun r =>
  mkPod (pod_Meta r) (pod_Spec r) (pod_Phase r).
#[global] Instance Pod_eq_dec : EqDecision Pod.
Proof. solve_decision. Defined.
Definition Pod_zero : Pod := mkPod ObjectMeta_zero PodSpec_zero "".

Record PersistentVolumeClaim := mkPersistentVolumeClaim {
  pvc_Meta : ObjectMeta;
  pvc_VolumeName : string;
  pvc_StorageClassName : option string;
  pvc_VolumeMode : option string;
  pvc_AccessModes : list string;
  pvc_Requests : strmap
}.
#[global] Instance PersistentVolumeClaim_settable : Settable PersistentVolumeClaim := fun r =>
  mkPersistentVolumeClaim (pvc_Meta r) (pvc_VolumeName r) (pvc_StorageClassName r)
    (pvc_VolumeMode r) (pvc_AccessModes r) (pvc_Requests r).
#[global] Instance PersistentVolumeClaim_eq_dec : EqDecision PersistentVolumeClaim.
Proof. solve_decision. Defined.

Definition ReadWriteOnce := "ReadWriteOnce".

Record ObjectReference := mkObjectReference {
  or_APIVersion : string;
  or_Kind : string;
  or_Name : string;
  or_Namespace : string;
  or_UID : string;
  or_ResourceVersion : string
}.
#[global] Instance ObjectReference_eq_dec : EqDecision ObjectReference.
Proof. solve_decision. Defined.

(** [corev1.NodeSelectorRequirement]; a node selector term is the list of its
    match expressions, a node affinity the terms of [Required] if set. *)
Record NodeSelectorRequirement := mkNodeSelectorRequirement {
  nr_Key : string;
  nr_Operator : string;
  nr_Values : list string
}.
#[global] Instance NodeSelectorRequirement_eq_dec : EqDecision NodeSelectorRequirement.
Proof. solve_decision. Defined.
Record NodeAffinity := mkNodeAffinity { na_Required : option (list (list NodeSelectorRequirement)) }.
#[global] Instance NodeAffinity_eq_dec : EqDecision NodeAffinity.
Proof. solve_decision. Defined.
Definition NodeSelectorOpIn := "In".

Record PersistentVolumeSpec := mkPersistentVolumeSpec {
  pvs_Capacity : strmap;
  pvs_StorageClassName : string;
  pvs_ClaimRef : option ObjectReference;
  pvs_ReclaimPolicy : string;
  pvs_VolumeMode : option string;
  pvs_HostPath : option string;
  pvs_NodeAffinity : option NodeAffinity
}.
#[global] Instance PersistentVolumeSpec_settable : Settable PersistentVolumeSpec := fun r =>
  mkPersistentVolumeSpec (pvs_Capacity r) (pvs_StorageClassName r) (pvs_ClaimRef r)
    (pvs_ReclaimPolicy r) (pvs_VolumeMode r) (pvs_HostPath r) (pvs_NodeAffinity r).
#[global] Instance PersistentVolumeSpec_eq_dec : EqDecision PersistentVolumeSpec.
Proof. solve_decision. Defined.
Definition PersistentVolumeSpec_zero : PersistentVolumeSpec :=
  mkPersistentVolumeSpec None "" None "" None None None.

Definition PersistentVolumeReclaimDelete := "Delete".
Definition VolumeBound := "Bound".

Record PersistentVolume := mkPersistentVolume {
  vol_Meta : ObjectMeta;
  vol_Spec : PersistentVolumeSpec;
  vol_Phase : string
}.
#[global] Instance PersistentVolume_settable : Settable PersistentVolume := fun r =>
  mkPersistentVolume (vol_Meta r) (vol_Spec r) (vol_Phase r).
#[global] Instance PersistentVolume_eq_dec : EqDecision PersistentVolume.
Proof. solve_decision. Defined.

Record StorageClass := mkStorageClass {
  sc_Meta : ObjectMeta;
  sc_VolumeBindingMode : option string
}.
#[global] Instance StorageClass_eq_dec : EqDecision StorageClass.
Proof. solve_decision. Defined.
Definition VolumeBindingWaitForFirstConsumer := "WaitForFirstConsumer".

(** ** [api/v1alpha1]: Cache *)

Definition CachePhaseReady := "ready".
Definition CachePhaseReject := "reject".
Definition CacheFinalizer := "k8storagex.mgoltzsche.github.com/finalizer".
Definition ConditionStorageReset := "StorageReset".
Definition ConditionPodsCleared := "PodsCleared".

Record VolumeStatus := mkVolumeStatus {
  vs_Name : string;
  vs_CacheGeneration : Z;
  vs_Created : Time;
  vs_Committable : bool;
  vs_CommitStartTime : option Time
}.
#[global] Instance VolumeStatus_settable : Settable VolumeStatus := fun r =>
  mkVolumeStatus (vs_Name r) (vs_CacheGeneration r) (vs_Created r) (vs_Committable r)
    (vs_CommitStartTime r).
#[global] Instance VolumeStatus_eq_dec : EqDecision VolumeStatus.
Proof. solve_decision. Defined.

Record VolumeError := mkVolumeError {
  ve_VolumeName : string;
  ve_CacheGeneration : option Z;
  ve_Error : string;
  ve_Happened : Time
}.
#[global] Instance VolumeError_eq_dec : EqDecision VolumeError.
Proof. solve_decision. Defined.

Record NodeStatus := mkNodeStatus {
  ns_Name : string;
  ns_CacheGeneration : Z;
  ns_LastUsed : Time;
  ns_LastImageID : string;
  ns_Volumes : list VolumeStatus;
  ns_LastError : option VolumeError
}.
#[global] Instance NodeStatus_settable : Settable NodeStatus := fun r =>
  mkNodeStatus (ns_Name r) (ns_CacheGeneration r) (ns_LastUsed r) (ns_LastImageID r)
    (ns_Volumes r) (ns_LastError r).
#[global] Instance NodeStatus_eq_dec : EqDecision NodeStatus.
Proof. solve_decision. Defined.

Record ResetStatus := mkResetStatus { rs_CacheGeneration : Z; rs_ResetTime : Time }.
#[global] Instance ResetStatus_eq_dec : EqDecision ResetStatus.
Proof. solve_decision. Defined.

Record CacheStatus := mkCacheStatus {
  st_Image : string;
  st_CacheGeneration : Z;
  st_LastImageID : option string;
  st_LastUsed : option Time;
  st_LastWritten : option Time;
  st_LastReset : option ResetStatus;
  st_Used : Z;
  st_Nodes : list NodeStatus;
  st_Phase : string;
  st_Conditions : list Condition
}.
#[global] Instance CacheStatus_settable : Settable CacheStatus := fun r =>
  mkCacheStatus (st_Image r) (st_CacheGeneration r) (st_LastImageID r) (st_LastUsed r)
    (st_LastWritten r) (st_LastReset r) (st_Used r) (st_Nodes r) (st_Phase r) (st_Conditions r).
#[global] Instance CacheStatus_eq_dec : EqDecision CacheStatus.
Proof. solve_decision. Defined.
Definition CacheStatus_zero : CacheStatus := mkCacheStatus "" 0 None None None None 0 [] "" [].

Record CacheSpec := mkCacheSpec { cspec_ReadOnly : bool }.
#[global] Instance CacheSpec_eq_dec : EqDecision CacheSpec.
Proof. solve_decision. Defined.

Record Cache := mkCache { c_Meta : ObjectMeta; c_Spec : CacheSpec; c_Status : CacheStatus }.
#[global] Instance Cache_settable : Settable Cache := fun r =>
  mkCache (c_Meta r) (c_Spec r) (c_Status r).
#[global] Instance Cache_eq_dec : EqDecision Cache.
Proof. solve_decision. Defined.
Definition Cache_zero : Cache := mkCache ObjectMeta_zero (mkCacheSpec false) CacheStatus_zero.

(** ** [api/v1alpha1]: StorageProvisioner *)

Definition ConditionConfigured := "Configured".
Definition AnnotationPersistentVolumeClaimNoProtection :=
  "k8storagex.mgoltzsche.github.com/no-pvc-protection".
Definition Enabled := "true".

(** [EnvVar] of [api/v1alpha1]: maps an annotation to an environment variable. *)
Record EnvMapping := mkEnvMapping {
  em_Name : string;
  em_Annotation : string;
  em_Required : option bool
}.
#[global] Instance EnvMapping_eq_dec : EqDecision EnvMapping.
Proof. solve_decision. Defined.

Record NodePath := mkNodePath { np_Name : string; np_Path : string }.
#[global] Instance NodePath_eq_dec : EqDecision NodePath.
Proof. solve_decision. Defined.

Record ProvisionerContainer := mkProvisionerContainer {
  pc_Command : option (list string);
  pc_Env : list EnvVar
}.
#[global] Instance ProvisionerContainer_eq_dec : EqDecision ProvisionerContainer.
Proof. solve_decision. Defined.

Record Containers := mkContainers {
  cs_Provisioner : ProvisionerContainer;
  cs_Deprovisioner : ProvisionerContainer
}.
#[global] Instance Containers_eq_dec : EqDecision Containers.
Proof. solve_decision. Defined.

Record StorageProvisionerSpec := mkStorageProvisionerSpec {
  sps_Name : string;
  sps_DeprovisionOnPodCompletion : bool;
  sps_PersistentVolumeTemplate : PersistentVolumeSpec;
  sps_PodTemplate : PodSpec;
  sps_Containers : Containers;
  sps_Env : list EnvMapping;
  sps_Nodes : list NodePath
}.
#[global] Instance StorageProvisionerSpec_settable : Settable StorageProvisionerSpec := fun r =>
  mkStorageProvisionerSpec (sps_Name r) (sps_DeprovisionOnPodCompletion r)
    (sps_PersistentVolumeTemplate r) (sps_PodTemplate r) (sps_Containers r) (sps_Env r) (sps_Nodes r).
#[global] Instance StorageProvisionerSpec_eq_dec : EqDecision StorageProvisionerSpec.
Proof. solve_decision. Defined.

Record StorageProvisioner := mkStorageProvisioner {
  sp_Meta : ObjectMeta;
  sp_Spec : StorageProvisionerSpec;
  sp_Conditions : list Condition
}.
#[global] Instance StorageProvisioner_settable : Settable StorageProvisioner := fun r =>
  mkStorageProvisioner (sp_Meta r) (sp_Spec r) (sp_Conditions r).
#[global] Instance StorageProvisioner_eq_dec : EqDecision StorageProvisioner.
Proof. solve_decision. Defined.

Definition ProvisionerContainer_zero := mkProvisionerContainer None [].
Definition StorageProvisioner_zero : StorageProvisioner :=
  mkStorageProvisioner ObjectMeta_zero
    (mkStorageProvisionerSpec "" false PersistentVolumeSpec_zero PodSpec_zero
       (mkContainers ProvisionerContainer_zero ProvisionerContainer_zero) [] [])
    [].

Definition GetProvisionerName (p : StorageProvisioner) : string := sps_Name (sp_Spec p).

(** ** The environment *)

Inductive kind :=
| KPod
| KPersistentVolumeClaim
| KPersistentVolume
| KStorageClass
| KCache
| KStorageProvisioner.
#[global] Instance kind_eq_dec : EqDecision kind.
Proof. solve_decision. Defined.

Definition obj (k : kind) : Type :=
  match k with
  | KPod => Pod
  | KPersistentVolumeClaim => PersistentVolumeClaim
  | KPersistentVolume => PersistentVolume
  | KStorageClass => StorageClass
  | KCache => Cache
  | KStorageProvisioner => StorageProvisioner
  end.

Definition obj_meta {k} : obj k -> ObjectMeta :=
  match k with
  | KPod => pod_Meta
  | KPersistentVolumeClaim => pvc_Meta
  | KPersistentVolume => vol_Meta
  | KStorageClass => sc_Meta
  | KCache => c_Meta
  | KStorageProvisioner => sp_Meta
  end.

(** The calls of the manager and of the cache synchronisation:
    - [Get], [List], [Create], [Update], [Delete] of [client.Client] and
      [Update] of its status writer; the writing calls answer the object as the
      server stored it, which the client decodes back into the argument;
    - [RecordEvent], the event recorder ([owner] identifies the object);
    - [ProvisionersGet], [ProvisionersPut], [ProvisionersDelete], the registry of
      storage provisioners that the controllers share;
    - [Clock], the instants that the [time.Now()] calls evaluated between this
      call and the next one return, in their order. *)
Inductive kcmd :=
| Get (k : kind) (name : NamespacedName)
| ListProvisioners (namespace : string)
| Create (k : kind) (o : obj k)
| Update (k : kind) (o : obj k)
| StatusUpdate (k : kind) (o : obj k)
| Delete (k : kind) (o : obj k)
| RecordEvent (owner : NamespacedName) (type reason message : string)
| Clock
| ProvisionersGet (name : string)
| ProvisionersPut (p : StorageProvisioner)
| ProvisionersDelete (p : StorageProvisioner).

Definition kresp (c : kcmd) : Type :=
  match c with
  | Get k _ => result (obj k)
  | ListProvisioners _ => result (list StorageProvisioner)
  | Create k _ | Update k _ | StatusUpdate k _ => result (obj k)
  | Delete _ _ => option goerr
  | RecordEvent _ _ _ _ => unit
  | Clock => nat -> Time
  | ProvisionersGet _ => option StorageProvisioner
  | ProvisionersPut _ => option goerr
  | ProvisionersDelete _ => unit
  end.

#[global] Instance KubeSig : Sig := { cmd := kcmd; resp := kresp }.

(** An answer to every call: the API answers with an error, no provisioner is
    known. *)
Definition kresp_default (c : kcmd) : kresp c :=
  match c with
  | Get _ _ => Err (Errorf "unavailable")
  | ListProvisioners _ => Err (Errorf "unavailable")
  | Create _ _ | Update _ _ | StatusUpdate _ _ => Err (Errorf "unavailable")
  | Delete _ _ => Some (Errorf "unavailable")
  | RecordEvent _ _ _ _ => tt
  | Clock => fun _ => 0%Z
  | ProvisionersGet _ => None
  | ProvisionersPut _ => Some (Errorf "unavailable")
  | ProvisionersDelete _ => tt
  end.
