(* ===== verification/DeepCopy.v ===== *)
(** * Deep copies of the resources ([api/v1alpha1/zz_generated.deepcopy.go])

    The structures of [api/v1alpha1] as they lie in memory, with pointers and
    slices, and the generated functions that copy them.  [DeepCopyInto] writes
    into memory that only its caller knows, so it answers what it writes.  An
    array is allocated when its elements are known; addresses carry no order.

    The structures of [apimachinery] and [k8s.io/api] that are embedded are not
    part of this repository: [ExternalTypes] has their layouts as parameters,
    and [ExternalCopies] their [DeepCopyInto], of which it is used that it makes
    a deep copy. *)

From S2P Require Import Prelude Api Memory.

Class ExternalTypes := {
  xcell : Type;
  mTime : Type;
  mObjectMeta : Type;
  mListMeta : Type;
  ListMeta : Type;
  mCondition : Type;
  mEnvVar : Type;
  mPersistentVolumeSpec : Type;
  mPodSpec : Type
}.

(** [metav1.TypeMeta] *)
Record TypeMeta := mkTypeMeta { tm_Kind : string; tm_APIVersion : string }.

Section Layout.
Context {X : ExternalTypes}.

Record mVolumeStatus := mkMVolumeStatus {
  mvs_Name : string;
  mvs_CacheGeneration : Z;
  mvs_Created : mTime;
  mvs_Committable : bool;
  mvs_CommitStartTime : option loc
}.
Record mVolumeError := mkMVolumeError {
  mve_VolumeName : string;
  mve_CacheGeneration : option loc;
  mve_Error : string;
  mve_Happened : mTime
}.
Record mNodeStatus := mkMNodeStatus {
  mns_Name : string;
  mns_CacheGeneration : Z;
  mns_LastUsed : mTime;
  mns_LastImageID : string;
  mns_Volumes : option slice;
  mns_LastError : option loc
}.
Record mResetStatus := mkMResetStatus { mrs_CacheGeneration : Z; mrs_ResetTime : mTime }.
Record mCacheStatus := mkMCacheStatus {
  mst_Image : string;
  mst_CacheGeneration : Z;
  mst_LastImageID : option loc;
  mst_LastUsed : option loc;
  mst_LastWritten : option loc;
  mst_LastReset : option loc;
  mst_Used : Z;
  mst_Nodes : option slice;
  mst_Phase : string;
  mst_Conditions : option slice
}.
Record mCache := mkMCache {
  mc_TypeMeta : TypeMeta;
  mc_ObjectMeta : mObjectMeta;
  mc_Spec : CacheSpec;
  mc_Status : mCacheStatus
}.
Record mCacheList := mkMCacheList { mcl_TypeMeta : TypeMeta; mcl_ListMeta : mListMeta; mcl_Items : option slice }.
Record mEnvMapping := mkMEnvMapping { mem_Name : string; mem_Annotation : string; mem_Required : option loc }.
Record mProvisionerContainer := mkMProvisionerContainer { mpc_Command : option slice; mpc_Env : option slice }.
Record mContainers := mkMContainers {
  mcs_Provisioner : mProvisionerContainer;
  mcs_Deprovisioner : mProvisionerContainer
}.
Record mStorageProvisionerSpec := mkMStorageProvisionerSpec {
  msps_Name : string;
  msps_DeprovisionOnPodCompletion : bool;
  msps_PersistentVolumeTemplate : mPersistentVolumeSpec;
  msps_PodTemplate : mPodSpec;
  msps_Containers : mContainers;
  msps_Env : option slice;
  msps_Nodes : option slice
}.
Record mStorageProvisionerStatus := mkMStorageProvisionerStatus { mss_Conditions : option slice }.
Record mStorageProvisioner := mkMStorageProvisioner {
  msp_TypeMeta : TypeMeta;
  msp_ObjectMeta : mObjectMeta;
  msp_Spec : mStorageProvisionerSpec;
  msp_Status : mStorageProvisionerStatus
}.
Record mStorageProvisionerList := mkMStorageProvisionerList {
  mspl_TypeMeta : TypeMeta;
  mspl_ListMeta : mListMeta;
  mspl_Items : option slice
}.

(** ** Cells *)

Inductive mty :=
| TX | TString | TBool | TInt64 | TTime | TCondition | TEnvVar
| TCache | TCacheList | TCacheSpec | TCacheStatus | TContainers | TEnvMapping | TNodePath | TNodeStatus
| TProvisionerContainer | TResetStatus | TStorageProvisioner | TStorageProvisionerList
| TStorageProvisionerSpec | TStorageProvisionerStatus | TVolumeError | TVolumeStatus
| TArray (t : mty).

Fixpoint mval (t : mty) : Type :=
  match t with
  | TX => xcell
  | TString => string
  | TBool => bool
  | TInt64 => Z
  | TTime => mTime
  | TCondition => mCondition
  | TEnvVar => mEnvVar
  | TCache => mCache
  | TCacheList => mCacheList
  | TCacheSpec => CacheSpec
  | TCacheStatus => mCacheStatus
  | TContainers => mContainers
  | TEnvMapping => mEnvMapping
  | TNodePath => NodePath
  | TNodeStatus => mNodeStatus
  | TProvisionerContainer => mProvisionerContainer
  | TResetStatus => mResetStatus
  | TStorageProvisioner => mStorageProvisioner
  | TStorageProvisionerList => mStorageProvisionerList
  | TStorageProvisionerSpec => mStorageProvisionerSpec
  | TStorageProvisionerStatus => mStorageProvisionerStatus
  | TVolumeError => mVolumeError
  | TVolumeStatus => mVolumeStatus
  | TArray t => list (mval t)
  end.

#[export] Instance mty_eq_dec : EqDecision mty.
Proof. solve_decision. Defined.

#[export] Instance ApiCells : Cells := {| cty := mty; cval := mval |}.

Definition array_of (t : mty) : ArrayOf (mval t) :=
  {| array_ty := TArray t : cty (Cells := ApiCells); of_array l := l; to_array l := l; of_to_array l := eq_refl |}.
#[export] Instance array_string : ArrayOf string := array_of TString.
#[export] Instance array_condition : ArrayOf mCondition := array_of TCondition.
#[export] Instance array_env_var : ArrayOf mEnvVar := array_of TEnvVar.
#[export] Instance array_cache : ArrayOf mCache := array_of TCache.
#[export] Instance array_env_mapping : ArrayOf mEnvMapping := array_of TEnvMapping.
#[export] Instance array_node_path : ArrayOf NodePath := array_of TNodePath.
#[export] Instance array_node_status : ArrayOf mNodeStatus := array_of TNodeStatus.
#[export] Instance array_provisioner : ArrayOf mStorageProvisioner := array_of TStorageProvisioner.
#[export] Instance array_volume_status : ArrayOf mVolumeStatus := array_of TVolumeStatus.

(** ** The embedded structures *)

Record copier (M V : Type) := mkCopier {
  cp_copy : M -> mem M;
  cp_read : M -> rd V;
  cp_framed : forall m, Framed (cp_read m);
  cp_copies : copies cp_copy cp_read
}.
#[global] Arguments cp_copy {M V}.
#[global] Arguments cp_read {M V}.

Class ExternalCopies := {
  x_time : copier mTime Time;
  x_meta : copier mObjectMeta ObjectMeta;
  x_list : copier mListMeta ListMeta;
  x_condition : copier mCondition Condition;
  x_env_var : copier mEnvVar EnvVar;
  x_volume_spec : copier mPersistentVolumeSpec PersistentVolumeSpec;
  x_pod_spec : copier mPodSpec PodSpec;
  meta_Name : mObjectMeta -> string;
  meta_Namespace : mObjectMeta -> string;
  meta_named : forall m h v F, cp_read x_meta m h = Some (v, F) ->
    meta_Name m = om_Name v /\ meta_Namespace m = om_Namespace v
}.

End Layout.

(** ** The generated functions

    [DeepCopy] answers nil for nil, and otherwise a pointer to a new structure
    that [DeepCopyInto] has filled. *)

Section Copies.
Context {X : ExternalTypes} {E : ExternalCopies}.
#[local] Existing Instance ApiCells.

Abbreviation copy_time := (cp_copy x_time).
Abbreviation copy_string := (copy_ptr (TString : cty) mret).

Definition VolumeStatus_DeepCopyInto (m : mVolumeStatus) : mem mVolumeStatus :=
  created ← copy_time (mvs_Created m);
  start ← copy_ptr (TTime : cty) copy_time (mvs_CommitStartTime m);
  mret (mkMVolumeStatus (mvs_Name m) (mvs_CacheGeneration m) created (mvs_Committable m) start).
Definition VolumeStatus_DeepCopy : option loc -> mem (option loc) :=
  copy_ptr (TVolumeStatus : cty) VolumeStatus_DeepCopyInto.

Definition VolumeError_DeepCopyInto (m : mVolumeError) : mem mVolumeError :=
  generation ← copy_ptr (TInt64 : cty) mret (mve_CacheGeneration m);
  happened ← copy_time (mve_Happened m);
  mret (mkMVolumeError (mve_VolumeName m) generation (mve_Error m) happened).
Definition VolumeError_DeepCopy : option loc -> mem (option loc) :=
  copy_ptr (TVolumeError : cty) VolumeError_DeepCopyInto.

Definition NodeStatus_DeepCopyInto (m : mNodeStatus) : mem mNodeStatus :=
  used ← copy_time (mns_LastUsed m);
  volumes ← copy_slice VolumeStatus_DeepCopyInto (mns_Volumes m);
  lastError ← copy_ptr (TVolumeError : cty) VolumeError_DeepCopyInto (mns_LastError m);
  mret (mkMNodeStatus (mns_Name m) (mns_CacheGeneration m) used (mns_LastImageID m) volumes lastError).
Definition NodeStatus_DeepCopy : option loc -> mem (option loc) :=
  copy_ptr (TNodeStatus : cty) NodeStatus_DeepCopyInto.

Definition ResetStatus_DeepCopyInto (m : mResetStatus) : mem mResetStatus :=
  time ← copy_time (mrs_ResetTime m);
  mret (mkMResetStatus (mrs_CacheGeneration m) time).
Definition ResetStatus_DeepCopy : option loc -> mem (option loc) :=
  copy_ptr (TResetStatus : cty) ResetStatus_DeepCopyInto.

Definition CacheStatus_DeepCopyInto (m : mCacheStatus) : mem mCacheStatus :=
  imageID ← copy_string (mst_LastImageID m);
  used ← copy_ptr (TTime : cty) copy_time (mst_LastUsed m);
  written ← copy_ptr (TTime : cty) copy_time (mst_LastWritten m);
  reset ← copy_ptr (TResetStatus : cty) ResetStatus_DeepCopyInto (mst_LastReset m);
  nodes ← copy_slice NodeStatus_DeepCopyInto (mst_Nodes m);
  conditions ← copy_slice (cp_copy x_condition) (mst_Conditions m);
  mret (mkMCacheStatus (mst_Image m) (mst_CacheGeneration m) imageID used written reset (mst_Used m) nodes
    (mst_Phase m) conditions).
Definition CacheStatus_DeepCopy : option loc -> mem (option loc) :=
  copy_ptr (TCacheStatus : cty) CacheStatus_DeepCopyInto.

Definition CacheSpec_DeepCopyInto (m : CacheSpec) : mem CacheSpec := mret m.
Definition CacheSpec_DeepCopy : option loc -> mem (option loc) :=
  copy_ptr (TCacheSpec : cty) CacheSpec_DeepCopyInto.

Definition Cache_DeepCopyInto (m : mCache) : mem mCache :=
  meta ← cp_copy x_meta (mc_ObjectMeta m);
  status ← CacheStatus_DeepCopyInto (mc_Status m);
  mret (mkMCache (mc_TypeMeta m) meta (mc_Spec m) status).
Definition Cache_DeepCopy : option loc -> mem (option loc) := copy_ptr (TCache : cty) Cache_DeepCopyInto.

Definition CacheList_DeepCopyInto (m : mCacheList) : mem mCacheList :=
  meta ← cp_copy x_list (mcl_ListMeta m);
  items ← copy_slice Cache_DeepCopyInto (mcl_Items m);
  mret (mkMCacheList (mcl_TypeMeta m) meta items).
Definition CacheList_DeepCopy : option loc -> mem (option loc) :=
  copy_ptr (TCacheList : cty) CacheList_DeepCopyInto.

Definition EnvVar_DeepCopyInto (m : mEnvMapping) : mem mEnvMapping :=
  required ← copy_ptr (TBool : cty) mret (mem_Required m);
  mret (mkMEnvMapping (mem_Name m) (mem_Annotation m) required).
Definition EnvVar_DeepCopy : option loc -> mem (option loc) := copy_ptr (TEnvMapping : cty) EnvVar_DeepCopyInto.

Definition NodePath_DeepCopyInto (m : NodePath) : mem NodePath := mret m.
Definition NodePath_DeepCopy : option loc -> mem (option loc) := copy_ptr (TNodePath : cty) NodePath_DeepCopyInto.

Definition ProvisionerContainer_DeepCopyInto (m : mProvisionerContainer) : mem mProvisionerContainer :=
  command ← copy_slice (A := string) mret (mpc_Command m);
  env ← copy_slice (cp_copy x_env_var) (mpc_Env m);
  mret (mkMProvisionerContainer command env).
Definition ProvisionerContainer_DeepCopy : option loc -> mem (option loc) :=
  copy_ptr (TProvisionerContainer : cty) ProvisionerContainer_DeepCopyInto.

Definition Containers_DeepCopyInto (m : mContainers) : mem mContainers :=
  provisioner ← ProvisionerContainer_DeepCopyInto (mcs_Provisioner m);
  deprovisioner ← ProvisionerContainer_DeepCopyInto (mcs_Deprovisioner m);
  mret (mkMContainers provisioner deprovisioner).
Definition Containers_DeepCopy : option loc -> mem (option loc) :=
  copy_ptr (TContainers : cty) Containers_DeepCopyInto.

Definition StorageProvisionerSpec_DeepCopyInto (m : mStorageProvisionerSpec) : mem mStorageProvisionerSpec :=
  volume ← cp_copy x_volume_spec (msps_PersistentVolumeTemplate m);
  pod ← cp_copy x_pod_spec (msps_PodTemplate m);
  containers ← Containers_DeepCopyInto (msps_Containers m);
  env ← copy_slice EnvVar_DeepCopyInto (msps_Env m);
  nodes ← copy_slice (A := NodePath) mret (msps_Nodes m);
  mret (mkMStorageProvisionerSpec (msps_Name m) (msps_DeprovisionOnPodCompletion m) volume pod containers env nodes).
Definition StorageProvisionerSpec_DeepCopy : option loc -> mem (option loc) :=
  copy_ptr (TStorageProvisionerSpec : cty) StorageProvisionerSpec_DeepCopyInto.

Definition StorageProvisionerStatus_DeepCopyInto (m : mStorageProvisionerStatus) : mem mStorageProvisionerStatus :=
  conditions ← copy_slice (cp_copy x_condition) (mss_Conditions m);
  mret (mkMStorageProvisionerStatus conditions).
Definition StorageProvisionerStatus_DeepCopy : option loc -> mem (option loc) :=
  copy_ptr (TStorageProvisionerStatus : cty) StorageProvisionerStatus_DeepCopyInto.

Definition StorageProvisioner_DeepCopyInto (m : mStorageProvisioner) : mem mStorageProvisioner :=
  meta ← cp_copy x_meta (msp_ObjectMeta m);
  spec ← StorageProvisionerSpec_DeepCopyInto (msp_Spec m);
  status ← StorageProvisionerStatus_DeepCopyInto (msp_Status m);
  mret (mkMStorageProvisioner (msp_TypeMeta m) meta spec status).
Definition StorageProvisioner_DeepCopy : option loc -> mem (option loc) :=
  copy_ptr (TStorageProvisioner : cty) StorageProvisioner_DeepCopyInto.

Definition StorageProvisionerList_DeepCopyInto (m : mStorageProvisionerList) : mem mStorageProvisionerList :=
  meta ← cp_copy x_list (mspl_ListMeta m);
  items ← copy_slice StorageProvisioner_DeepCopyInto (mspl_Items m);
  mret (mkMStorageProvisionerList (mspl_TypeMeta m) meta items).
Definition StorageProvisionerList_DeepCopy : option loc -> mem (option loc) :=
  copy_ptr (TStorageProvisionerList : cty) StorageProvisionerList_DeepCopyInto.

(** [runtime.Object]: an interface value with its dynamic type, or nil. *)
Inductive Object := OCache (l : loc) | OCacheList (l : loc) | OStorageProvisioner (l : loc) | OStorageProvisionerList (l : loc).

Definition Cache_DeepCopyObject (p : option loc) : mem (option Object) :=
  c ← Cache_DeepCopy p;
  match c with Some c => mret (Some (OCache c)) | None => mret None end.
Definition CacheList_DeepCopyObject (p : option loc) : mem (option Object) :=
  c ← CacheList_DeepCopy p;
  match c with Some c => mret (Some (OCacheList c)) | None => mret None end.
Definition StorageProvisioner_DeepCopyObject (p : option loc) : mem (option Object) :=
  c ← StorageProvisioner_DeepCopy p;
  match c with Some c => mret (Some (OStorageProvisioner c)) | None => mret None end.
Definition StorageProvisionerList_DeepCopyObject (p : option loc) : mem (option Object) :=
  c ← StorageProvisionerList_DeepCopy p;
  match c with Some c => mret (Some (OStorageProvisionerList c)) | None => mret None end.

(** ** The values in memory *)

Abbreviation rd_time := (cp_read x_time).

#[local] Instance framed_external {M V} (c : copier M V) m : Framed (cp_read c m) := cp_framed M V c m.
#[local] Hint Resolve cp_copies : copies.

Definition rd_VolumeStatus (m : mVolumeStatus) : rd VolumeStatus :=
  created ← rd_time (mvs_Created m);
  start ← rd_ptr (TTime : cty) rd_time (mvs_CommitStartTime m);
  mret (mkVolumeStatus (mvs_Name m) (mvs_CacheGeneration m) created (mvs_Committable m) start).
#[local] Instance framed_VolumeStatus m : Framed (rd_VolumeStatus m) := _.

Lemma copies_VolumeStatus : copies VolumeStatus_DeepCopyInto rd_VolumeStatus.
Proof. copies_struct VolumeStatus_DeepCopyInto rd_VolumeStatus. Qed.
#[local] Hint Resolve copies_VolumeStatus : copies.

Definition rd_VolumeError (m : mVolumeError) : rd VolumeError :=
  generation ← rd_ptr (TInt64 : cty) mret (mve_CacheGeneration m);
  happened ← rd_time (mve_Happened m);
  mret (mkVolumeError (mve_VolumeName m) generation (mve_Error m) happened).
#[local] Instance framed_VolumeError m : Framed (rd_VolumeError m) := _.

Lemma copies_VolumeError : copies VolumeError_DeepCopyInto rd_VolumeError.
Proof. copies_struct VolumeError_DeepCopyInto rd_VolumeError. Qed.
#[local] Hint Resolve copies_VolumeError : copies.

Definition rd_NodeStatus (m : mNodeStatus) : rd NodeStatus :=
  used ← rd_time (mns_LastUsed m);
  volumes ← rd_list rd_VolumeStatus (mns_Volumes m);
  lastError ← rd_ptr (TVolumeError : cty) rd_VolumeError (mns_LastError m);
  mret (mkNodeStatus (mns_Name m) (mns_CacheGeneration m) used (mns_LastImageID m) volumes lastError).
#[local] Instance framed_NodeStatus m : Framed (rd_NodeStatus m) := _.

Lemma copies_NodeStatus : copies NodeStatus_DeepCopyInto rd_NodeStatus.
Proof. copies_struct NodeStatus_DeepCopyInto rd_NodeStatus. Qed.
#[local] Hint Resolve copies_NodeStatus : copies.

Definition rd_ResetStatus (m : mResetStatus) : rd ResetStatus :=
  time ← rd_time (mrs_ResetTime m);
  mret (mkResetStatus (mrs_CacheGeneration m) time).
#[local] Instance framed_ResetStatus m : Framed (rd_ResetStatus m) := _.

Lemma copies_ResetStatus : copies ResetStatus_DeepCopyInto rd_ResetStatus.
Proof. copies_struct ResetStatus_DeepCopyInto rd_ResetStatus. Qed.
#[local] Hint Resolve copies_ResetStatus : copies.

Definition rd_CacheStatus (m : mCacheStatus) : rd CacheStatus :=
  imageID ← rd_ptr (TString : cty) mret (mst_LastImageID m);
  used ← rd_ptr (TTime : cty) rd_time (mst_LastUsed m);
  written ← rd_ptr (TTime : cty) rd_time (mst_LastWritten m);
  reset ← rd_ptr (TResetStatus : cty) rd_ResetStatus (mst_LastReset m);
  nodes ← rd_list rd_NodeStatus (mst_Nodes m);
  conditions ← rd_list (cp_read x_condition) (mst_Conditions m);
  mret (mkCacheStatus (mst_Image m) (mst_CacheGeneration m) imageID used written reset (mst_Used m) nodes
    (mst_Phase m) conditions).
#[local] Instance framed_CacheStatus m : Framed (rd_CacheStatus m) := _.

Lemma copies_CacheStatus : copies CacheStatus_DeepCopyInto rd_CacheStatus.
Proof. copies_struct CacheStatus_DeepCopyInto rd_CacheStatus. Qed.
#[local] Hint Resolve copies_CacheStatus : copies.

Definition rd_Cache (m : mCache) : rd (TypeMeta * Cache) :=
  meta ← cp_read x_meta (mc_ObjectMeta m);
  status ← rd_CacheStatus (mc_Status m);
  mret ((mc_TypeMeta m, mkCache meta (mc_Spec m) status)).
#[local] Instance framed_Cache m : Framed (rd_Cache m) := _.

Lemma copies_Cache : copies Cache_DeepCopyInto rd_Cache.
Proof. copies_struct Cache_DeepCopyInto rd_Cache. Qed.
#[local] Hint Resolve copies_Cache : copies.

Definition rd_CacheList (m : mCacheList) : rd (TypeMeta * ListMeta * list (TypeMeta * Cache)) :=
  meta ← cp_read x_list (mcl_ListMeta m);
  items ← rd_list rd_Cache (mcl_Items m);
  mret (mcl_TypeMeta m, meta, items).
#[local] Instance framed_CacheList m : Framed (rd_CacheList m) := _.

Lemma copies_CacheList : copies CacheList_DeepCopyInto rd_CacheList.
Proof. copies_struct CacheList_DeepCopyInto rd_CacheList. Qed.
#[local] Hint Resolve copies_CacheList : copies.

Definition rd_EnvVar (m : mEnvMapping) : rd EnvMapping :=
  required ← rd_ptr (TBool : cty) mret (mem_Required m);
  mret (mkEnvMapping (mem_Name m) (mem_Annotation m) required).
#[local] Instance framed_EnvVar m : Framed (rd_EnvVar m) := _.

Lemma copies_EnvVar : copies EnvVar_DeepCopyInto rd_EnvVar.
Proof. copies_struct EnvVar_DeepCopyInto rd_EnvVar. Qed.
#[local] Hint Resolve copies_EnvVar : copies.

Definition rd_ProvisionerContainer (m : mProvisionerContainer) : rd ProvisionerContainer :=
  command ← rd_slice (A := string) mret (mpc_Command m);
  env ← rd_list (cp_read x_env_var) (mpc_Env m);
  mret (mkProvisionerContainer command env).
#[local] Instance framed_ProvisionerContainer m : Framed (rd_ProvisionerContainer m) := _.

Lemma copies_ProvisionerContainer : copies ProvisionerContainer_DeepCopyInto rd_ProvisionerContainer.
Proof. copies_struct ProvisionerContainer_DeepCopyInto rd_ProvisionerContainer. Qed.
#[local] Hint Resolve copies_ProvisionerContainer : copies.

Definition rd_Containers (m : mContainers) : rd Containers :=
  provisioner ← rd_ProvisionerContainer (mcs_Provisioner m);
  deprovisioner ← rd_ProvisionerContainer (mcs_Deprovisioner m);
  mret (mkContainers provisioner deprovisioner).
#[local] Instance framed_Containers m : Framed (rd_Containers m) := _.

Lemma copies_Containers : copies Containers_DeepCopyInto rd_Containers.
Proof. copies_struct Containers_DeepCopyInto rd_Containers. Qed.
#[local] Hint Resolve copies_Containers : copies.

Definition rd_StorageProvisionerSpec (m : mStorageProvisionerSpec) : rd StorageProvisionerSpec :=
  volume ← cp_read x_volume_spec (msps_PersistentVolumeTemplate m);
  pod ← cp_read x_pod_spec (msps_PodTemplate m);
  containers ← rd_Containers (msps_Containers m);
  env ← rd_list rd_EnvVar (msps_Env m);
  nodes ← rd_list (A := NodePath) mret (msps_Nodes m);
  mret (mkStorageProvisionerSpec (msps_Name m) (msps_DeprovisionOnPodCompletion m) volume pod containers env nodes).
#[local] Instance framed_StorageProvisionerSpec m : Framed (rd_StorageProvisionerSpec m) := _.

Lemma copies_StorageProvisionerSpec : copies StorageProvisionerSpec_DeepCopyInto rd_StorageProvisionerSpec.
Proof. copies_struct StorageProvisionerSpec_DeepCopyInto rd_StorageProvisionerSpec. Qed.
#[local] Hint Resolve copies_StorageProvisionerSpec : copies.

Definition rd_StorageProvisionerStatus (m : mStorageProvisionerStatus) : rd (list Condition) :=
  conditions ← rd_list (cp_read x_condition) (mss_Conditions m);
  mret (conditions).
#[local] Instance framed_StorageProvisionerStatus m : Framed (rd_StorageProvisionerStatus m) := _.

Lemma copies_StorageProvisionerStatus : copies StorageProvisionerStatus_DeepCopyInto rd_StorageProvisionerStatus.
Proof. copies_struct StorageProvisionerStatus_DeepCopyInto rd_StorageProvisionerStatus. Qed.
#[local] Hint Resolve copies_StorageProvisionerStatus : copies.

Definition rd_StorageProvisioner (m : mStorageProvisioner) : rd (TypeMeta * StorageProvisioner) :=
  meta ← cp_read x_meta (msp_ObjectMeta m);
  spec ← rd_StorageProvisionerSpec (msp_Spec m);
  conditions ← rd_StorageProvisionerStatus (msp_Status m);
  mret ((msp_TypeMeta m, mkStorageProvisioner meta spec conditions)).
#[export] Instance framed_StorageProvisioner m : Framed (rd_StorageProvisioner m) := _.

Lemma copies_StorageProvisioner : copies StorageProvisioner_DeepCopyInto rd_StorageProvisioner.
Proof. copies_struct StorageProvisioner_DeepCopyInto rd_StorageProvisioner. Qed.
#[local] Hint Resolve copies_StorageProvisioner : copies.

Definition rd_StorageProvisionerList (m : mStorageProvisionerList) : rd (TypeMeta * ListMeta * list (TypeMeta * StorageProvisioner)) :=
  meta ← cp_read x_list (mspl_ListMeta m);
  items ← rd_list rd_StorageProvisioner (mspl_Items m);
  mret (mspl_TypeMeta m, meta, items).
#[local] Instance framed_StorageProvisionerList m : Framed (rd_StorageProvisionerList m) := _.

Lemma copies_StorageProvisionerList : copies StorageProvisionerList_DeepCopyInto rd_StorageProvisionerList.
Proof. copies_struct StorageProvisionerList_DeepCopyInto rd_StorageProvisionerList. Qed.
#[local] Hint Resolve copies_StorageProvisionerList : copies.

Definition rd_cache : option loc -> rd (option (TypeMeta * Cache)) :=
  rd_ptr (TCache : cty) rd_Cache.
Definition rd_cache_list : option loc -> rd (option (TypeMeta * ListMeta * list (TypeMeta * Cache))) :=
  rd_ptr (TCacheList : cty) rd_CacheList.
Definition rd_provisioner : option loc -> rd (option (TypeMeta * StorageProvisioner)) :=
  rd_ptr (TStorageProvisioner : cty) rd_StorageProvisioner.
Definition rd_provisioner_list : option loc -> rd (option (TypeMeta * ListMeta * list (TypeMeta * StorageProvisioner))) :=
  rd_ptr (TStorageProvisionerList : cty) rd_StorageProvisionerList.

(** C19: a copy of a well-formed resource, or of a list of them, is well-formed: it
    does not fault, stands for the same value and shares no memory with the
    original, on whatever level. *)
Theorem deep_copies_isolated :
  isolates Cache_DeepCopy rd_cache /\
  isolates CacheList_DeepCopy rd_cache_list /\
  isolates StorageProvisioner_DeepCopy rd_provisioner /\
  isolates StorageProvisionerList_DeepCopy rd_provisioner_list.
Proof.
  split_and!; (apply copies_isolates; [intros; apply _|]; apply copies_ptr; [intros; apply _|]; auto with copies).
Qed.

Lemma copies_provisioner : copies StorageProvisioner_DeepCopy rd_provisioner.
Proof. apply copies_ptr; [intros; apply _|auto with copies]. Qed.
#[global] Instance framed_provisioner p : Framed (rd_provisioner p) := _.

End Copies.
