(* ===== verification/CacheStatusEdits.v ===== *)
(** * Cache status synchronisation ([internal/ksync/sync.go])

    The volumes of a cache are registered in the status of its [Cache]
    resource.  This file holds the functions that edit the status; a
    pointer into the status is the index it denotes.  [clock n] is the answer
    of the [n]-th [time.Now()] of an edit.  [CacheUpdater] holds the
    read-modify-write loop around these edits. *)

From S2P Require Import Prelude Effects Api.

(** ** Editing the status *)

(** The node a [*NodeStatus] obtained from [upsertNode] points to. *)
Definition node_zero : NodeStatus := mkNodeStatus "" 0 0 "" [] None.
Definition node_at (cs : CacheStatus) (i : nat) : NodeStatus := default node_zero (st_Nodes cs !! i).

(** Write through a [*NodeStatus]. *)
Definition modify_node (cs : CacheStatus) (i : nat) (f : NodeStatus -> NodeStatus) : CacheStatus :=
  cs <| st_Nodes := alter f i (st_Nodes cs) |>.

Definition upsertNode (cs : CacheStatus) (nodeName : string) (now : Time) : CacheStatus * nat :=
  match list_find (fun n => ns_Name n = nodeName) (st_Nodes cs) with
  | Some (i, _) => (modify_node cs i (fun n => n <| ns_LastUsed := now |>), i)
  | None =>
      (cs <| st_Nodes := st_Nodes cs ++ [mkNodeStatus nodeName 0 now "" [] None] |>,
       length (st_Nodes cs))
  end.

Definition addVolume (c : Cache) (nodeName volName : string) (commit : bool)
    (clock : nat -> Time) : Cache * option goerr :=
  let '(cs, n) := upsertNode (c_Status c) nodeName (clock 0) in
  if existsb (fun v => vs_Name v ==? volName) (ns_Volumes (node_at cs n)) then
    (c <| c_Status := cs |>,
     Some (Errorf ("volume " +++ quoted volName +++ " on node " +++ quoted nodeName
                   +++ " already exists")))
  else
    let commit := commit && negb (cspec_ReadOnly (c_Spec c)) in
    let cs := if commit
              then cs <| st_CacheGeneration := int64 (st_CacheGeneration cs + 1) |>
              else cs in
    let vol := mkVolumeStatus volName (st_CacheGeneration cs) (clock 1) commit None in
    (c <| c_Status := modify_node cs n (fun nd => nd <| ns_Volumes := ns_Volumes nd ++ [vol] |>) |>,
     None).

(** The returned generation pointer is the address of a field of the loop
    variable, which all iterations share (the module is built with the loop
    semantics of go 1.14): once set by any volume that is kept, it points to
    the generation of the last volume the loop visited. *)
Definition removeVolume (cs : CacheStatus) (nodeName volName : string) (now : Time)
  : CacheStatus * nat * option Z :=
  let '(cs, n) := upsertNode cs nodeName now in
  let all := ns_Volumes (node_at cs n) in
  let vols := filter (fun v => vs_Name v <> volName) all in
  let cacheGeneration :=
    match vols with
    | [] => None
    | _ :: _ => vs_CacheGeneration <$> last all
    end in
  (modify_node cs n (fun nd => nd <| ns_Volumes := vols |>), n, cacheGeneration).

(** The indices of the node and of the volume that [*VolumeStatus] points to. *)
Definition findVolume (c : Cache) (nodeName volumeName : string) : (nat * nat) + goerr :=
  let notFound := inr (Errorf ("node " +++ quoted nodeName +++ " not found in v1alpha1.Cache "
                     +++ om_Namespace (c_Meta c) +++ "/" +++ om_Name (c_Meta c))) in
  match list_find (fun n => ns_Name n = nodeName) (st_Nodes (c_Status c)) with
  | Some (i, n) =>
      match list_find (fun v => vs_Name v = volumeName) (ns_Volumes n) with
      | Some (j, _) => inl (i, j)
      | None => notFound
      end
  | None => notFound
  end.

Definition commitTimeout : Z := 15 * Minute.

Definition modify_volume (cs : CacheStatus) (i j : nat) (f : VolumeStatus -> VolumeStatus) : CacheStatus :=
  modify_node cs i (fun nd => nd <| ns_Volumes := alter f j (ns_Volumes nd) |>).

(** The loops of [commitInProgress]: the position at which they stop, whether
    the commit there has timed out, and the number of clock readings so far.
    [k] counts the readings. *)
Fixpoint scan_volumes (clock : nat -> Time) (k j : nat) (vols : list VolumeStatus)
  : option (nat * bool) * nat :=
  match vols with
  | [] => (None, k)
  | v :: vols =>
      match vs_CommitStartTime v with
      | None => (Some (j, false), k)
      | Some t =>
          if (t + commitTimeout <? clock k)%Z then (Some (j, true), S k)
          else scan_volumes clock (S k) (S j) vols
      end
  end.

Fixpoint scan_nodes (clock : nat -> Time) (k i : nat) (nodes : list NodeStatus)
  : option (nat * nat * bool) * nat :=
  match nodes with
  | [] => (None, k)
  | n :: nodes =>
      match scan_volumes clock k 0 (ns_Volumes n) with
      | (Some (j, expired), k) => (Some (i, j, expired), k)
      | (None, k) => scan_nodes clock k (S i) nodes
      end
  end.

Definition commitInProgress (c : Cache) (clock : nat -> Time) : Cache * bool * nat :=
  let cs := c_Status c in
  match scan_nodes clock 0 0 (st_Nodes cs) with
  | (None, k) => (c, false, k)
  | (Some (_, _, false), k) => (c, true, k)
  | (Some (i, j, true), k) =>
      let n := node_at cs i in
      match ns_Volumes n !! j with
      | None => (c, true, k)
      | Some v =>
          let lastError := mkVolumeError (vs_Name v) (Some (vs_CacheGeneration v))
                             "commit timed out" (clock k) in
          let cs := modify_node cs i (fun nd => nd <| ns_LastError := Some lastError |>) in
          let cs := modify_volume cs i j (fun v => v <| vs_CommitStartTime := None |>) in
          let '(cs, _, _) := removeVolume cs (ns_Name n) (vs_Name v) (clock (S k)) in
          (c <| c_Status := cs |>, true, S (S k))
      end
  end.

(** ** The edits of the [Updater]

    Each closure passed to [updateCache], with the variables of the enclosing
    function that it assigns. *)

(** [RegisterCacheVolume]; the captured variable is [image].  The error of
    [addVolume] is dropped. *)
Definition register_edit (nodeName volumeName defaultImage : string) (commit : bool)
    (image : string) (c : Cache) (clock : nat -> Time) : Cache * string :=
  let cs := c_Status c in
  let image := st_Image cs in
  let '(image, cs) :=
    if image ==? "" then (defaultImage, cs <| st_Image := defaultImage |>) else (image, cs) in
  let cs := cs <| st_Used := int64 (st_Used cs + 1) |> in
  let '(c, _) := addVolume (c <| c_Status := cs |>) nodeName volumeName commit clock in
  (c, image).

(** [PrepareCommit]; the captured variable is [commit]. *)
Definition prepare_edit (nodeName volumeName : string)
    (commit : bool) (c : Cache) (clock : nat -> Time) : Cache * bool :=
  if cspec_ReadOnly (c_Spec c) || (st_Phase (c_Status c) ==? CachePhaseReject) then (c, false)
  else
    match findVolume c nodeName volumeName with
    | inr _ => (c, false)
    | inl (i, j) =>
        let committable :=
          match ns_Volumes (node_at (c_Status c) i) !! j with
          | Some vol => vs_Committable vol
          | None => false
          end in
        if committable then
          let '(c, inProgress, k) := commitInProgress c clock in
          if inProgress then (c, false)
          else (c <| c_Status := modify_volume (c_Status c) i j
                     (fun v => v <| vs_CommitStartTime := Some (clock k) |>) |>, true)
        else (c, false)
    end.

(** [UnregisterCacheVolume]; nothing is captured. *)
Definition unregister_edit (nodeName volumeName : string) (commitErr : option goerr)
    (x : unit) (c : Cache) (clock : nat -> Time) : Cache * unit :=
  let '(cs, n, cacheGeneration) := removeVolume (c_Status c) nodeName volumeName (clock 0) in
  let lastError :=
    match commitErr with
    | Some e => Some (mkVolumeError volumeName cacheGeneration (Error e) (clock 1))
    | None => None
    end in
  (c <| c_Status := modify_node cs n (fun nd => nd <| ns_LastError := lastError |>) |>, x).

(** ** The registered volumes as a map

    Abstractly, a cache status registers a finite map from node and volume
    name to the status of the volume. *)

Definition node_entries (n : NodeStatus) : list (string * string * VolumeStatus) :=
  (fun v => (ns_Name n, vs_Name v, v)) <$> ns_Volumes n.

Definition entries (nodes : list NodeStatus) : list (string * string * VolumeStatus) :=
  nodes ≫= node_entries.

Definition registered (cs : CacheStatus) : gmap (string * string) VolumeStatus :=
  list_to_map (entries (st_Nodes cs)).

(** Node names are unique, and so are the volumes of a node. *)
Record status_wf (cs : CacheStatus) : Prop := {
  wf_nodes : NoDup (ns_Name <$> st_Nodes cs);
  wf_volumes : NoDup (entries (st_Nodes cs)).*1
}.

Definition volumes (cs : CacheStatus) : list VolumeStatus := (entries (st_Nodes cs)).*2.

(** *** Writing through a node pointer *)

Lemma node_at_split cs pre n post :
  st_Nodes cs = pre ++ n :: post -> node_at cs (length pre) = n.
Proof. intros H. unfold node_at. by rewrite H, list_lookup_middle. Qed.

Lemma alter_split {A} (f : A -> A) pre x post :
  alter f (length pre) (pre ++ x :: post) = pre ++ f x :: post.
Proof. induction pre; simpl; [done|]. by f_equal. Qed.

Lemma modify_node_split cs pre n post f :
  st_Nodes cs = pre ++ n :: post ->
  modify_node cs (length pre) f = cs <| st_Nodes := pre ++ f n :: post |>.
Proof. intros H. unfold modify_node. by rewrite H, alter_split. Qed.

(** [upsertNode] yields the first node of that name, with its volumes kept,
    or a new one at the end. *)
Lemma upsertNode_spec cs name now :
  exists pre n post,
    upsertNode cs name now = (cs <| st_Nodes := pre ++ n :: post |>, length pre) /\
    ns_Name n = name /\ Forall (fun m => ns_Name m <> name) pre /\
    ((exists n0, st_Nodes cs = pre ++ n0 :: post /\ n = n0 <| ns_LastUsed := now |>) \/
     (st_Nodes cs = pre /\ post = [] /\ n = mkNodeStatus name 0 now "" [] None)).
Proof.
  unfold upsertNode.
  destruct (list_find (fun n => ns_Name n = name) (st_Nodes cs)) as [[i n0]|] eqn:E.
  - apply list_find_Some in E as (Hi & Hn & Hlt).
    exists (take i (st_Nodes cs)), (n0 <| ns_LastUsed := now |>), (drop (S i) (st_Nodes cs)).
    assert (Hlen : length (take i (st_Nodes cs)) = i).
    { rewrite length_take. apply lookup_lt_Some in Hi. lia. }
    assert (Hsp : st_Nodes cs = take i (st_Nodes cs) ++ n0 :: drop (S i) (st_Nodes cs)).
    { by rewrite take_drop_middle. }
    split; [|split; [done|split]].
    + rewrite Hlen. f_equal.
      rewrite <- Hlen at 1. by apply modify_node_split.
    + apply Forall_lookup. intros j m Hj Hm.
      apply lookup_take_Some in Hj as [Hj Hji]. by apply (Hlt j m Hj Hji).
    + left. eauto.
  - apply list_find_None in E.
    exists (st_Nodes cs), (mkNodeStatus name 0 now "" [] None), [].
    split; [done|]. split; [done|]. split; [done|]. by right.
Qed.

Lemma entries_app l1 l2 : entries (l1 ++ l2) = entries l1 ++ entries l2.
Proof. apply bind_app. Qed.

Lemma entries_middle pre n post :
  entries (pre ++ n :: post) = entries pre ++ node_entries n ++ entries post.
Proof. by rewrite entries_app. Qed.

Lemma entries_other_node pre name :
  Forall (fun m => ns_Name m <> name) pre ->
  forall e, e ∈ entries pre -> e.1.1 <> name.
Proof.
  intros Hall e He. unfold entries in He.
  apply list_elem_of_bind in He as (m & Hin & Hm).
  unfold node_entries in Hin. apply list_elem_of_fmap in Hin as (v & -> & _).
  rewrite Forall_forall in Hall. by apply Hall.
Qed.

(** Renewing [LastUsed] or [LastError] of a node does not touch its volumes. *)
Lemma node_entries_ext n n' :
  ns_Name n = ns_Name n' -> ns_Volumes n = ns_Volumes n' -> node_entries n = node_entries n'.
Proof. intros H1 H2. unfold node_entries. by rewrite H1, H2. Qed.

(** The shape of the status after [upsertNode], in the terms the invariants
    need: one distinguished node, the entries and the node names. *)
Lemma upsertNode_shape cs name now :
  status_wf cs ->
  exists pre n post,
    upsertNode cs name now = (cs <| st_Nodes := pre ++ n :: post |>, length pre) /\
    ns_Name n = name /\
    entries (pre ++ n :: post) = entries (st_Nodes cs) /\
    NoDup (ns_Name <$> pre ++ n :: post) /\
    (forall e, e ∈ entries pre -> e.1.1 <> name) /\
    (forall e, e ∈ entries post -> e.1.1 <> name).
Proof.
  intros [Hn Hv].
  destruct (upsertNode_spec cs name now)
    as (pre & n & post & -> & Hname & Hpre & [(n0 & Hcs & ->)|(Hcs & -> & ->)]).
  - exists pre, (n0 <| ns_LastUsed := now |>), post. simpl in Hname.
    rewrite Hcs in *. rewrite fmap_app, fmap_cons in Hn.
    split; [done|]. split; [done|]. split; [by rewrite !entries_middle|].
    split; [by rewrite fmap_app, fmap_cons|].
    split; [by apply entries_other_node|]. apply entries_other_node.
    apply NoDup_app in Hn as (_ & _ & Hn). apply NoDup_cons in Hn as [Hn _].
    apply Forall_forall. intros m Hm Heq. apply Hn, list_elem_of_fmap. by exists m; rewrite Heq.
  - exists pre, (mkNodeStatus name 0 now "" [] None), []. rewrite Hcs in *.
    split; [done|]. split; [done|]. split; [by rewrite entries_middle, !app_nil_r|].
    split; [|split; [by apply entries_other_node|set_solver]].
    rewrite fmap_app. apply NoDup_app. split; [done|]. split; [|apply NoDup_singleton].
    intros x Hx Hx'. apply list_elem_of_singleton in Hx' as ->. simpl in Hx.
    apply list_elem_of_fmap in Hx as (m & Heq & Hm). rewrite Forall_forall in Hpre.
    by apply (Hpre m Hm).
Qed.

Lemma elem_of_node_entries n e :
  e ∈ node_entries n <-> e.1.1 = ns_Name n /\ e.1.2 = vs_Name e.2 /\ e.2 ∈ ns_Volumes n.
Proof.
  unfold node_entries. rewrite list_elem_of_fmap. split.
  - intros (v & -> & Hv). done.
  - destruct e as [[x y] v]; simpl. intros (-> & -> & Hv). eauto.
Qed.

(** A volume is registered exactly if it is among the entries of its node. *)
Lemma registered_Some cs node vol v :
  status_wf cs ->
  registered cs !! (node, vol) = Some v <-> (node, vol, v) ∈ entries (st_Nodes cs).
Proof.
  intros [_ Hnd]. unfold registered. split; intros H.
  - by apply elem_of_list_to_map_2.
  - by apply elem_of_list_to_map_1.
Qed.

Lemma registered_None cs node vol :
  status_wf cs ->
  registered cs !! (node, vol) = None <-> forall v, (node, vol, v) ∉ entries (st_Nodes cs).
Proof.
  intros Hwf. rewrite eq_None_not_Some. split.
  - intros H v Hv. apply H. exists v. by apply registered_Some.
  - intros H [v Hv]. apply (H v). by apply registered_Some.
Qed.

(** Whether the distinguished node already has a volume of that name. *)
Lemma existsb_volume cs pre n post node vol :
  status_wf cs ->
  ns_Name n = node ->
  entries (pre ++ n :: post) = entries (st_Nodes cs) ->
  (forall e, e ∈ entries pre -> e.1.1 <> node) ->
  (forall e, e ∈ entries post -> e.1.1 <> node) ->
  existsb (fun v => vs_Name v ==? vol) (ns_Volumes n) =
  bool_decide (is_Some (registered cs !! (node, vol))).
Proof.
  intros Hwf Hn He Hpre Hpost. apply eq_bool_prop_intro.
  rewrite bool_decide_spec, Is_true_true, existsb_exists. split.
  - intros (v & Hin & Hv). apply bool_decide_eq_true in Hv as <-.
    exists v. apply registered_Some; [done|]. rewrite <- He, entries_middle.
    rewrite !elem_of_app. right; left. apply elem_of_node_entries. simpl.
    by rewrite list_elem_of_In.
  - intros [v Hv]. apply registered_Some in Hv; [|done].
    rewrite <- He, entries_middle, !elem_of_app in Hv.
    destruct Hv as [Hv|[Hv|Hv]]; [by destruct (Hpre _ Hv)| |by destruct (Hpost _ Hv)].
    apply elem_of_node_entries in Hv as (_ & Hvn & Hv); simpl in *.
    exists v. split; [by apply list_elem_of_In|]. by apply bool_decide_eq_true.
Qed.

Lemma node_entries_snoc n v :
  node_entries (n <| ns_Volumes := ns_Volumes n ++ [v] |>) = node_entries n ++ [(ns_Name n, vs_Name v, v)].
Proof. unfold node_entries. simpl. by rewrite fmap_app. Qed.

(** *** [addVolume] inserts, [removeVolume] deletes *)

Definition new_volume (c : Cache) (vol : string) (commit : bool) (clock : nat -> Time) : VolumeStatus :=
  let b := commit && negb (cspec_ReadOnly (c_Spec c)) in
  let gen := st_CacheGeneration (c_Status c) in
  mkVolumeStatus vol (if b then int64 (gen + 1) else gen) (clock 1) b None.

Lemma addVolume_exists c node vol commit clock :
  status_wf (c_Status c) ->
  is_Some (registered (c_Status c) !! (node, vol)) ->
  exists nodes e,
    addVolume c node vol commit clock =
      (c <| c_Status := (c_Status c) <| st_Nodes := nodes |> |>, Some e) /\
    entries nodes = entries (st_Nodes (c_Status c)) /\
    NoDup (ns_Name <$> nodes).
Proof.
  intros Hwf Hreg. unfold addVolume.
  destruct (upsertNode_shape (c_Status c) node (clock 0) Hwf)
    as (pre & n & post & -> & Hn & He & Hnd & Hpre & Hpost).
  rewrite (node_at_split _ pre n post) by done.
  rewrite (existsb_volume _ pre n post node vol Hwf) by done.
  rewrite bool_decide_eq_true_2 by done. eauto.
Qed.

Lemma addVolume_fresh c node vol commit clock :
  status_wf (c_Status c) ->
  registered (c_Status c) !! (node, vol) = None ->
  exists nodes,
    addVolume c node vol commit clock =
      (c <| c_Status := (c_Status c) <| st_Nodes := nodes |>
                          <| st_CacheGeneration := vs_CacheGeneration (new_volume c vol commit clock) |> |>,
       None) /\
    entries nodes ≡ₚ (node, vol, new_volume c vol commit clock) :: entries (st_Nodes (c_Status c)) /\
    NoDup (ns_Name <$> nodes).
Proof.
  intros Hwf Hreg. unfold addVolume.
  destruct (upsertNode_shape (c_Status c) node (clock 0) Hwf)
    as (pre & n & post & -> & Hn & He & Hnd & Hpre & Hpost).
  rewrite (node_at_split _ pre n post) by done.
  rewrite (existsb_volume _ pre n post node vol Hwf) by done.
  rewrite bool_decide_eq_false_2 by (rewrite Hreg; by apply is_Some_None).
  set (v := new_volume c vol commit clock).
  exists (pre ++ n <| ns_Volumes := ns_Volumes n ++ [v] |> :: post). split; [|split].
  - rewrite (modify_node_split _ pre n post) by (by destruct (_ && _)).
    unfold v, new_volume. by destruct (_ && _).
  - rewrite entries_middle, node_entries_snoc, <- He, entries_middle, Hn.
    rewrite <- !app_assoc. simpl. rewrite app_assoc, <- Permutation_middle, app_assoc. done.
  - rewrite fmap_app in *. by rewrite fmap_cons in *.
Qed.

Lemma wf_insert cs nodes gen e :
  status_wf cs -> entries nodes ≡ₚ e :: entries (st_Nodes cs) ->
  NoDup (ns_Name <$> nodes) -> registered cs !! e.1 = None ->
  status_wf (cs <| st_Nodes := nodes |> <| st_CacheGeneration := gen |>) /\
  registered (cs <| st_Nodes := nodes |> <| st_CacheGeneration := gen |>) =
    <[e.1 := e.2]> (registered cs).
Proof.
  intros Hwf He Hnd Hnone.
  assert (Hv : NoDup (entries nodes).*1).
  { rewrite He. simpl. apply NoDup_cons. split; [|apply Hwf].
    intros Hin. apply list_elem_of_fmap in Hin as ([k v] & Hk & Hin). simpl in Hk. subst.
    destruct e as [[x y] ?]; simpl in *. by apply (proj1 (registered_None _ _ _ Hwf) Hnone v). }
  split; [by split|]. unfold registered. simpl.
  rewrite (list_to_map_proper _ (e :: entries (st_Nodes cs))) by done. by destruct e.
Qed.

Lemma list_to_map_delete {K V} `{Countable K} (l : list (K * V)) k :
  (list_to_map (filter (fun e => e.1 <> k) l) : gmap K V) = delete k (list_to_map l).
Proof.
  induction l as [|[k' v] l IH]; simpl; [by rewrite delete_empty|].
  rewrite filter_cons. case_decide as Hk; simpl in *.
  - by rewrite IH, delete_insert_ne.
  - subst. by rewrite IH, delete_insert_eq.
Qed.

Lemma filter_other_node (node vol : string) (l : list (string * string * VolumeStatus)) :
  (forall e, e ∈ l -> e.1.1 <> node) ->
  filter (fun e => e.1 <> (node, vol)) l = l.
Proof.
  intros H. induction l as [|e l IH]; [done|]. rewrite filter_cons.
  rewrite decide_True by (intros Heq; apply (H e); [by left|by rewrite Heq]).
  f_equal. apply IH. set_solver.
Qed.

Lemma node_entries_filter n vol :
  node_entries (n <| ns_Volumes := filter (fun v => vs_Name v <> vol) (ns_Volumes n) |>) =
  filter (fun e => e.1 <> (ns_Name n, vol)) (node_entries n).
Proof.
  unfold node_entries. simpl. induction (ns_Volumes n) as [|v l IH]; [done|].
  rewrite filter_cons, fmap_cons, filter_cons. simpl.
  destruct (decide (vs_Name v = vol)) as [->|Hne].
  - rewrite !decide_False by naive_solver. done.
  - rewrite !decide_True by naive_solver. rewrite fmap_cons. by f_equal.
Qed.

Lemma removeVolume_spec cs node vol now :
  status_wf cs ->
  exists pre n post,
    removeVolume cs node vol now =
      (cs <| st_Nodes := pre ++ n <| ns_Volumes := filter (fun v => vs_Name v <> vol) (ns_Volumes n) |> :: post |>,
       length pre,
       if decide (filter (fun v => vs_Name v <> vol) (ns_Volumes n) = []) then None
       else vs_CacheGeneration <$> last (ns_Volumes n)) /\
    ns_Name n = node /\
    entries (pre ++ n :: post) = entries (st_Nodes cs) /\
    NoDup (ns_Name <$> pre ++ n :: post) /\
    entries (pre ++ n <| ns_Volumes := filter (fun v => vs_Name v <> vol) (ns_Volumes n) |> :: post) =
      filter (fun e => e.1 <> (node, vol)) (entries (st_Nodes cs)).
Proof.
  intros Hwf. unfold removeVolume.
  destruct (upsertNode_shape cs node now Hwf)
    as (pre & n & post & -> & Hn & He & Hnd & Hpre & Hpost).
  exists pre, n, post. rewrite (node_at_split _ pre n post) by done.
  rewrite (modify_node_split _ pre n post) by done.
  split; [|split; [done|split; [done|split; [done|]]]].
  - simpl. by destruct (filter _ _).
  - rewrite <- He, !entries_middle, !filter_app, node_entries_filter, Hn.
    by rewrite (filter_other_node node vol (entries pre)),
      (filter_other_node node vol (entries post)).
Qed.

Lemma fmap_name_update (f : NodeStatus -> NodeStatus) pre n post :
  ns_Name (f n) = ns_Name n ->
  ns_Name <$> pre ++ f n :: post = ns_Name <$> pre ++ n :: post.
Proof. intros H. by rewrite !fmap_app, !fmap_cons, H. Qed.

Lemma wf_delete cs nodes node vol :
  status_wf cs ->
  entries nodes = filter (fun e => e.1 <> (node, vol)) (entries (st_Nodes cs)) ->
  NoDup (ns_Name <$> nodes) ->
  status_wf (cs <| st_Nodes := nodes |>) /\
  registered (cs <| st_Nodes := nodes |>) = delete (node, vol) (registered cs).
Proof.
  intros [Hn Hv] He Hnd. split.
  - split; simpl; [done|]. rewrite He. eapply sublist_NoDup; [exact Hv|].
    apply fmap_sublist, sublist_filter.
  - unfold registered. simpl. rewrite He. apply list_to_map_delete.
Qed.

(** A write to a node that keeps its name and volumes. *)
Lemma modify_node_wf cs pre n post f :
  st_Nodes cs = pre ++ n :: post ->
  ns_Name (f n) = ns_Name n -> ns_Volumes (f n) = ns_Volumes n ->
  status_wf cs ->
  status_wf (modify_node cs (length pre) f) /\
  entries (st_Nodes (modify_node cs (length pre) f)) = entries (st_Nodes cs).
Proof.
  intros Hcs Hname Hvols [Hn Hv]. rewrite (modify_node_split _ _ _ _ _ Hcs).
  assert (He : entries (pre ++ f n :: post) = entries (st_Nodes cs)).
  { rewrite Hcs, !entries_middle. do 2 f_equal. by apply node_entries_ext. }
  split; [|done]. split; simpl.
  - rewrite fmap_name_update by done. by rewrite <- Hcs.
  - by rewrite He.
Qed.

(** The cache before [addVolume] runs inside [register_edit]. *)
Definition used_image (defaultImage : string) (cs : CacheStatus) : string :=
  if st_Image cs ==? "" then defaultImage else st_Image cs.

Definition count_usage (defaultImage : string) (c : Cache) : Cache :=
  c <| c_Status := (c_Status c) <| st_Image := used_image defaultImage (c_Status c) |>
                                <| st_Used := int64 (st_Used (c_Status c) + 1) |> |>.

Lemma register_edit_addVolume node vol defaultImage commit image c clock :
  register_edit node vol defaultImage commit image c clock =
  ((addVolume (count_usage defaultImage c) node vol commit clock).1,
   used_image defaultImage (c_Status c)).
Proof.
  unfold register_edit, count_usage, used_image.
  destruct c as [m s cs]; simpl. destruct (st_Image cs ==? "") eqn:E; simpl.
  - by destruct (addVolume _ _ _ _ _).
  - destruct cs; simpl. by destruct (addVolume _ _ _ _ _).
Qed.

Lemma count_usage_wf defaultImage c :
  status_wf (c_Status c) -> status_wf (c_Status (count_usage defaultImage c)).
Proof. intros []. by split. Qed.

Lemma unregister_edit_status node vol err x c clock :
  status_wf (c_Status c) ->
  exists nodes n,
    unregister_edit node vol err x c clock = (c <| c_Status := (c_Status c) <| st_Nodes := nodes |> |>, x) /\
    entries nodes = filter (fun e => e.1 <> (node, vol)) (entries (st_Nodes (c_Status c))) /\
    NoDup (ns_Name <$> nodes) /\
    n ∈ nodes /\ ns_Name n = node /\
    (ns_LastError n = None <-> err = None) /\
    (forall e, err = Some e -> exists ve, ns_LastError n = Some ve /\
       ve_VolumeName ve = vol /\ ve_Error ve = Error e /\ ve_Happened ve = clock 1).
Proof.
  intros Hwf. unfold unregister_edit.
  destruct (removeVolume_spec (c_Status c) node vol (clock 0) Hwf)
    as (pre & n & post & -> & Hn & He & Hnd & Hf).
  set (n1 := n <| ns_Volumes := _ |>) in *. simpl.
  set (le := match err with Some e => _ | None => None end).
  rewrite (modify_node_split _ pre n1 post) by done.
  exists (pre ++ n1 <| ns_LastError := le |> :: post), (n1 <| ns_LastError := le |>).
  split; [done|]. split.
  { rewrite <- Hf, !entries_middle. do 2 f_equal. }
  split. { rewrite (fmap_name_update (fun n0 => n0 <| ns_LastError := le |>)) by done.
           unfold n1. by rewrite (fmap_name_update (fun n0 => n0 <| ns_Volumes := _ |>)). }
  split; [set_solver|]. split; [done|]. unfold le. simpl. split; destruct err; naive_solver.
Qed.

(** ** The operations of the [Updater] on the status *)

Inductive op :=
| OpRegister (nodeName volumeName defaultImage : string) (commit : bool)
| OpPrepare (nodeName volumeName : string)
| OpUnregister (nodeName volumeName : string) (commitErr : option goerr).

Definition apply_op (o : op) (c : Cache) (clock : nat -> Time) : Cache :=
  match o with
  | OpRegister n v i b => (register_edit n v i b "" c clock).1
  | OpPrepare n v => (prepare_edit n v false c clock).1
  | OpUnregister n v e => (unregister_edit n v e tt c clock).1
  end.

(** The edits touch the status only. *)
Lemma addVolume_meta c node vol commit clock :
  c_Meta (addVolume c node vol commit clock).1 = c_Meta c /\
  c_Spec (addVolume c node vol commit clock).1 = c_Spec c.
Proof. unfold addVolume. destruct (upsertNode _ _ _). by destruct (existsb _ _). Qed.

Lemma commitInProgress_meta c clock :
  c_Meta (commitInProgress c clock).1.1 = c_Meta c /\
  c_Spec (commitInProgress c clock).1.1 = c_Spec c.
Proof. unfold commitInProgress. by repeat case_match. Qed.

Lemma prepare_edit_meta node vol b c clock :
  c_Meta (prepare_edit node vol b c clock).1 = c_Meta c /\
  c_Spec (prepare_edit node vol b c clock).1 = c_Spec c.
Proof.
  unfold prepare_edit. pose proof (commitInProgress_meta c clock) as Hm.
  destruct (_ || _); [done|]. destruct (findVolume _ _ _) as [[i j]|]; [|done].
  match goal with |- context [if ?b then _ else _] => destruct b end; [|done].
  destruct (commitInProgress c clock) as [[c' [|]] k]; simpl in *; done.
Qed.

Lemma apply_op_meta o c clock :
  c_Meta (apply_op o c clock) = c_Meta c /\ c_Spec (apply_op o c clock) = c_Spec c.
Proof.
  destruct o as [n v i b|n v|n v e]; simpl.
  - rewrite register_edit_addVolume. simpl.
    destruct (addVolume_meta (count_usage i c) n v b clock) as [-> ->]. done.
  - apply prepare_edit_meta.
  - unfold unregister_edit. by destruct (removeVolume _ _ _ _) as [[? ?] ?].
Qed.

Record status_inv (cs : CacheStatus) : Prop := {
  inv_wf : status_wf cs;
  inv_gen : (0 <= st_CacheGeneration cs < 2 ^ 63)%Z;
  inv_vols : Forall (fun v => 0 <= vs_CacheGeneration v <= st_CacheGeneration cs)%Z (volumes cs);
  inv_committable :
    NoDup (vs_CacheGeneration <$> filter (fun v => vs_Committable v = true) (volumes cs));
  inv_idle : Forall (fun v => vs_CommitStartTime v = None) (volumes cs)
}.

Lemma status_inv_zero : status_inv CacheStatus_zero.
Proof.
  split; simpl; [|lia|constructor..].
  split; simpl; constructor.
Qed.

(** The invariant depends on the generation and the entries only. *)
Lemma status_inv_ext cs cs' :
  status_inv cs -> status_wf cs' ->
  (st_CacheGeneration cs <= st_CacheGeneration cs' < 2 ^ 63)%Z ->
  entries (st_Nodes cs') = entries (st_Nodes cs) ->
  status_inv cs'.
Proof.
  intros [_ Hg Hv Hc Hi] Hwf Hle He.
  assert (Hvols : volumes cs' = volumes cs) by (unfold volumes; by rewrite He).
  split; rewrite ?Hvols; [done|lia| |done|done].
  eapply Forall_impl; [exact Hv|]. simpl. lia.
Qed.

Lemma status_inv_insert cs nodes e gen :
  status_inv cs ->
  status_wf (cs <| st_Nodes := nodes |> <| st_CacheGeneration := gen |>) ->
  entries nodes ≡ₚ e :: entries (st_Nodes cs) ->
  vs_CommitStartTime e.2 = None -> vs_CacheGeneration e.2 = gen ->
  (gen < 2 ^ 63)%Z ->
  (if vs_Committable e.2 then st_CacheGeneration cs < gen else st_CacheGeneration cs = gen)%Z ->
  status_inv (cs <| st_Nodes := nodes |> <| st_CacheGeneration := gen |>).
Proof.
  intros [_ Hg Hv Hc Hi] Hwf He Hidle Hgen Hmax Hnew.
  assert (Hvols : volumes (cs <| st_Nodes := nodes |> <| st_CacheGeneration := gen |>)
                  ≡ₚ e.2 :: volumes cs) by (unfold volumes; simpl; by rewrite He).
  assert (Hle : (st_CacheGeneration cs <= gen)%Z) by (destruct (vs_Committable e.2); lia).
  split; rewrite ?Hvols; simpl; [done|lia| | |].
  - constructor; [lia|]. eapply Forall_impl; [exact Hv|]. simpl. lia.
  - rewrite filter_cons. case_decide as Hb; [|done]. rewrite fmap_cons. apply NoDup_cons.
    split; [|done]. rewrite Hb in Hnew. intros Hin.
    apply list_elem_of_fmap in Hin as (v & Heq & Hin). apply list_elem_of_filter in Hin as [_ Hin].
    rewrite Forall_forall in Hv. specialize (Hv v Hin). lia.
  - by constructor.
Qed.

Lemma status_inv_delete cs nodes node vol :
  status_inv cs ->
  entries nodes = filter (fun e => e.1 <> (node, vol)) (entries (st_Nodes cs)) ->
  NoDup (ns_Name <$> nodes) ->
  status_inv (cs <| st_Nodes := nodes |>).
Proof.
  intros [Hwf Hg Hv Hc Hi] He Hnd.
  assert (Hsub : volumes (cs <| st_Nodes := nodes |>) `sublist_of` volumes cs).
  { unfold volumes. simpl. rewrite He. apply fmap_sublist, sublist_filter. }
  split; simpl.
  - by apply (wf_delete cs nodes node vol).
  - lia.
  - by eapply Forall_sublist.
  - eapply sublist_NoDup; [exact Hc|]. apply fmap_sublist. by apply sublist_filter_mono.
  - by eapply Forall_sublist.
Qed.

(** *** [commitInProgress] and [prepare_edit] *)

Lemma findVolume_inl c node vol i j :
  findVolume c node vol = inl (i, j) ->
  exists n v, st_Nodes (c_Status c) !! i = Some n /\ ns_Volumes n !! j = Some v /\
    ns_Name n = node /\ vs_Name v = vol.
Proof.
  unfold findVolume. intros H. repeat case_match; simplify_eq.
  match goal with H : list_find _ (st_Nodes _) = _ |- _ => apply list_find_Some in H as (? & ? & _) end.
  match goal with H : list_find _ (ns_Volumes _) = _ |- _ => apply list_find_Some in H as (? & ? & _) end.
  eauto 10.
Qed.

Lemma volumes_lookup nodes i j n v :
  nodes !! i = Some n -> ns_Volumes n !! j = Some v -> v ∈ (entries nodes).*2.
Proof.
  intros Hn Hv. apply list_elem_of_fmap. exists (ns_Name n, vs_Name v, v). split; [done|].
  unfold entries. apply list_elem_of_bind. exists n. split; [|by eapply list_elem_of_lookup_2].
  apply elem_of_node_entries. simpl. by eauto using list_elem_of_lookup_2.
Qed.

Lemma scan_volumes_count clock vols : forall k j r k',
  scan_volumes clock k j vols = (r, k') -> k <= k'.
Proof.
  induction vols as [|v vols IH]; intros k j r k' H; simpl in H; [by simplify_eq|].
  repeat case_match; simplify_eq; [lia| |done]. apply IH in H. lia.
Qed.

(** The scan runs to the end only over volumes that are all committing. *)
Lemma scan_volumes_all clock vols : forall k j k',
  scan_volumes clock k j vols = (None, k') ->
  Forall (fun v => exists t, vs_CommitStartTime v = Some t /\
                     exists m, k <= m < k' /\ (clock m <= t + commitTimeout)%Z) vols.
Proof.
  induction vols as [|v vols IH]; intros k j k' H; simpl in H; [done|].
  destruct (vs_CommitStartTime v) as [t|] eqn:Et; [|done].
  destruct (Z.ltb_spec (t + commitTimeout) (clock k)) as [|Hle]; [done|].
  pose proof (scan_volumes_count _ _ _ _ _ _ H) as Hk. apply IH in H. constructor.
  - exists t. split; [done|]. exists k. lia.
  - eapply Forall_impl; [exact H|]. simpl. intros w (t' & ? & m & ? & ?).
    exists t'. split; [done|]. exists m. lia.
Qed.

Lemma scan_nodes_all clock nodes : forall k i k',
  scan_nodes clock k i nodes = (None, k') ->
  Forall (fun v => vs_CommitStartTime v <> None) (entries nodes).*2.
Proof.
  induction nodes as [|n nodes IH]; intros k i k' H; simpl in H; [constructor|].
  destruct (scan_volumes clock k 0 (ns_Volumes n)) as [[[j b]|] k1] eqn:Es; [done|].
  apply IH in H. apply scan_volumes_all in Es.
  change (entries (n :: nodes)) with (node_entries n ++ entries nodes).
  rewrite fmap_app. apply Forall_app. split; [|done].
  unfold node_entries. rewrite <- list_fmap_compose. apply Forall_fmap.
  eapply Forall_impl; [exact Es|]. simpl. intros v (t & -> & _). done.
Qed.

(** The scan stops at an idle volume without changing anything. *)
Lemma scan_nodes_idle clock nodes : forall k i,
  Forall (fun v => vs_CommitStartTime v = None) (entries nodes).*2 ->
  scan_nodes clock k i nodes = (None, k) \/
  exists i' j', scan_nodes clock k i nodes = (Some (i', j', false), k).
Proof.
  induction nodes as [|n nodes IH]; intros k i H; simpl; [by left|].
  change (entries (n :: nodes)) with (node_entries n ++ entries nodes) in H.
  rewrite fmap_app in H. apply Forall_app in H as [H1 H2].
  destruct (ns_Volumes n) as [|v vols] eqn:E; simpl; [by apply IH|].
  unfold node_entries in H1. rewrite E in H1. inversion H1 as [|? ? Hv]; subst. simpl in Hv.
  rewrite Hv. eauto.
Qed.

Lemma prepare_edit_idle node vol b c clock :
  Forall (fun v => vs_CommitStartTime v = None) (volumes (c_Status c)) ->
  prepare_edit node vol b c clock = (c, false).
Proof.
  intros Hidle. unfold prepare_edit.
  destruct (_ || _); [done|].
  destruct (findVolume c node vol) as [[i j]|] eqn:Ef; [|done].
  apply findVolume_inl in Ef as (n & v & Hi & Hj & _).
  match goal with |- context [if ?b then _ else _] => destruct b end; [|done].
  unfold commitInProgress.
  destruct (scan_nodes_idle clock (st_Nodes (c_Status c)) 0 0 Hidle) as [E|(i' & j' & E)];
    rewrite E; [|done].
  apply scan_nodes_all in E.
  pose proof (volumes_lookup _ _ _ _ _ Hi Hj) as Hin.
  unfold volumes in Hidle. rewrite Forall_forall in E, Hidle.
  by destruct (E v Hin (Hidle v Hin)).
Qed.

(** A granted commit was already running: [commitInProgress] answers true as
    soon as one volume, for example the asking one, has no commit running. *)
Lemma prepare_edit_grants node vol b c c' clock :
  prepare_edit node vol b c clock = (c', true) ->
  Forall (fun v => vs_CommitStartTime v <> None) (volumes (c_Status c)).
Proof.
  unfold prepare_edit, commitInProgress. intros H.
  repeat case_match; simplify_eq. by eapply scan_nodes_all.
Qed.

(** *** Preservation of the invariant *)

Lemma registered_ext cs cs' :
  entries (st_Nodes cs') = entries (st_Nodes cs) -> registered cs' = registered cs.
Proof. intros He. unfold registered. by rewrite He. Qed.

Lemma new_volume_generation c vol commit clock :
  let v := new_volume c vol commit clock in
  (0 <= st_CacheGeneration (c_Status c) < 2 ^ 63 - 1)%Z ->
  (vs_CacheGeneration v < 2 ^ 63)%Z /\
  (if vs_Committable v then st_CacheGeneration (c_Status c) < vs_CacheGeneration v
   else st_CacheGeneration (c_Status c) = vs_CacheGeneration v)%Z.
Proof.
  intros v Hg. unfold v, new_volume. simpl.
  destruct (commit && _); [rewrite int64_id by lia|]; lia.
Qed.

Lemma addVolume_inv c node vol commit clock :
  status_inv (c_Status c) -> (st_CacheGeneration (c_Status c) < 2 ^ 63 - 1)%Z ->
  status_inv (c_Status (addVolume c node vol commit clock).1).
Proof.
  intros Hinv Hg. pose proof (inv_wf _ Hinv) as Hwf. pose proof (inv_gen _ Hinv).
  destruct (registered (c_Status c) !! (node, vol)) as [v|] eqn:Hr.
  - destruct (addVolume_exists c node vol commit clock Hwf) as (nodes & e & -> & He & Hnd); [by eauto|].
    apply (status_inv_ext (c_Status c)); simpl; [done| |lia|done].
    destruct Hwf. split; simpl; [done|]. by rewrite He.
  - destruct (addVolume_fresh c node vol commit clock Hwf Hr) as (nodes & -> & He & Hnd).
    destruct (new_volume_generation c vol commit clock) as [Hmax Hnew]; [lia|].
    eapply status_inv_insert; [done| |done|done|done|done|done].
    by apply (wf_insert _ _ _ _ Hwf He).
Qed.

(** The invariant does not read the image, the counter or the phase. *)
Lemma status_inv_nodes cs cs' :
  status_inv cs -> st_Nodes cs' = st_Nodes cs ->
  (st_CacheGeneration cs <= st_CacheGeneration cs' < 2 ^ 63)%Z -> status_inv cs'.
Proof.
  intros Hinv Hn Hg. eapply status_inv_ext; [done| |done|by rewrite Hn].
  destruct (inv_wf _ Hinv). split; by rewrite Hn.
Qed.

Lemma apply_op_inv o c clock :
  status_inv (c_Status c) -> (st_CacheGeneration (c_Status c) < 2 ^ 63 - 1)%Z ->
  status_inv (c_Status (apply_op o c clock)).
Proof.
  intros Hinv Hg. destruct o as [n v i b|n v|n v e]; simpl.
  - rewrite register_edit_addVolume. simpl. apply addVolume_inv; simpl; [|done].
    eapply status_inv_nodes; [done..|]. simpl. pose proof (inv_gen _ Hinv). lia.
  - by rewrite prepare_edit_idle by apply Hinv.
  - destruct (unregister_edit_status n v e tt c clock (inv_wf _ Hinv))
      as (nodes & nd & -> & He & Hnd & _). simpl. by eapply status_inv_delete.
Qed.

(** ** Reachable caches

    A cache starts with an empty status.  Besides the operations of the
    [Updater], users edit its spec and metadata and the cache controller its
    phase, conditions and generation, which never decreases; none of them
    touches the registered volumes. *)
Inductive reachable : Cache -> Prop :=
| reachable_new m spec : reachable (mkCache m spec CacheStatus_zero)
| reachable_op c o clock :
    reachable c -> (st_CacheGeneration (c_Status c) < 2 ^ 63 - 1)%Z ->
    reachable (apply_op o c clock)
| reachable_other c c' :
    reachable c -> st_Nodes (c_Status c') = st_Nodes (c_Status c) ->
    (st_CacheGeneration (c_Status c) <= st_CacheGeneration (c_Status c') < 2 ^ 63)%Z ->
    reachable c'.

Lemma reachable_inv c : reachable c -> status_inv (c_Status c).
Proof.
  induction 1 as [m spec|c o clock _ IH Hg|c c' _ IH Hn Hg].
  - apply status_inv_zero.
  - by apply apply_op_inv.
  - by eapply status_inv_nodes.
Qed.

(** C3: in every reachable cache the node names and the volumes of a node are
    unique, every volume was registered at a generation between 0 and the
    generation of the cache, no two committable volumes share their generation,
    and no commit is running. *)
Theorem reachable_status_inv c :
  reachable c ->
  NoDup (ns_Name <$> st_Nodes (c_Status c)) /\
  (forall n, n ∈ st_Nodes (c_Status c) -> NoDup (vs_Name <$> ns_Volumes n)) /\
  (forall v, v ∈ volumes (c_Status c) ->
     0 <= vs_CacheGeneration v <= st_CacheGeneration (c_Status c) /\ vs_CommitStartTime v = None)%Z /\
  (forall i j v w, volumes (c_Status c) !! i = Some v -> volumes (c_Status c) !! j = Some w ->
     vs_Committable v = true -> vs_Committable w = true ->
     vs_CacheGeneration v = vs_CacheGeneration w -> i = j).
Proof.
  intros Hr. destruct (reachable_inv c Hr) as [[Hn Hv] Hg Hb Hc Hi].
  rewrite Forall_forall in Hb, Hi. split; [done|]. split; [|split].
  - intros n Hin. apply list_elem_of_split in Hin as (pre & post & Heq).
    rewrite Heq, entries_middle, !fmap_app in Hv.
    apply NoDup_app in Hv as (_ & _ & Hv). apply NoDup_app in Hv as (Hv & _ & _).
    unfold node_entries in Hv. rewrite <- list_fmap_compose in Hv.
    apply (NoDup_fmap_1 (pair (ns_Name n))). by rewrite <- list_fmap_compose.
  - intros v Hin. split; [by apply Hb|by apply Hi].
  - intros i j v w. by apply (NoDup_filter_fmap_inj (fun u => vs_Committable u = true)).
Qed.

Lemma reachable_status_inv_witness :
  let c := apply_op (OpRegister "node1" "pv2" "img" true)
             (apply_op (OpRegister "node1" "pv1" "img" true) Cache_zero (fun _ => 1%Z)) (fun _ => 2%Z) in
  length (volumes (c_Status c)) = 2 /\ NoDup (ns_Name <$> st_Nodes (c_Status c)).
Proof.
  intros c. split; [vm_compute; reflexivity|].
  apply (reachable_status_inv c). apply reachable_op; [apply reachable_op; [apply reachable_new|]|];
    vm_compute; reflexivity.
Defined.

(** C22: registering a volume inserts it into the map of registered volumes,
    unless the node already has a volume of that name, in which case the map
    and the generation stay; the usage counter is incremented at its machine
    width in both cases, the image is the one the cache already has or else the
    given default, and it is returned. *)
Theorem register_refines_insert node vol defaultImage commit image c clock c' image' :
  status_wf (c_Status c) ->
  register_edit node vol defaultImage commit image c clock = (c', image') ->
  image' = (if st_Image (c_Status c) ==? "" then defaultImage else st_Image (c_Status c)) /\
  st_Image (c_Status c') = image' /\
  st_Used (c_Status c') = int64 (st_Used (c_Status c) + 1) /\
  status_wf (c_Status c') /\
  match registered (c_Status c) !! (node, vol) with
  | Some _ =>
      registered (c_Status c') = registered (c_Status c) /\
      st_CacheGeneration (c_Status c') = st_CacheGeneration (c_Status c)
  | None =>
      registered (c_Status c') =
        <[(node, vol) := new_volume c vol commit clock]> (registered (c_Status c)) /\
      st_CacheGeneration (c_Status c') = vs_CacheGeneration (new_volume c vol commit clock)
  end.
Proof.
  intros Hwf H. rewrite register_edit_addVolume in H.
  pose (c1 := count_usage defaultImage c). fold c1 in H.
  assert (Hwf1 : status_wf (c_Status c1)) by (by apply count_usage_wf).
  destruct (registered (c_Status c) !! (node, vol)) as [v|] eqn:Hr.
  - destruct (addVolume_exists c1 node vol commit clock Hwf1) as (nodes & e & E & He & Hnd); [by eauto|].
    rewrite E in H. simplify_eq/=. do 3 (split; [done|]). split; [|split; [|done]].
    + destruct Hwf. split; simpl; [done|]. by rewrite He.
    + by apply registered_ext.
  - destruct (addVolume_fresh c1 node vol commit clock Hwf1 Hr) as (nodes & E & He & Hnd).
    rewrite E in H. simplify_eq/=. do 3 (split; [done|]).
    destruct (wf_insert (c_Status c1) nodes (vs_CacheGeneration (new_volume c vol commit clock))
      (node, vol, new_volume c vol commit clock) Hwf1 He Hnd Hr) as [Hw Hm].
    split; [exact Hw|]. split; [exact Hm|done].
Qed.

Lemma register_refines_insert_witness :
  st_Image (c_Status (register_edit "n" "v" "img" true "" Cache_zero (fun _ => 5%Z)).1) = "img".
Proof.
  apply (register_refines_insert "n" "v" "img" true "" Cache_zero (fun _ => 5%Z)
    (register_edit "n" "v" "img" true "" Cache_zero (fun _ => 5%Z)).1 "img");
    [split; constructor|reflexivity].
Defined.

Lemma unregister_edit_delete node vol commitErr c clock :
  status_wf (c_Status c) ->
  registered (c_Status (unregister_edit node vol commitErr tt c clock).1) =
    delete (node, vol) (registered (c_Status c)) /\
  status_wf (c_Status (unregister_edit node vol commitErr tt c clock).1).
Proof.
  intros Hwf. destruct (unregister_edit_status node vol commitErr tt c clock Hwf)
    as (nodes & n & E & He & Hnd & _). rewrite E.
  by destruct (wf_delete (c_Status c) nodes node vol Hwf He Hnd).
Qed.

(** C23: unregistering a volume deletes exactly it from the map of registered
    volumes and leaves image, generation and usage counter alone; the node
    records the commit error iff there was one. *)
Theorem unregister_refines_delete node vol commitErr c clock c' x :
  status_wf (c_Status c) ->
  unregister_edit node vol commitErr tt c clock = (c', x) ->
  registered (c_Status c') = delete (node, vol) (registered (c_Status c)) /\
  status_wf (c_Status c') /\
  c_Status c' = (c_Status c) <| st_Nodes := st_Nodes (c_Status c') |> /\
  exists n, n ∈ st_Nodes (c_Status c') /\ ns_Name n = node /\
    match commitErr with
    | None => ns_LastError n = None
    | Some e => exists ve, ns_LastError n = Some ve /\ ve_VolumeName ve = vol /\
                  ve_Error ve = Error e /\ ve_Happened ve = clock 1
    end.
Proof.
  intros Hwf H.
  destruct (unregister_edit_status node vol commitErr tt c clock Hwf)
    as (nodes & n & E & He & Hnd & Hin & Hname & Hnone & Hsome).
  rewrite E in H. injection H as <- <-.
  destruct (wf_delete (c_Status c) nodes node vol Hwf He Hnd) as [Hw Hm].
  split; [exact Hm|]. split; [exact Hw|]. split; [done|].
  exists n. split; [done|]. split; [done|]. destruct commitErr; [by apply Hsome|by apply Hnone].
Qed.

Lemma unregister_refines_delete_witness :
  let c := (register_edit "n" "v" "img" true "" Cache_zero (fun _ => 5%Z)).1 in
  registered (c_Status (unregister_edit "n" "v" (Some (Errorf "x")) tt c (fun _ => 6%Z)).1) = ∅.
Proof.
  intros c.
  destruct (unregister_refines_delete "n" "v" (Some (Errorf "x")) c (fun _ => 6%Z)
    (unregister_edit "n" "v" (Some (Errorf "x")) tt c (fun _ => 6%Z)).1 tt) as [H _].
  - split; vm_compute; repeat constructor; set_solver.
  - reflexivity.
  - rewrite H. vm_compute. reflexivity.
Defined.

(** Registering a volume that is not yet known and unregistering it again
    restores the map of registered volumes. *)
Theorem register_unregister_roundtrip node vol defaultImage commit err c clock1 clock2 :
  status_wf (c_Status c) ->
  registered (c_Status c) !! (node, vol) = None ->
  let c1 := (register_edit node vol defaultImage commit "" c clock1).1 in
  registered (c_Status (unregister_edit node vol err tt c1 clock2).1) = registered (c_Status c).
Proof.
  intros Hwf Hr c1. subst c1. rewrite register_edit_addVolume. simpl.
  pose (c0 := count_usage defaultImage c). fold c0.
  assert (Hwf0 : status_wf (c_Status c0)) by (by apply count_usage_wf).
  destruct (addVolume_fresh c0 node vol commit clock1 Hwf0 Hr) as (nodes & E & He & Hnd).
  rewrite E. unfold fst.
  destruct (wf_insert (c_Status c0) nodes (vs_CacheGeneration (new_volume c0 vol commit clock1))
    _ Hwf0 He Hnd Hr) as [Hw1 Hm1].
  match goal with |- context [unregister_edit _ _ _ _ ?c _] => set (c1 := c) end.
  destruct (unregister_edit_status node vol err tt c1 clock2 Hw1) as (nodes2 & n & -> & He2 & Hnd2 & _).
  destruct (wf_delete (c_Status c1) nodes2 node vol Hw1 He2 Hnd2) as [_ Hm2].
  transitivity (delete (node, vol) (registered (c_Status c1))); [exact Hm2|].
  transitivity (delete (node, vol) (<[(node, vol) := new_volume c0 vol commit clock1]> (registered (c_Status c0))));
    [by f_equal|]. by apply delete_insert_id.
Qed.

Lemma register_unregister_roundtrip_witness :
  registered (c_Status (unregister_edit "n" "v" None tt
    (register_edit "n" "v" "img" true "" Cache_zero (fun _ => 5%Z)).1 (fun _ => 6%Z)).1) = ∅.
Proof.
  rewrite (register_unregister_roundtrip "n" "v" "img" true None Cache_zero (fun _ => 5%Z) (fun _ => 6%Z));
    [reflexivity|split; constructor|reflexivity].
Defined.

(** At one instant, the volumes at which [commitInProgress] stops. *)
Definition idle_or_expired (now : Time) (v : VolumeStatus) : Prop :=
  vs_CommitStartTime v = None \/
  exists t, vs_CommitStartTime v = Some t /\ (t + commitTimeout < now)%Z.

Lemma scan_volumes_stop now vols : forall k j,
  is_Some (scan_volumes (fun _ => now) k j vols).1 <-> Exists (idle_or_expired now) vols.
Proof.
  induction vols as [|v vols IH]; intros k j; simpl.
  - rewrite is_Some_alt, Exists_nil. done.
  - rewrite Exists_cons. unfold idle_or_expired at 1.
    destruct (vs_CommitStartTime v) as [t|]; simpl; [|by split; eauto].
    destruct (Z.ltb_spec (t + commitTimeout) now); simpl.
    + split; [intros _|by eauto]. left; right. eauto.
    + rewrite IH. split; [by right|]. intros [[|(t' & [= <-] & ?)]|]; [done|lia|done].
Qed.

Lemma scan_nodes_stop now nodes : forall k i,
  is_Some (scan_nodes (fun _ => now) k i nodes).1 <-> Exists (idle_or_expired now) (entries nodes).*2.
Proof.
  induction nodes as [|n nodes IH]; intros k i; simpl.
  - rewrite is_Some_alt, Exists_nil. done.
  - change (entries (n :: nodes)) with (node_entries n ++ entries nodes).
    rewrite fmap_app, Exists_app. unfold node_entries at 1. rewrite <- list_fmap_compose, Exists_fmap.
    rewrite <- (IH (scan_volumes (fun _ => now) k 0 (ns_Volumes n)).2 (S i)).
    pose proof (scan_volumes_stop now (ns_Volumes n) k 0) as Hv.
    destruct (scan_volumes _ _ _ _) as [[[j b]|] k1]; simpl in *.
    + split; [intros _; left; by apply Hv|by eauto].
    + split; [by right|]. intros [H|H]; [|done]. by apply Hv in H as [? ?].
Qed.

(** [commitInProgress], read at one instant, answers true exactly if some
    registered volume is not inside a running commit: its commit has not
    started, or it started longer ago than the timeout. *)
Theorem commitInProgress_idle_or_expired c now :
  (commitInProgress c (fun _ => now)).1.2 = true <->
  exists v, v ∈ volumes (c_Status c) /\ idle_or_expired now v.
Proof.
  unfold volumes. rewrite <- list.Exists_exists, <- (scan_nodes_stop now _ 0 0).
  unfold commitInProgress.
  destruct (scan_nodes _ _ _ _) as [[[[i j] [|]]|] k]; simpl;
    [|by split; eauto|by rewrite is_Some_alt].
  split; [by eauto|intros _]. destruct (_ !! j); [|done]. by destruct (removeVolume _ _ _ _) as [[? ?] ?].
Qed.

(** C38: no reachable cache ever grants a commit, and asking for one changes
    nothing: [PrepareCommit] returns false whatever the volume, because the
    asking volume itself has no running commit yet. *)
Theorem prepare_never_grants c node vol b clock :
  reachable c -> prepare_edit node vol b c clock = (c, false).
Proof.
  intros Hr. by apply prepare_edit_idle, inv_idle, reachable_inv.
Qed.

Lemma prepare_never_grants_witness :
  let c := apply_op (OpRegister "node1" "pv1" "img" true) Cache_zero (fun _ => 1%Z) in
  (vs_Committable <$> volumes (c_Status c)) = [true] /\
  (prepare_edit "node1" "pv1" false c (fun _ => 2%Z)).2 = false.
Proof.
  intros c. split; [vm_compute; reflexivity|].
  rewrite (prepare_never_grants c "node1" "pv1" false (fun _ => 2%Z)); [reflexivity|].
  apply reachable_op; [apply reachable_new|vm_compute; reflexivity].
Defined.

(** A node of a well-formed status is the one [upsertNode] finds. *)
Lemma upsertNode_existing cs n now :
  status_wf cs -> n ∈ st_Nodes cs ->
  exists pre post,
    upsertNode cs (ns_Name n) now = (cs <| st_Nodes := pre ++ n <| ns_LastUsed := now |> :: post |>, length pre).
Proof.
  intros [Hnd _] Hin.
  destruct (upsertNode_spec cs (ns_Name n) now)
    as (pre & n1 & post & -> & Hname & Hpre & [(n0 & Hcs & ->)|(Hcs & -> & ->)]).
  - exists pre, post. assert (n0 = n) as ->; [|done]. simpl in Hname.
    apply list_elem_of_lookup in Hin as [i Hi].
    assert (Hj : st_Nodes cs !! length pre = Some n0) by (by rewrite Hcs, list_lookup_middle).
    assert (length pre = i) as <-; [|by simplify_eq].
    eapply (NoDup_lookup (ns_Name <$> st_Nodes cs)); [done| |].
    + by rewrite list_lookup_fmap, Hj.
    + by rewrite list_lookup_fmap, Hi; simpl; rewrite Hname.
  - rewrite Hcs in Hin. rewrite Forall_forall in Hpre. by destruct (Hpre n Hin).
Qed.

(** The generation recorded with a commit error is not that of the volume
    that failed: it is missing unless the node has another volume, and then it
    is the generation of the last volume of the node. *)
Theorem unregister_error_generation n vol e c clock :
  status_wf (c_Status c) -> n ∈ st_Nodes (c_Status c) ->
  exists n' ve,
    n' ∈ st_Nodes (c_Status (unregister_edit (ns_Name n) vol (Some e) tt c clock).1) /\
    ns_Name n' = ns_Name n /\ ns_LastError n' = Some ve /\
    ve_CacheGeneration ve =
      (if decide (filter (fun v => vs_Name v <> vol) (ns_Volumes n) = []) then None
       else vs_CacheGeneration <$> last (ns_Volumes n)).
Proof.
  intros Hwf Hin. unfold unregister_edit, removeVolume.
  destruct (upsertNode_existing (c_Status c) n (clock 0) Hwf Hin) as (pre & post & ->).
  set (n1 := n <| ns_LastUsed := clock 0 |>).
  rewrite (node_at_split _ pre n1 post) by done.
  rewrite (modify_node_split ((c_Status c) <| st_Nodes := pre ++ n1 :: post |>) pre n1 post) by done.
  erewrite modify_node_split by done.
  eexists _, _. split; [simpl; apply elem_of_app; right; by left|].
  split; [done|]. split; [done|]. simpl. by destruct (filter _ _).
Qed.

Lemma unregister_error_generation_witness :
  let c := apply_op (OpRegister "n" "b" "img" true)
             (apply_op (OpRegister "n" "a" "img" true) Cache_zero (fun _ => 1%Z)) (fun _ => 2%Z) in
  exists n n' ve, n ∈ st_Nodes (c_Status c) /\
    n' ∈ st_Nodes (c_Status (unregister_edit (ns_Name n) "a" (Some (Errorf "x")) tt c (fun _ => 3%Z)).1) /\
    ns_LastError n' = Some ve /\
    (vs_CacheGeneration <$> registered (c_Status c) !! ("n", "a")) = Some 1%Z /\
    ve_CacheGeneration ve = Some 2%Z.
Proof.
  intros c.
  destruct (unregister_error_generation (node_at (c_Status c) 0) "a" (Errorf "x") c (fun _ => 3%Z))
    as (n' & ve & H1 & H2 & H3 & H4).
  - split; vm_compute; repeat constructor; set_solver.
  - vm_compute. left.
  - exists (node_at (c_Status c) 0), n', ve. split; [vm_compute; left|]. split; [exact H1|].
    split; [exact H3|]. split; [vm_compute; reflexivity|]. rewrite H4. vm_compute. reflexivity.
Defined.
