(* ===== verification/ApiServer.v ===== *)
(** * The API server as an interface

    The Kubernetes API server is not part of this repository.  What the cache
    synchronisation relies on is its documented optimistic concurrency control
    for [Cache] resources, stated here as the laws of [OptimisticServer]: a
    resource version identifies one version of an object, reads answer some
    version that has been stored (possibly a stale one), and a status write is
    applied only to the version the writer has read.  [mem_server] is a
    concrete server that satisfies the laws. *)

From stdpp Require Import pretty.
From S2P Require Import Prelude Effects Api.

Definition cache_rv (c : Cache) : string := om_ResourceVersion (c_Meta c).

(** The server stamps a stored object with a new resource version. *)
Definition with_rv (rv : string) (c : Cache) : Cache :=
  c <| c_Meta := (c_Meta c) <| om_ResourceVersion := rv |> |>.

(** A status write takes over the status of the request only. *)
Definition store_status (cur o : Cache) : Cache := cur <| c_Status := c_Status o |>.

(** The status of a created object is dropped. *)
Definition without_status (o : Cache) : Cache := o <| c_Status := CacheStatus_zero |>.

Class OptimisticServer (St : Type) := {
  (** [answers c s x s']: in state [s] the server may answer call [c] with [x]
      and move to [s']. *)
  answers : forall c : kcmd, St -> kresp c -> St -> Prop;
  (** The caches currently stored, and every version stored so far. *)
  caches : St -> gmap NamespacedName Cache;
  versions : St -> gmap (NamespacedName * string) Cache;
  current_is_version : forall s n c,
    caches s !! n = Some c -> om_key (c_Meta c) = n /\ versions s !! (n, cache_rv c) = Some c;
  versions_grow : forall c s x s', answers c s x s' -> versions s ⊆ versions s';
  get_answers_version : forall n s c s',
    answers (Get KCache n) s (Ok c) s' ->
    om_key (c_Meta c) = n /\ versions s !! (n, cache_rv c) = Some c;
  status_write : forall o s x s',
    answers (StatusUpdate KCache o) s x s' ->
    (caches s' = caches s /\ forall c, x <> Ok c) \/
    exists cur rv, caches s !! om_key (c_Meta o) = Some cur /\ cache_rv cur = cache_rv o /\
      caches s' = <[om_key (c_Meta o) := with_rv rv (store_status cur o)]> (caches s);
  create_write : forall o s x s',
    answers (Create KCache o) s x s' ->
    caches s' = caches s \/
    exists c, caches s !! om_key (c_Meta o) = None /\ c_Status c = CacheStatus_zero /\
      caches s' = <[om_key (c_Meta o) := c]> (caches s);
  reads_only : forall c s x s',
    answers c s x s' ->
    match c with
    | Create KCache _ | Update KCache _ | StatusUpdate KCache _ | Delete KCache _ => True
    | _ => caches s' = caches s
    end
}.

(** ** A server in memory

    It counts resource versions and keeps every version it has stored. *)
Record mem := mkMem {
  mem_caches : gmap NamespacedName Cache;
  mem_versions : gmap (NamespacedName * string) Cache;
  mem_next : nat
}.

Definition mem_store (n : NamespacedName) (c : Cache) (s : mem) : Cache * mem :=
  let c' := with_rv (pretty (mem_next s)) c in
  (c', mkMem (<[n := c']> (mem_caches s)) (<[(n, cache_rv c') := c']> (mem_versions s))
         (S (mem_next s))).

Definition not_found : goerr := ApiErr ReasonNotFound "not found".
Definition already_exists : goerr := ApiErr ReasonAlreadyExists "already exists".
Definition conflict : goerr := ApiErr ReasonConflict "the object has been modified".

Definition mem_handle (c : kcmd) : mem -> kresp c * mem :=
  match c as c0 return mem -> kresp c0 * mem with
  | Get KCache n => fun s =>
      match mem_caches s !! n with
      | Some c => (Ok c, s)
      | None => (Err not_found, s)
      end
  | Create KCache o => fun s =>
      let n := om_key (c_Meta o) in
      match mem_caches s !! n with
      | Some _ => (Err already_exists, s)
      | None => let '(c, s) := mem_store n (without_status o) s in (Ok c, s)
      end
  | StatusUpdate KCache o => fun s =>
      let n := om_key (c_Meta o) in
      match mem_caches s !! n with
      | None => (Err not_found, s)
      | Some cur =>
          if cache_rv cur ==? cache_rv o
          then let '(c, s) := mem_store n (store_status cur o) s in (Ok c, s)
          else (Err conflict, s)
      end
  | c => fun s => (kresp_default c, s)
  end.

(** In the states the server runs through, every stored version carries a
    resource version it has issued. *)
Record mem_ok (s : mem) : Prop := {
  mem_current : forall n c, mem_caches s !! n = Some c ->
    om_key (c_Meta c) = n /\ mem_versions s !! (n, cache_rv c) = Some c;
  mem_issued : forall n rv c, mem_versions s !! (n, rv) = Some c ->
    exists i : nat, i < mem_next s /\ rv = pretty i
}.

Definition mem_empty : mem := mkMem ∅ ∅ 0.

Lemma mem_empty_ok : mem_ok mem_empty.
Proof. by split. Qed.

Lemma mem_store_ok n c s c' s' :
  mem_ok s -> om_key (c_Meta c) = n -> mem_store n c s = (c', s') ->
  mem_ok s' /\ mem_versions s ⊆ mem_versions s'.
Proof.
  intros [Hcur Hiss] Hn [= <- <-].
  assert (Hnew : mem_versions s !! (n, pretty (mem_next s)) = None).
  { destruct (mem_versions s !! (n, pretty (mem_next s))) as [c0|] eqn:E; [|done].
    apply Hiss in E as (i & Hi & Heq). apply (inj pretty) in Heq. lia. }
  split; [split; simpl|by apply insert_subseteq].
  - intros n' c0. destruct (decide (n = n')) as [<-|Hne].
    + rewrite lookup_insert_eq. intros [= <-]. split; [done|]. by rewrite lookup_insert_eq.
    + rewrite lookup_insert_ne by done. intros H. apply Hcur in H as [Hk H]. split; [done|].
      rewrite lookup_insert_ne by congruence. done.
  - intros n' rv c0. destruct (decide ((n, pretty (mem_next s)) = (n', rv))) as [[= <- <-]|Hne].
    + intros _. exists (mem_next s). split; [lia|done].
    + rewrite lookup_insert_ne by done. intros H. apply Hiss in H as (i & Hi & ->).
      exists i. split; [lia|done].
Qed.

Lemma mem_handle_ok c s x s' :
  mem_ok s -> mem_handle c s = (x, s') -> mem_ok s' /\ mem_versions s ⊆ mem_versions s'.
Proof.
  intros Hok H.
  destruct c as [k n|ns|k o|k o|k o|k o|? ? ? ?| |?|?|?]; simpl in H; try destruct k; simpl in H;
    try (by simplify_eq).
  - by destruct (mem_caches s !! n); simplify_eq.
  - destruct (mem_caches s !! om_key (c_Meta o)) eqn:E; [by simplify_eq|].
    simplify_eq. exact (mem_store_ok _ (without_status o) s _ _ Hok eq_refl eq_refl).
  - destruct (mem_caches s !! om_key (c_Meta o)) as [cur|] eqn:E; [|by simplify_eq].
    destruct (cache_rv cur ==? cache_rv o); [|by simplify_eq].
    simplify_eq. apply (mem_current _ Hok) in E as [Hk _].
    exact (mem_store_ok _ (store_status cur o) s _ _ Hok Hk eq_refl).
Qed.

(** The states of the server are the ones reachable by its own steps. *)
Definition mem_state := { s : mem | mem_ok s }.

Definition mem_answers (c : kcmd) (s : mem_state) (x : kresp c) (s' : mem_state) : Prop :=
  mem_handle c (`s) = (x, `s').

#[global] Program Instance mem_server : OptimisticServer mem_state := {
  answers := mem_answers;
  caches s := mem_caches (`s);
  versions s := mem_versions (`s)
}.
Next Obligation. intros [s Hs] n c H. by apply Hs. Qed.
Next Obligation. intros c [s Hs] x [s' Hs'] H. by apply (mem_handle_ok c s x s'). Qed.
Next Obligation.
  intros n [s Hs] c [s' Hs']. unfold mem_answers. simpl.
  destruct (mem_caches s !! n) eqn:E; [|done]. intros [= <- _]. by apply Hs.
Qed.
Next Obligation.
  intros o [s Hs] x [s' Hs']. unfold mem_answers. simpl.
  destruct (mem_caches s !! om_key (c_Meta o)) as [cur|] eqn:E.
  - destruct (cache_rv cur ==? cache_rv o) eqn:Ev.
    + intros [= <- <-]. right. exists cur, (pretty (mem_next s)).
      by apply bool_decide_eq_true in Ev.
    + intros [= <- <-]. by left.
  - intros [= <- <-]. by left.
Qed.
Next Obligation.
  intros o [s Hs] x [s' Hs']. unfold mem_answers. simpl.
  destruct (mem_caches s !! om_key (c_Meta o)) eqn:E; intros [= <- <-]; [by left|].
  right. by exists (with_rv (pretty (mem_next s)) (without_status o)).
Qed.
Next Obligation.
  intros c [s Hs] x [s' Hs']. unfold mem_answers. simpl. intros H.
  destruct c as [k n|ns|k o|k o|k o|k o|? ? ? ?| |?|?|?]; try destruct k; simpl in H; try done;
    try (by simplify_eq).
  by destruct (mem_caches s !! n); simplify_eq.
Qed.

(** Run a program against the server in memory. *)
Definition run_mem {A} (p : prog A) (s : mem) : list event * outcome A * mem :=
  exec (S := KubeSig) mem_handle p s.

Lemma run_mem_runs {A} (p : prog A) s o :
  (run_mem p s).1.2 = o -> runs p (run_mem p s).1.1 o.
Proof. intros <-. apply exec_runs_proj. Qed.
