(* ===== verification/CacheUpdater.v ===== *)
(** * The cache updater ([internal/ksync/sync.go], type [Updater])

    Each operation of the [Updater] is one read-modify-write of the status of
    a [Cache] resource, repeated while the API server reports a conflict.  The
    retry helper of client-go is not part of this repository: it is the
    interface [ConflictRetry], of which only the documented behaviour is used. *)

From S2P Require Import Prelude Effects Api ApiServer CacheStatusEdits.

(** ** Retrying on conflict

    [attempts fn n x tr o]: started with the captured variables [x], calling
    [fn] repeatedly, at most [S n] times and as long as it returns a conflict,
    performs the calls [tr] and ends with [o]. *)
Inductive attempts {X : Type} (fn : X -> prog (X * option goerr))
  : nat -> X -> list event -> outcome (X * option goerr) -> Prop :=
| attempts_last n x tr x' e :
    runs (fn x) tr (Returned (x', e)) ->
    (n = 0 \/ forall err, e = Some err -> IsConflict err = false) ->
    attempts fn n x tr (Returned (x', e))
| attempts_panic n x tr m :
    runs (fn x) tr (Panicked m) -> attempts fn n x tr (Panicked m)
| attempts_again n x tr x' err tr' o :
    runs (fn x) tr (Returned (x', Some err)) -> IsConflict err = true ->
    attempts fn n x' tr' o ->
    attempts fn (S n) x (tr ++ tr') o.

(** [retry.RetryOnConflict(backoff, fn)] with [S n] backoff steps. *)
Class ConflictRetry := {
  RetryOnConflict : forall {X : Type}, nat -> (X -> prog (X * option goerr)) -> X ->
    prog (X * option goerr);
  RetryOnConflict_attempts : forall X n (fn : X -> prog (X * option goerr)) x tr o,
    runs (RetryOnConflict n fn x) tr o -> attempts fn n x tr o
}.

(** An implementation, which shows that the interface can be satisfied. *)
Fixpoint retry_loop {X : Type} (n : nat) (fn : X -> prog (X * option goerr)) (x : X)
  : prog (X * option goerr) :=
  let! (x', e) := fn x in
  match e, n with
  | Some err, S n => if IsConflict err then retry_loop n fn x' else Ret (x', e)
  | _, _ => Ret (x', e)
  end.

Lemma retry_loop_attempts X n (fn : X -> prog (X * option goerr)) x tr o :
  runs (retry_loop n fn x) tr o -> attempts fn n x tr o.
Proof.
  revert x tr. induction n as [|n IH]; intros x tr H; simpl in H; apply runs_bind in H;
    destruct H as [(m & Hr & ->)|([x' e] & tr1 & tr2 & -> & Hr & Hf)];
    [by apply attempts_panic| |by apply attempts_panic|].
  - destruct e; simpl in Hf; destruct Hf as [-> ->]; rewrite app_nil_r; apply attempts_last; by auto.
  - destruct e as [err|]; simpl in Hf.
    + destruct (IsConflict err) eqn:Ec.
      * apply attempts_again with (x' := x') (err := err); [done..|]. by apply IH.
      * destruct Hf as [-> ->]. rewrite app_nil_r. apply attempts_last; [done|]. naive_solver.
    + destruct Hf as [-> ->]. rewrite app_nil_r. apply attempts_last; [done|]. naive_solver.
Qed.

Definition retry_loop_impl : ConflictRetry :=
  {| RetryOnConflict := @retry_loop; RetryOnConflict_attempts := retry_loop_attempts |}.

Section Updater.
Context `{!ConflictRetry}.

(** ** The operations *)

(** [backoff.Steps] is 10: nine repetitions after the first attempt. *)
Definition backoff_Steps : nat := 10.

(** One run of the closure passed to [RetryOnConflict]. *)
Definition update_attempt {X : Type} (name : NamespacedName) (create : bool)
    (modify : X -> Cache -> (nat -> Time) -> Cache * X) (x : X) : prog (X * option goerr) :=
  let! r := call (Get KCache name) in
  let! r :=
    match r with
    | Ok cache => Ret (Ok cache)
    | Err err =>
        if negb (IsNotFound err) || negb create then Ret (Err err)
        else
          let cache := Cache_zero <| c_Meta := ObjectMeta_zero <| om_Name := nn_Name name |>
                                                  <| om_Namespace := nn_Namespace name |> |> in
          let! rc := call (Create KCache cache) in
          match rc with
          | Err err => if negb (IsAlreadyExists err) then Ret (Err err) else call (Get KCache name)
          | Ok _ => call (Get KCache name)
          end
    end in
  match r with
  | Err err => Ret (x, Some err)
  | Ok cache =>
      let! clock := call Clock in
      let '(cache, x) := modify x cache clock in
      let! r := call (StatusUpdate KCache cache) in
      Ret (x, err_of r)
  end.

Definition updateCache {X : Type} (name : NamespacedName) (create : bool)
    (modify : X -> Cache -> (nat -> Time) -> Cache * X) (x : X) : prog (X * option goerr) :=
  RetryOnConflict (backoff_Steps - 1) (update_attempt name create modify) x.

Definition RegisterCacheVolume (cacheName : NamespacedName)
    (nodeName volumeName defaultImage : string) (commit : bool) : prog (string * option goerr) :=
  let! (image, err) :=
    updateCache cacheName true (register_edit nodeName volumeName defaultImage commit) "" in
  Ret (image, wrap_err "register volume in cluster" err).

Definition PrepareCommit (cacheName : NamespacedName) (nodeName volumeName : string)
  : prog (bool * option goerr) :=
  let! (commit, err) := updateCache cacheName false (prepare_edit nodeName volumeName) false in
  let '(commit, err) :=
    match err with
    | Some e => if IsNotFound e then (false, None) else (commit, err)
    | None => (commit, err)
    end in
  Ret (commit, wrap_err "prepare cache commit" err).

Definition UnregisterCacheVolume (cacheName : NamespacedName) (nodeName volumeName : string)
    (commitErr : option goerr) : prog (option goerr) :=
  let! (_, err) := updateCache cacheName false (unregister_edit nodeName volumeName commitErr) tt in
  let err :=
    match err with
    | Some e => if IsNotFound e then None else err
    | None => err
    end in
  Ret (wrap_err ("unregister volume " +++ quoted volumeName +++ " from cluster") err).

End Updater.

(** ** Proof rule for the retry interface *)

Section RetryRule.
Context {X : Type} (fn : X -> prog (X * option goerr))
  (I : X -> list event -> Prop) (G : list event -> cmd -> Prop)
  (Q : list event -> outcome (X * option goerr) -> Prop).
Hypothesis attempt_ok : forall x h, I x h ->
  wp (fn x) G (fun h' o => Q h' o /\
    forall x' e, o = Returned (x', Some e) -> IsConflict e = true -> I x' h') h.

Lemma attempts_post n x tr o h :
  attempts fn n x tr o -> I x h -> Q (rev tr ++ h) o.
Proof.
  intros Ha. revert h. induction Ha as [n x tr x' e Hr _|n x tr m Hr|n x tr x' err tr' o Hr Hc _ IH];
    intros h HI; destruct (wp_post _ _ _ _ _ _ (attempt_ok x h HI) Hr) as [HQ Hnext]; [done..|].
  rewrite rev_app_distr, <- app_assoc. apply IH. by eapply Hnext.
Qed.

Lemma attempts_guard n x tr o h tr0 c y tr1 :
  attempts fn n x tr o -> tr = tr0 ++ Ev c y :: tr1 -> I x h -> G (rev tr0 ++ h) c.
Proof.
  intros Ha. revert h tr0. induction Ha as [n x tr x' e Hr _|n x tr m Hr|n x tr x' err tr' o Hr Hc _ IH];
    intros h tr0 Heq HI.
  - subst tr. by eapply wp_guard; [exact (attempt_ok x h HI)|].
  - subst tr. by eapply wp_guard; [exact (attempt_ok x h HI)|].
  - apply app_eq_app in Heq as (l & [[-> Hl]|[-> Hl]]).
    + destruct l as [|e l]; simpl in Hl.
      * rewrite app_nil_r in Hr.
        destruct (wp_post _ _ _ _ _ _ (attempt_ok x h HI) Hr) as [_ Hnext].
        apply (IH (rev tr0 ++ h) []); [by rewrite Hl|by eapply Hnext].
      * injection Hl as <- Hl. eapply wp_guard; [exact (attempt_ok x h HI)|exact Hr].
    + destruct (wp_post _ _ _ _ _ _ (attempt_ok x h HI) Hr) as [_ Hnext].
      rewrite rev_app_distr, <- app_assoc. apply IH; [done|by eapply Hnext].
Qed.

Lemma wp_retry `{!ConflictRetry} n x h :
  I x h -> wp (RetryOnConflict n fn x) G Q h.
Proof.
  intros HI. apply wp_complete; [exact kresp_default| |].
  - intros tr o Hr. apply RetryOnConflict_attempts in Hr. by eapply attempts_post.
  - intros tr c y tr' o Hr. apply RetryOnConflict_attempts in Hr. by eapply attempts_guard.
Qed.

End RetryRule.

(** ** Every update is one read-modify-write *)

Section Atomic.
Context `{!ConflictRetry} {X : Type} (name : NamespacedName)
  (modify : X -> Cache -> (nat -> Time) -> Cache * X).

(** The error that a call was answered with. *)
Definition event_error (e : event) : option goerr :=
  match e with
  | Ev (Get _ _) (Err e) | Ev (Create _ _) (Err e) | Ev (StatusUpdate _ _) (Err e) => Some e
  | _ => None
  end.

(** The only cache a status is written for is the one read last. *)
Definition rmw_guard (create : bool) (h : list event) (c : cmd) : Prop :=
  match c with
  | StatusUpdate KCache o =>
      exists x cache clock h0, h = Ev Clock clock :: Ev (Get KCache name) (Ok cache) :: h0 /\
        o = (modify x cache clock).1
  | Create KCache o =>
      create = true /\ om_key (c_Meta o) = name /\ c_Status o = CacheStatus_zero
  | Get KCache n => n = name
  | Clock => True
  | _ => False
  end.

Definition rmw_post (h : list event) (o : outcome (X * option goerr)) : Prop :=
  match o with
  | Returned (x', None) =>
      exists x cache clock cache' h0,
        h = Ev (StatusUpdate KCache (modify x cache clock).1) (Ok cache') :: Ev Clock clock ::
            Ev (Get KCache name) (Ok cache) :: h0 /\
        x' = (modify x cache clock).2
  | Returned (_, Some e) => exists ev h0, h = ev :: h0 /\ event_error ev = Some e
  | Panicked _ => False
  end.

Lemma update_attempt_rmw create x h :
  wp (update_attempt name create modify x) (rmw_guard create) rmw_post h.
Proof.
  unfold update_attempt. simpl. split; [done|].
  assert (Hmod : forall cache h0, 
    wp (let! clock := call Clock in
        let '(cache, x) := modify x cache clock in
        let! r := call (StatusUpdate KCache cache) in Ret (x, err_of r))
      (rmw_guard create) rmw_post (Ev (Get KCache name) (Ok cache) :: h0)).
  { intros cache h0. simpl. split; [done|]. intros clock.
    destruct (modify x cache clock) as [cache' x'] eqn:Em. simpl.
    split; [exists x, cache, clock, h0; by rewrite Em|].
    intros [o|e]; simpl; [|by do 2 eexists].
    exists x, cache, clock, o, h0. by rewrite Em. }
  intros [cache|e]; simpl; [by apply Hmod|].
  destruct (negb (IsNotFound e) || negb create) eqn:Eb; simpl; [by do 2 eexists|].
  apply orb_false_elim in Eb as [_ Eb]. apply negb_false_iff in Eb.
  split; [by destruct name|]. intros [c'|e']; simpl.
  - split; [done|]. intros [cache|e']; simpl; [by apply Hmod|by do 2 eexists].
  - destruct (negb (IsAlreadyExists e')); simpl; [by do 2 eexists|].
    split; [done|]. intros [cache|e'']; simpl; [by apply Hmod|by do 2 eexists].
Qed.

Lemma updateCache_rmw create x h :
  wp (updateCache name create modify x) (rmw_guard create) rmw_post h.
Proof.
  unfold updateCache. eapply wp_retry with (I := fun _ _ => True); [|done].
  intros x' h' _. eapply wp_mono; [apply update_attempt_rmw|done|]. naive_solver.
Qed.

End Atomic.

(** Traces are chronological, histories latest first. *)
Lemma rev_three {A} (tr : list A) (a b c : A) l :
  rev tr ++ [] = a :: b :: c :: l -> tr = rev l ++ [c; b; a].
Proof.
  rewrite app_nil_r. intros H. rewrite <- (rev_involutive tr), H. simpl. by rewrite <- !app_assoc.
Qed.

(** ** Properties *)

Section Properties.
Context `{!ConflictRetry}.

(** The number of status writes in a trace. *)
Definition is_cache_write (e : event) : bool :=
  match ev_cmd e with
  | StatusUpdate KCache _ => true
  | _ => false
  end.

Definition cache_writes (tr : list event) : nat := length (List.filter is_cache_write tr).

Lemma cache_writes_app tr tr' : cache_writes (tr ++ tr') = cache_writes tr + cache_writes tr'.
Proof. unfold cache_writes. by rewrite List.filter_app, length_app. Qed.

Lemma update_attempt_one_write {X} name create (modify : X -> Cache -> (nat -> Time) -> Cache * X) x tr o :
  runs (update_attempt name create modify x) tr o -> cache_writes tr <= 1.
Proof.
  intros Hr.
  assert (Hwp : wp (update_attempt name create modify x)
    (fun h c => True) (fun h _ => cache_writes h <= 1) []).
  { assert (Hmod : forall h0 cache, cache_writes h0 = 0 ->
      wp (let! clock := call Clock in
          let '(cache, x) := modify x cache clock in
          let! r := call (StatusUpdate KCache cache) in Ret (x, err_of r))
        (fun h c => True) (fun h _ => cache_writes h <= 1) h0).
    { intros h0 cache H0. simpl. split; [done|]. intros clock. destruct (modify _ _ _). simpl.
      split; [done|]. intros r. unfold cache_writes in *. simpl. lia. }
    unfold update_attempt. simpl. split; [done|]. intros [cache|e]; simpl; [by apply Hmod|].
    destruct (_ || _); simpl; [unfold cache_writes; simpl; lia|]. split; [done|].
    intros [c'|e']; simpl.
    - split; [done|]. intros [cache|e']; simpl; [by apply Hmod|unfold cache_writes; simpl; lia].
    - destruct (negb _); simpl; [unfold cache_writes; simpl; lia|].
      split; [done|]. intros [cache|e'']; simpl; [by apply Hmod|unfold cache_writes; simpl; lia]. }
  apply (wp_post _ _ _ _ _ _ Hwp) in Hr. rewrite app_nil_r in Hr.
  unfold cache_writes in *. rewrite List.filter_rev, length_rev in Hr. done.
Qed.

(** An update sends at most ten status writes, one per backoff step. *)
Theorem updateCache_bounded_writes {X} name create
    (modify : X -> Cache -> (nat -> Time) -> Cache * X) x tr o :
  runs (updateCache name create modify x) tr o -> cache_writes tr <= backoff_Steps.
Proof.
  unfold updateCache. intros Hr. apply RetryOnConflict_attempts in Hr.
  assert (forall n, attempts (update_attempt name create modify) n x tr o -> cache_writes tr <= S n) as Hn.
  { clear Hr. intros n Ha. induction Ha as [n x tr x' e Hr _|n x tr m Hr|n x tr x' err tr' o Hr Hc _ IH];
      apply update_attempt_one_write in Hr; [lia..|]. rewrite cache_writes_app. lia. }
  by apply Hn in Hr.
Qed.

(** A successful registration ends with one read of the cache followed by
    one write of exactly that cache with the volume registered, and returns the
    image written. *)
Theorem register_read_modify_write name node vol defaultImage commit tr image :
  runs (RegisterCacheVolume name node vol defaultImage commit) tr (Returned (image, None)) ->
  exists tr0 cache clock stored,
    tr = tr0 ++ [Ev (Get KCache name) (Ok cache); Ev Clock clock;
                 Ev (StatusUpdate KCache (register_edit node vol defaultImage commit "" cache clock).1)
                    (Ok stored)] /\
    image = (register_edit node vol defaultImage commit "" cache clock).2.
Proof.
  unfold RegisterCacheVolume. intros Hr. apply runs_bind in Hr.
  destruct Hr as [(m & _ & ?)|([img err] & tr1 & tr2 & -> & Hr & Hf)]; [done|].
  simpl in Hf. destruct Hf as [-> [= -> Herr]]. symmetry in Herr. apply wrap_err_None in Herr as ->.
  pose proof (wp_post _ _ _ _ _ _
    (updateCache_rmw name (register_edit node vol defaultImage commit) true "" []) Hr)
    as (x & cache & clock & stored & h0 & Heq & ->).
  apply rev_three in Heq. exists (rev h0), cache, clock, stored.
  rewrite app_nil_r, Heq, !register_edit_addVolume. done.
Qed.

Lemma updateCache_no_create {X} name (modify : X -> Cache -> (nat -> Time) -> Cache * X) x tr o :
  runs (updateCache name false modify x) tr o -> forall k c y, Ev (Create k c) y ∉ tr.
Proof.
  intros Hr k c y Hin. apply list_elem_of_split in Hin as (l1 & l2 & ->).
  pose proof (wp_guard _ _ _ _ _ _ _ _ _ (updateCache_rmw name modify false x []) Hr) as Hg.
  destruct k; simpl in Hg; [done..| |done]. by destruct Hg as [? _].
Qed.

(** The operations of the updater never panic. *)
Lemma updateCache_no_panic {X} name create (modify : X -> Cache -> (nat -> Time) -> Cache * X) x tr m :
  ~ runs (updateCache name create modify x) tr (Panicked m).
Proof. intros Hr. exact (wp_post _ _ _ _ _ _ (updateCache_rmw name modify create x []) Hr). Qed.

Lemma register_no_panic name node vol image commit tr m :
  ~ runs (RegisterCacheVolume name node vol image commit) tr (Panicked m).
Proof.
  intros Hr. apply runs_bind in Hr as [(m' & Hr & _)|([i e] & ? & ? & _ & _ & [_ [=]])].
  by apply updateCache_no_panic in Hr.
Qed.

Lemma prepare_no_panic name node vol tr m :
  ~ runs (PrepareCommit name node vol) tr (Panicked m).
Proof.
  intros Hr. apply runs_bind in Hr as [(m' & Hr & _)|([b e] & ? & ? & _ & _ & Hf)].
  - by apply updateCache_no_panic in Hr.
  - destruct e as [e|]; [destruct (IsNotFound e)|]; by destruct Hf as [_ [=]].
Qed.

Lemma unregister_no_panic name node vol err tr m :
  ~ runs (UnregisterCacheVolume name node vol err) tr (Panicked m).
Proof.
  intros Hr. apply runs_bind in Hr as [(m' & Hr & _)|([u e] & ? & ? & _ & _ & [_ [=]])].
  by apply updateCache_no_panic in Hr.
Qed.

Lemma IsNotFound_wrap m e : IsNotFound (Wrap m e) = IsNotFound e.
Proof. done. Qed.

(** Unregistering succeeds only with the cache in a state without the
    volume: the last three calls read a cache, and write that cache with the
    volume removed and everything else registered as before; or the server has
    answered that the cache does not exist. *)
Theorem unregister_read_modify_write name node vol commitErr tr :
  runs (UnregisterCacheVolume name node vol commitErr) tr (Returned None) ->
  (exists tr0 cache clock stored,
    let written := (unregister_edit node vol commitErr tt cache clock).1 in
    tr = tr0 ++ [Ev (Get KCache name) (Ok cache); Ev Clock clock;
                 Ev (StatusUpdate KCache written) (Ok stored)] /\
    (status_wf (c_Status cache) ->
     registered (c_Status written) = delete (node, vol) (registered (c_Status cache)))) \/
  (exists tr0 ev e, tr = tr0 ++ [ev] /\ event_error ev = Some e /\ IsNotFound e = true).
Proof.
  unfold UnregisterCacheVolume. intros Hr. apply runs_bind in Hr.
  destruct Hr as [(m & _ & ?)|([u err] & tr1 & tr2 & -> & Hr & Hf)]; [done|].
  destruct Hf as [-> [= Herr]]. symmetry in Herr. apply wrap_err_None in Herr.
  pose proof (wp_post _ _ _ _ _ _
    (updateCache_rmw name (unregister_edit node vol commitErr) false tt []) Hr) as Hpost.
  rewrite app_nil_r. destruct err as [e|]; simpl in Hpost.
  - destruct (IsNotFound e) eqn:En; [|done]. right. destruct Hpost as (ev & h0 & Heq & He).
    exists (rev h0), ev, e. split; [|done].
    rewrite <- (rev_involutive tr1), <- (app_nil_r (rev tr1)), Heq. done.
  - left. destruct Hpost as ([] & cache & clock & stored & h0 & Heq & _).
    apply rev_three in Heq. exists (rev h0), cache, clock, stored. split; [done|].
    intros Hwf. by apply unregister_edit_delete.
Qed.

(** Neither preparing a commit nor unregistering a volume ever creates
    a cache, and a missing cache is not reported as an error. *)
Theorem prepare_unregister_no_create name node vol commitErr tr1 r1 tr2 r2 :
  runs (PrepareCommit name node vol) tr1 (Returned r1) ->
  runs (UnregisterCacheVolume name node vol commitErr) tr2 (Returned r2) ->
  (forall k c y, (Ev (Create k c) y ∉ tr1) /\ (Ev (Create k c) y ∉ tr2)) /\
  (forall e, snd r1 = Some e \/ r2 = Some e -> IsNotFound e = false).
Proof.
  unfold PrepareCommit, UnregisterCacheVolume. intros H1 H2.
  apply runs_bind in H1 as [(m & _ & ?)|([commit err1] & ta & tb & -> & H1 & Hf1)]; [done|].
  apply runs_bind in H2 as [(m & _ & ?)|([u err2] & tc & td & -> & H2 & Hf2)]; [done|].
  split.
  - intros k c y. pose proof (updateCache_no_create _ _ _ _ _ H1 k c y).
    pose proof (updateCache_no_create _ _ _ _ _ H2 k c y).
    assert (tb = []) as -> by (destruct err1 as [e1|]; [destruct (IsNotFound e1)|]; apply Hf1).
    assert (td = []) as -> by apply Hf2. by rewrite !app_nil_r.
  - intros e He. destruct Hf2 as [_ [= ->]].
    destruct He as [He|He].
    + destruct err1 as [e1|]; [destruct (IsNotFound e1) eqn:E1|]; simpl in Hf1;
        destruct Hf1 as [_ [= ->]]; simpl in He; simplify_eq; by rewrite IsNotFound_wrap.
    + destruct err2 as [e2|]; [destruct (IsNotFound e2) eqn:E2|]; simpl in He; simplify_eq.
      by rewrite IsNotFound_wrap.
Qed.

End Properties.

(** ** Concrete runs against the server in memory *)

Module Witness.
#[local] Existing Instance retry_loop_impl.

Definition key : NamespacedName := mkNamespacedName "build" "default".
Definition register (vol : string) : prog (string * option goerr) :=
  RegisterCacheVolume key "node1" vol "registry/cache" true.

Lemma updateCache_bounded_writes_witness :
  let p := updateCache key true (register_edit "node1" "pv1" "registry/cache" true) "" in
  cache_writes (run_mem p mem_empty).1.1 = 1 /\
  cache_writes (run_mem p mem_empty).1.1 <= backoff_Steps.
Proof.
  split; [vm_compute; reflexivity|].
  apply (updateCache_bounded_writes key true (register_edit "node1" "pv1" "registry/cache" true) ""
    _ (run_mem (updateCache key true (register_edit "node1" "pv1" "registry/cache" true) "")
        mem_empty).1.2).
  by apply run_mem_runs.
Defined.

Lemma register_read_modify_write_witness :
  (run_mem (register "pv1") mem_empty).1.2 = Returned ("registry/cache", None) /\
  exists tr0 cache clock stored,
    (run_mem (register "pv1") mem_empty).1.1 =
      tr0 ++ [Ev (Get KCache key) (Ok cache); Ev Clock clock;
              Ev (StatusUpdate KCache (register_edit "node1" "pv1" "registry/cache" true "" cache clock).1)
                 (Ok stored)] /\
    "registry/cache" = (register_edit "node1" "pv1" "registry/cache" true "" cache clock).2.
Proof.
  assert (E : (run_mem (register "pv1") mem_empty).1.2 = Returned ("registry/cache", None))
    by (vm_compute; reflexivity).
  split; [exact E|].
  apply (register_read_modify_write key "node1" "pv1" "registry/cache" true).
  exact (run_mem_runs _ _ _ E).
Defined.

Lemma unregister_read_modify_write_witness :
  let s := (run_mem (register "pv1") mem_empty).2 in
  let p := UnregisterCacheVolume key "node1" "pv1" None in
  (run_mem p s).1.2 = Returned None /\ length (run_mem p s).1.1 = 3 /\
  ((exists tr0 cache clock stored,
    let written := (unregister_edit "node1" "pv1" None tt cache clock).1 in
    (run_mem p s).1.1 = tr0 ++ [Ev (Get KCache key) (Ok cache); Ev Clock clock;
                 Ev (StatusUpdate KCache written) (Ok stored)] /\
    (status_wf (c_Status cache) ->
     registered (c_Status written) = delete ("node1", "pv1") (registered (c_Status cache)))) \/
   (exists tr0 ev e, (run_mem p s).1.1 = tr0 ++ [ev] /\ event_error ev = Some e /\
     IsNotFound e = true)).
Proof.
  intros s p.
  assert (E : (run_mem p s).1.2 = Returned None) by (vm_compute; reflexivity).
  split; [exact E|]. split; [vm_compute; reflexivity|].
  apply (unregister_read_modify_write key "node1" "pv1" None). exact (run_mem_runs _ _ _ E).
Defined.

Lemma prepare_unregister_no_create_witness :
  forall k c y,
    Ev (Create k c) y ∉ (run_mem (PrepareCommit key "node1" "pv1") mem_empty).1.1.
Proof.
  assert (E1 : (run_mem (PrepareCommit key "node1" "pv1") mem_empty).1.2 = Returned (false, None))
    by (vm_compute; reflexivity).
  assert (E2 : (run_mem (UnregisterCacheVolume key "node1" "pv1" None) mem_empty).1.2 = Returned None)
    by (vm_compute; reflexivity).
  intros k c y.
  apply (prepare_unregister_no_create key "node1" "pv1" None _ _ _ _
    (run_mem_runs _ _ _ E1) (run_mem_runs _ _ _ E2)).
Defined.

End Witness.
