(* ===== verification/CacheConcurrency.v ===== *)
(** * Concurrent updaters

    Any number of updaters (one per de/provisioner Pod of the cluster) work on
    the caches of one API server at the same time.  Their calls interleave
    arbitrarily.  The theorems show that every successful update nevertheless
    takes effect atomically: the programs of [CacheUpdater] refine the status
    operations of [CacheStatusEdits]. *)

From S2P Require Import Prelude Effects Api ApiServer CacheStatusEdits CacheUpdater.

Section Concurrency.
Context `{!ConflictRetry} {St : Type} `{!OptimisticServer St}.

(** The program of an operation, run for its effect. *)
Definition op_prog (o : op) (n : NamespacedName) : prog unit :=
  match o with
  | OpRegister node vol image commit => do! RegisterCacheVolume n node vol image commit in Ret tt
  | OpPrepare node vol => do! PrepareCommit n node vol in Ret tt
  | OpUnregister node vol err => do! UnregisterCacheVolume n node vol err in Ret tt
  end.

(** What a thread may send: a status write is its operation applied to the
    cache it has read last. *)
Definition op_guard (o : op) (n : NamespacedName) (h : list event) (c : cmd) : Prop :=
  match c with
  | StatusUpdate KCache obj =>
      exists cache clock, Ev (Get KCache n) (Ok cache) ∈ h /\ obj = apply_op o cache clock
  | Create KCache obj => om_key (c_Meta obj) = n /\ c_Status obj = CacheStatus_zero
  | Update KCache _ | Delete KCache _ => False
  | _ => True
  end.

Lemma rmw_op_guard {X} o n (modify : X -> Cache -> (nat -> Time) -> Cache * X) create h c :
  (forall x cache clock, (modify x cache clock).1 = apply_op o cache clock) ->
  rmw_guard n modify create h c -> op_guard o n h c.
Proof.
  intros Hm. destruct c as [k ?|?|k ?|k ?|k ?|k ?|? ? ? ?| |?|?|?]; try destruct k; simpl; try done.
  - by intros (_ & ? & ?).
  - intros (x & cache & clock & h0 & -> & ->). exists cache, clock. split; [set_solver|]. apply Hm.
Qed.

Lemma updateCache_op_guard {X} o n (modify : X -> Cache -> (nat -> Time) -> Cache * X) create x h :
  (forall x cache clock, (modify x cache clock).1 = apply_op o cache clock) ->
  wp (updateCache n create modify x) (op_guard o n) (fun _ _ => True) h.
Proof.
  intros Hm. eapply wp_mono; [apply updateCache_rmw| |done].
  intros h' c. by apply rmw_op_guard.
Qed.

Lemma prepare_edit_fst node vol b b' c clock :
  (prepare_edit node vol b c clock).1 = (prepare_edit node vol b' c clock).1.
Proof. done. Qed.

Lemma op_prog_guard o n h : wp (op_prog o n) (op_guard o n) (fun _ _ => True) h.
Proof.
  destruct o as [node vol image commit|node vol|node vol err]; simpl;
    unfold RegisterCacheVolume, PrepareCommit, UnregisterCacheVolume; rewrite !wp_bind;
    (eapply wp_mono; [apply updateCache_op_guard| done |]).
  - intros x cache clock. simpl. by rewrite !register_edit_addVolume.
  - intros h' [[x e]|m] _; done.
  - intros x cache clock. done.
  - intros h' [[x e]|m] _; [|done]. simpl. destruct e as [e|]; [destruct (IsNotFound e)|]; done.
  - intros [] cache clock. done.
  - intros h' [[x e]|m] _; done.
Qed.

(** ** Interleavings *)

Record thread := mkThread {
  th_op : op;
  th_key : NamespacedName;
  th_prog : prog unit;
  th_hist : list event
}.

Definition spawn (p : op * NamespacedName) : thread :=
  mkThread p.1 p.2 (op_prog p.1 p.2) [].

(** Steps of other API clients: they delete caches, create empty ones, and
    edit anything but the registered volumes without lowering a generation. *)
Definition other_clients (s s' : St) : Prop :=
  versions s ⊆ versions s' /\
  forall n c', caches s' !! n = Some c' ->
    c_Status c' = CacheStatus_zero \/
    exists c, caches s !! n = Some c /\ st_Nodes (c_Status c') = st_Nodes (c_Status c) /\
      (st_CacheGeneration (c_Status c) <= st_CacheGeneration (c_Status c') < 2 ^ 63)%Z.

Inductive pool_step : St * list thread -> St * list thread -> Prop :=
| pool_thread s s' ts i t c k x :
    ts !! i = Some t -> th_prog t = Call c k -> answers c s x s' ->
    pool_step (s, ts) (s', <[i := mkThread (th_op t) (th_key t) (k x) (Ev c x :: th_hist t)]> ts)
| pool_spawn s ts p :
    pool_step (s, ts) (s, ts ++ [spawn p])
| pool_others s s' ts :
    other_clients s s' -> pool_step (s, ts) (s', ts).

(** No generation counter is about to overflow. *)
Definition generations_left (s : St) : Prop :=
  forall n c, caches s !! n = Some c -> (st_CacheGeneration (c_Status c) < 2 ^ 63 - 1)%Z.

(** The states a pool runs through, started with no thread and no cache. *)
Inductive pool_reachable : St * list thread -> Prop :=
| pool_init s : caches s = ∅ -> pool_reachable (s, [])
| pool_next s ts s' ts' :
    pool_reachable (s, ts) -> generations_left s -> pool_step (s, ts) (s', ts') ->
    pool_reachable (s', ts').

(** ** The invariant *)

(** The cache an event has read, with its key. *)
Definition got_cache (e : event) : option (NamespacedName * Cache) :=
  match ev_cmd e as c return resp c -> option (NamespacedName * Cache) with
  | Get KCache n => fun r => match r with Ok c => Some (n, c) | Err _ => None end
  | _ => fun _ => None
  end (ev_resp e).

Definition thread_ok (s : St) (t : thread) : Prop :=
  wp (th_prog t) (op_guard (th_op t) (th_key t)) (fun _ _ => True) (th_hist t) /\
  forall e n c, e ∈ th_hist t -> got_cache e = Some (n, c) ->
    om_key (c_Meta c) = n /\ versions s !! (n, cache_rv c) = Some c.

Definition pool_ok (st : St * list thread) : Prop :=
  (forall n c, caches st.1 !! n = Some c -> reachable c) /\
  forall t, t ∈ st.2 -> thread_ok st.1 t.

Lemma thread_ok_grow s s' t : versions s ⊆ versions s' -> thread_ok s t -> thread_ok s' t.
Proof.
  intros Hsub [Hwp Hh]. split; [done|]. intros e n c Hin He.
  destruct (Hh e n c Hin He) as [Hk Hv]. split; [done|]. by eapply lookup_weaken.
Qed.

Lemma answers_got_cache (c : kcmd) (x : kresp c) s s' n c0 :
  answers c s x s' -> got_cache (Ev (S := KubeSig) c x) = Some (n, c0) ->
  om_key (c_Meta c0) = n /\ versions s !! (n, cache_rv c0) = Some c0.
Proof.
  intros Ha Hg. destruct c as [k m|?|k ?|k ?|k ?|k ?|? ? ? ?| |?|?|?]; try destruct k; try done.
  destruct x as [c1|e]; [|done]. injection Hg as <- <-. exact (get_answers_version _ _ _ _ Ha).
Qed.

Lemma thread_ok_step s s' t c k x :
  thread_ok s t -> th_prog t = Call c k -> answers c s x s' ->
  thread_ok s' (mkThread (th_op t) (th_key t) (k x) (Ev c x :: th_hist t)).
Proof.
  intros [Hwp Hh] Hp Ha. rewrite Hp in Hwp. destruct Hwp as [_ Hwp].
  eapply thread_ok_grow; [by eapply versions_grow|].
  split; [apply Hwp|]. simpl. intros e n c0 Hin He.
  apply elem_of_cons in Hin as [->|Hin]; [exact (answers_got_cache c x s s' n c0 Ha He)|by eapply Hh].
Qed.

(** The heart of the refinement: an applied status write of a thread is its
    operation on the cache stored at that moment. *)
Lemma status_write_atomic s s' t obj k x :
  thread_ok s t -> th_prog t = Call (StatusUpdate KCache obj) k ->
  answers (StatusUpdate KCache obj) s x s' ->
  (caches s' = caches s /\ forall c, x <> Ok c) \/
  exists cur clock rv,
    caches s !! th_key t = Some cur /\
    caches s' = <[th_key t := with_rv rv (apply_op (th_op t) cur clock)]> (caches s).
Proof.
  intros [Hwp Hh] Hp Ha. rewrite Hp in Hwp. destruct Hwp as [(cache & clock & Hin & ->) _].
  destruct (Hh _ (th_key t) cache Hin eq_refl) as [Hkey Hver].
  destruct (apply_op_meta (th_op t) cache clock) as [Hm Hs].
  destruct (status_write _ _ _ _ Ha) as [?|(cur & rv & Hcur & Hrv & Hs')]; [by left|right].
  rewrite Hm, Hkey in Hcur, Hs'. unfold cache_rv in Hrv. rewrite Hm in Hrv.
  destruct (current_is_version s _ cur Hcur) as [_ Hver'].
  unfold cache_rv in Hver'. rewrite Hrv in Hver'. unfold cache_rv in Hver.
  assert (cur = cache) as -> by congruence. exists cache, clock, rv. split; [done|]. rewrite Hs'. do 2 f_equal.
  unfold store_status. destruct (apply_op (th_op t) cache clock) as [m sp st], cache. simpl in *.
  by subst.
Qed.

(** Re-stamping a cache does not change what the updaters may do with it. *)
Lemma reachable_with_rv rv c : reachable c -> reachable (with_rv rv c).
Proof.
  intros Hr. apply (reachable_other c); [done|done|]. simpl.
  pose proof (inv_gen _ (reachable_inv c Hr)). lia.
Qed.

Lemma reachable_zero c : c_Status c = CacheStatus_zero -> reachable c.
Proof. destruct c as [m sp st]. simpl. intros ->. apply reachable_new. Qed.

Lemma thread_step_reachable s s' t c k x :
  (forall n c, caches s !! n = Some c -> reachable c) -> generations_left s ->
  thread_ok s t -> th_prog t = Call c k -> answers c s x s' ->
  forall n c, caches s' !! n = Some c -> reachable c.
Proof.
  intros Hreach Hleft Hok Hp Ha.
  pose proof (reads_only c s x s' Ha) as Hro.
  assert (Hg : op_guard (th_op t) (th_key t) (th_hist t) c).
  { destruct Hok as [Hwp _]. rewrite Hp in Hwp. by destruct Hwp. }
  destruct c as [kd m|ns|kd o|kd o|kd o|kd o|? ? ? ?| |?|?|?]; try destruct kd; simpl in Hro, Hg;
    try (by rewrite Hro); try done.
  - intros n c Hc. destruct (create_write _ _ _ _ Ha) as [Heq|(c1 & _ & Hz & Heq)]; rewrite Heq in Hc.
    + by eapply Hreach.
    + apply lookup_insert_Some in Hc as [[_ <-]|[_ Hc]]; [by apply reachable_zero|by eapply Hreach].
  - intros n c Hc.
    destruct (status_write_atomic s s' t o k x Hok Hp Ha) as [[Heq _]|(cur & clock & rv & Hcur & Heq)];
      rewrite Heq in Hc; [by eapply Hreach|].
    apply lookup_insert_Some in Hc as [[_ <-]|[_ Hc]]; [|by eapply Hreach].
    apply reachable_with_rv, reachable_op; [by eapply Hreach|by eapply Hleft].
Qed.

Lemma pool_ok_reachable st : pool_reachable st -> pool_ok st.
Proof.
  induction 1 as [s Hs|s ts s' ts' Hpr [IHc IHt] Hleft Hstep]; [split|].
  - simpl. rewrite Hs. set_solver.
  - set_solver.
  - simpl in *. inversion Hstep as [? ? ? i t c k x Hi Hp Ha|? ? p|? ? ? [Hsub Hoth]]; subst; clear Hstep.
    + split; simpl.
      * eapply thread_step_reachable; [done..| |done|done].
        apply IHt. by eapply list_elem_of_lookup_2.
      * intros t' Hin. apply list_elem_of_lookup in Hin as [j Hj].
        apply list_lookup_insert_Some in Hj as [(<- & <- & _)|(Hne & Hj)].
        -- eapply thread_ok_step; [|done|done]. apply IHt. by eapply list_elem_of_lookup_2.
        -- eapply thread_ok_grow; [by eapply versions_grow|]. apply IHt. by eapply list_elem_of_lookup_2.
    + split; simpl; [done|]. intros t Hin. apply elem_of_app in Hin as [Hin|Hin]; [by apply IHt|].
      apply list_elem_of_singleton in Hin as ->. split; [apply op_prog_guard|set_solver].
    + split; simpl.
      * intros n c' Hc'. destruct (Hoth n c' Hc') as [Hz|(c & Hc & Hn & Hg)]; [by apply reachable_zero|].
        eapply reachable_other; [by eapply IHc|done|done].
      * intros t Hin. eapply thread_ok_grow; [done|]. by apply IHt.
Qed.

(** ** Properties *)

(** C1: no update is lost: in every interleaving, when a status write of an
    updater is acknowledged, exactly one cache changed, the updater's own, and
    its new status is the updater's operation applied to the status that was
    stored immediately before. *)
Theorem concurrent_no_lost_update s ts i t obj k s' stored :
  pool_reachable (s, ts) ->
  ts !! i = Some t -> th_prog t = Call (StatusUpdate KCache obj) k ->
  answers (StatusUpdate KCache obj) s (Ok stored) s' ->
  exists cur clock rv,
    caches s !! th_key t = Some cur /\
    caches s' = <[th_key t := with_rv rv (apply_op (th_op t) cur clock)]> (caches s).
Proof.
  intros Hpr Hi Hp Ha. apply pool_ok_reachable in Hpr as [_ Hok].
  destruct (status_write_atomic s s' t obj k (Ok stored)) as [[_ Hno]|Hyes]; [|done|done| |done].
  - apply Hok. by eapply list_elem_of_lookup_2.
  - by destruct (Hno stored).
Qed.

(** C2: in every interleaving every stored cache is one that the updater
    operations, executed atomically one after the other, can produce; in
    particular its status satisfies the invariant. *)
Theorem concurrent_status_inv s ts n c :
  pool_reachable (s, ts) -> caches s !! n = Some c ->
  reachable c /\ status_inv (c_Status c).
Proof.
  intros Hpr Hc. apply pool_ok_reachable in Hpr as [Hr _]. simpl in Hr.
  split; [by eapply Hr|]. eapply reachable_inv. by eapply Hr.
Qed.

End Concurrency.

(** ** A concrete interleaving

    Two updaters register a volume of the same cache; the second one reads
    the cache between the read and the write of the first one. *)

Module Interleaving.
#[local] Existing Instance retry_loop_impl.

Definition key : NamespacedName := mkNamespacedName "build" "default".
Definition reg1 : op := OpRegister "node1" "pv1" "img" true.
Definition reg2 : op := OpRegister "node2" "pv2" "img" true.

(** One step of the thread at index [i], computed. *)
Definition step_thread (i : nat) (st : mem * list thread) : mem * list thread :=
  match st.2 !! i with
  | Some t =>
      match th_prog t with
      | Call c k =>
          let '(x, s') := mem_handle c st.1 in
          (s', <[i := mkThread (th_op t) (th_key t) (k x) (Ev c x :: th_hist t)]> st.2)
      | _ => st
      end
  | None => st
  end.

Definition start : mem * list thread := (mem_empty, [spawn (reg1, key); spawn (reg2, key)]).

Fixpoint play (sched : list nat) (st : mem * list thread) : mem * list thread :=
  match sched with
  | [] => st
  | i :: sched => play sched (step_thread i st)
  end.

Definition wf_state (s : mem) (Hs : mem_ok s) : mem_state := exist _ s Hs.

Lemma step_thread_reachable i s (Hs : mem_ok s) ts :
  pool_reachable (wf_state s Hs, ts) -> generations_left (wf_state s Hs) ->
  exists Hs', pool_reachable (wf_state (step_thread i (s, ts)).1 Hs', (step_thread i (s, ts)).2).
Proof.
  intros Hr Hleft. unfold step_thread. simpl.
  destruct (ts !! i) as [t|] eqn:Hi; [|by exists Hs].
  destruct (th_prog t) as [a|m|c k] eqn:Hp; [by exists Hs..|].
  destruct (mem_handle c s) as [x s'] eqn:Hh.
  destruct (mem_handle_ok c s x s' Hs Hh) as [Hs' _]. exists Hs'.
  eapply pool_next; [exact Hr|exact Hleft|]. by eapply pool_thread.
Qed.

Definition gens_left (s : mem) : bool :=
  bool_decide (map_Forall (fun _ c => st_CacheGeneration (c_Status c) < 2 ^ 63 - 1)%Z (mem_caches s)).

(** All states but the last of a schedule have generations left. *)
Fixpoint play_ok (sched : list nat) (st : mem * list thread) : bool :=
  match sched with
  | [] => true
  | i :: sched => gens_left st.1 && play_ok sched (step_thread i st)
  end.

Lemma play_reachable sched : forall st (Hs : mem_ok st.1),
  pool_reachable (wf_state st.1 Hs, st.2) -> play_ok sched st = true ->
  exists Hs', pool_reachable (wf_state (play sched st).1 Hs', (play sched st).2).
Proof.
  induction sched as [|i sched IH]; intros [s ts] Hs Hr Hok; simpl in *; [by exists Hs|].
  apply andb_true_iff in Hok as [Hg Hok]. apply bool_decide_eq_true in Hg.
  destruct (step_thread_reachable i s Hs ts Hr) as [Hs' Hr']; [|by eapply IH].
  intros n c Hc. by apply (Hg n c).
Qed.

Lemma start_reachable : exists Hs, pool_reachable (wf_state start.1 Hs, start.2).
Proof.
  exists mem_empty_ok.
  assert (Hg : generations_left (wf_state mem_empty mem_empty_ok)) by (intros n c H; discriminate H).
  apply (pool_next (wf_state mem_empty mem_empty_ok) [spawn (reg1, key)]); [|exact Hg|apply (pool_spawn _ [spawn (reg1, key)] (reg2, key))].
  apply (pool_next (wf_state mem_empty mem_empty_ok) []); [|exact Hg|apply (pool_spawn _ [] (reg1, key))].
  by apply pool_init.
Qed.

(** Both read; the first one writes; the second one's write conflicts and is
    repeated on the new version. *)
Definition schedule : list nat := [0; 0; 0; 0; 1; 1; 0; 1; 1; 1; 1].

Lemma concurrent_status_inv_witness :
  (elements (dom (registered (c_Status (default Cache_zero (mem_caches (play schedule start).1 !! key)))))
     = [("node1", "pv1"); ("node2", "pv2")] \/
   elements (dom (registered (c_Status (default Cache_zero (mem_caches (play schedule start).1 !! key)))))
     = [("node2", "pv2"); ("node1", "pv1")]) /\
  status_inv (c_Status (default Cache_zero (mem_caches (play schedule start).1 !! key))).
Proof.
  split; [vm_compute; first [left; reflexivity|right; reflexivity]|].
  destruct start_reachable as [Hs Hr].
  destruct (play_reachable schedule start Hs Hr) as [Hs' Hr']; [vm_compute; reflexivity|].
  apply (concurrent_status_inv _ _ key _ Hr'). vm_compute. reflexivity.
Defined.

(** The state in which the first one is about to write. *)
Definition before : mem * list thread := play [0; 0; 0; 0; 1; 1] start.
Definition after : mem * list thread := step_thread 0 before.
Definition writer : thread := default (spawn (reg1, key)) (before.2 !! 0).

Lemma before_reachable : exists Hs, pool_reachable (wf_state before.1 Hs, before.2).
Proof.
  destruct start_reachable as [Hs Hr].
  assert (Hok : play_ok [0; 0; 0; 0; 1; 1] start = true) by (vm_compute; reflexivity).
  exact (play_reachable [0; 0; 0; 0; 1; 1] start Hs Hr Hok).
Qed.

Lemma writer_lookup : before.2 !! 0 = Some writer.
Proof.
  unfold writer. destruct (before.2 !! 0) eqn:E; [reflexivity|].
  apply lookup_ge_None in E. assert (Hl : length before.2 = 2) by (vm_compute; reflexivity). lia.
Qed.

(** The call a program makes next. *)
Definition head_cmd {A} (p : prog A) : option kcmd :=
  match p with Call c _ => Some c | _ => None end.

Definition written : Cache :=
  match head_cmd (th_prog writer) with
  | Some (StatusUpdate KCache o) => o
  | _ => Cache_zero
  end.

Lemma writer_call : exists k stored,
  th_prog writer = Call (StatusUpdate KCache written) k /\
  mem_handle (StatusUpdate KCache written) before.1 = (Ok stored, after.1).
Proof.
  assert (Hc : head_cmd (th_prog writer) = Some (StatusUpdate KCache written))
    by (vm_compute; reflexivity).
  destruct (th_prog writer) as [a|m|c k] eqn:Hp; [discriminate..|].
  injection Hc as ->. exists k. eexists. split; [done|]. vm_compute. reflexivity.
Qed.

Lemma concurrent_no_lost_update_witness :
  exists s s' cur clock rv, `s = before.1 /\
    caches s !! th_key writer = Some cur /\
    caches s' = <[th_key writer := with_rv rv (apply_op (th_op writer) cur clock)]> (caches s).
Proof.
  destruct before_reachable as [Hs Hr]. destruct writer_call as (k & stored & Hp & Ha).
  destruct (mem_handle_ok _ _ _ _ Hs Ha) as [Hs' _].
  exists (wf_state before.1 Hs), (wf_state after.1 Hs').
  destruct (concurrent_no_lost_update (wf_state before.1 Hs) before.2 0 writer written k
    (wf_state after.1 Hs') stored Hr writer_lookup Hp Ha) as (cur & clock & rv & H1 & H2).
  exists cur, clock, rv. split; [reflexivity|]. split; [exact H1|exact H2].
Defined.

End Interleaving.
