(* ===== verification/StoreApi.v ===== *)
(** * The store interface ([layerfs.Store])

    The mount options and the interface that the local store
    ([internal/layerfs/store.go]) and the cluster-synchronised store
    ([internal/ksync/syncedstore.go]) implement.  The context of
    [MountOptions] is part of the environment. *)

From S2P Require Import Prelude Effects.

Record MountOptions := mkMountOptions {
  mo_Image : string;
  mo_ContainerName : string;
  mo_ExtMountDir : string;
  mo_Commit : bool;
  mo_CacheName : string;
  mo_CacheNamespace : string
}.
#[global] Instance MountOptions_settable : Settable MountOptions := fun r =>
  mkMountOptions (mo_Image r) (mo_ContainerName r) (mo_ExtMountDir r) (mo_Commit r)
    (mo_CacheName r) (mo_CacheNamespace r).
#[global] Instance MountOptions_eq_dec : EqDecision MountOptions.
Proof. solve_decision. Defined.

(** A store over the environment [S]. *)
Record Store (S : Sig) := mkStore {
  Free : prog (S := S) unit;
  Mount : MountOptions -> prog (S := S) (string * option goerr);
  Unmount : MountOptions -> prog (S := S) (string * bool * option goerr);
  Prune : prog (S := S) (option goerr)
}.
Arguments Free {S} _.
Arguments Mount {S} _ _.
Arguments Unmount {S} _ _.
Arguments Prune {S} _.
