(* ===== verification/SyncedStore.v ===== *)
(** * The cluster-synchronised store ([internal/ksync/syncedstore.go])

    Wraps a store so that its volumes are registered in the [Cache] resource
    while they are mounted. *)

From S2P Require Import Prelude Effects Api ApiServer CacheStatusEdits CacheUpdater StoreApi.

Section Synced.
Context `{!ConflictRetry} {L : Sig}.

Abbreviation sync_prog A := (prog (S := sum_sig KubeSig L) A).

(** [synchronizedStore.Mount].  The deferred function unregisters the volume
    if the mount returns an error; a panic leaves [err] nil. *)
Definition synced_Mount (inner : Store L) (nodeName : string) (opts : MountOptions)
  : sync_prog (string * option goerr) :=
  if (mo_CacheName opts ==? "") || (mo_CacheNamespace opts ==? "") then
    Ret ("", Some (Errorf "no cache name or namespace provided"))
  else
    let cacheName := mkNamespacedName (mo_CacheName opts) (mo_CacheNamespace opts) in
    let! (image, err) :=
      lift_l (RegisterCacheVolume cacheName nodeName (mo_ContainerName opts) (mo_Image opts) true) in
    let opts := opts <| mo_Image := image |> in
    match err with
    | Some _ => Ret ("", err)
    | None =>
        finally (lift_r (Mount inner opts)) (fun o =>
          match o with
          | Returned (dir, None) => Ret (dir, None)
          | Returned (dir, Some err) =>
              do! lift_l (UnregisterCacheVolume cacheName nodeName (mo_ContainerName opts) (Some err)) in
              Ret (dir, Some err)
          | Panicked m => Panic m
          end)
    end.

(** [synchronizedStore.Unmount].  The deferred function always unregisters the
    volume, and assigns its error to the result. *)
Definition synced_Unmount (inner : Store L) (nodeName : string) (opts : MountOptions)
  : sync_prog (string * bool * option goerr) :=
  if (mo_CacheName opts ==? "") || (mo_CacheNamespace opts ==? "") then
    Ret ("", false, Some (Errorf "no cache name or namespace provided"))
  else
    let cacheName := mkNamespacedName (mo_CacheName opts) (mo_CacheNamespace opts) in
    let! (_, syncErr) := lift_l (PrepareCommit cacheName nodeName (mo_ContainerName opts)) in
    let unregister err :=
      lift_l (UnregisterCacheVolume cacheName nodeName (mo_ContainerName opts)
                (wrap_err "unmount" err)) in
    finally (lift_r (Unmount inner opts)) (fun o =>
      match o with
      | Returned (imageID, newImage, err) =>
          let err := match err with None => syncErr | Some _ => err end in
          let! err := unregister err in
          Ret (imageID, newImage, err)
      | Panicked m => do! unregister None in Panic m
      end).

(** [Synchronized]: [Free] and [Prune] are those of the embedded store. *)
Definition Synchronized (inner : Store L) (nodeName : string) : Store (sum_sig KubeSig L) := {|
  Free := lift_r (Free inner);
  Mount := synced_Mount inner nodeName;
  Unmount := synced_Unmount inner nodeName;
  Prune := lift_r (Prune inner)
|}.

(** ** Runs of the synchronised operations *)

(** A call into the updater returns; what follows starts from its result. *)
Lemma runs_cluster {A B} (p : prog (S := KubeSig) A) (f : A -> sync_prog B) tr o :
  (forall t m, ~ runs p t (Panicked m)) ->
  runs (bind (lift_l p) f) tr o <->
  exists tr1 a tr2, tr = map event_l tr1 ++ tr2 /\ runs p tr1 (Returned a) /\ runs (f a) tr2 o.
Proof.
  intros Hp. rewrite runs_bind. split.
  - intros [(m & Hr & _)|(a & t1 & t2 & -> & Hr & Hf)].
    + apply runs_lift_l in Hr as (t & _ & Hr). by apply Hp in Hr.
    + apply runs_lift_l in Hr as (t & -> & Hr). by exists t, a, t2.
  - intros (t1 & a & t2 & -> & Hr & Hf). right. exists a, (map event_l t1), t2.
    split; [done|]. split; [|done]. apply runs_lift_l. by exists t1.
Qed.

Lemma runs_inner {A B} (p : prog (S := L) A) (f : outcome A -> sync_prog B) tr o :
  runs (finally (lift_r p) f) tr o <->
  exists tr1 oi tr2, tr = map event_r tr1 ++ tr2 /\ runs p tr1 oi /\ runs (f oi) tr2 o.
Proof.
  rewrite runs_finally. split.
  - intros (oi & t1 & t2 & -> & Hr & Hf). apply runs_lift_r in Hr as (t & -> & Hr).
    by exists t, oi, t2.
  - intros (t1 & oi & t2 & -> & Hr & Hf). exists oi, (map event_r t1), t2.
    split; [done|]. split; [|done]. apply runs_lift_r. by exists t1.
Qed.

(** The cache that the options name, if they do. *)
Definition cache_of (opts : MountOptions) : option NamespacedName :=
  if (mo_CacheName opts ==? "") || (mo_CacheNamespace opts ==? "") then None
  else Some (mkNamespacedName (mo_CacheName opts) (mo_CacheNamespace opts)).

Definition first_error (a b : option goerr) : option goerr :=
  match a with None => b | Some _ => a end.

(** C24: what a synchronised mount does.  It fails without any call if the
    cache is not named.  Otherwise it registers the volume; if this fails, the
    wrapped store is not touched and its error returned; if it succeeds, the
    wrapped store mounts the image that the cluster has chosen, and the result
    is that of the wrapped store.  The volume is unregistered again exactly if
    the wrapped store returned an error; if it panics, the volume stays
    registered. *)
Theorem synced_mount_runs inner node opts tr o :
  runs (synced_Mount inner node opts) tr o <->
  match cache_of opts with
  | None => tr = [] /\ o = Returned ("", Some (Errorf "no cache name or namespace provided"))
  | Some key =>
      exists tr1 image err tr',
        tr = map event_l tr1 ++ tr' /\
        runs (RegisterCacheVolume key node (mo_ContainerName opts) (mo_Image opts) true) tr1
          (Returned (image, err)) /\
        match err with
        | Some _ => tr' = [] /\ o = Returned ("", err)
        | None =>
            exists tr2 tr3, tr' = map event_r tr2 ++ map event_l tr3 /\
              runs (Mount inner (opts <| mo_Image := image |>)) tr2 o /\
              match o with
              | Returned (_, Some e) =>
                  exists r, runs (UnregisterCacheVolume key node (mo_ContainerName opts) (Some e)) tr3
                    (Returned r)
              | _ => tr3 = []
              end
        end
  end.
Proof.
  unfold synced_Mount, cache_of. destruct (_ || _); [done|].
  rewrite runs_cluster by (intros; apply register_no_panic).
  split; intros (tr1 & A); [destruct A as ([image err] & tr' & -> & Hreg & Hf)|
    destruct A as (image & err & tr' & -> & Hreg & Hf)].
  - exists tr1, image, err, tr'. split; [done|]. split; [done|].
    destruct err as [e|]; [done|]. apply runs_inner in Hf as (tr2 & oi & t & -> & Hm & Hf).
    destruct oi as [[dir [e|]]|m]; simpl in Hf.
    + apply runs_cluster in Hf as (tr3 & r & t2 & -> & Hu & -> & ->);
        [|intros; apply unregister_no_panic].
      exists tr2, tr3. rewrite app_nil_r. eauto.
    + destruct Hf as [-> ->]. by exists tr2, [].
    + destruct Hf as [-> ->]. by exists tr2, [].
  - exists tr1, (image, err), tr'. split; [done|]. split; [done|].
    destruct err as [e|]; [done|]. destruct Hf as (tr2 & tr3 & -> & Hm & Hu).
    apply runs_inner. exists tr2, o, (map event_l tr3). split; [done|]. split; [done|].
    destruct o as [[dir [e|]]|m]; simpl; [|by subst tr3..].
    destruct Hu as (r & Hu). apply runs_cluster; [intros; apply unregister_no_panic|].
    exists tr3, r, []. by rewrite app_nil_r.
Qed.

(** The history of a synchronised unmount of a named cache. *)
Definition unmount_history (inner : Store _) (node : string) (opts : MountOptions) (key : NamespacedName)
    (tr : list (event (S := sum_sig KubeSig L))) (o : outcome (string * bool * option goerr)) : Prop :=
  exists tr1 commit syncErr tr2 oi tr3,
    tr = map event_l tr1 ++ map event_r tr2 ++ map event_l tr3 /\
    runs (PrepareCommit key node (mo_ContainerName opts)) tr1 (Returned (commit, syncErr)) /\
    runs (Unmount inner opts) tr2 oi /\
    match oi with
    | Returned (imageID, newImage, err) =>
        exists r, o = Returned (imageID, newImage, r) /\
          runs (UnregisterCacheVolume key node (mo_ContainerName opts)
                  (wrap_err "unmount" (first_error err syncErr))) tr3 (Returned r)
    | Panicked m =>
        o = Panicked m /\
        exists r, runs (UnregisterCacheVolume key node (mo_ContainerName opts) None) tr3 (Returned r)
    end.

Lemma synced_unmount_history inner node opts key tr o :
  cache_of opts = Some key -> runs (synced_Unmount inner node opts) tr o -> unmount_history inner node opts key tr o.
Proof.
  unfold synced_Unmount, cache_of. destruct (_ || _); [done|]. intros [= <-].
  rewrite runs_cluster by (intros; apply prepare_no_panic).
  intros (tr1 & [commit syncErr] & tr' & -> & Hp & Hf). apply runs_inner in Hf as (tr2 & oi & t & -> & Hm & Hf).
  destruct oi as [[[id nw] err]|m]; simpl in Hf;
    apply runs_cluster in Hf as (tr3 & r & t2 & -> & Hu & -> & ->);
    try (intros; apply unregister_no_panic); rewrite app_nil_r;
    exists tr1, commit, syncErr, tr2; eexists _, tr3; do 3 (split; [done|]); simpl; eauto.
Qed.

(** C25: what a synchronised unmount does.  It fails without any call if the
    cache is not named.  Otherwise it asks for the commit, whose decision has
    no influence, runs the wrapped store with the options as given and
    unregisters the volume, also if the wrapped store panics.  The error it
    returns is the one of the unregistration alone: an error of the wrapped
    store is only recorded in the status of the cache. *)
Theorem synced_unmount_runs inner node opts tr o :
  runs (synced_Unmount inner node opts) tr o <->
  match cache_of opts with
  | None => tr = [] /\ o = Returned ("", false, Some (Errorf "no cache name or namespace provided"))
  | Some key => unmount_history inner node opts key tr o
  end.
Proof.
  destruct (cache_of opts) as [key|] eqn:Ek; (split; [intros Hr|]).
  - by apply synced_unmount_history.
  - revert Ek. unfold synced_Unmount, cache_of. destruct (_ || _); [done|]. intros [= <-].
    intros (tr1 & commit & syncErr & tr2 & oi & tr3 & -> & Hp & Hm & Hf).
    rewrite runs_cluster by (intros; apply prepare_no_panic).
    exists tr1, (commit, syncErr), (map event_r tr2 ++ map event_l tr3). split; [done|].
    split; [done|]. apply runs_inner. exists tr2, oi, (map event_l tr3).
    split; [done|]. split; [done|].
    destruct oi as [[[id nw] err]|m]; simpl;
      [destruct Hf as (r & -> & Hu)|destruct Hf as (-> & r & Hu)];
      (apply runs_cluster; [intros; apply unregister_no_panic|];
       exists tr3, r, []; by rewrite app_nil_r).
  - revert Hr Ek. unfold synced_Unmount, cache_of. by destruct (_ || _).
  - revert Ek. unfold synced_Unmount, cache_of. by destruct (_ || _).
Qed.

End Synced.

(** ** Concrete runs *)

Module SyncedExample.
#[local] Existing Instance retry_loop_impl.

(** A store without environment whose operations fail. *)
Definition NoSig : Sig := {| cmd := Empty_set; resp c := match c with end |}.
Definition failing : Store NoSig := {|
  Free := Ret tt;
  Mount _ := Ret ("", Some (Errorf "no space left on device"));
  Unmount _ := Ret ("", false, Some (Errorf "device is busy"));
  Prune := Ret None
|}.

Definition handle (c : cmd (Sig := sum_sig KubeSig NoSig)) : mem -> resp c * mem :=
  match c as c0 return mem -> resp (Sig := sum_sig KubeSig NoSig) c0 * mem with
  | inl a => mem_handle a
  | inr b => match b with end
  end.

Definition opts : MountOptions := mkMountOptions "registry/cache" "pv1" "" true "build" "default".
Definition run {A} (p : prog (S := sum_sig KubeSig NoSig) A) (s : mem) := exec handle p s.

Definition volumes_of (s : mem) : option (list (string * string)) :=
  (fun c => (entries (st_Nodes (c_Status c))).*1) <$> mem_caches s !! mkNamespacedName "build" "default".

(** A failed mount leaves no registration behind. *)
Example failed_mount_unregisters :
  let '(_, o, s) := run (synced_Mount failing "node1" opts) mem_empty in
  o = Returned ("", Some (Errorf "no space left on device")) /\ volumes_of s = Some [].
Proof. vm_compute. done. Qed.

(** A failed unmount of a registered volume is reported as a success. *)
Example failed_unmount_succeeds :
  let s := (run_mem (RegisterCacheVolume (mkNamespacedName "build" "default") "node1" "pv1" "img" true)
              mem_empty).2 in
  let '(_, o, s') := run (synced_Unmount failing "node1" opts) s in
  volumes_of s = Some [("node1", "pv1")] /\
  o = Returned ("", false, None) /\ volumes_of s' = Some [].
Proof. vm_compute. done. Qed.

End SyncedExample.
