(* ===== verification/GoPath.v ===== *)
(** * Paths and patterns of the Go standard library

    The functions of [path/filepath] and [unicode/utf8] that the code calls,
    as they behave on Linux and in the Go version that the image of the
    manager is built with (1.15): [Match] stops at the first mismatch and does
    not look at the rest of the pattern. *)

From Stdlib Require Import Ascii.
From S2P Require Import Prelude.

(** ** Bytes and runes *)

Definition code (c : ascii) : Z := Z.of_N (N_of_ascii c).

Definition RuneError : Z := 0xFFFD.

(** [utf8.DecodeRuneInString]: the first rune of [s] and its width in bytes;
    an invalid encoding is [RuneError] of width 1. *)
Definition in_range (lo hi z : Z) : bool := ((lo <=? z) && (z <=? hi))%Z.

Definition cont (lo hi : Z) (c : ascii) : option Z :=
  if in_range lo hi (code c) then Some (Z.land (code c) 0x3F) else None.

Definition rune2 (b0 : Z) (s : string) : option Z :=
  match s with
  | String c1 _ => x1 ← cont 0x80 0xBF c1; Some (Z.lor (Z.shiftl (Z.land b0 0x1F) 6) x1)
  | _ => None
  end.

Definition rune3 (b0 lo hi : Z) (s : string) : option Z :=
  match s with
  | String c1 (String c2 _) =>
      x1 ← cont lo hi c1; x2 ← cont 0x80 0xBF c2;
      Some (Z.lor (Z.lor (Z.shiftl (Z.land b0 0x0F) 12) (Z.shiftl x1 6)) x2)
  | _ => None
  end.

Definition rune4 (b0 lo hi : Z) (s : string) : option Z :=
  match s with
  | String c1 (String c2 (String c3 _)) =>
      x1 ← cont lo hi c1; x2 ← cont 0x80 0xBF c2; x3 ← cont 0x80 0xBF c3;
      Some (Z.lor (Z.lor (Z.shiftl (Z.land b0 0x07) 18) (Z.shiftl x1 12))
                  (Z.lor (Z.shiftl x2 6) x3))
  | _ => None
  end.

Definition DecodeRune (s : string) : Z * nat :=
  match s with
  | EmptyString => (RuneError, 0)
  | String c0 r =>
      let b0 := code c0 in
      let width w o := match o with Some z => (z, w) | None => (RuneError, 1) end in
      if (b0 <? 0x80)%Z then (b0, 1)
      else if in_range 0xC2 0xDF b0 then width 2 (rune2 b0 r)
      else if (b0 =? 0xE0)%Z then width 3 (rune3 b0 0xA0 0xBF r)
      else if (b0 =? 0xED)%Z then width 3 (rune3 b0 0x80 0x9F r)
      else if in_range 0xE1 0xEF b0 then width 3 (rune3 b0 0x80 0xBF r)
      else if (b0 =? 0xF0)%Z then width 4 (rune4 b0 0x90 0xBF r)
      else if in_range 0xF1 0xF3 b0 then width 4 (rune4 b0 0x80 0xBF r)
      else if (b0 =? 0xF4)%Z then width 4 (rune4 b0 0x80 0x8F r)
      else (RuneError, 1)
  end.

Example decode_ascii : DecodeRune "abc" = (0x61%Z, 1).
Proof. reflexivity. Qed.

(** The euro sign, and its encoding cut short. *)
Example decode_euro :
  let euro := String "226" (String "130" (String "172" "x")) in
  DecodeRune euro = (0x20AC%Z, 3) /\ DecodeRune (String "226" (String "130" "")) = (RuneError, 1).
Proof. split; reflexivity. Qed.

(** [s[n:]] for [n <= len(s)]. *)
Fixpoint drop_bytes (n : nat) (s : string) : string :=
  match n, s with
  | S n, String _ s => drop_bytes n s
  | _, _ => s
  end.

(** ** [filepath.Match]

    The result is [None] for [ErrBadPattern]. *)

(** [getEsc]: a rune of a character class, possibly escaped; a class needs at
    least one more byte after it. *)
Definition getEsc_rune (chunk : string) : option (Z * string) :=
  let '(r, n) := DecodeRune chunk in
  let nchunk := drop_bytes n chunk in
  if ((r =? RuneError)%Z && (n =? 1)%nat) || (nchunk ==? "") then None else Some (r, nchunk).

Definition getEsc (chunk : string) : option (Z * string) :=
  match chunk with
  | EmptyString => None
  | String c rest =>
      if (c ==? "-"%char) || (c ==? "]"%char) then None
      else if c ==? "\"%char then (if rest ==? "" then None else getEsc_rune rest)
      else getEsc_rune chunk
  end.

(** What follows the byte [c], if [s] starts with it. *)
Definition strip (c : ascii) (s : string) : option string :=
  match s with
  | String d s => if d ==? c then Some s else None
  | EmptyString => None
  end.

(** One range of a character class, [lo] or [lo-hi], and what follows. *)
Definition get_range (chunk : string) : option (Z * Z * string) :=
  '(lo, chunk) ← getEsc chunk;
  match strip "-" chunk with
  | Some chunk => '(hi, chunk) ← getEsc chunk; Some (lo, hi, chunk)
  | None => Some (lo, lo, chunk)
  end.

(** The ranges of a character class up to the closing bracket: whether [r] is
    in one of them, and what follows. *)
Fixpoint match_ranges (fuel : nat) (r : Z) (chunk : string) (nrange : nat) (matched : bool)
  : option (bool * string) :=
  match fuel with
  | 0 => None
  | S fuel =>
      match strip "]" chunk, nrange with
      | Some rest, S _ => Some (matched, rest)
      | _, _ =>
          '(lo, hi, chunk) ← get_range chunk;
          match_ranges fuel r chunk (S nrange) (matched || in_range lo hi r)
      end
  end.

(** [matchChunk]: [Some (Some t)] if [chunk], which has no star, matches a
    prefix of [s] and [t] follows it. *)
Fixpoint matchChunk_fuel (fuel : nat) (chunk s : string) : option (option string) :=
  match fuel with
  | 0 => Some None
  | S fuel =>
      match chunk with
      | EmptyString => Some (Some s)
      | String c chunk =>
          match s with
          | EmptyString => Some None
          | String d s' =>
              let literal c chunk := if c ==? d then matchChunk_fuel fuel chunk s' else Some None in
              if c ==? "["%char then
                let '(r, n) := DecodeRune s in
                let s := drop_bytes n s in
                match chunk with
                | EmptyString => None
                | String c1 rest =>
                    let negated := c1 ==? "^"%char in
                    let chunk := if negated then rest else chunk in
                    match match_ranges (S (String.length chunk)) r chunk 0 false with
                    | None => None
                    | Some (matched, chunk) =>
                        if Bool.eqb matched negated then Some None else matchChunk_fuel fuel chunk s
                    end
                end
              else if c ==? "?"%char then
                if d ==? "/"%char then Some None
                else matchChunk_fuel fuel chunk (drop_bytes (DecodeRune s).2 s)
              else if c ==? "\"%char then
                match chunk with
                | EmptyString => None
                | String c chunk => literal c chunk
                end
              else literal c chunk
          end
      end
  end.

Definition matchChunk (chunk s : string) : option (option string) :=
  matchChunk_fuel (S (String.length chunk)) chunk s.

(** [scanChunk]: the leading stars, the chunk up to the next star outside a
    character class, and the rest of the pattern. *)
Fixpoint scan_stars (pattern : string) : bool * string :=
  match pattern with
  | String c rest => if c ==? "*"%char then (true, (scan_stars rest).2) else (false, pattern)
  | EmptyString => (false, pattern)
  end.

Fixpoint scan_rest (inrange : bool) (pattern : string) : string * string :=
  match pattern with
  | EmptyString => ("", "")
  | String c rest =>
      let cons inr rest := let '(chunk, t) := scan_rest inr rest in (String c chunk, t) in
      if c ==? "\"%char then
        match rest with
        | EmptyString => (pattern, "")
        | String d rest' =>
            let '(chunk, t) := scan_rest inrange rest' in (String c (String d chunk), t)
        end
      else if c ==? "["%char then cons true rest
      else if c ==? "]"%char then cons false rest
      else if (c ==? "*"%char) && negb inrange then ("", pattern)
      else cons inrange rest
  end.

Definition scanChunk (pattern : string) : bool * string * string :=
  let '(star, pattern) := scan_stars pattern in
  let '(chunk, rest) := scan_rest false pattern in
  (star, chunk, rest).

Fixpoint contains_byte (c : ascii) (s : string) : bool :=
  match s with
  | EmptyString => false
  | String d s => (c ==? d) || contains_byte c s
  end.

(** A star: retry the chunk after skipping one byte more, but no separator. *)
Fixpoint match_skip (last : bool) (chunk name : string) : option (option string) :=
  match name with
  | EmptyString => Some None
  | String c name' =>
      if c ==? "/"%char then Some None
      else
        match matchChunk chunk name' with
        | None => None
        | Some (Some t) => if last && (t !=? "") then match_skip last chunk name' else Some (Some t)
        | Some None => match_skip last chunk name'
        end
  end.

Fixpoint Match_fuel (fuel : nat) (pattern name : string) : option bool :=
  match fuel with
  | 0 => Some false
  | S fuel =>
      if pattern ==? "" then Some (name ==? "")
      else
        let '(star, chunk, rest) := scanChunk pattern in
        if star && (chunk ==? "") then Some (negb (contains_byte "/" name))
        else
          let skip :=
            if star then
              match match_skip (rest ==? "") chunk name with
              | None => None
              | Some (Some t) => Match_fuel fuel rest t
              | Some None => Some false
              end
            else Some false in
          match matchChunk chunk name with
          | None => None
          | Some (Some t) => if (t ==? "") || (rest !=? "") then Match_fuel fuel rest t else skip
          | Some None => skip
          end
  end.

Definition Match (pattern name : string) : option bool :=
  Match_fuel (S (String.length pattern)) pattern name.

Example match_star : Match "worker-*" "worker-17" = Some true /\ Match "w*-17" "worker-17" = Some true
  /\ Match "worker-*" "master-0" = Some false /\ Match "*" "a/b" = Some false
  /\ Match "[a-c]?[^x]" "bzy" = Some true /\ Match "w\*" "w*" = Some true /\ Match "[]a]" "a" = None
  /\ Match "worker-[" "worker-1" = None /\ Match "worker-[" "test-node" = Some false
  /\ Match "a*b*c" "aXbYbZc" = Some true.
Proof. vm_compute. repeat split. Qed.

(** *** The fuel of the loops is enough

    Every iteration consumes at least one byte of the pattern. *)

Lemma drop_bytes_length n s : String.length (drop_bytes n s) = String.length s - n.
Proof.
  revert s. induction n as [|n IH]; intros [|c s]; simpl; [done..|]. apply IH.
Qed.

Lemma DecodeRune_width c s : 1 <= (DecodeRune (String c s)).2.
Proof.
  unfold DecodeRune. repeat (case_match; try (simpl; lia)).
Qed.

Lemma getEsc_rune_shorter chunk r rest :
  getEsc_rune chunk = Some (r, rest) -> chunk <> "" -> String.length rest < String.length chunk.
Proof.
  unfold getEsc_rune. destruct chunk as [|c s]; [done|]. intros H _.
  pose proof (DecodeRune_width c s) as Hw. destruct (DecodeRune (String c s)) as [r' n]. simpl in Hw.
  destruct (_ || _); [done|]. injection H as <- <-. rewrite drop_bytes_length. simpl. lia.
Qed.

Lemma getEsc_shorter chunk r rest :
  getEsc chunk = Some (r, rest) -> String.length rest < String.length chunk.
Proof.
  unfold getEsc. destruct chunk as [|c s]; [done|]. destruct (_ || _); [done|].
  destruct (c ==? "\"%char).
  - case_bool_decide as Hs; [done|]. intros H. apply getEsc_rune_shorter in H; simpl; [lia|done].
  - intros H. apply getEsc_rune_shorter in H; [done|done].
Qed.

Lemma strip_shorter c s rest : strip c s = Some rest -> String.length rest < String.length s.
Proof. destruct s as [|d s]; simpl; [done|]. case_bool_decide; [|done]. intros [= <-]. lia. Qed.

Lemma get_range_shorter chunk lo hi rest :
  get_range chunk = Some (lo, hi, rest) -> String.length rest < String.length chunk.
Proof.
  unfold get_range. destruct (getEsc chunk) as [[lo' c1]|] eqn:E1; simpl; [|done].
  apply getEsc_shorter in E1. destruct (strip "-" c1) as [c2|] eqn:Es; simpl; [|by intros [= _ _ <-]].
  apply strip_shorter in Es. destruct (getEsc c2) as [[hi' c3]|] eqn:E2; simpl; [|done].
  apply getEsc_shorter in E2. intros [= _ _ <-]. lia.
Qed.

Lemma match_ranges_fuel f1 f2 r chunk n m :
  String.length chunk < f1 -> String.length chunk < f2 ->
  match_ranges f1 r chunk n m = match_ranges f2 r chunk n m.
Proof.
  revert f2 chunk n m. induction f1 as [|f1 IH]; intros [|f2] chunk n m H1 H2; [lia..|].
  cbn [match_ranges]. destruct (get_range chunk) as [[[lo hi] c1]|] eqn:E; [|done].
  apply get_range_shorter in E. simpl.
  rewrite (IH f2) by lia. done.
Qed.

Lemma match_ranges_shorter f r chunk n m b rest :
  match_ranges f r chunk n m = Some (b, rest) -> String.length rest < String.length chunk.
Proof.
  revert chunk n m. induction f as [|f IH]; intros chunk n m; [done|]. cbn [match_ranges].
  assert (Hnext : ('(lo, hi, chunk) ← get_range chunk;
    match_ranges f r chunk (S n) (m || in_range lo hi r)) = Some (b, rest) ->
    String.length rest < String.length chunk).
  { destruct (get_range chunk) as [[[lo hi] c1]|] eqn:E; simpl; [|done].
    apply get_range_shorter in E. intros H. apply IH in H. lia. }
  destruct (strip "]" chunk) as [c1|] eqn:Es; [|done]. destruct n; [done|].
  intros [= _ <-]. by apply strip_shorter in Es.
Qed.

Lemma matchChunk_fuel_enough f1 f2 chunk s :
  String.length chunk < f1 -> String.length chunk < f2 ->
  matchChunk_fuel f1 chunk s = matchChunk_fuel f2 chunk s.
Proof.
  revert f2 chunk s. induction f1 as [|f1 IH]; intros [|f2] chunk s H1 H2; [lia..|].
  destruct chunk as [|c chunk]; [done|]. destruct s as [|d s]; [done|].
  cbn [String.length] in H1, H2. cbn [matchChunk_fuel].
  destruct (c ==? "["%char); [|destruct (c ==? "?"%char); [|destruct (c ==? "\"%char)]].
  - destruct (DecodeRune (String d s)) as [r n]. destruct chunk as [|c1 chunk]; [done|].
    set (ch := if c1 ==? "^"%char then chunk else String c1 chunk).
    assert (String.length ch <= S (String.length chunk)).
    { unfold ch. destruct (c1 ==? "^"%char); simpl; lia. }
    destruct (match_ranges _ r ch 0 false) as [[b rest]|] eqn:E; [|done].
    apply match_ranges_shorter in E. destruct (Bool.eqb _ _); [done|].
    cbn [String.length] in H1, H2. apply IH; lia.
  - destruct (d ==? "/"%char); [done|]. apply IH; lia.
  - destruct chunk as [|c1 chunk]; [done|]. cbn [String.length] in H1, H2.
    destruct (c1 ==? d); [|done]. apply IH; lia.
  - destruct (c ==? d); [|done]. apply IH; lia.
Qed.

Lemma scan_stars_length p : String.length (scan_stars p).2 <= String.length p /\
  ((scan_stars p).1 = true -> String.length (scan_stars p).2 < String.length p) /\
  ((scan_stars p).1 = false -> (scan_stars p).2 = p).
Proof.
  induction p as [|c p (IH1 & IH2 & IH3)]; simpl; [done|].
  destruct (c ==? "*"%char); simpl; split_and!; done || lia.
Qed.

(** What [scanChunk] leaves is empty or starts with a star, and shorter. *)
Lemma scan_rest_length b p :
  String.length (scan_rest b p).1 + String.length (scan_rest b p).2 = String.length p.
Proof.
  remember (String.length p) as n eqn:Hn. revert b p Hn.
  induction (lt_wf n) as [n _ IH]. intros b [|c p] ->; [done|]. cbn [scan_rest].
  assert (Hcons : forall inr, String.length (let '(chunk, t) := scan_rest inr p in (String c chunk, t)).1 +
    String.length (let '(chunk, t) := scan_rest inr p in (String c chunk, t)).2 = S (String.length p)).
  { intros inr. pose proof (IH (String.length p) ltac:(simpl; lia) inr p eq_refl) as Hi.
    destruct (scan_rest inr p). simpl in *. lia. }
  destruct (c ==? "\"%char); [destruct p as [|d p]; [done|]|].
  - pose proof (IH (String.length p) ltac:(simpl; lia) b p eq_refl) as Hi.
    destruct (scan_rest b p). simpl in *. lia.
  - destruct (c ==? "["%char); [apply Hcons|]. destruct (c ==? "]"%char); [apply Hcons|].
    destruct (_ && _); [simpl; lia|apply Hcons].
Qed.

Lemma scanChunk_shorter p star chunk rest :
  scanChunk p = (star, chunk, rest) -> p <> "" -> star && (chunk ==? "") = false ->
  String.length rest < String.length p.
Proof.
  unfold scanChunk. intros H Hp Hs. pose proof (scan_stars_length p) as (H1 & H2 & H3).
  destruct (scan_stars p) as [star' p1] eqn:Hst. simpl in *.
  pose proof (scan_rest_length false p1) as Hl.
  destruct (scan_rest false p1) as [chunk' rest'] eqn:Er. injection H as -> -> ->. simpl in Hl.
  destruct star; [specialize (H2 eq_refl); lia|]. rewrite H3 in Er, Hl by done.
  destruct chunk; [|simpl in Hl; lia]. exfalso.
  destruct p as [|c p]; [done|]. cbn [scan_rest] in Er. cbn [scan_stars] in Hst.
  destruct (bool_decide_reflect (c = "*"%char)) as [->|Hne]; [by simplify_eq|].
  simpl in Er. repeat case_match; simplify_eq.
Qed.

Lemma Match_fuel_enough f1 f2 p name :
  String.length p < f1 -> String.length p < f2 -> Match_fuel f1 p name = Match_fuel f2 p name.
Proof.
  revert f2 p name. induction f1 as [|f1 IH]; intros [|f2] p name H1 H2; [lia..|].
  cbn [Match_fuel]. case_bool_decide as Hp; [done|].
  destruct (scanChunk p) as [[star chunk] rest] eqn:Es.
  destruct (star && (chunk ==? "")) eqn:Ec; [done|].
  pose proof (scanChunk_shorter _ _ _ _ Es Hp Ec) as Hlt.
  assert (Hrec : forall t, Match_fuel f1 rest t = Match_fuel f2 rest t) by (intros t; apply IH; lia).
  assert (Hskip : (if star then
      match match_skip (rest ==? "") chunk name with
      | None => None
      | Some (Some t) => Match_fuel f1 rest t
      | Some None => Some false
      end else Some false) =
    (if star then
      match match_skip (rest ==? "") chunk name with
      | None => None
      | Some (Some t) => Match_fuel f2 rest t
      | Some None => Some false
      end else Some false)).
  { destruct star; [|done]. destruct (match_skip _ _ _) as [[t|]|]; [apply Hrec|done..]. }
  destruct (matchChunk chunk name) as [[t|]|]; [|exact Hskip|done].
  destruct (_ || _); [apply Hrec|exact Hskip].
Qed.

(** *** Patterns of plain names and prefixes *)

Definition is_special (c : ascii) : bool :=
  bool_decide (c ∈ ["*"; "?"; "["; "]"; "\"]%char).

Fixpoint is_literal (p : string) : bool :=
  match p with
  | EmptyString => true
  | String c p => negb (is_special c) && is_literal p
  end.

Lemma not_special c : is_special c = false ->
  (c ==? "*"%char) = false /\ (c ==? "?"%char) = false /\ (c ==? "["%char) = false /\
  (c ==? "]"%char) = false /\ (c ==? "\"%char) = false.
Proof.
  unfold is_special. rewrite bool_decide_eq_false. intros H.
  repeat split; apply bool_decide_eq_false; intros ->; apply H; set_solver.
Qed.

Fixpoint strip_prefix (p s : string) : option string :=
  match p, s with
  | EmptyString, _ => Some s
  | String c p, String d s => if c ==? d then strip_prefix p s else None
  | String _ _, EmptyString => None
  end.

Lemma matchChunk_literal f p s :
  is_literal p = true -> String.length p < f -> matchChunk_fuel f p s = Some (strip_prefix p s).
Proof.
  revert p s. induction f as [|f IH]; intros [|c p] s Hl Hf; [simpl in Hf; lia..|done|].
  cbn [is_literal] in Hl. apply andb_true_iff in Hl as [Hc Hl]. apply negb_true_iff in Hc.
  apply not_special in Hc as (H1 & H2 & H3 & H4 & H5). cbn [String.length] in Hf.
  destruct s as [|d s]; [done|]. cbn [matchChunk_fuel strip_prefix]. rewrite H2, H3, H5.
  destruct (c ==? d); [|done]. apply IH; [done|lia].
Qed.

Lemma scan_rest_literal p q : is_literal p = true -> q = "" \/ (exists r, q = String "*" r) ->
  scan_rest false (p +++ q) = (p, q).
Proof.
  intros Hl Hq. induction p as [|c p IH]; simpl.
  - by destruct Hq as [->|(r & ->)].
  - cbn [is_literal] in Hl. apply andb_true_iff in Hl as [Hc Hl]. apply negb_true_iff in Hc.
    apply not_special in Hc as (H1 & H2 & H3 & H4 & H5). rewrite H1, H3, H4, H5. simpl.
    by rewrite IH.
Qed.

Lemma string_append_nil (p : string) : p +++ "" = p.
Proof. induction p as [|c p IH]; [done|]. change (String c (p +++ "") = String c p). by f_equal. Qed.

Lemma scanChunk_literal p q : is_literal p = true -> p <> "" -> q = "" \/ (exists r, q = String "*" r) ->
  scanChunk (p +++ q) = (false, p, q).
Proof.
  intros Hl Hp Hq. unfold scanChunk.
  assert (scan_stars (p +++ q) = (false, p +++ q)) as ->.
  { destruct p as [|c p]; [done|]. cbn [is_literal] in Hl. apply andb_true_iff in Hl as [Hc _].
    apply negb_true_iff, not_special in Hc as (H1 & _). simpl. by rewrite H1. }
  by rewrite scan_rest_literal.
Qed.

Lemma strip_prefix_eq p s : strip_prefix p s = Some "" <-> s = p.
Proof.
  revert s. induction p as [|c p IH]; intros [|d s]; simpl; try (split; congruence).
  case_bool_decide as Hd; [subst d; rewrite IH; split; congruence|]. split; congruence.
Qed.

(** A plain name matches itself only. *)
Lemma Match_literal p name : is_literal p = true -> Match p name = Some (bool_decide (name = p)).
Proof.
  intros Hl. unfold Match. cbn [Match_fuel]. case_bool_decide as Hp; [by subst|].
  replace (scanChunk p) with (scanChunk (p +++ "")) by (by rewrite string_append_nil).
  rewrite scanChunk_literal by eauto.
  simpl. unfold matchChunk. rewrite matchChunk_literal by (done || lia).
  destruct (strip_prefix p name) as [t|] eqn:E.
  - destruct t as [|c t]; simpl.
    + destruct p as [|c p]; [done|]. simpl. apply strip_prefix_eq in E as ->.
      by rewrite bool_decide_eq_true_2.
    + rewrite bool_decide_eq_false_2; [done|]. intros Heq. by apply strip_prefix_eq in Heq; simplify_eq.
  - rewrite bool_decide_eq_false_2; [done|]. intros Heq. by apply strip_prefix_eq in Heq; simplify_eq.
Qed.

(** A prefix followed by a star matches the names with this prefix whose rest
    has no separator. *)
Lemma Match_prefix p name : is_literal p = true ->
  Match (p +++ "*") name =
    Some (match strip_prefix p name with Some t => negb (contains_byte "/" t) | None => false end).
Proof.
  intros Hl. unfold Match. destruct p as [|c p]; [done|]. set (q := String c p) in *.
  change (Match_fuel (S (String.length (q +++ "*"))) (q +++ "*") name)
    with (let '(star, chunk, rest) := scanChunk (q +++ "*") in
        if star && (chunk ==? "") then Some (negb (contains_byte "/" name))
        else
          let skip :=
            if star then
              match match_skip (rest ==? "") chunk name with
              | None => None
              | Some (Some t) => Match_fuel (String.length (q +++ "*")) rest t
              | Some None => Some false
              end
            else Some false in
          match matchChunk chunk name with
          | None => None
          | Some (Some t) =>
              if (t ==? "") || (rest !=? "") then Match_fuel (String.length (q +++ "*")) rest t else skip
          | Some None => skip
          end).
  assert (Hq : q <> "") by done.
  assert (exists n, String.length (q +++ "*") = S n) as (n & ->) by (subst q; by eexists).
  clearbody q. rewrite scanChunk_literal by eauto.
  unfold matchChunk. rewrite matchChunk_literal by (done || lia).
  destruct (strip_prefix q name) as [t|]; [|done]. simpl. by rewrite orb_true_r.
Qed.

(** ** Paths *)

(** [strings.Split(s, c)] for a separator of one byte. *)
Fixpoint Split (c : ascii) (s : string) : list string :=
  match s with
  | EmptyString => [""]
  | String d s =>
      if d ==? c then "" :: Split c s
      else match Split c s with
           | e :: es => String d e :: es
           | [] => [String d ""]
           end
  end.

(** [strings.Join(es, "/")] *)
Fixpoint join_slash (es : list string) : string :=
  match es with
  | [] => ""
  | [e] => e
  | e :: es => e +++ "/" +++ join_slash es
  end.

Definition IsAbs (path : string) : bool :=
  match path with String c _ => c ==? "/"%char | EmptyString => false end.

(** The effect of one path element on the elements kept so far (latest first):
    [..] drops the latest one if there is one to drop. *)
Definition clean_elem (rooted : bool) (st : list string) (e : string) : list string :=
  if (e ==? "") || (e ==? ".") then st
  else if e ==? ".." then
    match st with
    | top :: st' => if top ==? ".." then e :: st else st'
    | [] => if rooted then [] else [e]
    end
  else e :: st.

Definition clean_elems (path : string) : list string :=
  rev (foldl (clean_elem (IsAbs path)) [] (Split "/" path)).

Definition Clean (path : string) : string :=
  let es := clean_elems path in
  if IsAbs path then "/" +++ join_slash es
  else match es with [] => "." | _ => join_slash es end.

(** The path up to and including its last separator. *)
Fixpoint up_to_slash (s : string) : string :=
  match s with
  | EmptyString => ""
  | String c s =>
      let t := up_to_slash s in
      if (t ==? "") && (c !=? "/"%char) then "" else String c t
  end.

Definition Dir (path : string) : string := Clean (up_to_slash path).

Definition Base (path : string) : string :=
  if path ==? "" then "."
  else match last (filter (fun e => e <> "") (Split "/" path)) with
       | Some e => e
       | None => "/"
       end.

(** [filepath.Join(a, b)] *)
Definition Join (a b : string) : string :=
  match filter (fun e => e <> "") [a; b] with
  | [] => ""
  | es => Clean (join_slash es)
  end.

Example clean_examples :
  Clean "" = "." /\ Clean "/" = "/" /\ Clean "a//b/./c/../d/" = "a/b/d" /\
  Clean "/../a" = "/a" /\ Clean "../../a/.." = "../.." /\ Dir "/a/b" = "/a" /\ Dir "a" = "." /\
  Dir "/a" = "/" /\ Base "/a/b/" = "b" /\ Base "//" = "/" /\ Base "" = "." /\
  Join "/var/lib" "runroot" = "/var/lib/runroot".
Proof. vm_compute. repeat split. Qed.

(** *** Cleaned paths *)

(** A proper path element. *)
Definition normal_elem (e : string) : Prop :=
  e <> "" /\ e <> "." /\ e <> ".." /\ contains_byte "/" e = false.

Lemma Split_no_sep c s : Forall (fun e => contains_byte c e = false) (Split c s).
Proof.
  induction s as [|d s IH]; simpl; [by repeat constructor|].
  case_bool_decide as Hd; [by constructor|].
  destruct (Split c s) as [|e es]; [constructor; [|done]|inversion_clear IH; constructor; [|done]];
    simpl; by rewrite bool_decide_eq_false_2 by congruence.
Qed.

(** The bytes of a list of elements with a separator after each. *)
Fixpoint elems_size (es : list string) : nat :=
  match es with
  | [] => 0
  | e :: es => S (String.length e) + elems_size es
  end.

Lemma Split_size c s : elems_size (Split c s) = S (String.length s).
Proof.
  induction s as [|d s IH]; simpl; [done|]. case_bool_decide; [simpl; lia|].
  destruct (Split c s); simpl in *; lia.
Qed.

Lemma append_length (s t : string) : String.length (s +++ t) = String.length s + String.length t.
Proof. induction s as [|c s IH]; [done|]. exact (f_equal S IH). Qed.

Lemma append_assoc (s t u : string) : (s +++ t) +++ u = s +++ t +++ u.
Proof. induction s as [|c s IH]; [done|]. exact (f_equal (String c) IH). Qed.

Lemma join_slash_size es : es <> [] -> S (String.length (join_slash es)) = elems_size es.
Proof.
  induction es as [|e [|e' es] IH]; intros H; [done|simpl; lia|].
  change (join_slash (e :: e' :: es)) with (e +++ "/" +++ join_slash (e' :: es)).
  rewrite !append_length. specialize (IH ltac:(done)). cbn [elems_size String.length] in *. lia.
Qed.

Lemma elems_size_rev es : elems_size (rev es) = elems_size es.
Proof.
  assert (forall l1 l2, elems_size (l1 ++ l2) = elems_size l1 + elems_size l2) as Happ.
  { induction l1 as [|e l1 IH]; intros l2; simpl; [done|]. rewrite IH. lia. }
  induction es as [|e es IH]; simpl; [done|]. rewrite Happ, IH. simpl. lia.
Qed.

Lemma clean_elem_size b st e : elems_size (clean_elem b st e) <= elems_size st + S (String.length e).
Proof. unfold clean_elem. repeat (case_match; simpl in *; subst); lia. Qed.

Lemma foldl_clean_size b es st :
  elems_size (foldl (clean_elem b) st es) <= elems_size st + elems_size es.
Proof.
  revert st. induction es as [|e es IH]; intros st; simpl; [lia|].
  etrans; [apply IH|]. pose proof (clean_elem_size b st e). lia.
Qed.

Lemma Clean_length p : String.length (Clean p) <= Nat.max 1 (String.length p).
Proof.
  unfold Clean, clean_elems. set (st := foldl _ _ _).
  assert (Hs : elems_size (rev st) <= S (String.length p)).
  { rewrite elems_size_rev. unfold st. etrans; [apply foldl_clean_size|].
    rewrite Split_size. simpl. lia. }
  destruct (IsAbs p) eqn:Ea.
  - rewrite append_length. cbn [String.length]. destruct (rev st) as [|e es] eqn:E; [simpl; lia|].
    rewrite <- E in *. assert (rev st <> []) as Hne by (by rewrite E).
    apply join_slash_size in Hne.
    (* the first element of the split of an absolute path is empty *)
    destruct p as [|c p]; [done|]. simpl in Ea. apply bool_decide_eq_true in Ea as ->.
    assert (elems_size (rev st) <= S (String.length p)) as Hs'.
    { rewrite elems_size_rev. unfold st. simpl. etrans; [apply foldl_clean_size|].
      rewrite Split_size. simpl. lia. }
    simpl. lia.
  - destruct (rev st) as [|e es] eqn:E; [simpl; lia|]. rewrite <- E in *.
    assert (rev st <> []) as Hne by (by rewrite E). apply join_slash_size in Hne. lia.
Qed.

Lemma foldl_clean_normal es st :
  Forall (fun e => contains_byte "/" e = false) es -> Forall normal_elem st ->
  Forall normal_elem (foldl (clean_elem true) st es).
Proof.
  revert st. induction es as [|e es IH]; intros st Hes Hst; [done|].
  inversion_clear Hes as [|? ? He Hes']. simpl. apply IH; [done|].
  unfold clean_elem. destruct (_ || _) eqn:E1; [done|].
  apply orb_false_iff in E1 as [E1 E2]. apply bool_decide_eq_false in E1, E2.
  case_bool_decide as E3.
  - destruct st as [|top st]; [done|]. inversion_clear Hst as [|? ? Ht Hst'].
    case_bool_decide; [|done]. by destruct Ht as (_ & _ & ? & _).
  - by constructor.
Qed.

(** A cleaned absolute path is the root or a list of proper elements. *)
Lemma Clean_abs p : IsAbs p = true ->
  Clean p = "/" +++ join_slash (clean_elems p) /\ Forall normal_elem (clean_elems p).
Proof.
  intros Ha. unfold Clean. rewrite Ha. split; [done|]. unfold clean_elems. rewrite Ha.
  apply List.Forall_rev. apply foldl_clean_normal; [apply Split_no_sep|done].
Qed.

Lemma join_slash_snoc es e : exists s, join_slash (es ++ [e]) = s +++ e.
Proof.
  induction es as [|e1 es (s & IH)]; [by exists ""|].
  exists (e1 +++ "/" +++ s). rewrite <- app_comm_cons.
  destruct (es ++ [e]) as [|e2 es2] eqn:E; [by destruct es|].
  change (e1 +++ "/" +++ join_slash (e2 :: es2) = (e1 +++ "/" +++ s) +++ e).
  by rewrite IH, append_assoc.
Qed.

Lemma up_to_slash_app s e : contains_byte "/" e = false -> up_to_slash (s +++ e) = up_to_slash s.
Proof.
  intros He. induction s as [|c s IH].
  - change (up_to_slash e = ""). induction e as [|c e IHe]; [done|]. simpl in *.
    apply orb_false_iff in He as [Hc He]. rewrite IHe by done. simpl.
    apply bool_decide_eq_false in Hc. by rewrite bool_decide_eq_false_2 by congruence.
  - change (up_to_slash (String c (s +++ e)) = up_to_slash (String c s)). simpl. by rewrite IH.
Qed.

Lemma up_to_slash_length s : String.length (up_to_slash s) <= String.length s.
Proof. induction s as [|c s IH]; simpl; [done|]. case_match; simpl; lia. Qed.

(** The elements of a cleaned relative path are not empty and no separators. *)
Definition rel_elem (e : string) : Prop := IsAbs e = false /\ e <> "".

Lemma rel_elem_no_sep e : contains_byte "/" e = false -> e <> "" -> rel_elem e.
Proof.
  intros He Hne. split; [|done]. destruct e as [|c e]; [done|]. simpl in *.
  apply orb_false_iff in He as [Hc _]. apply bool_decide_eq_false in Hc.
  apply bool_decide_eq_false. congruence.
Qed.

Lemma foldl_clean_rel es st :
  Forall (fun e => contains_byte "/" e = false) es -> Forall rel_elem st ->
  Forall rel_elem (foldl (clean_elem false) st es).
Proof.
  revert st. induction es as [|e es IH]; intros st Hes Hst; [done|].
  inversion_clear Hes as [|? ? He Hes']. simpl. apply IH; [done|].
  unfold clean_elem. destruct (_ || _) eqn:E1; [done|].
  apply orb_false_iff in E1 as [E1 _]. apply bool_decide_eq_false in E1.
  pose proof (rel_elem_no_sep e He E1). repeat case_match; inversion_clear Hst; auto.
Qed.

Lemma IsAbs_Clean p : IsAbs (Clean p) = IsAbs p.
Proof.
  unfold Clean, clean_elems. destruct (IsAbs p) eqn:E; [done|].
  pose proof (List.Forall_rev (foldl_clean_rel (Split "/" p) [] (Split_no_sep _ _) (List.Forall_nil _)))
    as Hst.
  destruct (rev _) as [|e es]; [done|]. inversion_clear Hst as [|? ? [He Hne] _].
  destruct e as [|c e]; [done|]. by destruct es.
Qed.

(** The check of the node paths: a cleaned absolute path is its own directory
    iff it is the root. *)
Lemma Dir_Clean_self p : IsAbs p = true -> (Dir (Clean p) = Clean p <-> Clean p = "/").
Proof.
  intros Hp. split; [|by intros ->].
  destruct (Clean_abs p Hp) as [Hc Hn]. intros Hd.
  destruct (clean_elems p) as [|e0 es0] eqn:Ee; [by rewrite Hc|].
  exfalso. assert (exists es e, e0 :: es0 = es ++ [e]) as (es & e & Heq).
  { destruct (exists_last (l := e0 :: es0)) as (es & e & ->); [done|by exists es, e]. }
  rewrite Heq in Hn, Hc. apply Forall_app in Hn as [_ Hn].
  inversion_clear Hn as [|? ? (Hne & _ & _ & Hsl) _].
  destruct (join_slash_snoc es e) as (s & Hs). rewrite Hs in Hc.
  assert (Clean p = ("/" +++ s) +++ e) as Hc' by (rewrite Hc; done).
  pose proof (Clean_length (up_to_slash (Clean p))) as Hlen. fold (Dir (Clean p)) in Hlen.
  rewrite Hd in Hlen. rewrite Hc' in Hlen at 2. rewrite up_to_slash_app in Hlen by done.
  pose proof (up_to_slash_length ("/" +++ s)). rewrite Hc', !append_length in Hlen.
  rewrite append_length in *. destruct e; [done|]. simpl in *. lia.
Qed.
