(* ===== verification/GoFlag.v ===== *)
(** * Command lines in Go

    [strconv.ParseBool] and the package [flag] of Go 1.15: flags that are
    registered with a variable, and [Parse], which assigns the flags of a command
    line to the variables, of type [V], in their order.  [flag.CommandLine] ends
    the process when it cannot parse. *)

From Stdlib Require Import Ascii.
From S2P Require Import Prelude Effects.

(** [strconv.ParseBool]; the value is false on an error. *)
Definition ParseBool (s : string) : option bool :=
  if bool_decide (s ∈ ["1"; "t"; "T"; "TRUE"; "true"; "True"]) then Some true
  else if bool_decide (s ∈ ["0"; "f"; "F"; "FALSE"; "false"; "False"]) then Some false
  else None.

Section Flags.
Context {V : Type}.

(** A registered flag: whether it is boolean, and what setting it to a text does
    to the variables; [None] is an error. *)
Record flag_def := mkFlag { fg_IsBoolFlag : bool; fg_Set : string -> V -> option V }.
Abbreviation formal := (gmap string flag_def).

Definition StringVar (set : string -> V -> V) : flag_def := mkFlag false (fun x v => Some (set x v)).
Definition BoolVar (set : bool -> V -> V) : flag_def := mkFlag true (fun x v => (fun b => set b v) <$> ParseBool x).

(** [FlagSet.Var] panics if the name is taken. *)
Definition Var (name : string) (f : flag_def) (fs : outcome formal) : outcome formal :=
  match fs with
  | Panicked m => Panicked m
  | Returned fs => match fs !! name with
                   | Some _ => Panicked ("flag redefined: " +++ name)
                   | None => Returned (<[name := f]> fs)
                   end
  end.

Lemma Var_Returned name f fs fs' :
  Var name f fs = Returned fs' -> exists fs0, fs = Returned fs0 /\ fs0 !! name = None /\ fs' = <[name := f]> fs0.
Proof. destruct fs as [fs0|]; cbn; [|done]. destruct (fs0 !! name) eqn:E; intros; simplify_eq; eauto. Qed.

(** Flags whose variables belong to others: they accept some values. *)
Definition foreign (f : bool * (string -> bool)) : flag_def :=
  mkFlag f.1 (fun x v => if f.2 x then Some v else None).
Definition add_foreign (flags : list (string * (bool * (string -> bool)))) (fs : outcome formal) : outcome formal :=
  foldl (fun fs '(name, f) => Var name (foreign f) fs) fs flags.

Lemma add_foreign_Returned flags fs fs' :
  add_foreign flags fs = Returned fs' -> exists fs0, fs = Returned fs0 /\ fs0 ⊆ fs' /\
    forall name f, fs' !! name = Some f -> fs0 !! name = Some f \/ exists g, f = foreign g.
Proof.
  revert fs. induction flags as [|[name g] flags IH]; intros fs.
  - unfold add_foreign. cbn. intros ->. exists fs'. split; [done|]. split; [done|]. auto.
  - intros (fs1 & H1 & Hsub & H2)%IH. apply Var_Returned in H1 as (fs0 & -> & Hnone & ->).
    exists fs0. split; [done|]. split.
    + etrans; [by apply insert_subseteq|done].
    + intros m f [Hm|Hm]%H2; [|by right]. apply lookup_insert_Some in Hm as [[<- <-]|[_ Hm]]; [right; by eexists|by left].
Qed.

Inductive flag_error :=
| BadFlagSyntax (arg : string)
| FlagNotDefined (name : string)
| InvalidValue (value name : string)
| FlagNeedsArgument (name : string)
| ErrHelp.

Inductive parse_result :=
| Parsed (v : V) (args : list string)
| ParseError (v : V) (e : flag_error).

(** The argument at the front of a command line. *)
Inductive token :=
| NoFlag
| Terminator
| BadFlag
| Flag (name : string) (value : option string).

(** The name up to the first [=], which cannot be at its start. *)
Fixpoint split_value (s : string) : string * option string :=
  match s with
  | EmptyString => (EmptyString, None)
  | String c s' =>
      if (c ==? "="%char) then (EmptyString, Some s')
      else let '(name, value) := split_value s' in (String c name, value)
  end.

Definition flag_token (name : string) : token :=
  match name with
  | EmptyString => BadFlag
  | String c rest =>
      if (c ==? "-"%char) || (c ==? "="%char) then BadFlag
      else let '(n, value) := split_value rest in Flag (String c n) value
  end.

Definition tokenize (s : string) : token :=
  match s with
  | EmptyString => NoFlag
  | String d name =>
      if d !=? "-"%char then NoFlag
      else match name with
           | EmptyString => NoFlag
           | String d' name' =>
               if d' !=? "-"%char then flag_token name
               else match name' with
                    | EmptyString => Terminator
                    | _ => flag_token name'
                    end
           end
  end.

(** [FlagSet.Parse], whose loop calls [parseOne] *)
Fixpoint Parse (fs : formal) (args : list string) (v : V) : parse_result :=
  match args with
  | [] => Parsed v []
  | s :: rest =>
      match tokenize s with
      | NoFlag => Parsed v args
      | Terminator => Parsed v rest
      | BadFlag => ParseError v (BadFlagSyntax s)
      | Flag name value =>
          match fs !! name with
          | None =>
              if (name ==? "help") || (name ==? "h") then ParseError v ErrHelp
              else ParseError v (FlagNotDefined name)
          | Some f =>
              match fg_IsBoolFlag f, value, rest with
              | true, _, _ =>
                  let x := default "true" value in
                  match fg_Set f x v with
                  | Some v => Parse fs rest v
                  | None => ParseError v (InvalidValue x name)
                  end
              | false, Some x, _ =>
                  match fg_Set f x v with
                  | Some v => Parse fs rest v
                  | None => ParseError v (InvalidValue x name)
                  end
              | false, None, x :: rest =>
                  match fg_Set f x v with
                  | Some v => Parse fs rest v
                  | None => ParseError v (InvalidValue x name)
                  end
              | false, None, [] => ParseError v (FlagNeedsArgument name)
              end
          end
      end
  end.

(** The exit code of a process whose [CommandLine] fails to parse. *)
Definition exit_code (e : flag_error) : nat := match e with ErrHelp => 0 | _ => 2 end.

(** ** Writing command lines *)

(** A flag of a command line, in one of the spellings: with one or two dashes,
    with the value in the same argument, in the next one, or left out. *)
Inductive spelling := SameArg | NextArg | NoValue.
Record flag_use := mkUse { fu_name : string; fu_long : bool; fu_value : string; fu_spelling : spelling }.

Definition dashes (u : flag_use) : string := if fu_long u then "--" else "-".
Definition write_flag (u : flag_use) : list string :=
  match fu_spelling u with
  | SameArg => [dashes u +++ fu_name u +++ "=" +++ fu_value u]
  | NextArg => [dashes u +++ fu_name u; fu_value u]
  | NoValue => [dashes u +++ fu_name u]
  end.

(** Names of flags are not empty, contain no [=] and do not start with [-]. *)
Fixpoint no_equals (s : string) : bool :=
  match s with EmptyString => true | String c s => (c !=? "="%char) && no_equals s end.
Definition flag_name (s : string) : bool :=
  match s with EmptyString => false | String c _ => (c !=? "-"%char) && no_equals s end.

(** A use that fits the flag: a value of a boolean flag cannot be the next
    argument, that of another one cannot be left out. *)
Definition use_ok (fs : formal) (u : flag_use) : Prop :=
  exists f, fs !! fu_name u = Some f /\
    match fu_spelling u with
    | SameArg => True
    | NextArg => fg_IsBoolFlag f = false
    | NoValue => fg_IsBoolFlag f = true
    end.

(** What a use does to the variables. *)
Definition apply_use (fs : formal) (v : V) (u : flag_use) : option V :=
  match fs !! fu_name u with
  | None => None
  | Some f => fg_Set f (match fu_spelling u with NoValue => "true" | _ => fu_value u end) v
  end.

Definition apply_uses (fs : formal) (us : list flag_use) (v : V) : option V :=
  foldl (fun v u => v ≫= fun v => apply_use fs v u) (Some v) us.

Lemma split_value_spec name value :
  no_equals name = true -> split_value name = (name, None) /\ split_value (name +++ String "="%char value) = (name, Some value).
Proof.
  induction name as [|c name IH]; cbn [no_equals]; [done|]. intros [Hc Hn]%andb_true_iff.
  change (String c name +++ ?t) with (String c (name +++ t)). cbn. case_bool_decide; [done|].
  by destruct (IH Hn) as [-> ->].
Qed.

Lemma tokenize_flag u :
  flag_name (fu_name u) = true ->
  tokenize (dashes u +++ fu_name u) = Flag (fu_name u) None /\
  tokenize (dashes u +++ fu_name u +++ "=" +++ fu_value u) = Flag (fu_name u) (Some (fu_value u)).
Proof.
  unfold dashes. destruct u as [[|c name] long value sp]; cbn [fu_name fu_long fu_value flag_name no_equals]; [done|].
  intros [Hd [He Hn]%andb_true_iff]%andb_true_iff. do 2 (case_bool_decide; [done|]).
  destruct (split_value_spec name value Hn) as [E1 E2].
  change (String c name +++ "=" +++ value) with (String c (name +++ String "="%char value)).
  destruct long; [change ("--" +++ ?t) with (String "-"%char (String "-"%char t))|change ("-" +++ ?t) with (String "-"%char t)];
    cbn; rewrite E1, E2, ?(bool_decide_eq_false_2 (c = "-"%char)), ?(bool_decide_eq_false_2 (c = "="%char)) by done; done.
Qed.

Lemma Parse_use fs u v v' rest :
  flag_name (fu_name u) = true -> use_ok fs u -> apply_use fs v u = Some v' ->
  Parse fs (write_flag u ++ rest) v = Parse fs rest v'.
Proof.
  intros [E1 E2]%tokenize_flag (f & Hf & Hsp). unfold apply_use, write_flag. rewrite Hf.
  destruct (fu_spelling u); cbn -[String.append]; rewrite ?E1, ?E2, Hf, ?Hsp; cbn [default]; [|by intros ->..].
  unfold id. intros ->. by destruct (fg_IsBoolFlag f).
Qed.

(** A command line that was written from uses of its flags is parsed back: every
    use is applied, in their order, and parsing goes on with the rest. *)
Lemma Parse_written fs us v v' rest :
  Forall (fun u => flag_name (fu_name u) = true /\ use_ok fs u) us -> apply_uses fs us v = Some v' ->
  Parse fs ((us ≫= write_flag) ++ rest) v = Parse fs rest v'.
Proof.
  intros Hus. revert v. induction Hus as [|u us [Hn Hu] _ IH]; intros v; [by intros [= ->]|].
  unfold apply_uses. cbn [foldl mbind option_bind]. destruct (apply_use fs v u) as [v1|] eqn:E.
  - intros H. cbn. rewrite <- app_assoc, (Parse_use fs u v v1) by done. by apply IH.
  - intros H. exfalso. clear -H. by induction us.
Qed.
End Flags.
Arguments flag_def : clear implicits.
Arguments parse_result : clear implicits.
