(* ===== verification/Sha256.v ===== *)
(** * SHA-256 and hexadecimal notation

    [crypto/sha256] and the verb [%x] of [fmt], which [utils.ResourceName]
    uses to shorten names.  Words are 32-bit integers kept reduced in [Z]. *)

From Stdlib Require Import Ascii String.
From S2P Require Import Prelude.
Local Open Scope string_scope.

Local Open Scope Z_scope.

Definition w32 (z : Z) : Z := Z.land z 0xFFFFFFFF.
Definition rotr (n x : Z) : Z := Z.lor (Z.shiftr x n) (w32 (Z.shiftl x (32 - n))).
Definition not32 (x : Z) : Z := Z.lxor x 0xFFFFFFFF.

(** The constants of the algorithm are the first 32 bits of the fractional
    parts of the cube roots and the square roots of the first primes. *)
Definition is_prime (n : Z) : bool :=
  forallb (fun d => negb (n mod Z.of_nat d =? 0)) (seq 2 (Z.to_nat (Z.sqrt n) - 1)).

(** The 64 primes up to 311. *)
Definition primes : list Z := List.filter is_prime (Z.of_nat <$> seq 2 310).

Definition cube_root (n : Z) : Z :=
  foldl (fun r i => let r' := r + Z.shiftl 1 (Z.of_nat i) in if r' * r' * r' <=? n then r' else r)
    0 (rev (seq 0 36)).

Definition round_constants : list Z :=
  Eval vm_compute in (fun p => w32 (cube_root (Z.shiftl p 96))) <$> primes.

(** The working variables. *)
Record digest := mkDigest {
  d_a : Z; d_b : Z; d_c : Z; d_d : Z; d_e : Z; d_f : Z; d_g : Z; d_h : Z
}.

Definition initial : digest :=
  Eval vm_compute in
    match (fun p => w32 (Z.sqrt (Z.shiftl p 64))) <$> take 8 primes with
    | [a; b; c; d; e; f; g; h] => mkDigest a b c d e f g h
    | _ => mkDigest 0 0 0 0 0 0 0 0
    end.

(** The message schedule is kept latest word first. *)
Definition next_word (w : list Z) : Z :=
  let at_ i := nth i w 0 in
  let w15 := at_ 14%nat in
  let w2 := at_ 1%nat in
  let s0 := Z.lxor (Z.lxor (rotr 7 w15) (rotr 18 w15)) (Z.shiftr w15 3) in
  let s1 := Z.lxor (Z.lxor (rotr 17 w2) (rotr 19 w2)) (Z.shiftr w2 10) in
  w32 (at_ 15%nat + s0 + at_ 6%nat + s1).

Definition schedule (block : list Z) : list Z :=
  rev (Nat.iter 48 (fun w => next_word w :: w) (rev block)).

Definition round (s : digest) (kw : Z * Z) : digest :=
  let '(k, w) := kw in
  let '(mkDigest a b c d e f g h) := s in
  let s1 := Z.lxor (Z.lxor (rotr 6 e) (rotr 11 e)) (rotr 25 e) in
  let ch := Z.lxor (Z.land e f) (Z.land (not32 e) g) in
  let t1 := w32 (h + s1 + ch + k + w) in
  let s0 := Z.lxor (Z.lxor (rotr 2 a) (rotr 13 a)) (rotr 22 a) in
  let maj := Z.lxor (Z.lxor (Z.land a b) (Z.land a c)) (Z.land b c) in
  let t2 := w32 (s0 + maj) in
  mkDigest (w32 (t1 + t2)) a b c (w32 (d + t1)) e f g.

Definition compress (s : digest) (block : list Z) : digest :=
  let r := foldl round s (zip round_constants (schedule block)) in
  mkDigest (w32 (d_a s + d_a r)) (w32 (d_b s + d_b r)) (w32 (d_c s + d_c r)) (w32 (d_d s + d_d r))
           (w32 (d_e s + d_e r)) (w32 (d_f s + d_f r)) (w32 (d_g s + d_g r)) (w32 (d_h s + d_h r)).

Definition bytes_of (s : string) : list Z := (fun c => Z.of_N (N_of_ascii c)) <$> String.list_ascii_of_string s.

(** The big-endian bytes of a word. *)
Definition be_bytes (n : nat) (x : Z) : list Z :=
  (fun i => Z.land (Z.shiftr x (8 * Z.of_nat i)) 0xFF) <$> rev (seq 0 n).

Definition pad (m : list Z) : list Z :=
  let len := length m in
  let zeros := Z.to_nat ((55 - Z.of_nat len) mod 64) in
  m ++ [0x80] ++ repeat 0 zeros ++ be_bytes 8 (8 * Z.of_nat len).

(** The blocks of 16 words of a padded message. *)
Fixpoint words (l : list Z) : list Z :=
  match l with
  | a :: b :: c :: d :: l =>
      Z.lor (Z.lor (Z.shiftl a 24) (Z.shiftl b 16)) (Z.lor (Z.shiftl c 8) d) :: words l
  | _ => []
  end.

Fixpoint blocks (n : nat) (ws : list Z) : list (list Z) :=
  match n with
  | O => []
  | S n => firstn 16 ws :: blocks n (skipn 16 ws)
  end.

Definition sha256 (m : string) : list Z :=
  let ws := words (pad (bytes_of m)) in
  let r := foldl compress initial (blocks (Nat.div (length ws) 16) ws) in
  mjoin (be_bytes 4 <$> [d_a r; d_b r; d_c r; d_d r; d_e r; d_f r; d_g r; d_h r]).

(** [fmt.Sprintf("%x", bytes)] *)
Definition hex_digit (z : Z) : ascii :=
  ascii_of_N (Z.to_N (if z <? 10 then 48 + z else 87 + z)).

Fixpoint hex (l : list Z) : string :=
  match l with
  | [] => ""
  | b :: l => String (hex_digit (Z.shiftr b 4)) (String (hex_digit (Z.land b 15)) (hex l))
  end.

Example sha256_empty :
  hex (sha256 "") = "e3b0c44298fc1c149afbf4c8996fb92427ae41e4649b934ca495991b7852b855".
Proof. vm_compute. reflexivity. Qed.

Example sha256_abc :
  hex (sha256 "abc") = "ba7816bf8f01cfea414140de5dae2223b00361a396177a9cb410ff61f20015ad".
Proof. vm_compute. reflexivity. Qed.

(** Two blocks. *)
Example sha256_long :
  hex (sha256 "abcdbcdecdefdefgefghfghighijhijkijkljklmklmnlmnomnopnopq") =
    "248d6a61d20638b8e5c026930c3e6039a33ce45964ff2167f6ecedd419db06c1".
Proof. vm_compute. reflexivity. Qed.

Lemma sha256_length m : length (sha256 m) = 32%nat.
Proof. reflexivity. Qed.

Lemma hex_length l : String.length (hex l) = (2 * length l)%nat.
Proof. induction l as [|b l IH]; simpl; [done|]. rewrite IH. lia. Qed.
