(* ===== verification/Utils.v ===== *)
(** * Utilities ([internal/utils])

    Finalizer lists ([strings.go]), resource names ([strings.go]), status
    conditions ([conditions.go]), annotations that become environment variables
    ([annotationtoenv.go]), the node to path mapping ([nodepath.go]) and the
    mapping of Pod events to their owner ([podmapper.go]). *)

From stdpp Require Import pretty.
From S2P Require Import Prelude Effects Api GoPath Sha256.

(** ** Lists of strings ([strings.go]) *)

(** [RemoveString] and [AddString] update the slice they point to; the first
    component is its new value. *)
Fixpoint RemoveString (slice : list string) (s : string) : list string * bool :=
  match slice with
  | [] => ([], false)
  | item :: slice =>
      let '(filtered, removed) := RemoveString slice s in
      if item ==? s then (filtered, true) else (item :: filtered, removed)
  end.

Fixpoint HasString (slice : list string) (s : string) : bool :=
  match slice with
  | [] => false
  | item :: slice => if item ==? s then true else HasString slice s
  end.

Definition AddString (slice : list string) (s : string) : list string * bool :=
  if HasString slice s then (slice, false) else (slice ++ [s], true).

Lemma HasString_elem l s : HasString l s = true <-> s ∈ l.
Proof.
  induction l as [|x l IH]; simpl; [set_solver|]. case_bool_decide as H; [subst; set_solver|].
  rewrite IH. set_solver.
Qed.

Lemma RemoveString_filter l s :
  RemoveString l s = (filter (fun x => x <> s) l, HasString l s).
Proof.
  induction l as [|x l IH]; simpl; [done|]. rewrite IH, filter_cons.
  case_bool_decide; case_decide; done.
Qed.

Lemma filter_not_elem (l : list string) s : s ∉ l -> filter (fun x => x <> s) l = l.
Proof.
  induction l as [|x l IH]; intros H; [done|]. rewrite filter_cons.
  rewrite decide_True by set_solver. f_equal. apply IH. set_solver.
Qed.

(** Adding a finalizer and removing it again restores the list; each
    operation reports whether it changed the list; afterwards the string is in
    the list, respectively not in it, and the others are untouched. *)
Theorem add_remove_string l s :
  let '(l1, added) := AddString l s in
  let '(l2, removed) := RemoveString l s in
  (HasString l1 s = true /\ HasString l2 s = false) /\
  (added = negb (HasString l s) /\ removed = HasString l s) /\
  (forall x, x <> s -> (x ∈ l1 <-> x ∈ l) /\ (x ∈ l2 <-> x ∈ l)) /\
  (added = true -> RemoveString l1 s = (l, true)).
Proof.
  unfold AddString. rewrite RemoveString_filter.
  assert (Hf : HasString (filter (fun x => x <> s) l) s = false).
  { apply not_true_iff_false. rewrite HasString_elem. rewrite list_elem_of_filter. naive_solver. }
  assert (He : forall x, x <> s -> x ∈ filter (fun x => x <> s) l <-> x ∈ l).
  { intros x Hx. rewrite list_elem_of_filter. naive_solver. }
  destruct (HasString l s) eqn:E; simpl.
  - split_and!; try done. intros x Hx. split; [done|by apply He].
  - split_and!; try done; [apply HasString_elem; set_solver| |].
    + intros x Hx. split; [set_solver|by apply He].
    + intros _. rewrite RemoveString_filter, filter_app. simpl.
      assert (s ∉ l) as Hn by (rewrite <- HasString_elem; by rewrite E).
      rewrite filter_not_elem by done. rewrite filter_cons, decide_False by naive_solver.
      rewrite app_nil_r. f_equal. apply HasString_elem. set_solver.
Qed.

(** ** Resource names *)

(** [name[:n]] panics if [n] is negative or too large. *)
Definition slice_to (s : string) (n : Z) : option string :=
  if ((0 <=? n) && (n <=? Z.of_nat (String.length s)))%Z
  then Some (String.substring 0 (Z.to_nat n) s) else None.

Definition ResourceName (ownerName suffix : string) : outcome string :=
  let maxLen := (63 - 8 - 1 - Z.of_nat (String.length suffix))%Z in
  let name := ownerName +++ "-" +++ suffix in
  if (maxLen <? Z.of_nat (String.length ownerName))%Z then
    match slice_to (hex (sha256 name)) 7, slice_to ownerName maxLen with
    | Some nameDigest, Some prefix => Returned (prefix +++ "-" +++ nameDigest)
    | _, _ => Panicked "slice bounds out of range"
    end
  else Returned name.

Example resource_name_short : ResourceName "pvc-1" "provisioner" = Returned "pvc-1-provisioner".
Proof. reflexivity. Qed.

Lemma substring_length n s : n <= String.length s -> String.length (String.substring 0 n s) = n.
Proof.
  revert s. induction n as [|n IH]; intros [|c s] H; simpl in *; [done..|lia|].
  rewrite IH; lia.
Qed.

Lemma slice_to_length s n :
  (0 <= n <= Z.of_nat (String.length s))%Z ->
  exists t, slice_to s n = Some t /\ String.length t = Z.to_nat n.
Proof.
  intros H. unfold slice_to. rewrite (proj2 (andb_true_iff _ _)) by (split; lia).
  eexists. split; [done|]. apply substring_length. lia.
Qed.

Lemma slice_to_spec s n :
  match slice_to s n with
  | Some t => (0 <= n <= Z.of_nat (String.length s))%Z /\ String.length t = Z.to_nat n
  | None => ~ (0 <= n <= Z.of_nat (String.length s))%Z
  end.
Proof.
  unfold slice_to. destruct (_ && _) eqn:E.
  - apply andb_true_iff in E. split; [lia|]. apply substring_length. lia.
  - apply andb_false_iff in E. lia.
Qed.

(** C35: a resource name fits a DNS label: it has at most 62 bytes.  Short
    owner names are kept with the suffix; only a suffix of more than 54 bytes
    makes the function panic, for the long owner names. *)
Theorem resource_name_fits owner suffix :
  match ResourceName owner suffix with
  | Returned name =>
      String.length name <= 62 /\
      (String.length owner + String.length suffix <= 54 -> name = owner +++ "-" +++ suffix) /\
      (54 < String.length owner + String.length suffix ->
         String.length name = 62 - String.length suffix)
  | Panicked _ => 54 < String.length suffix
  end.
Proof.
  unfold ResourceName. destruct (Z.ltb_spec (63 - 8 - 1 - Z.of_nat (String.length suffix))
    (Z.of_nat (String.length owner))) as [Hlt|Hge].
  - pose proof (slice_to_spec (hex (sha256 (owner +++ "-" +++ suffix))) 7) as Hh.
    rewrite hex_length, sha256_length in Hh.
    destruct (slice_to (hex _) 7) as [d|]; [|exfalso; apply Hh; lia]. destruct Hh as [_ Hd].
    pose proof (slice_to_spec owner (63 - 8 - 1 - Z.of_nat (String.length suffix))) as Hp.
    destruct (slice_to owner _) as [p|]; [|lia]. rewrite !append_length. simpl. lia.
  - split_and!; [rewrite !append_length; simpl; lia|done|lia].
Qed.

(** With the suffixes in use no name makes the function panic. *)
Lemma ResourceName_total owner suffix : String.length suffix <= 54 ->
  exists name, ResourceName owner suffix = Returned name.
Proof.
  intros H. unfold ResourceName. case_match eqn:Hlt; [|by eexists].
  destruct (slice_to_length (hex (sha256 (owner +++ "-" +++ suffix))) 7) as (d & -> & _);
    [rewrite hex_length, sha256_length; lia|].
  destruct (slice_to_length owner (63 - 8 - 1 - Z.of_nat (String.length suffix))) as (t & -> & _);
    [lia|by eexists].
Qed.

(** ** Conditions ([conditions.go]) *)

Fixpoint GetCondition (conditions : list Condition) (condType : string) : option Condition :=
  match conditions with
  | [] => None
  | condition :: conditions =>
      if cd_Type condition ==? condType then Some condition else GetCondition conditions condType
  end.

(** The loop of [SetCondition]: replace the condition of the same type. *)
Fixpoint replace_condition (conditions : list Condition) (newCond : Condition)
  : option (list Condition * bool) :=
  match conditions with
  | [] => None
  | condition :: rest =>
      if cd_Type condition ==? cd_Type newCond then
        let newCond :=
          if cd_Status condition ==? cd_Status newCond
          then newCond <| cd_LastTransitionTime := cd_LastTransitionTime condition |>
          else newCond in
        let changed :=
          (cd_Status condition !=? cd_Status newCond) ||
          (cd_ObservedGeneration condition !=? cd_ObservedGeneration newCond) ||
          (cd_Reason condition !=? cd_Reason newCond) ||
          (cd_Message condition !=? cd_Message newCond) in
        Some (newCond :: rest, changed)
      else
        '(rest, changed) ← replace_condition rest newCond;
        Some (condition :: rest, changed)
  end.

(** [SetCondition] at time [now]: the new list and whether it changed. *)
Definition SetCondition (conditions : list Condition) (newCond : Condition) (now : Time)
  : list Condition * bool :=
  let newCond := newCond <| cd_LastTransitionTime := now |> in
  match replace_condition conditions newCond with
  | Some r => r
  | None => (conditions ++ [newCond], true)
  end.

(** Equal up to the transition time. *)
Definition same_condition (a b : Condition) : Prop :=
  a <| cd_LastTransitionTime := 0%Z |> = b <| cd_LastTransitionTime := 0%Z |>.

(** The condition as [SetCondition] stores it. *)
Definition stored_condition (old : option Condition) (c : Condition) (now : Time) : Condition :=
  c <| cd_LastTransitionTime :=
    match old with
    | Some o => if cd_Status o ==? cd_Status c then cd_LastTransitionTime o else now
    | None => now
    end |>.

Lemma replace_condition_spec l c :
  match replace_condition l c with
  | None => GetCondition l (cd_Type c) = None
  | Some (l', changed) =>
      exists old, GetCondition l (cd_Type c) = Some old /\
        GetCondition l' (cd_Type c) = Some (stored_condition (Some old) c (cd_LastTransitionTime c)) /\
        (forall t, t <> cd_Type c -> GetCondition l' t = GetCondition l t) /\
        (changed = false <-> same_condition old c) /\
        (changed = false -> l' = l) /\
        cd_Type <$> l' = cd_Type <$> l
  end.
Proof.
  induction l as [|x l IH]; simpl; [done|]. case_bool_decide as Ht.
  - exists x. destruct x as [ty st og lt re me], c as [ty' st' og' lt' re' me'].
    unfold stored_condition, same_condition, set_field. simpl in *. subst ty'.
    repeat (case_bool_decide; simpl); split_and!; try done; try (split; congruence); try congruence;
      intros t Hne; by rewrite !bool_decide_eq_false_2 by congruence.
  - destruct (replace_condition l c) as [[l' ch]|]; simpl; [|done].
    destruct IH as (old & H1 & H2 & H3 & H4 & H5 & H6). exists old.
    rewrite bool_decide_eq_false_2 by done. split_and!; try done.
    + intros t Hne. case_bool_decide; [done|by apply H3].
    + intros Hc. by rewrite H5.
    + by f_equal.
Qed.

Lemma GetCondition_app_None l l' t :
  GetCondition l t = None -> GetCondition (l ++ l') t = GetCondition l' t.
Proof. induction l as [|x l IH]; simpl; [done|]. by case_bool_decide. Qed.

Lemma GetCondition_snoc_ne l c t :
  t <> cd_Type c -> GetCondition (l ++ [c]) t = GetCondition l t.
Proof.
  intros Hne. induction l as [|x l IH]; simpl.
  - by rewrite bool_decide_eq_false_2 by congruence.
  - by case_bool_decide.
Qed.

Lemma GetCondition_None l t : GetCondition l t = None <-> t ∉ cd_Type <$> l.
Proof.
  induction l as [|x l IH]; simpl; [set_solver|]. case_bool_decide as H; [set_solver|].
  rewrite IH. set_solver.
Qed.

Lemma SetCondition_get l c now :
  GetCondition (SetCondition l c now).1 (cd_Type c) =
    Some (stored_condition (GetCondition l (cd_Type c)) c now).
Proof.
  unfold SetCondition. set (c1 := c <| cd_LastTransitionTime := now |>).
  pose proof (replace_condition_spec l c1) as H. change (cd_Type c1) with (cd_Type c) in H.
  destruct (replace_condition l c1) as [[l' ch]|]; simpl.
  - destruct H as (old & H1 & H2 & _). by rewrite H1, H2.
  - rewrite GetCondition_app_None by done. simpl. by rewrite bool_decide_eq_true_2, H.
Qed.

(** [SetCondition] stores the condition under its type with the time of
    the last change of its status, leaves the conditions of other types alone,
    never introduces a second condition of a type, and reports no change
    exactly when the stored condition already had the same content, in which
    case the list is the same. *)
Theorem set_condition_spec l c now :
  let '(l', changed) := SetCondition l c now in
  GetCondition l' (cd_Type c) = Some (stored_condition (GetCondition l (cd_Type c)) c now) /\
  (forall t, t <> cd_Type c -> GetCondition l' t = GetCondition l t) /\
  (NoDup (cd_Type <$> l) -> NoDup (cd_Type <$> l')) /\
  (changed = false <-> exists old, GetCondition l (cd_Type c) = Some old /\ same_condition old c) /\
  (changed = false -> l' = l).
Proof.
  unfold SetCondition. set (c1 := c <| cd_LastTransitionTime := now |>).
  pose proof (replace_condition_spec l c1) as H.
  destruct (replace_condition l c1) as [[l' ch]|].
  - destruct H as (old & H1 & H2 & H3 & H4 & H5 & H6). split_and!.
    + change (cd_Type c1) with (cd_Type c) in H1, H2. by rewrite H1, H2.
    + exact H3.
    + by rewrite H6.
    + rewrite H4. change (cd_Type c1) with (cd_Type c) in H1. rewrite H1.
      split; [intros Hs; by exists old|by intros (o & [= <-] & Hs)].
    + exact H5.
  - change (cd_Type c1) with (cd_Type c) in H. split_and!.
    + rewrite GetCondition_app_None by done. simpl. rewrite bool_decide_eq_true_2 by done.
      by rewrite H.
    + intros t Hne. by apply GetCondition_snoc_ne.
    + rewrite fmap_app. intros Hnd. apply NoDup_app. split_and!; [done| |by apply NoDup_singleton].
      intros t Ht. apply GetCondition_None in H. set_solver.
    + rewrite H. split; [done|]. by intros (o & ? & _).
    + done.
Qed.

(** ** Annotations and environment variables ([annotationtoenv.go]) *)

Definition env_required (m : EnvMapping) : bool :=
  match em_Required m with None => true | Some b => b end.

(** [AnnotationsToEnv]: the loop with the variables [env] and [err]. *)
Fixpoint annotations_loop (a : strmap) (mapping : list EnvMapping) (env : list EnvVar)
    (err : option goerr) : list EnvVar * option goerr :=
  match mapping with
  | [] => (env, err)
  | m :: mapping =>
      let v := map_index a (em_Annotation m) in
      if v !=? "" then annotations_loop a mapping (env ++ [mkEnvVar (em_Name m) v None]) err
      else if env_required m && (err ==? None) then
        annotations_loop a mapping env
          (Some (Errorf ("missing or empty annotation " +++ quoted (em_Annotation m))))
      else annotations_loop a mapping env err
  end.

Definition AnnotationsToEnv (annotations : strmap) (mapping : list EnvMapping)
  : list EnvVar * option goerr := annotations_loop annotations mapping [] None.

(** [CopyAnnotations]: the new annotations of [dest]. *)
Definition CopyAnnotations (src dest : strmap) (mapping : list EnvMapping) : strmap :=
  let b := default ∅ dest in
  Some (foldl (fun b m =>
    match src with
    | None => b
    | Some _ => <[em_Annotation m := map_index src (em_Annotation m)]> b
    end) b mapping).

Definition is_missing (a : strmap) (m : EnvMapping) : bool :=
  env_required m && (map_index a (em_Annotation m) ==? "").

Lemma annotations_loop_spec a mapping env err :
  annotations_loop a mapping env err =
    (env ++ ((fun m => mkEnvVar (em_Name m) (map_index a (em_Annotation m)) None) <$>
       filter (fun m => map_index a (em_Annotation m) <> "") mapping),
     match err with
     | Some _ => err
     | None => (fun m => Errorf ("missing or empty annotation " +++ quoted (em_Annotation m))) <$>
                 List.find (is_missing a) mapping
     end).
Proof.
  revert env err. induction mapping as [|m mapping IH]; intros env err; simpl.
  - rewrite app_nil_r. by destruct err.
  - rewrite filter_cons. unfold is_missing.
    destruct (bool_decide_reflect (map_index a (em_Annotation m) = "")) as [Hv|Hv]; simpl.
    + rewrite decide_False by naive_solver. rewrite andb_true_r.
      destruct (env_required m), err; simpl; rewrite IH; done.
    + rewrite decide_True by done. rewrite IH, andb_false_r. simpl. by rewrite <- app_assoc.
Qed.

(** The environment holds, in the order of the mapping, exactly the
    annotations that are set, and the error names the first required annotation
    that is missing or empty: there is an error iff there is such an
    annotation. *)
Theorem annotations_to_env_spec a mapping :
  let '(env, err) := AnnotationsToEnv a mapping in
  env = (fun m => mkEnvVar (em_Name m) (map_index a (em_Annotation m)) None) <$>
          filter (fun m => map_index a (em_Annotation m) <> "") mapping /\
  (err = None <-> forall m, m ∈ mapping -> env_required m = true -> map_index a (em_Annotation m) <> "").
Proof.
  unfold AnnotationsToEnv. rewrite annotations_loop_spec. split; [done|].
  rewrite fmap_None. split.
  - intros Hf m Hin Hr Hv. apply list_elem_of_In in Hin.
    apply (List.find_none _ _ Hf) in Hin. unfold is_missing in Hin.
    rewrite Hr, bool_decide_eq_true_2 in Hin by done. done.
  - intros H. destruct (List.find (is_missing a) mapping) as [m|] eqn:E; [|done].
    apply List.find_some in E as [Hin Hm]. apply andb_true_iff in Hm as [Hr Hv].
    apply bool_decide_eq_true in Hv. exfalso. eapply (H m); [by apply list_elem_of_In|done..].
Qed.

Lemma copied_index g src mapping k :
  map_index (Some (foldl (fun b m => <[em_Annotation m := map_index (Some src) (em_Annotation m)]> b)
    g mapping)) k =
  if bool_decide (k ∈ em_Annotation <$> mapping) then map_index (Some src) k else map_index (Some g) k.
Proof.
  revert g. induction mapping as [|m mapping IH]; intros g; [done|].
  cbn [foldl]. rewrite fmap_cons, IH. rewrite (bool_decide_ext (k ∈ em_Annotation m :: (em_Annotation <$> mapping))
    (k = em_Annotation m \/ k ∈ em_Annotation <$> mapping)) by set_solver.
  destruct (decide (k = em_Annotation m)) as [->|Hne].
  - rewrite (bool_decide_eq_true_2 (_ \/ _)) by naive_solver. case_bool_decide; [done|].
    by rewrite map_index_insert.
  - rewrite (bool_decide_ext (k = _ \/ _) (k ∈ em_Annotation <$> mapping)) by naive_solver.
    case_bool_decide; [done|]. by rewrite map_index_insert_ne by done.
Qed.

Lemma CopyAnnotations_index src dest mapping k :
  map_index (CopyAnnotations (Some src) dest mapping) k =
    if bool_decide (k ∈ em_Annotation <$> mapping) then map_index (Some src) k else map_index dest k.
Proof.
  unfold CopyAnnotations. rewrite copied_index. case_bool_decide; [done|]. by destruct dest.
Qed.

Lemma CopyAnnotations_nil dest mapping : CopyAnnotations None (Some dest) mapping = Some dest.
Proof. unfold CopyAnnotations. simpl. by induction mapping. Qed.

Lemma AnnotationsToEnv_ext a b mapping :
  (forall m, m ∈ mapping -> map_index a (em_Annotation m) = map_index b (em_Annotation m)) ->
  AnnotationsToEnv a mapping = AnnotationsToEnv b mapping.
Proof.
  unfold AnnotationsToEnv. rewrite !annotations_loop_spec. simpl.
  induction mapping as [|m mapping IH]; intros Heq; [done|].
  assert (IH' := IH ltac:(intros m' Hm'; apply Heq; set_solver)). clear IH.
  injection IH' as He Hr. rewrite !filter_cons. cbn [List.find]. unfold is_missing at 1 3.
  rewrite !Heq by set_solver. case_decide.
  - rewrite !fmap_cons, Heq by set_solver. simpl. simpl in He. rewrite He.
    destruct (_ && _); [done|]. by rewrite Hr.
  - simpl in *. rewrite He. destruct (_ && _); [done|]. by rewrite Hr.
Qed.

Lemma AnnotationsToEnv_copied src dest mapping :
  AnnotationsToEnv (CopyAnnotations (Some src) dest mapping) mapping = AnnotationsToEnv (Some src) mapping.
Proof.
  apply AnnotationsToEnv_ext. intros m Hm. rewrite CopyAnnotations_index, bool_decide_eq_true_2; [done|].
  by apply list_elem_of_fmap_2.
Qed.

(** An object that the annotations were copied to yields the same
    environment, and the same error, as the one they were copied from; its
    other annotations are kept. *)
Theorem copy_annotations_env src dest mapping :
  let copied := CopyAnnotations (Some src) dest mapping in
  AnnotationsToEnv copied mapping = AnnotationsToEnv (Some src) mapping /\
  (forall k, k ∉ em_Annotation <$> mapping -> map_index copied k = map_index dest k).
Proof.
  intros copied. split; [apply AnnotationsToEnv_copied|].
  intros k Hk. unfold copied. by rewrite CopyAnnotations_index, bool_decide_eq_false_2.
Qed.

(** ** The storage path of a node ([nodepath.go]) *)

Fixpoint node_path_loop (nodeName : string) (i : nat) (mapping : list NodePath) : result string :=
  match mapping with
  | [] => Err (Errorf ("no storage root path mapped for node " +++ quoted nodeName))
  | m :: mapping =>
      match Match (np_Name m) nodeName with
      | None =>
          Err (Errorf ("invalid node name matcher specified in spec.nodes[" +++ pretty i +++ "].name"))
      | Some true => Ok (np_Path m)
      | Some false => node_path_loop nodeName (S i) mapping
      end
  end.

Definition StorageRootPathForNode (nodeName : string) (mapping : list NodePath) : result string :=
  node_path_loop nodeName 0 mapping.

(** The position of the first entry whose pattern does not simply mismatch. *)
Lemma node_path_loop_spec node i mapping :
  match node_path_loop node i mapping with
  | Ok path => exists pre m post, mapping = pre ++ m :: post /\ np_Path m = path /\
      Match (np_Name m) node = Some true /\
      Forall (fun m => Match (np_Name m) node = Some false) pre
  | Err _ =>
      Forall (fun m => Match (np_Name m) node = Some false) mapping \/
      exists pre m post, mapping = pre ++ m :: post /\ Match (np_Name m) node = None /\
        Forall (fun m => Match (np_Name m) node = Some false) pre
  end.
Proof.
  revert i. induction mapping as [|m mapping IH]; intros i; simpl; [by left|].
  destruct (Match (np_Name m) node) as [[|]|] eqn:E.
  - by exists [], m, mapping.
  - specialize (IH (S i)). destruct (node_path_loop node (S i) mapping).
    + destruct IH as (pre & m' & post & -> & ? & ? & ?). exists (m :: pre), m', post. auto.
    + destruct IH as [?|(pre & m' & post & -> & ? & ?)]; [left; auto|right].
      exists (m :: pre), m', post. auto.
  - right. by exists [], m, mapping.
Qed.

(** A node gets the path of the first entry of the mapping whose pattern
    matches its name, and only malformed patterns or no match at all are
    errors. *)
Theorem storage_root_first_match node mapping :
  match StorageRootPathForNode node mapping with
  | Ok path => exists pre m post, mapping = pre ++ m :: post /\ np_Path m = path /\
      Match (np_Name m) node = Some true /\
      Forall (fun m => Match (np_Name m) node = Some false) pre
  | Err _ =>
      Forall (fun m => Match (np_Name m) node = Some false) mapping \/
      exists m, m ∈ mapping /\ Match (np_Name m) node = None
  end.
Proof.
  unfold StorageRootPathForNode. pose proof (node_path_loop_spec node 0 mapping) as H.
  destruct (node_path_loop node 0 mapping); [done|].
  destruct H as [?|(pre & m & post & -> & ? & _)]; [by left|right]. exists m. set_solver.
Qed.

(** A mapping of plain node names is a lookup of the name. *)
Lemma storage_root_plain node mapping :
  Forall (fun m => is_literal (np_Name m) = true) mapping ->
  forall path, StorageRootPathForNode node mapping = Ok path <->
    np_Path <$> List.find (fun m => np_Name m ==? node) mapping = Some path.
Proof.
  unfold StorageRootPathForNode. intros H path. generalize 0 as i.
  induction H as [|m mapping Hm _ IH]; intros i; simpl; [done|].
  rewrite Match_literal by done. repeat case_bool_decide; simplify_eq/=; try done.
  split; congruence.
Qed.

(** ** Events of Pods ([podmapper.go]) *)

(** The requests that [PodToRequestMapper(namespace, annName, annNamespace)]
    enqueues for an object. *)
Definition PodToRequestMapper (namespace annName annNamespace : string) (o : ObjectMeta)
  : list NamespacedName :=
  if om_Namespace o !=? namespace then []
  else match om_Annotations o with
       | None => []
       | a =>
           let owner := mkNamespacedName (map_index a annName) (map_index a annNamespace) in
           if (nn_Name owner ==? "") || ((nn_Namespace owner ==? "") && (annNamespace !=? "")) then []
           else [owner]
       end.
