(* ===== verification/Template.v ===== *)
(** * Placeholder substitution ([internal/template/template.go], [internal/utils/template.go])

    A template is a tree of maps, slices and strings as the API machinery
    unmarshals it.  The parser that replaces the placeholders of one string is
    [github.com/a8m/envsubst/parse], which is not part of this repository: it
    is the interface [EnvSubst].  The conversion of an object to such a tree and
    back is the one of [k8s.io/apimachinery], the interface [Converter]. *)

From stdpp Require Import pretty.
From Stdlib Require Import Ascii.
From S2P Require Import Prelude Effects Api GoPath.

(** [interface{}] values of a template.  A map is listed in the order in which
    the runtime happens to iterate over it. *)
Inductive json :=
| JString (s : string)
| JMap (m : list (string * json))
| JSlice (l : list json)
| JOther (v : string).

(** Induction over templates, through the lists. *)
Section JsonInd.
Context (P : json -> Prop).
Hypothesis HString : forall s, P (JString s).
Hypothesis HOther : forall v, P (JOther v).
Hypothesis HMap : forall m, Forall (fun kv => P kv.2) m -> P (JMap m).
Hypothesis HSlice : forall l, Forall P l -> P (JSlice l).

Fixpoint json_nested_ind (j : json) : P j :=
  match j with
  | JString s => HString s
  | JOther v => HOther v
  | JMap m => HMap m ((fix go m : Forall (fun kv => P kv.2) m :=
      match m with
      | [] => List.Forall_nil _
      | kv :: m => List.Forall_cons _ kv m (json_nested_ind kv.2) (go m)
      end) m)
  | JSlice l => HSlice l ((fix go l : Forall P l :=
      match l with
      | [] => List.Forall_nil _
      | j :: l => List.Forall_cons _ j l (json_nested_ind j) (go l)
      end) l)
  end.
End JsonInd.

(** ** Substitution *)

(** [parse.Parser{Name, Env, Restrict, Mode}.Parse(tpl)] with the restrictions
    [NoUnset] and [NoEmpty] and the mode [AllErrors]: a text without a
    placeholder is left alone. *)
Class EnvSubst := {
  Parse : string -> list string -> string -> result string;
  Parse_plain : forall name env s, contains_byte "$"%char s = false -> Parse name env s = Ok s
}.

Section Substitution.
Context {ES : EnvSubst}.

(** A [Substitution]: the name and the environment of its parser. *)
Record Substitution := mkSubstitution { sub_Name : string; sub_Env : list string }.

(** [NewSubstitution]; the values in the order of the iteration over the map. *)
Definition NewSubstitution (name : string) (values : list (string * string)) : Substitution :=
  mkSubstitution name ((fun kv => kv.1 +++ "=" +++ kv.2) <$> values).

Definition SubstituteString (s : Substitution) (tpl : string) : result string :=
  Parse (sub_Name s) (sub_Env s) tpl.

(** The loops of [substituteSlice] and [substituteMap] over their elements. *)
Section Loops.
Context (sub : json -> string -> result json).

Fixpoint slice_loop (parentPath : string) (i : nat) (tpl : list json) : result (list json) :=
  match tpl with
  | [] => Ok []
  | v :: tpl =>
      let path := parentPath +++ "[" +++ pretty i +++ "]" in
      match sub v path with
      | Err err => Err (Wrap path err)
      | Ok v' =>
          match slice_loop parentPath (S i) tpl with
          | Err err => Err err
          | Ok r => Ok (v' :: r)
          end
      end
  end.

Fixpoint map_loop (parentPath : string) (tpl : list (string * json)) : result (list (string * json)) :=
  match tpl with
  | [] => Ok []
  | (k, v) :: tpl =>
      let path := parentPath +++ "." +++ k in
      match sub v path with
      | Err err => Err (Wrap path err)
      | Ok v' =>
          match map_loop parentPath tpl with
          | Err err => Err err
          | Ok r => Ok ((k, v') :: r)
          end
      end
  end.
End Loops.

Fixpoint substitute (s : Substitution) (tpl : json) (path : string) : result json :=
  match tpl with
  | JString c =>
      match SubstituteString s c with Ok t => Ok (JString t) | Err err => Err err end
  | JMap m =>
      match map_loop (substitute s) path m with Ok r => Ok (JMap r) | Err err => Err err end
  | JSlice l =>
      match slice_loop (substitute s) path 0 l with Ok r => Ok (JSlice r) | Err err => Err err end
  | JOther _ => Ok tpl
  end.

Definition SubstituteMap (s : Substitution) (tpl : list (string * json))
  : result (list (string * json)) := map_loop (substitute s) "" tpl.

(** ** What is substituted

    The effect of the substitution without the bookkeeping of paths: every
    string of the tree is parsed, everything else is kept. *)
Inductive substituted (s : Substitution) : json -> json -> Prop :=
| sub_string c t : SubstituteString s c = Ok t -> substituted s (JString c) (JString t)
| sub_map m m' :
    Forall2 (fun kv kv' => kv.1 = kv'.1 /\ substituted s kv.2 kv'.2) m m' ->
    substituted s (JMap m) (JMap m')
| sub_slice l l' : Forall2 (substituted s) l l' -> substituted s (JSlice l) (JSlice l')
| sub_other v : substituted s (JOther v) (JOther v).

Lemma slice_loop_ok s l path i r :
  Forall (fun j => forall p r, substitute s j p = Ok r <-> substituted s j r) l ->
  slice_loop (substitute s) path i l = Ok r <-> Forall2 (substituted s) l r.
Proof.
  intros H. revert i r. induction H as [|j l Hj _ IH]; intros i r; simpl.
  - split; [by intros [= <-]|]. by inversion_clear 1.
  - set (p := path +++ _). split.
    + intros Hr. destruct (substitute s j p) as [j'|] eqn:E; [|done]. apply Hj in E.
      destruct (slice_loop _ _ _ l) as [r'|] eqn:E2; [|done]. injection Hr as <-.
      constructor; [done|]. by eapply IH.
    + inversion_clear 1 as [|? j' ? r' Hs Hr]. apply Hj with (p := p) in Hs. rewrite Hs.
      apply IH with (i := S i) in Hr. by rewrite Hr.
Qed.

Lemma map_loop_ok s m path r :
  Forall (fun kv => forall p r, substitute s kv.2 p = Ok r <-> substituted s kv.2 r) m ->
  map_loop (substitute s) path m = Ok r <->
  Forall2 (fun kv kv' => kv.1 = kv'.1 /\ substituted s kv.2 kv'.2) m r.
Proof.
  intros H. revert r. induction H as [|[k j] m Hj _ IH]; intros r; simpl in *.
  - split; [by intros [= <-]|]. by inversion_clear 1.
  - set (p := path +++ _). split.
    + intros Hr. destruct (substitute s j p) as [j'|] eqn:E; [|done]. apply Hj in E.
      destruct (map_loop _ _ m) as [r'|] eqn:E2; [|done]. injection Hr as <-.
      constructor; [done|]. by eapply IH.
    + inversion_clear 1 as [|? [k' j'] ? r' [Hk Hs] Hr]. simpl in *. subst k'.
      apply Hj with (p := p) in Hs. rewrite Hs. apply IH in Hr. by rewrite Hr.
Qed.

Lemma substitute_ok s tpl path r : substitute s tpl path = Ok r <-> substituted s tpl r.
Proof.
  revert path r. induction tpl as [c|v|m IH|l IH] using json_nested_ind; intros path r; simpl.
  - destruct (SubstituteString s c) as [t|] eqn:E; split; try done.
    + intros [= <-]. by constructor.
    + inversion_clear 1. congruence.
    + inversion_clear 1. congruence.
  - split; [intros [= <-]; constructor|by inversion_clear 1].
  - pose proof (fun r => map_loop_ok s m path r IH) as Hm.
    destruct (map_loop _ _ m) as [r'|] eqn:E; split; try done.
    + intros [= <-]. constructor. by apply Hm.
    + inversion_clear 1 as [|? m' Hf| |]. apply Hm in Hf. congruence.
    + inversion_clear 1 as [|? m' Hf| |]. apply Hm in Hf. congruence.
  - pose proof (fun r => slice_loop_ok s l path 0 r IH) as Hm.
    destruct (slice_loop _ _ _ l) as [r'|] eqn:E; split; try done.
    + intros [= <-]. constructor. by apply Hm.
    + inversion_clear 1 as [| |? l' Hf|]. apply Hm in Hf. congruence.
    + inversion_clear 1 as [| |? l' Hf|]. apply Hm in Hf. congruence.
Qed.

Lemma SubstituteMap_ok s m r :
  SubstituteMap s m = Ok r <-> Forall2 (fun kv kv' => kv.1 = kv'.1 /\ substituted s kv.2 kv'.2) m r.
Proof.
  apply map_loop_ok. apply Forall_forall. intros kv _ p r'. apply substitute_ok.
Qed.

(** *** The order of iteration does not matter

    Two lists that represent the same map differ in the order of their entries
    only, at every level. *)
Inductive json_equiv : json -> json -> Prop :=
| eq_string c : json_equiv (JString c) (JString c)
| eq_map m m1 m' :
    m ≡ₚ m1 -> Forall2 (fun kv kv' => kv.1 = kv'.1 /\ json_equiv kv.2 kv'.2) m1 m' ->
    json_equiv (JMap m) (JMap m')
| eq_slice l l' : Forall2 json_equiv l l' -> json_equiv (JSlice l) (JSlice l')
| eq_other v : json_equiv (JOther v) (JOther v).

Lemma Forall2_perm_l {A B} (R : A -> B -> Prop) l1 l2 r1 :
  l1 ≡ₚ l2 -> Forall2 R l1 r1 -> exists r2, r1 ≡ₚ r2 /\ Forall2 R l2 r2.
Proof.
  intros Hp. revert r1. induction Hp as [|x l1 l2 _ IH|x y l|l1 l2 l3 _ IH1 _ IH2]; intros r1 Hf.
  - exists r1. by split.
  - inversion_clear Hf as [|? b ? r Hx Hr]. apply IH in Hr as (r2 & Hp & Hr).
    exists (b :: r2). split; [by constructor|by constructor].
  - inversion_clear Hf as [|? b ? r Hx Hr]. inversion_clear Hr as [|? c ? r' Hy Hr'].
    exists (c :: b :: r'). split; [constructor|by repeat constructor].
  - apply IH1 in Hf as (r2 & Hp1 & Hf). apply IH2 in Hf as (r3 & Hp2 & Hf).
    exists r3. split; [by etrans|done].
Qed.

Lemma Forall2_transport {A} (P R : A -> A -> Prop) l l1 r :
  Forall (fun x => forall x1 y, P x x1 -> R x y -> exists y1, R x1 y1 /\ P y y1) l ->
  Forall2 P l l1 -> Forall2 R l r ->
  exists r1, Forall2 R l1 r1 /\ Forall2 P r r1.
Proof.
  intros H. revert l1 r. induction H as [|x l Hx _ IH]; intros l1 r Hp Hr.
  - inversion_clear Hp. inversion_clear Hr. exists []. by split.
  - inversion_clear Hp as [|? x1 ? l1' Hx1 Hl1]. inversion_clear Hr as [|? y ? r' Hy Hr'].
    destruct (Hx _ _ Hx1 Hy) as (y1 & HR & HP). destruct (IH _ _ Hl1 Hr') as (r1 & Hf & Hg).
    exists (y1 :: r1). split; by constructor.
Qed.

Lemma substituted_equiv s tpl tpl' r :
  json_equiv tpl tpl' -> substituted s tpl r -> exists r', substituted s tpl' r' /\ json_equiv r r'.
Proof.
  revert tpl' r. induction tpl as [c|v|m IH|l IH] using json_nested_ind; intros tpl' r He Hs.
  - inversion He; subst. inversion Hs; subst. eexists. split; [by constructor|constructor].
  - inversion He; subst. inversion Hs; subst. eexists. split; constructor.
  - inversion He as [|? m1 m' Hp Hf| |]; subst. inversion Hs as [|? r0 Hr| |]; subst.
    destruct (Forall2_perm_l _ _ _ _ Hp Hr) as (r1 & Hpr & Hr1).
    assert (IH1 : Forall (fun kv : string * json => forall tpl' r, json_equiv kv.2 tpl' ->
      substituted s kv.2 r -> exists r', substituted s tpl' r' /\ json_equiv r r') m1)
      by (by rewrite <- Hp).
    destruct (Forall2_transport (fun kv kv' : string * json => kv.1 = kv'.1 /\ json_equiv kv.2 kv'.2)
      (fun kv kv' : string * json => kv.1 = kv'.1 /\ substituted s kv.2 kv'.2) m1 m' r1)
      as (r' & H1 & H2); [|done..|].
    + eapply Forall_impl; [exact IH1|]. intros [k j] Hj [k1 j1] [k2 j2] [? He1] [? Hs1].
      simpl in *. subst k1 k2. destruct (Hj _ _ He1 Hs1) as (j' & ? & ?). by exists (k, j').
    + exists (JMap r'). split; [by constructor|by econstructor].
  - inversion He as [| |? l' Hf|]; subst. inversion Hs as [| |? r0 Hr|]; subst.
    destruct (Forall2_transport json_equiv (substituted s) l l' r0) as (r' & H1 & H2); [|done..|].
    + eapply Forall_impl; [exact IH|]. intros j Hj j1 j2 H1 H2. by apply Hj.
    + exists (JSlice r'). by split; constructor.
Qed.

(** C37: whether a template can be substituted, and the map it yields, do not
    depend on the order in which the runtime iterates over its maps. *)
Theorem substitution_order_independent s tpl tpl' path path' r :
  json_equiv tpl tpl' -> substitute s tpl path = Ok r ->
  exists r', substitute s tpl' path' = Ok r' /\ json_equiv r r'.
Proof.
  intros He Hs. apply substitute_ok in Hs.
  destruct (substituted_equiv s tpl tpl' r He Hs) as (r' & ? & ?).
  exists r'. split; [by apply substitute_ok|done].
Qed.

(** The strings of a template. *)
Inductive has_string (c : string) : json -> Prop :=
| in_string : has_string c (JString c)
| in_map m kv : kv ∈ m -> has_string c kv.2 -> has_string c (JMap m)
| in_slice l j : j ∈ l -> has_string c j -> has_string c (JSlice l).

Lemma substituted_same s tpl :
  (forall c, has_string c tpl -> SubstituteString s c = Ok c) -> substituted s tpl tpl.
Proof.
  induction tpl as [c|v|m IH|l IH] using json_nested_ind; intros H.
  - constructor. apply H. constructor.
  - constructor.
  - constructor. apply Forall_Forall2_diag. rewrite Forall_forall in IH |- *.
    intros kv Hkv. split; [done|]. apply IH; [done|]. intros c Hc. apply H. by econstructor.
  - constructor. apply Forall_Forall2_diag. rewrite Forall_forall in IH |- *.
    intros j Hj. apply IH; [done|]. intros c Hc. apply H. by econstructor.
Qed.

(** A template without placeholders is substituted by itself. *)
Theorem substitution_plain_identity s tpl path :
  (forall c, has_string c tpl -> contains_byte "$"%char c = false) ->
  substitute s tpl path = Ok tpl.
Proof.
  intros H. apply substitute_ok, substituted_same. intros c Hc. by apply Parse_plain, H.
Qed.

End Substitution.

(** ** Substitution in an object ([internal/utils/template.go]) *)

(** [runtime.DefaultUnstructuredConverter]: [ToUnstructured(o)], and
    [FromUnstructured(u, o)], which updates [o] as far as it gets. *)
Class Converter (O : Type) := {
  ToUnstructured : O -> result (list (string * json));
  FromUnstructured : list (string * json) -> O -> O * option goerr
}.

(** [Substitute]: the object afterwards and the error; [typ] is its Go type. *)
Definition Substitute {O} `{!Converter O, !EnvSubst} (typ : string) (o : O) (values : Substitution)
  : O * option goerr :=
  match ToUnstructured o with
  | Err err => (o, Some (Wrap ("convert " +++ typ +++ " to unstructured") err))
  | Ok unstr =>
      match SubstituteMap values unstr with
      | Err err => (o, Some (Wrap "substitute" err))
      | Ok unstr =>
          let '(o, err) := FromUnstructured unstr o in
          (o, wrap_err ("convert unstructured to " +++ typ) err)
      end
  end.

(** ** A concrete parser *)

Module TemplateExample.

(** The value of [name] in an environment of [NAME=value] entries. *)
Fixpoint env_lookup (name : string) (env : list string) : option string :=
  match env with
  | [] => None
  | e :: env =>
      match strip_prefix (name +++ "=") e with
      | Some v => Some v
      | None => env_lookup name env
      end
  end.

(** The text up to a closing brace, and what follows it. *)
Fixpoint braced (s : string) : option (string * string) :=
  match s with
  | EmptyString => None
  | String c s =>
      if c ==? "}"%char then Some ("", s)
      else '(n, t) ← braced s; Some (String c n, t)
  end.

(** Replaces [${NAME}]; an unknown or empty variable is an error. *)
Fixpoint expand (fuel : nat) (env : list string) (s : string) : result string :=
  match fuel, s with
  | _, EmptyString => Ok ""
  | 0, _ => Err (Errorf "too long")
  | S fuel, String c s =>
      if c ==? "$"%char then
        match s with
        | String "{" s =>
            match braced s with
            | Some (name, t) =>
                match env_lookup name env with
                | Some (String _ _ as v) =>
                    match expand fuel env t with Ok t => Ok (v +++ t) | Err e => Err e end
                | _ => Err (Errorf ("variable ${" +++ name +++ "} not set"))
                end
            | None => Err (Errorf "closing brace expected")
            end
        | _ => match expand fuel env s with Ok t => Ok (String c t) | Err e => Err e end
        end
      else match expand fuel env s with Ok t => Ok (String c t) | Err e => Err e end
  end.

Lemma expand_plain fuel env s :
  String.length s <= fuel -> contains_byte "$"%char s = false -> expand fuel env s = Ok s.
Proof.
  revert s. induction fuel as [|fuel IH]; intros [|c s] Hf Hc; [done|simpl in Hf; lia|done|].
  simpl in Hc. apply orb_false_iff in Hc as [Hc Hs]. apply bool_decide_eq_false in Hc.
  simpl. rewrite bool_decide_eq_false_2 by congruence. rewrite IH; [done|simpl in Hf; lia|done].
Qed.

#[export] Program Instance braces_subst : EnvSubst := {
  Parse _ env s := expand (String.length s) env s
}.
Next Obligation. intros name env s H. by apply expand_plain. Qed.

Definition values : Substitution :=
  NewSubstitution "provisioner template" [("STORAGE_PV_NAME", "pv1"); ("STORAGE_NODE_NAME", "node1")].

Definition template : json :=
  JMap [("name", JString "${STORAGE_PV_NAME}-x"); ("args", JSlice [JString "-v"; JOther "3"])].
Definition reordered : json :=
  JMap [("args", JSlice [JString "-v"; JOther "3"]); ("name", JString "${STORAGE_PV_NAME}-x")].

Example substitute_template :
  substitute values template "" =
    Ok (JMap [("name", JString "pv1-x"); ("args", JSlice [JString "-v"; JOther "3"])]) /\
  substitute values (JMap [("a", JSlice [JString "x"; JString "${UNKNOWN}"])]) "" =
    Err (Wrap ".a" (Wrap ".a[1]" (Errorf "variable ${UNKNOWN} not set"))).
Proof. vm_compute. done. Qed.

Lemma substitution_order_independent_witness :
  exists r', substitute values reordered "" = Ok r' /\
    json_equiv (JMap [("name", JString "pv1-x"); ("args", JSlice [JString "-v"; JOther "3"])]) r'.
Proof.
  apply (substitution_order_independent values template reordered "" "").
  - eapply eq_map; [apply Permutation_swap|]. repeat constructor.
  - vm_compute. reflexivity.
Defined.

Lemma substitution_plain_identity_witness :
  substitute values (JMap [("args", JSlice [JString "-v"; JOther "3"])]) "" =
    Ok (JMap [("args", JSlice [JString "-v"; JOther "3"])]).
Proof.
  apply (substitution_plain_identity values).
  intros c H. inversion H as [|m kv Hin Hs|]; subst. apply list_elem_of_singleton in Hin as ->.
  inversion Hs as [| |l j Hj Hs']; subst. apply elem_of_cons in Hj as [->|Hj].
  - inversion Hs'; subst. reflexivity.
  - apply list_elem_of_singleton in Hj as ->. inversion Hs'.
Defined.

End TemplateExample.
