(* ===== verification/PodTemplate.v ===== *)
(** * Provisioner Pods ([internal/utils/podtemplate.go])

    A de/provisioner Pod is the Pod template of the provisioner with the
    command and environment of one of its containers merged into the [main]
    container.  The Pod shares the slice of containers with the template of the
    provisioner: what is written through the Pod is visible in the provisioner,
    which the operations therefore return as well. *)

From stdpp Require Import sorting.
From S2P Require Import Prelude Effects Api GoPath Template Utils.

(** ** Environment variables *)

(** [uniqueEnv]: later entries win; the result is sorted by name. *)
Definition env_map (env : list EnvVar) : gmap string EnvVar :=
  foldl (fun m v => <[ev_Name v := v]> m) ∅ env.

Definition uniqueEnv (env : list EnvVar) : list EnvVar :=
  let m := env_map env in
  let names := merge_sort String.le (elements (dom m)) in
  omap (fun name => m !! name) names.

Lemma env_map_snoc env v : env_map (env ++ [v]) = <[ev_Name v := v]> (env_map env).
Proof. unfold env_map. by rewrite foldl_app. Qed.

Lemma env_map_lookup env n :
  env_map env !! n = last (filter (fun v => ev_Name v = n) env).
Proof.
  induction env as [|v env IH] using rev_ind; [done|].
  rewrite env_map_snoc, filter_app, filter_cons, filter_nil.
  destruct (decide (ev_Name v = n)) as [<-|Hne].
  - by rewrite lookup_insert_eq, last_snoc.
  - by rewrite lookup_insert_ne, app_nil_r.
Qed.

Lemma env_map_name env n v : env_map env !! n = Some v -> ev_Name v = n.
Proof.
  rewrite env_map_lookup. intros H. apply last_Some_elem_of, list_elem_of_filter in H as [H _]. exact H.
Qed.

(** The entries of a map whose keys are listed. *)
Lemma omap_lookup_names (m : gmap string EnvVar) names :
  (forall n v, m !! n = Some v -> ev_Name v = n) ->
  Forall (fun n => is_Some (m !! n)) names ->
  ev_Name <$> omap (fun n => m !! n) names = names.
Proof.
  intros Hm. induction 1 as [|n names [v Hv] _ IH]; [done|]. simpl. rewrite Hv. simpl.
  rewrite (Hm n v Hv). f_equal. exact IH.
Qed.

Lemma uniqueEnv_names env :
  ev_Name <$> uniqueEnv env = merge_sort String.le (elements (dom (env_map env))).
Proof.
  apply omap_lookup_names; [apply env_map_name|]. apply Forall_forall. intros n Hn.
  rewrite merge_sort_Permutation, elem_of_elements in Hn. by apply elem_of_dom.
Qed.

(** The merged environment is sorted by name, has each name once, and
    holds for each name the last entry given for it. *)
Theorem unique_env_spec env :
  Sorted String.le (ev_Name <$> uniqueEnv env) /\
  NoDup (ev_Name <$> uniqueEnv env) /\
  (forall v, v ∈ uniqueEnv env <-> last (filter (fun w => ev_Name w = ev_Name v) env) = Some v).
Proof.
  rewrite uniqueEnv_names. split; [|split].
  - apply Sorted_merge_sort. apply _.
  - rewrite merge_sort_Permutation. apply NoDup_elements.
  - intros v. unfold uniqueEnv. rewrite list_elem_of_omap. rewrite <- env_map_lookup. split.
    + intros (n & _ & Hn). by rewrite (env_map_name _ _ _ Hn).
    + intros Hv. exists (ev_Name v). split; [|done].
      rewrite merge_sort_Permutation, elem_of_elements. by apply elem_of_dom_2 in Hv.
Qed.

Example unique_env_example :
  uniqueEnv [mkEnvVar "B" "1" None; mkEnvVar "A" "2" None; mkEnvVar "B" "3" None] =
    [mkEnvVar "A" "2" None; mkEnvVar "B" "3" None].
Proof. vm_compute. reflexivity. Qed.

(** ** Building a Pod *)

(** [findContainer]: the index of the container. *)
Fixpoint findContainer (containers : list Container) (name : string) : option nat :=
  match containers with
  | [] => None
  | c :: containers =>
      if ct_Name c ==? name then Some 0 else S <$> findContainer containers name
  end.

Record PodSource := mkPodSource {
  src_PodName : NamespacedName;
  src_ContainerName : string;
  src_SubstitutedProvisioner : StorageProvisioner;
  src_Container : ProvisionerContainer;
  src_Env : list EnvVar
}.

(** [c] after the environment and command of the source were merged into it. *)
Definition merge_container (src : PodSource) (c : Container) : Container :=
  let c := c <| ct_Env := uniqueEnv ((ct_Env c ++ pc_Env (src_Container src)) ++ src_Env src) |> in
  match pc_Command (src_Container src) with
  | None => c
  | command => c <| ct_Command := command |>
  end.

(** [len(c.Command)] *)
Definition command_length (c : Container) : nat := length (default [] (ct_Command c)).

(** The provisioner with the containers of its Pod template replaced. *)
Definition with_containers (p : StorageProvisioner) (cs : list Container) : StorageProvisioner :=
  p <| sp_Spec := (sp_Spec p) <| sps_PodTemplate :=
    (sps_PodTemplate (sp_Spec p)) <| ps_Containers := cs |> |> |>.

(** [NewProvisionerPod]: the provisioner afterwards, and the Pod or an error. *)
Definition NewProvisionerPod (src : PodSource) : StorageProvisioner * result Pod :=
  let p := src_SubstitutedProvisioner src in
  let provisionerName := om_Name (sp_Meta p) in
  let tpl := sps_PodTemplate (sp_Spec p) in
  match findContainer (ps_Containers tpl) "main" with
  | None => (p, Err (Errorf ("provisioner " +++ provisionerName +++
               " pod template does not specify container " +++
               quoted "main")))
  | Some i =>
      match ps_Containers tpl !! i with
      | None => (p, Err (Errorf "unreachable"))
      | Some c0 =>
          let c := merge_container src c0 in
          let containers := <[i := c]> (ps_Containers tpl) in
          let p' := with_containers p containers in
          let fail msg := (p', Err (Errorf ("provisioner " +++ provisionerName +++ " pod template " +++ msg))) in
          if ct_Image c ==? "" then fail "does not specify an image for the main container"
          else if command_length c =? 0 then fail "does not specify a command for the main container"
          else if 0 <? length (ct_Args c) then fail "specifies args for the main container"
          else
            let meta := ObjectMeta_zero <| om_Name := nn_Name (src_PodName src) |>
                                        <| om_Namespace := nn_Namespace (src_PodName src) |>
                                        <| om_Annotations := Some ∅ |> in
            (p', Ok (mkPod meta (tpl <| ps_Containers := containers |>) ""))
      end
  end.

(** The Pod has not been run and carries no annotation. *)
Lemma NewProvisionerPod_new src p pod :
  NewProvisionerPod src = (p, Ok pod) -> pod_Phase pod = "" /\ om_Annotations (pod_Meta pod) = Some ∅.
Proof.
  unfold NewProvisionerPod. intros E. repeat case_match; simplify_eq/=; done.
Qed.

Lemma findContainer_lookup cs name i :
  findContainer cs name = Some i -> exists c, cs !! i = Some c /\ ct_Name c = name.
Proof.
  revert i. induction cs as [|c cs IH]; intros i; simpl; [done|].
  case_bool_decide as Hn; [intros [= <-]; by exists c|].
  destruct (findContainer cs name) as [j|]; simpl; [|done]. intros [= <-]. by apply IH.
Qed.

(** ** Pods from a bare template

    [newPodFromTemplate] and its helpers; no other function calls them. *)

(** [Volume]; the source is a claim or some other source, kept opaque. *)
Record Volume := mkVolume {
  vo_Name : string;
  vo_MountPath : string;
  vo_Claim : option ClaimSource;
  vo_Other : string
}.

Record ContainerParams := mkContainerParams {
  cpm_Command : option (list string);
  cpm_Env : list EnvVar;
  cpm_Volume : Volume
}.

(** The mounts, and the index of the mount that is pointed to. *)
Fixpoint addVolumeMount (mounts : list VolumeMount) (mount : Volume) : list VolumeMount * nat :=
  match mounts with
  | [] => ([mkVolumeMount (vo_Name mount) (vo_MountPath mount)], 0)
  | m :: rest =>
      if vm_Name m ==? vo_Name mount then
        if (vm_MountPath m ==? "") || (vm_MountPath m ==? "/replace-with-host-path")
        then (m <| vm_MountPath := vo_MountPath mount |> :: rest, 0)
        else (m :: rest, 0)
      else let '(rest, i) := addVolumeMount rest mount in (m :: rest, S i)
  end.

Fixpoint pod_addVolume (vols : list PodVolume) (vol : Volume) : list PodVolume :=
  match vols with
  | [] => [mkPodVolume (vo_Name vol) (vo_Claim vol) (vo_Other vol)]
  | v :: rest => if pv_Name v ==? vo_Name vol then v :: rest else v :: pod_addVolume rest vol
  end.

(** The template afterwards, which shares its containers with the Pod, and the
    Pod; without a container [main] the nil pointer is dereferenced. *)
Definition newPodFromTemplate (name : NamespacedName) (tpl : PodSpec) (params : ContainerParams)
  : PodSpec * outcome Pod :=
  match findContainer (ps_Containers tpl) "main" ≫= fun i => (i,.) <$> ps_Containers tpl !! i with
  | None => (tpl, Panicked "invalid memory address or nil pointer dereference")
  | Some (i, c) =>
      let c := c <| ct_Command := cpm_Command params |>
                 <| ct_Env := uniqueEnv (ct_Env c ++ cpm_Env params) |>
                 <| ct_Args := [] |> in
      let volumes := pod_addVolume (ps_Volumes tpl) (cpm_Volume params) in
      let '(mounts, j) := addVolumeMount (ct_VolumeMounts c) (cpm_Volume params) in
      let path := match mounts !! j with Some m => vm_MountPath m | None => "" end in
      let c := c <| ct_VolumeMounts := mounts |> <| ct_Env := [mkEnvVar "VOLUME_PATH" path None] |> in
      let containers := <[i := c]> (ps_Containers tpl) in
      (tpl <| ps_Containers := containers |>,
       Returned (mkPod (ObjectMeta_zero <| om_Name := nn_Name name |> <| om_Namespace := nn_Namespace name |>)
                   (tpl <| ps_Containers := containers |> <| ps_Volumes := volumes |>) ""))
  end.

(** The mount that is answered has the name of the volume; its path is the given
    one, or that of an existing mount unless it is empty or the placeholder.
    The names of the existing mounts are kept in order. *)
Lemma addVolumeMount_spec mounts v :
  let '(mounts', i) := addVolumeMount mounts v in
  exists m, mounts' !! i = Some m /\ vm_Name m = vo_Name v /\
    (vm_MountPath m = vo_MountPath v \/
     m ∈ mounts /\ vm_MountPath m <> "" /\ vm_MountPath m <> "/replace-with-host-path") /\
    (vm_Name <$> mounts') = (vm_Name <$> mounts) ++ (if bool_decide (vo_Name v ∈ vm_Name <$> mounts) then [] else [vo_Name v]).
Proof.
  induction mounts as [|m mounts IH]; cbn [addVolumeMount].
  - eexists. split; [done|]. cbn. eauto.
  - destruct (vm_Name m ==? vo_Name v) eqn:Hn.
    + apply bool_decide_eq_true in Hn. rewrite (bool_decide_eq_true_2 (_ ∈ _)) by (cbn; set_solver). rewrite app_nil_r.
      destruct (_ || _) eqn:Ep; eexists; (split; [done|]); cbn; [eauto|].
      apply orb_false_iff in Ep as [E1%bool_decide_eq_false E2%bool_decide_eq_false].
      split; [done|]. split; [right; set_solver|done].
    + apply bool_decide_eq_false in Hn. destruct (addVolumeMount mounts v) as [mounts' i].
      destruct IH as (m' & Hm & Hname & Hpath & Hnames).
      exists m'. split; [done|]. split; [done|]. split; [set_solver|]. cbn. f_equal. rewrite Hnames. f_equal.
      rewrite (bool_decide_ext (vo_Name v ∈ vm_Name m :: (vm_Name <$> mounts)) (vo_Name v ∈ vm_Name <$> mounts));
        [done|set_solver].
Qed.

Lemma pod_addVolume_named vols v : vo_Name v ∈ pv_Name <$> pod_addVolume vols v /\ vols ⊆ pod_addVolume vols v.
Proof.
  induction vols as [|w vols [IH1 IH2]]; simpl; [set_solver|]. case_bool_decide; set_solver.
Qed.

(** Building a Pod from a template panics iff the template has no container
    [main].  Otherwise the Pod has the volume, and its container [main] the
    command, no arguments, a mount of the volume and as its whole environment
    the path of that mount: the given environment is lost. *)
Theorem pod_from_template name tpl params :
  (findContainer (ps_Containers tpl) "main" = None <->
     exists m, (newPodFromTemplate name tpl params).2 = Panicked m) /\
  (forall pod, (newPodFromTemplate name tpl params).2 = Returned pod ->
     ps_Containers (newPodFromTemplate name tpl params).1 = ps_Containers (pod_Spec pod) /\
     vo_Name (cpm_Volume params) ∈ pv_Name <$> ps_Volumes (pod_Spec pod) /\
     exists i c m, ps_Containers (pod_Spec pod) !! i = Some c /\ ct_Name c = "main" /\
       ct_Command c = cpm_Command params /\ ct_Args c = [] /\ m ∈ ct_VolumeMounts c /\
       vm_Name m = vo_Name (cpm_Volume params) /\ ct_Env c = [mkEnvVar "VOLUME_PATH" (vm_MountPath m) None]).
Proof.
  unfold newPodFromTemplate. destruct (findContainer _ _) as [i|] eqn:Ef; simpl.
  - destruct (findContainer_lookup _ _ _ Ef) as (c & Hc & Hname). rewrite Hc. cbn [fmap option_fmap option_map].
    pose proof (addVolumeMount_spec (ct_VolumeMounts c) (cpm_Volume params)) as Hm. cbn.
    destruct (addVolumeMount (ct_VolumeMounts c) _) as [mounts j]. destruct Hm as (m & Hj & Hmn & _ & _).
    split; [split; [done|by intros [? [=]]]|]. intros pod [= <-]. cbn. split; [done|].
    split; [apply pod_addVolume_named|]. eexists i, _, m. rewrite Hj.
    split; [apply list_lookup_insert_eq; by eapply lookup_lt_Some|]. cbn. split_and!; try done.
    by eapply list_elem_of_lookup_2.
  - split; [split; [eauto|done]|done].
Qed.

Lemma findContainer_None cs name : findContainer cs name = None <-> name ∉ ct_Name <$> cs.
Proof.
  induction cs as [|c cs IH]; simpl; [set_solver|]. case_bool_decide as Hn; [set_solver|].
  rewrite fmap_None, IH. set_solver.
Qed.

(** The main container of a Pod template: the first one of that name. *)
Definition main_at (tpl : PodSpec) (pre : list Container) (c : Container) (post : list Container) : Prop :=
  ps_Containers tpl = pre ++ c :: post /\ ct_Name c = "main" /\ "main" ∉ ct_Name <$> pre.

Lemma findContainer_app pre c post :
  ct_Name c = "main" -> "main" ∉ ct_Name <$> pre ->
  findContainer (pre ++ c :: post) "main" = Some (length pre).
Proof.
  intros Hc Hpre. induction pre as [|c' pre IH]; simpl.
  - by rewrite bool_decide_eq_true_2.
  - rewrite fmap_cons in Hpre. apply not_elem_of_cons in Hpre as [Hne Hpre].
    rewrite bool_decide_eq_false_2 by congruence. by rewrite IH.
Qed.

Lemma findContainer_main tpl i : findContainer (ps_Containers tpl) "main" = Some i ->
  exists pre c post, main_at tpl pre c post /\ length pre = i.
Proof.
  unfold main_at. generalize (ps_Containers tpl) as cs. revert i.
  intros i cs. revert i. induction cs as [|c cs IH]; intros i; simpl; [done|].
  case_bool_decide as Hn.
  - intros [= <-]. exists [], c, cs. set_solver.
  - destruct (findContainer cs "main") as [j|]; simpl; [|done]. intros [= <-].
    destruct (IH j eq_refl) as (pre & c' & post & (-> & Hc & Hpre) & <-).
    exists (c :: pre), c', post. split; [|done]. split_and!; [done|done|].
    rewrite fmap_cons. set_solver.
Qed.

(** What a container needs to run a provisioner. *)
Definition runnable (c : Container) : bool :=
  (ct_Image c !=? "") && (0 <? command_length c) && (length (ct_Args c) =? 0).

(** The result of [NewProvisionerPod] on a template with a main container. *)
Lemma NewProvisionerPod_main src pre c post :
  let p := src_SubstitutedProvisioner src in
  let tpl := sps_PodTemplate (sp_Spec p) in
  let cs := pre ++ merge_container src c :: post in
  main_at tpl pre c post ->
  (NewProvisionerPod src).1 = with_containers p cs /\
  if runnable (merge_container src c) then
    (NewProvisionerPod src).2 =
      Ok (mkPod (ObjectMeta_zero <| om_Name := nn_Name (src_PodName src) |>
                                 <| om_Namespace := nn_Namespace (src_PodName src) |>
                                 <| om_Annotations := Some ∅ |>) (tpl <| ps_Containers := cs |>) "")
  else exists e, (NewProvisionerPod src).2 = Err e.
Proof.
  intros p tpl cs (Heq & Hc & Hpre). unfold NewProvisionerPod. fold p. fold tpl.
  assert (findContainer (ps_Containers tpl) "main" = Some (length pre)) as ->.
  { rewrite Heq. by apply findContainer_app. }
  assert (ps_Containers tpl !! length pre = Some c) as -> by (rewrite Heq; by apply list_lookup_middle).
  assert (<[length pre := merge_container src c]> (ps_Containers tpl) = cs) as ->.
  { rewrite Heq. unfold cs. by rewrite insert_app_r_alt, Nat.sub_diag. }
  unfold runnable. destruct (ct_Image _ ==? ""); simpl; [split; [done|by eexists]|].
  destruct (command_length _) as [|n]; simpl; [split; [done|by eexists]|].
  destruct (ct_Args _) as [|a args]; simpl; [done|]. split; [done|by eexists].
Qed.


Lemma merge_container_command src c :
  ct_Command (merge_container src c) =
    match pc_Command (src_Container src) with None => ct_Command c | cmd => cmd end.
Proof. unfold merge_container. by destruct (pc_Command _). Qed.

Lemma merge_container_name src c : ct_Name (merge_container src c) = ct_Name c.
Proof. unfold merge_container. by destruct (pc_Command _). Qed.

Lemma main_at_unique tpl pre c post pre' c' post' :
  main_at tpl pre c post -> main_at tpl pre' c' post' -> pre = pre' /\ c = c' /\ post = post'.
Proof.
  intros (H1 & Hc1 & Hn1) (H2 & Hc2 & Hn2).
  assert (length pre = length pre') as Hl.
  { pose proof (findContainer_app pre c post Hc1 Hn1). pose proof (findContainer_app pre' c' post' Hc2 Hn2).
    rewrite <- H1 in *. rewrite <- H2 in *. congruence. }
  rewrite H1 in H2. apply app_inj_1 in H2 as [-> H2]; [|done]. by injection H2 as -> ->.
Qed.

(** Building a Pod writes the merged container back into the template of
    the provisioner it was built from.  A second Pod built from this
    provisioner for a container without a command of its own therefore runs the
    command of the first one, not the one of the template. *)
Theorem provisioner_command_leaks src src2 pod pod2 cmd :
  pc_Command (src_Container src) = Some cmd ->
  (NewProvisionerPod src).2 = Ok pod ->
  src_SubstitutedProvisioner src2 = (NewProvisionerPod src).1 ->
  pc_Command (src_Container src2) = None ->
  (NewProvisionerPod src2).2 = Ok pod2 ->
  exists pre c post, main_at (pod_Spec pod2) pre c post /\ ct_Command c = Some cmd.
Proof.
  intros Hcmd Hp Hsrc Hnone Hp2.
  destruct (findContainer (ps_Containers (sps_PodTemplate (sp_Spec (src_SubstitutedProvisioner src))))
    "main") as [i|] eqn:Ef; [|unfold NewProvisionerPod in Hp; by rewrite Ef in Hp].
  apply findContainer_main in Ef as (pre & c & post & Hm & _).
  destruct (NewProvisionerPod_main src pre c post Hm) as [Hp1 _].
  set (c1 := merge_container src c) in *.
  assert (main_at (sps_PodTemplate (sp_Spec (src_SubstitutedProvisioner src2))) pre c1 post) as Hm2.
  { rewrite Hsrc, Hp1. split_and!; [done| |by apply Hm].
    unfold c1. rewrite merge_container_name. by apply Hm. }
  destruct (NewProvisionerPod_main src2 pre c1 post Hm2) as [_ Hr2].
  destruct (runnable (merge_container src2 c1)); [|destruct Hr2; congruence].
  rewrite Hr2 in Hp2. injection Hp2 as <-. simpl.
  exists pre, (merge_container src2 c1), post. split.
  - split_and!; [done| |by apply Hm2]. rewrite merge_container_name. by apply Hm2.
  - rewrite merge_container_command, Hnone. unfold c1. by rewrite merge_container_command, Hcmd.
Qed.

(** ** Placeholders of a provisioner *)

Record ProvisionerParams := mkProvisionerParams {
  pp_NodeName : string;
  pp_NodePath : string;
  pp_PersistentVolumeName : string;
  pp_PersistentVolumeClaim : NamespacedName
}.

Definition provisioner_values (p : ProvisionerParams) : list (string * string) :=
  [("STORAGE_NODE_NAME", pp_NodeName p);
   ("STORAGE_NODE_PATH", pp_NodePath p);
   ("STORAGE_PV_NAME", pp_PersistentVolumeName p);
   ("STORAGE_PVC_NAME", nn_Name (pp_PersistentVolumeClaim p));
   ("STORAGE_PVC_NAMESPACE", nn_Namespace (pp_PersistentVolumeClaim p))].

(** [SubstituteProvisionerPlaceholders]: the provisioner afterwards and the
    error. *)
Definition SubstituteProvisionerPlaceholders `{!Converter StorageProvisioner, !EnvSubst}
    (tpl : StorageProvisioner) (p : ProvisionerParams) : StorageProvisioner * option goerr :=
  let values := NewSubstitution "provisioner template" (provisioner_values p) in
  let '(tpl, err) := Substitute "*v1alpha1.StorageProvisioner" tpl values in
  (tpl, wrap_err ("invalid provisioner template " +++ om_Name (sp_Meta tpl)) err).

(** ** Concrete Pods *)

Module PodExample.

Definition main : Container := mkContainer "main" "alpine" (Some ["/bin/true"]) [] [] [].
Definition example : StorageProvisioner :=
  StorageProvisioner_zero <| sp_Meta := ObjectMeta_zero <| om_Name := "cache" |> |>
    <| sp_Spec := mkStorageProvisionerSpec "storage/cache" false
         (PersistentVolumeSpec_zero <| pvs_VolumeMode := Some "Filesystem" |>)
         (mkPodSpec "" "" "" [main] [])
         (mkContainers (mkProvisionerContainer (Some ["/bin/provision"]) [mkEnvVar "A" "1" None])
            (mkProvisionerContainer None []))
         [mkEnvMapping "CACHE" "example.com/cache" None]
         [mkNodePath "*" "/data/cache"] |>.

Definition source (p : StorageProvisioner) (c : ProvisionerContainer) : PodSource :=
  mkPodSource (mkNamespacedName "pod1" "system") "provisioner" p c [mkEnvVar "CACHE" "x" None].

Definition provisioned := NewProvisionerPod (source example (cs_Provisioner (sps_Containers (sp_Spec example)))).

Lemma provisioner_command_leaks_witness :
  let src2 := source provisioned.1 (cs_Deprovisioner (sps_Containers (sp_Spec example))) in
  exists pod2, (NewProvisionerPod src2).2 = Ok pod2 /\
    exists pre c post, main_at (pod_Spec pod2) pre c post /\ ct_Command c = Some ["/bin/provision"].
Proof.
  intros src2. eexists. split; [vm_compute; reflexivity|].
  eapply (provisioner_command_leaks (source example (cs_Provisioner (sps_Containers (sp_Spec example))))
    src2); vm_compute; reflexivity.
Defined.

End PodExample.
