(* ===== verification/Registry.v ===== *)
(** * The registry of storage provisioners ([internal/controllers/storageprovisioner_registry.go])

    The provisioners are registered under their provisioner name.  A name that
    two resources claim is disabled: it stays in the map without a provisioner.
    Every operation runs under the mutex of the registry, so it is one atomic
    step on the state.  [DeepCopy] isolates the stored values from the caller's
    (shown in [RegistryMemory]): here a value is its own copy. *)

From stdpp Require Import pretty sorting.
From S2P Require Import Prelude Effects Api GoPath Template Utils PodTemplate.

Definition provisioner := "provisioner".

(** [ProvisionerRegistry.provisioners]; a nil entry is [None]. *)
Abbreviation registry := (gmap string (option StorageProvisioner)).

Definition newProvisioners : registry := ∅.

Definition Keys (r : registry) : list string :=
  merge_sort String.le (elements (dom (omap id r))).

Definition Lookup (r : registry) (name : string) : option StorageProvisioner := mjoin (r !! name).

Definition Remove (r : registry) (p : StorageProvisioner) : registry := delete (GetProvisionerName p) r.

Section Validation.
Context `{!Converter StorageProvisioner, !EnvSubst}.

Definition test_params : ProvisionerParams :=
  mkProvisionerParams "test-node" "/test-node-path" "test-pv" (mkNamespacedName "test-pvc" "test-pvc-ns").

Fixpoint validate_env (i : nat) (env : list EnvMapping) : option goerr :=
  match env with
  | [] => None
  | e :: env =>
      if em_Name e ==? "" then Some (Errorf ("spec.env[" +++ pretty i +++ "].name is empty"))
      else if em_Annotation e ==? "" then
        Some (Errorf ("spec.env[" +++ pretty i +++ "].annotation is empty"))
      else validate_env (S i) env
  end.

Fixpoint validate_nodes (i : nat) (nodes : list NodePath) : option goerr :=
  match nodes with
  | [] => None
  | node :: nodes =>
      let field f := "spec.nodes[" +++ pretty i +++ "]." +++ f in
      if np_Name node ==? "" then Some (Errorf (field "name is empty"))
      else match Match (np_Name node) "test-node" with
           | None => Some (Wrap (field "name is an invalid matcher") (Errorf "syntax error in pattern"))
           | Some _ =>
               let path := Clean (np_Path node) in
               if (Dir path ==? path) || negb (IsAbs path) then
                 Some (Errorf (field "path must be an absolute sub directory but is " +++ quoted path))
               else validate_nodes (S i) nodes
           end
  end.

(** [validateProvisioner], on a copy: the result of the substitution is
    ignored, the Pod that is built writes to the copy. *)
Definition validateProvisioner (p : StorageProvisioner) : option goerr :=
  let '(p, _) := SubstituteProvisionerPlaceholders p test_params in
  let '(p, r) := NewProvisionerPod
    (mkPodSource (mkNamespacedName "test-pod" "test-namespace") provisioner p
       (cs_Provisioner (sps_Containers (sp_Spec p))) []) in
  match r with
  | Err err => Some err
  | Ok _ =>
      match pvs_VolumeMode (sps_PersistentVolumeTemplate (sp_Spec p)) with
      | None => Some (Errorf "spec.persistentVolumeTemplate.VolumeMode is empty")
      | Some _ =>
          match validate_env 0 (sps_Env (sp_Spec p)) with
          | Some err => Some err
          | None =>
              if length (sps_Nodes (sp_Spec p)) =? 0 then Some (Errorf "spec.nodes is empty")
              else validate_nodes 0 (sps_Nodes (sp_Spec p))
          end
      end
  end.

(** Whether the name of [p] is disabled or held by another resource. *)
Definition is_duplicate (r : registry) (p : StorageProvisioner) : bool :=
  match r !! GetProvisionerName p with
  | None => false
  | Some None => true
  | Some (Some existing) =>
      (om_Name (sp_Meta p) !=? om_Name (sp_Meta existing)) ||
      (om_Namespace (sp_Meta p) !=? om_Namespace (sp_Meta existing))
  end.

(** [Put]: the new registry and the error. *)
Definition Put (r : registry) (p : StorageProvisioner) : registry * option goerr :=
  match validateProvisioner p with
  | Some err => (r, Some (Wrap ("validate StorageProvisioner " +++ om_Name (sp_Meta p)) err))
  | None =>
      let key := GetProvisionerName p in
      if is_duplicate r p then
        (<[key := None]> r, Some (Errorf ("duplicate provisioner " +++ key +++ " - key is disabled now")))
      else (<[key := Some p]> r, None)
  end.

(** [LoadProvisioners]: invalid and duplicate provisioners are logged. *)
Definition LoadProvisioners (namespace : string) : prog (result registry) :=
  let! r := call (ListProvisioners namespace) in
  match r with
  | Err err => Ret (Err err)
  | Ok items => Ret (Ok (foldl (fun r p => (Put r p).1) newProvisioners items))
  end.

(** ** What a validated provisioner is *)

(** The provisioner that the checks look at. *)
Definition test_substituted (p : StorageProvisioner) : StorageProvisioner :=
  (SubstituteProvisionerPlaceholders p test_params).1.

Lemma validate_env_None i env :
  validate_env i env = None <-> Forall (fun e => em_Name e <> "" /\ em_Annotation e <> "") env.
Proof.
  revert i. induction env as [|e env IH]; intros i; simpl; [done|].
  rewrite Forall_cons. repeat case_bool_decide; rewrite ?IH; naive_solver.
Qed.

(** A node path that passes: a proper subdirectory of the root. *)
Definition node_ok (n : NodePath) : Prop :=
  np_Name n <> "" /\ (exists b, Match (np_Name n) "test-node" = Some b) /\
  IsAbs (np_Path n) = true /\ Clean (np_Path n) <> "/".

Lemma validate_nodes_None i nodes : validate_nodes i nodes = None <-> Forall node_ok nodes.
Proof.
  revert i. induction nodes as [|n nodes IH]; intros i; simpl; [done|].
  rewrite Forall_cons. unfold node_ok at 1. case_bool_decide as Hn; [naive_solver|].
  destruct (Match (np_Name n) "test-node") as [b|]; [|naive_solver].
  rewrite IsAbs_Clean. destruct (IsAbs (np_Path n)) eqn:Ea.
  - pose proof (Dir_Clean_self (np_Path n) Ea) as Hd. case_bool_decide as Hb; simpl.
    + apply Hd in Hb. naive_solver.
    + rewrite IH. naive_solver.
  - rewrite orb_true_r. naive_solver.
Qed.

Lemma validateProvisioner_None p :
  validateProvisioner p = None <->
  (exists pre c post,
    let src := mkPodSource (mkNamespacedName "test-pod" "test-namespace") provisioner
      (test_substituted p) (cs_Provisioner (sps_Containers (sp_Spec (test_substituted p)))) [] in
    main_at (sps_PodTemplate (sp_Spec (test_substituted p))) pre c post /\
    runnable (merge_container src c) = true) /\
  is_Some (pvs_VolumeMode (sps_PersistentVolumeTemplate (sp_Spec (test_substituted p)))) /\
  Forall (fun e => em_Name e <> "" /\ em_Annotation e <> "") (sps_Env (sp_Spec (test_substituted p))) /\
  sps_Nodes (sp_Spec (test_substituted p)) <> [] /\
  Forall node_ok (sps_Nodes (sp_Spec (test_substituted p))).
Proof.
  unfold validateProvisioner, test_substituted.
  destruct (SubstituteProvisionerPlaceholders p test_params) as [q e]. simpl.
  set (src := mkPodSource _ _ q _ _).
  destruct (findContainer (ps_Containers (sps_PodTemplate (sp_Spec q))) "main") as [i|] eqn:Ef.
  - apply findContainer_main in Ef as (pre & c & post & Hm & _).
    destruct (NewProvisionerPod_main src pre c post Hm) as [H1 H2].
    assert ((exists pre c post, main_at (sps_PodTemplate (sp_Spec q)) pre c post /\
      runnable (merge_container src c) = true) <-> runnable (merge_container src c) = true) as Hex.
    { split; [|by eauto]. intros (pre' & c' & post' & Hm' & Hr).
      destruct (main_at_unique _ _ _ _ _ _ _ Hm Hm') as (_ & -> & _). done. }
    rewrite Hex. clear Hex. destruct (NewProvisionerPod src) as [q' r]. simpl in H1, H2. subst q'.
    destruct (runnable (merge_container src c)) eqn:Er; [|destruct H2 as [? ->]; naive_solver].
    subst r. simpl.
    destruct (pvs_VolumeMode _); [|split; [done|by intros (_ & [? ?] & _)]].
    pose proof (validate_env_None 0 (sps_Env (sp_Spec q))) as Henv.
    destruct (validate_env 0 _); [naive_solver|].
    destruct (sps_Nodes (sp_Spec q)) as [|n ns] eqn:En; [simpl; naive_solver|].
    cbn [length Nat.eqb]. rewrite validate_nodes_None. naive_solver.
  - unfold NewProvisionerPod. cbn [src_SubstitutedProvisioner src]. rewrite Ef. split; [done|].
    intros ((pre & c & post & (Heq & Hc & Hpre) & _) & _).
    rewrite Heq, findContainer_app in Ef by done. done.
Qed.


(** ** Histories of the registry *)

Inductive registry_op :=
| OpPut (p : StorageProvisioner)
| OpDelete (p : StorageProvisioner).

Definition registry_step (r : registry) (o : registry_op) : registry :=
  match o with
  | OpPut p => (Put r p).1
  | OpDelete p => Remove r p
  end.

Definition registry_run (ops : list registry_op) : registry := foldl registry_step newProvisioners ops.

(** Every registered provisioner is valid and registered under its own name. *)
Definition registry_ok (r : registry) : Prop :=
  forall k p, r !! k = Some (Some p) -> GetProvisionerName p = k /\ validateProvisioner p = None.

Lemma Put_ok r p : registry_ok r -> registry_ok (Put r p).1.
Proof.
  intros Hr. unfold Put. destruct (validateProvisioner p) eqn:Ev; [done|].
  destruct (is_duplicate r p); intros k q; simpl.
  - destruct (decide (GetProvisionerName p = k)) as [<-|Hne];
      [by rewrite lookup_insert_eq|rewrite lookup_insert_ne by done; apply Hr].
  - destruct (decide (GetProvisionerName p = k)) as [<-|Hne].
    + rewrite lookup_insert_eq. by intros [= <-].
    + rewrite lookup_insert_ne by done. apply Hr.
Qed.

Lemma Remove_ok r p : registry_ok r -> registry_ok (Remove r p).
Proof. intros Hr k q Hk. unfold Remove in Hk. apply lookup_delete_Some in Hk as [_ Hk]. by apply Hr. Qed.

Lemma registry_run_ok ops : registry_ok (registry_run ops).
Proof.
  unfold registry_run. assert (H0 : registry_ok newProvisioners) by done.
  revert H0. generalize newProvisioners.
  induction ops as [|o ops IH]; intros r Hr; simpl; [done|].
  apply IH. destruct o; [by apply Put_ok|by apply Remove_ok].
Qed.

Lemma Keys_spec r name : name ∈ Keys r <-> is_Some (Lookup r name).
Proof.
  unfold Keys, Lookup. rewrite merge_sort_Permutation, elem_of_elements, elem_of_dom, lookup_omap.
  by destruct (r !! name) as [[q|]|].
Qed.

(** C29: whatever was put and deleted, the keys that the registry lists are
    sorted, distinct and exactly the names it answers a provisioner for, and this
    provisioner is valid and has that name. *)
Theorem registry_keys_valid ops :
  Sorted String.le (Keys (registry_run ops)) /\ NoDup (Keys (registry_run ops)) /\
  (forall name, name ∈ Keys (registry_run ops) <->
    exists p, Lookup (registry_run ops) name = Some p /\
      GetProvisionerName p = name /\ validateProvisioner p = None).
Proof.
  split; [apply Sorted_merge_sort; apply _|].
  split; [unfold Keys; rewrite merge_sort_Permutation; apply NoDup_elements|].
  intros name. rewrite Keys_spec. split.
  - intros [p Hp]. exists p. split; [done|]. unfold Lookup in Hp.
    destruct (registry_run ops !! name) as [[q|]|] eqn:E; simpl in Hp; simplify_eq.
    by apply (registry_run_ok ops).
  - intros (p & Hp & _). by exists p.
Qed.

(** C28: putting a provisioner answers nil iff it is valid and no other
    resource holds its name; then the registry answers it for its name.  On any
    other valid provisioner the name is disabled.  No other name is affected. *)
Theorem put_spec r p :
  let '(r', err) := Put r p in
  (err = None <-> validateProvisioner p = None /\
    (r !! GetProvisionerName p = None \/
     exists q, r !! GetProvisionerName p = Some (Some q) /\ om_key (sp_Meta q) = om_key (sp_Meta p))) /\
  (err = None -> Lookup r' (GetProvisionerName p) = Some p) /\
  (err <> None -> validateProvisioner p = None -> r' !! GetProvisionerName p = Some None) /\
  (validateProvisioner p <> None -> r' = r) /\
  (forall name, name <> GetProvisionerName p -> r' !! name = r !! name).
Proof.
  unfold Put, Lookup, om_key, is_duplicate. destruct (validateProvisioner p) eqn:Ev; [naive_solver|].
  assert (Hother : forall v name, name <> GetProvisionerName p ->
    <[GetProvisionerName p := v]> r !! name = r !! name).
  { intros v name Hne. by rewrite lookup_insert_ne. }
  destruct (r !! GetProvisionerName p) as [[q|]|] eqn:E; simpl.
  - assert (Hd : (om_Name (sp_Meta p) !=? om_Name (sp_Meta q)) ||
      (om_Namespace (sp_Meta p) !=? om_Namespace (sp_Meta q)) = false <->
      om_Name (sp_Meta q) = om_Name (sp_Meta p) /\ om_Namespace (sp_Meta q) = om_Namespace (sp_Meta p)).
    { rewrite orb_false_iff, !negb_false_iff, !bool_decide_eq_true. naive_solver. }
    destruct (_ || _); rewrite lookup_insert_eq; split_and!; try done; try by apply Hother.
    + split; [done|]. intros [_ [?|(q' & [= <-] & [= Hn Hs])]]; [done|]. by apply (conj Hn), Hd in Hs.
    + split; [|done]. intros _. split; [done|]. right. exists q. split; [done|].
      destruct Hd as [Hd _]. specialize (Hd eq_refl) as [-> ->]. done.
  - rewrite lookup_insert_eq. split_and!; try done; try by apply Hother. naive_solver.
  - rewrite lookup_insert_eq. split_and!; try done; try by apply Hother. naive_solver.
Qed.

Lemma registry_step_disabled r k o :
  r !! k = Some None ->
  (forall q, o = OpDelete q -> GetProvisionerName q <> k) ->
  registry_step r o !! k = Some None.
Proof.
  intros Hk Ho. destruct o as [p|p]; simpl.
  - unfold Put, is_duplicate. destruct (validateProvisioner p); [done|].
    destruct (decide (GetProvisionerName p = k)) as [Heq|Hne].
    + rewrite Heq, Hk. simpl. by rewrite lookup_insert_eq.
    + by repeat case_match; simpl; rewrite lookup_insert_ne.
  - unfold Remove. rewrite lookup_delete_ne; [done|]. by apply Ho.
Qed.

(** C30: once two resources have claimed a name it stays disabled, whatever is
    put, until a provisioner of that name is deleted. *)
Theorem disabled_until_deleted r k ops :
  r !! k = Some None ->
  (forall q, OpDelete q ∈ ops -> GetProvisionerName q <> k) ->
  Lookup (foldl registry_step r ops) k = None.
Proof.
  intros Hk Hops. cut (foldl registry_step r ops !! k = Some None); [unfold Lookup; by intros ->|].
  revert r Hk. induction ops as [|o ops IH]; intros r Hk; simpl; [done|].
  apply IH; [intros q Hq; apply Hops; set_solver|].
  apply registry_step_disabled; [done|]. intros q ->. apply Hops. set_solver.
Qed.

End Validation.

(** ** A concrete registry *)

Module RegistryExample.
Import PodExample TemplateExample.

(** A conversion that leaves the object alone. *)
#[export] Instance no_conversion : Converter StorageProvisioner := {
  ToUnstructured _ := Ok [];
  FromUnstructured _ o := (o, None)
}.

Definition other : StorageProvisioner := example <| sp_Meta := ObjectMeta_zero <| om_Name := "other" |> |>.

Example registry_two_claims :
  Keys (registry_run [OpPut example]) = ["storage/cache"] /\
  Keys (registry_run [OpPut example; OpPut other]) = [] /\
  Keys (registry_run [OpPut example; OpPut other; OpDelete other; OpPut example]) = ["storage/cache"].
Proof. vm_compute. done. Qed.

Lemma disabled_until_deleted_witness :
  Lookup (registry_run [OpPut example; OpPut other; OpPut example]) "storage/cache" = None.
Proof.
  change (Lookup (foldl registry_step (registry_run [OpPut example; OpPut other]) [OpPut example])
    "storage/cache" = None).
  apply (disabled_until_deleted (registry_run [OpPut example; OpPut other]) "storage/cache" [OpPut example]).
  - vm_compute. reflexivity.
  - intros q Hq. apply list_elem_of_singleton in Hq. discriminate.
Defined.

(** Validation does not detect every malformed node pattern, because the
    pattern is only matched against one name: an accepted provisioner may map
    no path at all to a node. *)
Theorem malformed_pattern_accepted :
  exists p, validateProvisioner p = None /\ (exists e, StorageRootPathForNode "worker-1" (sps_Nodes (sp_Spec p)) =
    Err (Errorf e)) /\ Match "worker-[" "worker-1" = None /\ (np_Name <$> sps_Nodes (sp_Spec p)) = ["worker-["].
Proof.
  exists (example <| sp_Spec := (sp_Spec example) <| sps_Nodes := [mkNodePath "worker-[" "/data"] |> |>).
  split; [vm_compute; reflexivity|]. split; [eexists; vm_compute; reflexivity|].
  split; vm_compute; reflexivity.
Qed.

End RegistryExample.
