(* ===== verification/RegistryMemory.v ===== *)
(** * The registry in memory ([internal/controllers/storageprovisioner_registry.go])

    [Registry] has values in its map; the code has pointers.  Here the
    operations run on memory: [Put] stores a pointer to a deep copy, [Get]
    answers one, and [LoadProvisioners] passes the address of its loop variable,
    which every iteration overwrites.  The theorems show that these operations
    refine those of [Registry], whatever happens to the memory of the callers.

    [check] is the part of [validateProvisioner] after its own deep copy: it
    fills in the placeholders and builds a Pod in the memory it is given, with
    the verdict of [Registry.validateProvisioner] on the value. *)

From S2P Require Import Prelude Effects Api Memory DeepCopy GoPath Template Utils PodTemplate Registry.

Section RegistryMemory.
Context {X : ExternalTypes} {E : ExternalCopies}.
Context `{!Converter StorageProvisioner, !EnvSubst}.
#[local] Existing Instance ApiCells.

(** [ProvisionerRegistry.provisioners]; a disabled key has a nil pointer. *)
Abbreviation mem_registry := (gmap string (option loc)).
Abbreviation SP := (TStorageProvisioner : cty).

Variable check : loc -> mem (option goerr).

Definition nil_fault {A} : mem A := fun _ => None.

(** [Put] under the mutex. *)
Definition mem_put_locked (r : mem_registry) (p : loc) : mem (mem_registry * option goerr) :=
  x ← load SP p;
  let key := msps_Name (msp_Spec x) in
  let disable := mret (<[key := None]> r,
    Some (Errorf ("duplicate provisioner " +++ key +++ " - key is disabled now"))) in
  let keep := c ← StorageProvisioner_DeepCopy (Some p); mret (<[key := c]> r, None) in
  match r !! key with
  | None => keep
  | Some None => disable
  | Some (Some l) =>
      existing ← load SP l;
      if (meta_Name (msp_ObjectMeta x) !=? meta_Name (msp_ObjectMeta existing)) ||
         (meta_Namespace (msp_ObjectMeta x) !=? meta_Namespace (msp_ObjectMeta existing))
      then disable else keep
  end.

Definition mem_validateProvisioner (p : loc) : mem (option goerr) :=
  q ← StorageProvisioner_DeepCopy (Some p);
  match q with
  | Some q => check q
  | None => nil_fault
  end.

Definition mem_Put (r : mem_registry) (p : loc) : mem (mem_registry * option goerr) :=
  err ← mem_validateProvisioner p;
  match err with
  | Some err =>
      x ← load SP p;
      mret (r, Some (Wrap ("validate StorageProvisioner " +++ meta_Name (msp_ObjectMeta x)) err))
  | None => mem_put_locked r p
  end.

Definition mem_Get (r : mem_registry) (name : string) : mem (option loc) :=
  match r !! name with
  | Some (Some p) => StorageProvisioner_DeepCopy (Some p)
  | _ => mret None
  end.

Definition mem_Delete (r : mem_registry) (p : loc) : mem mem_registry :=
  x ← load SP p;
  mret (delete (msps_Name (msp_Spec x)) r).

(** The loop of [LoadProvisioners]; [p] is its variable. *)
Fixpoint mem_load_loop (p : loc) (r : mem_registry) (items : list mStorageProvisioner) : mem mem_registry :=
  match items with
  | [] => mret r
  | x :: items =>
      _ ← store SP p x;
      res ← mem_Put r p;
      mem_load_loop p res.1 items
  end.

Definition mem_LoadProvisioners (items : list mStorageProvisioner) : mem mem_registry :=
  match items with
  | [] => mret ∅
  | x :: _ => p ← alloc SP x; mem_load_loop p ∅ items
  end.

(** ** Refinement *)

Hypothesis check_in_place : forall h l tm v F,
  rd_provisioner (Some l) h = Some (Some (tm, v), F) ->
  exists h', check l h = Some (validateProvisioner v, h') /\
    forall k, k ∈ dom h -> k ∉ F -> h' !! k = h !! k.

Definition holds (h : gmap loc cell) (l : loc) (v : StorageProvisioner) (F : gset loc) : Prop :=
  exists tm, rd_provisioner (Some l) h = Some (Some (tm, v), F).

Definition entry_rep (h : gmap loc cell) (F : gset loc) (e : option loc) (v : option StorageProvisioner) : Prop :=
  match e, v with
  | None, None => True
  | Some l, Some v => exists G, holds h l v G /\ G ⊆ F
  | _, _ => False
  end.

(** The registry [r] is in memory, in the cells [F]. *)
Definition registry_rep (h : gmap loc cell) (m : mem_registry) (r : registry) (F : gset loc) : Prop :=
  F ⊆ dom h /\
  forall k, match m !! k, r !! k with
            | None, None => True
            | Some e, Some v => entry_rep h F e v
            | _, _ => False
            end.

(** What happens elsewhere does not concern the registry. *)
Lemma registry_rep_frame h h' m r F F' :
  registry_rep h m r F -> (forall l, l ∈ F -> h' !! l = h !! l) -> F ⊆ F' -> F' ⊆ dom h' -> registry_rep h' m r F'.
Proof.
  intros [Hd Hr] Hl HF HF'. split; [done|]. intros k. specialize (Hr k).
  destruct (m !! k) as [[l|]|], (r !! k) as [[v|]|]; try done. destruct Hr as (G & (tm & Hv) & HG).
  exists G. split; [|set_solver]. exists tm. eapply framed; [done|]. set_solver.
Qed.

Lemma holds_load h l v F :
  holds h l v F -> exists x, cell_at SP l h = Some x /\
    msps_Name (msp_Spec x) = GetProvisionerName v /\
    meta_Name (msp_ObjectMeta x) = om_Name (sp_Meta v) /\
    meta_Namespace (msp_ObjectMeta x) = om_Namespace (sp_Meta v).
Proof.
  intros (tm & Hv). apply rd_bind_Some in Hv as (x & F1 & F2 & -> & [Hx ->]%rd_cell_Some & Hv).
  apply rd_bind_Some in Hv as (w & F3 & F4 & -> & Hv & [= -> <-]). exists x. split; [done|].
  apply rd_bind_Some in Hv as (me & G1 & G2 & -> & Hme & Hv).
  apply rd_bind_Some in Hv as (sp & G3 & G4 & -> & Hsp & Hv).
  apply rd_bind_Some in Hv as (cs & G5 & G6 & -> & Hcs & [= <- <- <-]).
  pose proof (meta_named _ _ _ _ Hme) as [-> ->]. split; [|done]. unfold GetProvisionerName. cbn.
  unfold rd_StorageProvisionerSpec in Hsp. repeat (apply rd_bind_Some in Hsp as (? & ? & ? & _ & _ & Hsp)).
  by injection Hsp as <-.
Qed.

Lemma load_at {A} t l (f : cval t -> mem A) h x : cell_at t l h = Some x -> (x ← load t l; f x) h = f x h.
Proof. intros Hx. unfold mbind, mem_bind, load. by rewrite Hx. Qed.

(** A deep copy of a provisioner. *)
Lemma copy_provisioner h l v F :
  holds h l v F -> exists l' h' F', StorageProvisioner_DeepCopy (Some l) h = Some (Some l', h') /\
    h ⊆ h' /\ holds h' l' v F' /\ F' ## dom h /\ F' ⊆ dom h'.
Proof.
  intros (tm & Hv). destruct (copies_provisioner _ _ _ _ Hv h) as (p & h' & F' & Ec & Hs & Hr & Hd & Hn); [done|].
  destruct p as [l'|]; [|done]. exists l', h', F'. split_and!; try done. by exists tm.
Qed.

Lemma registry_rep_insert h h' m r F F' key e v :
  registry_rep h m r F -> h ⊆ h' -> F ⊆ F' -> F' ⊆ dom h' -> entry_rep h' F' e v ->
  registry_rep h' (<[key := e]> m) (<[key := v]> r) F'.
Proof.
  intros Hr Hs HF HF' He. assert (Hr' : registry_rep h' m r F').
  { eapply registry_rep_frame; [done| |done|done]. intros l Hl. destruct Hr as [Hd _].
    apply Hd, elem_of_dom in Hl as [c Hc]. rewrite Hc. by eapply lookup_weaken. }
  split; [done|]. intros k. destruct (decide (k = key)) as [->|Hk].
  - by rewrite !lookup_insert_eq.
  - rewrite !lookup_insert_ne by done. apply Hr'.
Qed.

Lemma put_locked_refines h m r F p v Fp :
  registry_rep h m r F -> holds h p v Fp -> validateProvisioner v = None ->
  exists m' h' F', mem_put_locked m p h = Some ((m', (Put r v).2), h') /\ h ⊆ h' /\
    registry_rep h' m' (Put r v).1 F' /\ F ⊆ F' /\ F' ## dom h ∖ F.
Proof.
  intros Hr Hp Hv. destruct (holds_load _ _ _ _ Hp) as (x & Hx & Hkey & Hname & Hns).
  unfold mem_put_locked, Put, is_duplicate. rewrite (load_at _ _ _ _ _ Hx), Hv, Hkey, Hname, Hns.
  pose proof Hr as [Hd Hkeys]. specialize (Hkeys (GetProvisionerName v)).
  assert (Hdis : registry_rep h (<[GetProvisionerName v := None]> m) (<[GetProvisionerName v := None]> r) F)
    by by apply (registry_rep_insert h h m r F).
  assert (Hkeep : exists c h' F', StorageProvisioner_DeepCopy (Some p) h = Some (c, h') /\ h ⊆ h' /\
    registry_rep h' (<[GetProvisionerName v := c]> m) (<[GetProvisionerName v := Some v]> r) F' /\
    F ⊆ F' /\ F' ## dom h ∖ F).
  { destruct (copy_provisioner _ _ _ _ Hp) as (l & h' & G & Ec & Hs & Hl & Hn & Hg). exists (Some l), h', (F ∪ G).
    split; [done|]. split; [done|]. pose proof (subseteq_dom _ _ Hs).
    split; [|set_solver]. eapply registry_rep_insert; [done|done|set_solver|set_solver|].
    exists G. split; [done|set_solver]. }
  assert (Hkeep' : exists m' h' F', (c ← StorageProvisioner_DeepCopy (Some p);
      mret (<[GetProvisionerName v := c]> m, None (A := goerr))) h = Some ((m', None), h') /\ h ⊆ h' /\
    registry_rep h' m' (<[GetProvisionerName v := Some v]> r) F' /\ F ⊆ F' /\ F' ## dom h ∖ F).
  { destruct Hkeep as (c & h' & F' & Ec & Hrest). exists (<[GetProvisionerName v := c]> m), h', F'.
    unfold mbind, mem_bind. by rewrite Ec. }
  destruct (m !! GetProvisionerName v) as [[l|]|], (r !! GetProvisionerName v) as [[w|]|]; try done.
  - destruct Hkeys as (G & Hw & _). destruct (holds_load _ _ _ _ Hw) as (y & Hy & _ & Hn1 & Hn2).
    rewrite (load_at _ _ _ _ _ Hy), Hn1, Hn2. destruct (_ || _); [|done].
    do 3 eexists. split; [done|]. split; [done|]. split; [exact Hdis|]. set_solver.
  - do 3 eexists. split; [done|]. split; [done|]. split; [exact Hdis|]. set_solver.
Qed.

Lemma validate_refines h p v Fp :
  holds h p v Fp ->
  exists h', mem_validateProvisioner p h = Some (validateProvisioner v, h') /\ h ⊆ h'.
Proof.
  intros Hp. destruct (copy_provisioner _ _ _ _ Hp) as (q & h1 & G & Ec & Hs & (tm & Hq) & Hn & Hg).
  destruct (check_in_place _ _ _ _ _ Hq) as (h2 & Eck & Hk). exists h2. split.
  - unfold mem_validateProvisioner, mbind, mem_bind. by rewrite Ec.
  - apply map_subseteq_spec. intros l c Hl. pose proof (lookup_weaken _ _ _ _ Hl Hs) as Hl1.
    rewrite Hk; [done|by apply elem_of_dom_2 in Hl1|]. apply elem_of_dom_2 in Hl. set_solver.
Qed.

Lemma registry_rep_mono h h' m r F : registry_rep h m r F -> h ⊆ h' -> registry_rep h' m r F.
Proof.
  intros Hr Hs. pose proof Hr as [Hd _]. pose proof (subseteq_dom _ _ Hs).
  eapply registry_rep_frame; [done| |done|set_solver]. intros l Hl.
  apply Hd, elem_of_dom in Hl as [c Hc]. rewrite Hc. by eapply lookup_weaken.
Qed.

Lemma holds_mono h h' p v Fp : holds h p v Fp -> h ⊆ h' -> holds h' p v Fp.
Proof. intros (tm & Hv) Hs. exists tm. exact (framed_mono (rd_provisioner (Some p)) _ _ _ _ Hs Hv). Qed.

Lemma put_refines h m r F p v Fp :
  registry_rep h m r F -> holds h p v Fp ->
  exists m' h' F', mem_Put m p h = Some ((m', (Put r v).2), h') /\ h ⊆ h' /\
    registry_rep h' m' (Put r v).1 F' /\ F ⊆ F' /\ F' ## dom h ∖ F.
Proof.
  intros Hr Hp. destruct (validate_refines _ _ _ _ Hp) as (h1 & Ev & Hs1).
  pose proof (registry_rep_mono _ _ _ _ _ Hr Hs1) as Hr1. pose proof (holds_mono _ _ _ _ _ Hp Hs1) as Hp1.
  pose proof (subseteq_dom _ _ Hs1).
  destruct (validateProvisioner v) as [e|] eqn:Hv.
  - destruct (holds_load _ _ _ _ Hp1) as (x & Hx & _ & Hname & _). exists m, h1, F.
    unfold mem_Put, mbind, mem_bind. rewrite Ev. unfold load. rewrite Hx, Hname. unfold Put. rewrite Hv.
    split; [done|]. split; [done|]. split; [done|]. set_solver.
  - destruct (put_locked_refines _ _ _ _ _ _ _ Hr1 Hp1 Hv) as (m' & h2 & F' & Ep & Hs2 & Hr2 & HF & Hn).
    exists m', h2, F'. unfold mem_Put, mbind, mem_bind. rewrite Ev. split; [done|].
    split; [by etransitivity|]. split; [done|]. set_solver.
Qed.

Lemma get_refines h m r F name :
  registry_rep h m r F ->
  exists p h' G, mem_Get m name h = Some (p, h') /\ h ⊆ h' /\ G ## dom h /\
    match p, Lookup r name with
    | None, None => True
    | Some l, Some v => holds h' l v G
    | _, _ => False
    end.
Proof.
  intros [_ Hr]. specialize (Hr name). unfold mem_Get, Lookup.
  destruct (m !! name) as [[l|]|], (r !! name) as [[v|]|]; try done; simpl.
  2, 3: by (exists None, h, ∅; split_and!; [done..|set_solver|]).
  destruct Hr as (G & Hv & _). destruct (copy_provisioner _ _ _ _ Hv) as (l' & h' & G' & Ec & Hs & Hl & Hn & _).
  by exists (Some l'), h', G'.
Qed.

(** ** Any use of the registry

    The callers use the operations one after the other and change memory in
    between as they like, apart from the cells [F] that only the registry has
    pointers to: what a [Put] has allocated. *)

Inductive reaches : list registry_op -> gmap loc cell -> mem_registry -> gset loc -> Prop :=
| reaches_new h : reaches [] h ∅ ∅
| reaches_put ops h m F p v Fp m' err h' :
    reaches ops h m F -> holds h p v Fp -> mem_Put m p h = Some ((m', err), h') ->
    reaches (ops ++ [OpPut v]) h' m' (F ∪ (dom h' ∖ dom h))
| reaches_get ops h m F name p h' :
    reaches ops h m F -> mem_Get m name h = Some (p, h') -> reaches ops h' m F
| reaches_delete ops h m F p v Fp m' h' :
    reaches ops h m F -> holds h p v Fp -> mem_Delete m p h = Some (m', h') ->
    reaches (ops ++ [OpDelete v]) h' m' F
| reaches_write ops h m F h' :
    reaches ops h m F -> (forall l, l ∈ F -> h' !! l = h !! l) -> reaches ops h' m F.

Lemma registry_run_snoc ops o : registry_run (ops ++ [o]) = registry_step (registry_run ops) o.
Proof. unfold registry_run. by rewrite foldl_app. Qed.

Lemma reaches_rep ops h m F : reaches ops h m F -> registry_rep h m (registry_run ops) F.
Proof.
  induction 1 as [h|ops h m F p v Fp m' err h' _ IH Hp Hput|ops h m F name p h' _ IH Hget
    |ops h m F p v Fp m' h' _ IH Hp Hdel|ops h m F h' _ IH Hl].
  - split; [set_solver|]. intros k. unfold registry_run, newProvisioners. simpl. by rewrite !lookup_empty.
  - destruct (put_refines _ _ _ _ _ _ _ IH Hp) as (m1 & h1 & F1 & E1 & Hs & Hr & HF & Hn). rewrite Hput in E1.
    injection E1 as -> -> ->. rewrite registry_run_snoc. simpl. pose proof (subseteq_dom _ _ Hs).
    destruct Hr as [Hd Hr]. pose proof IH as [Hd0 _]. eapply registry_rep_frame; [split; [exact Hd|exact Hr]|done| |set_solver].
    intros l Hl. apply elem_of_union. destruct (decide (l ∈ F)) as [?|HlF]; [by left|right].
    apply elem_of_difference. split; [by apply Hd|]. intros Hlh. apply (Hn l); [done|]. by apply elem_of_difference.
  - destruct (get_refines _ _ _ _ name IH) as (p1 & h1 & G & E1 & Hs & _). rewrite Hget in E1.
    injection E1 as -> ->. by eapply registry_rep_mono.
  - destruct (holds_load _ _ _ _ Hp) as (x & Hx & Hkey & _). unfold mem_Delete in Hdel.
    rewrite (load_at _ _ _ _ _ Hx), Hkey in Hdel. injection Hdel as <- <-. rewrite registry_run_snoc.
    destruct IH as [Hd Hr]. split; [done|]. intros k. unfold registry_step, Remove.
    destruct (decide (k = GetProvisionerName v)) as [->|Hk]; [by rewrite !lookup_delete_eq|].
    rewrite !lookup_delete_ne by done. apply Hr.
  - eapply registry_rep_frame; [done..|]. destruct IH as [Hd _]. intros l Hin.
    apply Hd in Hin as Hin'. apply elem_of_dom in Hin' as [c Hc]. apply elem_of_dom. rewrite Hl by done. eauto.
Qed.


(** *** Loading the provisioners *)

Definition item_reads (h : gmap loc cell) (x : mStorageProvisioner) (v : StorageProvisioner) : Prop :=
  exists tm G, rd_StorageProvisioner x h = Some ((tm, v), G).

Lemma item_reads_mono h h' x v : item_reads h x v -> h ⊆ h' -> item_reads h' x v.
Proof.
  intros (tm & G & Hv) Hs. exists tm, G. exact (framed_mono (rd_StorageProvisioner x) _ _ _ _ Hs Hv).
Qed.

Lemma stored_holds h p x v : cell_at SP p h = Some x -> item_reads h x v -> exists G, holds h p v G.
Proof.
  intros Hx (tm & G & Hv). exists ({[p]} ∪ (G ∪ ∅)), tm. apply rd_bind_Some. exists x, {[p]}, (G ∪ ∅).
  split; [done|]. split; [by apply rd_cell_Some|]. apply rd_bind_Some. by exists (tm, v), G, ∅.
Qed.

Lemma load_loop_refines h0 p items vs m r F h :
  Forall2 (item_reads h0) items vs -> p ∉ dom h0 -> h0 ⊆ h -> p ∈ dom h -> p ∉ F -> F ## dom h0 ->
  registry_rep h m r F ->
  exists m' h' F', mem_load_loop p m items h = Some (m', h') /\
    registry_rep h' m' (foldl (fun r p => (Put r p).1) r vs) F' /\ F' ## dom h0.
Proof.
  intros Hi Hp. revert m r F h. induction Hi as [|x v items vs Hx Hi IH]; intros m r F h Hs Hd HF Hn Hr.
  { by exists m, h, F. }
  cbn [mem_load_loop foldl]. set (h1 := <[p := existT (P := mval) TStorageProvisioner x]> h).
  assert (Est : store SP p x h = Some (tt, h1)) by (unfold store; apply elem_of_dom in Hd as [c ->]; done).
  assert (Hs1 : h0 ⊆ h1).
  { apply map_subseteq_spec. intros l c Hl. apply elem_of_dom_2 in Hl as Hl'.
    unfold h1. rewrite lookup_insert_ne by set_solver. by eapply lookup_weaken. }
  assert (Hr1 : registry_rep h1 m r F).
  { eapply registry_rep_frame; [done| |done|destruct Hr; set_solver].
    intros l Hl. unfold h1. rewrite lookup_insert_ne by set_solver. done. }
  destruct (stored_holds h1 p x v) as [G HG]; [unfold cell_at, h1; rewrite lookup_insert_eq; apply cast_cell_eq|by eapply item_reads_mono|].
  destruct (put_refines _ _ _ _ _ _ _ Hr1 HG) as (m' & h2 & F' & Ep & Hs2 & Hr2 & HF' & Hn').
  unfold mbind, mem_bind. rewrite Est, Ep. pose proof (subseteq_dom _ _ Hs1). pose proof (subseteq_dom _ _ Hs2).
  apply (IH _ _ F'); [by etransitivity|set_solver..|done].
Qed.


End RegistryMemory.

(** ** A concrete memory

    The containers of a Pod template lie in an array of their own; the other
    embedded structures are kept flat. *)

Module MemoryExample.
Import PodExample TemplateExample RegistryExample.

Record flatPodSpec := mkFlatPodSpec { fp_Spec : PodSpec; fp_Containers : option loc }.

#[export] Instance flat_types : ExternalTypes := {|
  xcell := list Container; mTime := Time; mObjectMeta := ObjectMeta; mListMeta := unit; ListMeta := unit;
  mCondition := Condition; mEnvVar := EnvVar; mPersistentVolumeSpec := PersistentVolumeSpec; mPodSpec := flatPodSpec
|}.
#[local] Existing Instance ApiCells.

Definition flat (A : Type) : copier A A := mkCopier A A mret mret (fun m => framed_ret m) copies_ret.

Definition copy_pod (m : flatPodSpec) : mem flatPodSpec :=
  c ← copy_ptr (TX : cty) mret (fp_Containers m);
  mret (mkFlatPodSpec (fp_Spec m) c).
Definition rd_pod (m : flatPodSpec) : rd PodSpec :=
  c ← rd_ptr (TX : cty) mret (fp_Containers m);
  mret ((fp_Spec m) <| ps_Containers := default [] c |>).
Definition framed_pod m : Framed (rd_pod m) := _.
Lemma copies_pod : copies copy_pod rd_pod.
Proof. copies_struct copy_pod rd_pod. Qed.

Lemma flat_meta_named (m : ObjectMeta) (h : gmap loc cell) v F :
  cp_read (flat ObjectMeta) m h = Some (v, F) -> om_Name m = om_Name v /\ om_Namespace m = om_Namespace v.
Proof. by intros [= <- _]. Qed.

#[export] Instance flat_copies : ExternalCopies := {|
  x_time := flat Time; x_meta := flat ObjectMeta; x_list := flat unit; x_condition := flat Condition;
  x_env_var := flat EnvVar; x_volume_spec := flat PersistentVolumeSpec;
  x_pod_spec := mkCopier flatPodSpec PodSpec copy_pod rd_pod framed_pod copies_pod;
  meta_Name := om_Name; meta_Namespace := om_Namespace; meta_named := flat_meta_named
|}.

(** A check that leaves nothing of its argument behind. *)
Definition check (l : loc) : mem (option goerr) := fun h =>
  match rd_provisioner (Some l) h with
  | Some (Some (_, v), _) => Some (validateProvisioner v, delete l h)
  | _ => None
  end.

Lemma check_ok h l tm v F :
  rd_provisioner (Some l) h = Some (Some (tm, v), F) ->
  exists h', check l h = Some (validateProvisioner v, h') /\ forall k, k ∈ dom h -> k ∉ F -> h' !! k = h !! k.
Proof.
  intros Hv. exists (delete l h). unfold check. rewrite Hv. split; [done|]. intros k _ Hk. apply lookup_delete_ne.
  apply rd_bind_Some in Hv as (x & F1 & F2 & -> & [_ ->]%rd_cell_Some & _). set_solver.
Qed.

(** The provisioner of the example at address 1. *)
Definition in_memory : mStorageProvisioner :=
  mkMStorageProvisioner (mkTypeMeta "StorageProvisioner" "v1alpha1") (sp_Meta example : mObjectMeta)
    (mkMStorageProvisionerSpec "storage/cache" false
       (sps_PersistentVolumeTemplate (sp_Spec example) : mPersistentVolumeSpec)
       (mkFlatPodSpec PodSpec_zero (Some 2%positive) : mPodSpec)
       (mkMContainers (mkMProvisionerContainer (Some (mkSlice 3%positive 0 1)) (Some (mkSlice 4%positive 0 1)))
          (mkMProvisionerContainer None None))
       (Some (mkSlice 5%positive 0 1)) (Some (mkSlice 6%positive 0 1)))
    (mkMStorageProvisionerStatus None).
Definition start : gmap loc (cell (C := ApiCells)) := list_to_map [
  (1%positive, existT (P := mval) TStorageProvisioner in_memory);
  (2%positive, existT (P := mval) TX ([PodExample.main] : xcell));
  (3%positive, existT (P := mval) (TArray TString) ["/bin/provision"]);
  (4%positive, existT (P := mval) (TArray TEnvVar) ([mkEnvVar "A" "1" None] : list mEnvVar));
  (5%positive, existT (P := mval) (TArray TEnvMapping) [mkMEnvMapping "CACHE" "example.com/cache" None]);
  (6%positive, existT (P := mval) (TArray TNodePath) [mkNodePath "*" "/data/cache"])].

Definition footprint : gset loc := list_to_set [1; 2; 3; 4; 5; 6]%positive.

Lemma start_holds : holds start 1%positive example footprint.
Proof. exists (mkTypeMeta "StorageProvisioner" "v1alpha1"). vm_compute. reflexivity. Qed.

Definition after_put := default ((∅, None), ∅) (mem_Put check ∅ 1%positive start).
Definition registered_in := after_put.1.1.

(** The caller overwrites the containers of its own provisioner. *)
Definition overwritten : gmap loc (cell (C := ApiCells)) :=
  <[2%positive := existT (P := mval) TX ([] : xcell)]> after_put.2.

Lemma overwritten_reaches :
  reaches check [OpPut example] overwritten registered_in (∅ ∪ (dom after_put.2 ∖ dom start)).
Proof.
  eapply reaches_write.
  - apply (reaches_put check [] start ∅ ∅ 1%positive example footprint registered_in None after_put.2);
      [apply reaches_new|apply start_holds|]. vm_compute. reflexivity.
  - intros l Hl. unfold overwritten. rewrite lookup_insert_ne; [done|]. intros <-.
    apply elem_of_union in Hl as [Hl|Hl]; [set_solver|]. apply elem_of_difference in Hl as [_ Hl]. apply Hl.
    apply elem_of_dom. by eexists.
Qed.



Lemma deep_copies_isolated_witness :
  exists p' h' F', StorageProvisioner_DeepCopy (Some 1%positive) start = Some (p', h') /\ footprint ## F' /\
    rd_provisioner p' h' = Some (Some (mkTypeMeta "StorageProvisioner" "v1alpha1", example), F').
Proof.
  destruct deep_copies_isolated as (_ & _ & Hiso & _).
  destruct (Hiso start (Some 1%positive) (Some (mkTypeMeta "StorageProvisioner" "v1alpha1", example)) footprint)
    as (p' & h' & F' & E & _ & Hr & Hd & _); [vm_compute; reflexivity|].
  exists p', h', F'. exact (conj E (conj Hd Hr)).
Defined.

End MemoryExample.
