(* ===== verification/Manager.v ===== *)
(** * The manager process ([cmd/manager/main.go])

    [main]: it parses its command line, loads the provisioners, registers the
    controllers with controller-runtime and runs them until the process is
    stopped.  The process ends with an exit code; log output is left out, what
    an error log would print is lost with it.  The controller of caches is not
    registered.  Libraries register flags too: those of imported packages before
    [main] starts and those of the logger within; they are parameters. *)

From S2P Require Import Prelude Effects Api ApiServer Template PodTemplate Registry GoFlag.

Inductive controller := CtlPersistentVolumeClaim | CtlPersistentVolume | CtlStorageProvisioner | CtlPod.
#[global] Instance controller_eq_dec : EqDecision controller.
Proof. solve_decision. Defined.

(** The variables of [main] that flags set. *)
Record ManagerFlags := mkManagerFlags {
  mf_metricsAddr : string;
  mf_enableLeaderElection : bool;
  mf_probeAddr : string;
  mf_managerNamespace : string
}.
#[global] Instance ManagerFlags_settable : Settable ManagerFlags := fun r =>
  mkManagerFlags (mf_metricsAddr r) (mf_enableLeaderElection r) (mf_probeAddr r) (mf_managerNamespace r).

(** The parts of [ctrl.Options] that are set. *)
Record ManagerOptions := mkManagerOptions {
  mgo_MetricsBindAddress : string;
  mgo_Port : Z;
  mgo_HealthProbeBindAddress : string;
  mgo_LeaderElection : bool;
  mgo_LeaderElectionID : string
}.

Inductive mcmd :=
| GetConfigOrDie
| NewManager (opts : ManagerOptions)
| SetupSignalHandler
| NewProvisionerClient
| SetupWithManager (c : controller) (provisioners : registry)
| AddHealthzCheck
| AddReadyzCheck
| Start.
Definition mresp (c : mcmd) : Type :=
  match c with
  | GetConfigOrDie => bool
  | SetupSignalHandler => unit
  | _ => option goerr
  end.
Definition ProcessSig : Sig := {| cmd := mcmd; resp := mresp |}.
Definition ManagerSig : Sig := sum_sig ProcessSig KubeSig.
Abbreviation manager_prog A := (prog (S := ManagerSig) A).
Definition process (c : mcmd) : manager_prog (mresp c) :=
  lift_l (S := ProcessSig) (T := KubeSig) (call (S := ProcessSig) c).

Section Manager.
Context `{!Converter StorageProvisioner, !EnvSubst}.

Definition loadProvisioners (namespace : string) : manager_prog (result registry) :=
  let! err := process NewProvisionerClient in
  match err with
  | Some err => Ret (Err err)
  | None =>
      let! r := lift_r (LoadProvisioners namespace) in
      match r with
      | Err err => Ret (Err err)
      | Ok provisioners => Ret (Ok provisioners)
      end
  end.

(** [os.Exit(1)] on an error. *)
Definition or_exit (p : manager_prog (option goerr)) (k : manager_prog nat) : manager_prog nat :=
  let! err := p in
  match err with
  | Some _ => Ret 1
  | None => k
  end.

Definition manager_options (v : ManagerFlags) : ManagerOptions :=
  mkManagerOptions (mf_metricsAddr v) 9443 (mf_probeAddr v) (mf_enableLeaderElection v) "146685bb.cache-manager".

(** [main] after [flag.Parse]. *)
Definition run_manager (v : ManagerFlags) : manager_prog nat :=
  let managerNamespace := mf_managerNamespace v in
  if managerNamespace ==? "" then Ret 1
  else
    let! config := process GetConfigOrDie in
    if negb config then Ret 1
    else
      or_exit (process (NewManager (manager_options v))) (
      do! process SetupSignalHandler in
      let! r := loadProvisioners managerNamespace in
      match r with
      | Err _ => Ret 1
      | Ok provisioners =>
          or_exit (process (SetupWithManager CtlPersistentVolumeClaim provisioners)) (
          or_exit (process (SetupWithManager CtlPersistentVolume provisioners)) (
          or_exit (process (SetupWithManager CtlStorageProvisioner provisioners)) (
          do! process (SetupWithManager CtlPod provisioners) in
          or_exit (process AddHealthzCheck) (
          or_exit (process AddReadyzCheck) (
          or_exit (process Start) (Ret 0))))))
      end).

Section CommandLine.
Context (Getenv : string -> string) (imported zap : list (string * (bool * (string -> bool)))).

(** The flags of [flag.CommandLine], and the values before it is parsed. *)
Definition commandLine : outcome (gmap string (flag_def ManagerFlags)) :=
  let fs := add_foreign imported (Returned ∅) in
  let fs := Var "metrics-bind-address" (StringVar (fun x v => v <| mf_metricsAddr := x |>)) fs in
  let fs := Var "health-probe-bind-address" (StringVar (fun x v => v <| mf_probeAddr := x |>)) fs in
  let fs := Var "manager-namespace" (StringVar (fun x v => v <| mf_managerNamespace := x |>)) fs in
  let fs := Var "leader-elect" (BoolVar (fun x v => v <| mf_enableLeaderElection := x |>)) fs in
  add_foreign zap fs.
Definition flag_defaults : ManagerFlags := mkManagerFlags ":8080" false ":8081" (Getenv "MANAGER_NAMESPACE").

Definition main (args : list string) : manager_prog nat :=
  match commandLine with
  | Panicked m => Panic m
  | Returned fs =>
      match Parse fs args flag_defaults with
      | ParseError _ e => Ret (exit_code e)
      | Parsed v _ => run_manager v
      end
  end.

(** ** What is running when the manager starts *)

Abbreviation pev := (fun c (x : mresp c) => Ev (S := ManagerSig) (inl c) x).

Definition set_up (h : list (event (S := ManagerSig))) (c : controller) (r : registry) : Prop :=
  pev (SetupWithManager c r) None ∈ h.

(** The registry that the listed provisioners make. *)
Definition loaded (namespace : string) (h : list (event (S := ManagerSig))) (r : registry) : Prop :=
  exists items, Ev (S := ManagerSig) (inr (ListProvisioners namespace)) (Ok items) ∈ h /\
    r = foldl (fun r p => (Put r p).1) newProvisioners items.

(** The guard of the calls: the manager is started on a complete set-up. *)
Definition start_guard (namespace : string) (h : list (event (S := ManagerSig))) (c : cmd (Sig := ManagerSig)) : Prop :=
  match c with
  | inl Start => exists r, loaded namespace h r /\
      set_up h CtlPersistentVolumeClaim r /\ set_up h CtlPersistentVolume r /\ set_up h CtlStorageProvisioner r /\
      exists e, pev (SetupWithManager CtlPod r) e ∈ h
  | inl (SetupWithManager _ r) => loaded namespace h r
  | _ => True
  end.

Lemma run_manager_wp v :
  wp (run_manager v) (start_guard (mf_managerNamespace v))
    (fun h o => o = Returned 1 \/ o = Returned 0 /\ pev Start None ∈ h) [].
Proof.
  unfold run_manager. case_bool_decide; [by left|]. split; [done|]. intros [|]; [|by left].
  split; [done|]. intros [e|]; [by left|]. split; [done|]. intros [].
  split; [done|]. intros [e|]; [by left|]. split; [done|]. intros [items|e]; [|by left].
  cbn -[loaded foldl].
  do 3 (split; [eexists; split; [in_history|done]|]; intros [e|]; [by left|]; cbn -[loaded foldl]).
  split; [eexists; split; [in_history|done]|]. intros e. split; [done|]. intros [?|]; [by left|].
  split; [done|]. intros [?|]; [by left|]. cbn -[loaded foldl]. split.
  - eexists. split; [eexists; split; [in_history|done]|]. unfold set_up. split_and!; [in_history..|].
    eexists. in_history.
  - intros [?|]; [by left|]. right. split; [done|]. in_history.
Qed.

(** The values of the flags with which the manager is run. *)
Definition parsed_flags (args : list string) (v : ManagerFlags) : Prop :=
  exists fs rest, commandLine = Returned fs /\ Parse fs args flag_defaults = Parsed v rest.

(** C40: the manager is started only if the command line could be parsed, and
    only after the provisioners of the namespace that it gives are loaded and
    the controllers of claims, volumes and provisioners are registered, all with
    the one registry that was loaded.  The controller of Pods has been asked
    for, whatever the answer was. *)
Theorem manager_starts_set_up args tr x tr' o :
  runs (main args) (tr ++ pev Start x :: tr') o ->
  exists v r, parsed_flags args v /\ loaded (mf_managerNamespace v) tr r /\
    set_up tr CtlPersistentVolumeClaim r /\ set_up tr CtlPersistentVolume r /\ set_up tr CtlStorageProvisioner r /\
    exists e, pev (SetupWithManager CtlPod r) e ∈ tr.
Proof.
  unfold main, parsed_flags. destruct commandLine as [fs|m]; [|intros [Hnil _]; by destruct tr].
  destruct (Parse fs args flag_defaults) as [v rest|v e] eqn:Ep; [|intros [Hnil _]; by destruct tr].
  intros Hr. eapply (wp_guard _ _ _ _ tr (inl Start) x tr' o (run_manager_wp v)) in Hr. simpl in Hr.
  pose proof (history_of_trace tr) as Hh. destruct Hr as (r & (items & Hi & ->) & H1 & H2 & H3 & e & H4).
  eexists v, _. split; [by exists fs, rest|]. split; [exists items; split; [by apply Hh|done]|].
  unfold set_up. split_and!; [by apply Hh..|]. exists e. by apply Hh.
Qed.

(** ** What the command line decides *)

Lemma commandLine_own fs :
  commandLine = Returned fs ->
  fs !! "manager-namespace" = Some (StringVar (fun x v => v <| mf_managerNamespace := x |>)) /\
  fs !! "leader-elect" = Some (BoolVar (fun x v => v <| mf_enableLeaderElection := x |>)) /\
  forall name f x v v', fs !! name = Some f -> fg_Set f x v = Some v' ->
    (name <> "manager-namespace" -> mf_managerNamespace v' = mf_managerNamespace v) /\
    (name <> "leader-elect" -> mf_enableLeaderElection v' = mf_enableLeaderElection v).
Proof.
  intros (fs4 & H4 & Hsub & Hfs)%add_foreign_Returned.
  apply Var_Returned in H4 as (fs3 & H3 & _ & ->). apply Var_Returned in H3 as (fs2 & H2 & _ & ->).
  apply Var_Returned in H2 as (fs1 & H1 & _ & ->). apply Var_Returned in H1 as (fs0 & H0 & _ & ->).
  apply add_foreign_Returned in H0 as (? & [= <-] & _ & H0).
  split; [|split].
  - eapply lookup_weaken; [|exact Hsub]. by rewrite lookup_insert_ne, lookup_insert_eq.
  - eapply lookup_weaken; [|exact Hsub]. by rewrite lookup_insert_eq.
  - assert (Hforeign : forall g x v v', fg_Set (foreign (V := ManagerFlags) g) x v = Some v' -> v' = v).
    { intros g x v v'. cbn. destruct (g.2 x); congruence. }
    intros name f x v v' [Hf|[g ->]]%Hfs Hset; [|by apply Hforeign in Hset as ->].
    repeat (apply lookup_insert_Some in Hf as [[<- <-]|[_ Hf]];
      [cbn in Hset; try destruct (ParseBool x); by simplify_eq/=|]).
    apply H0 in Hf as [Hf|[g ->]]; [by rewrite lookup_empty in Hf|by apply Hforeign in Hset as ->].
Qed.

(** The value that a use gives to a flag. *)
Definition used_value (name : string) (u : flag_use) : option string :=
  if fu_name u ==? name then Some (match fu_spelling u with NoValue => "true" | _ => fu_value u end) else None.

Lemma apply_uses_snoc {V} (fs : gmap string (flag_def V)) us u v :
  apply_uses fs (us ++ [u]) v = apply_uses fs us v ≫= fun v => apply_use fs v u.
Proof. unfold apply_uses. by rewrite foldl_app. Qed.

Lemma apply_uses_last fs us v :
  commandLine = Returned fs -> apply_uses fs us flag_defaults = Some v ->
  mf_managerNamespace v = default (Getenv "MANAGER_NAMESPACE") (last (omap (used_value "manager-namespace") us)) /\
  mf_enableLeaderElection v = default false (last (omap (used_value "leader-elect") us) ≫= ParseBool).
Proof.
  intros Hfs. destruct (commandLine_own fs Hfs) as (Hns & Hle & Hothers). revert v.
  induction us as [|u us IH] using rev_ind; intros v; [intros [= <-]; done|].
  rewrite apply_uses_snoc. destruct (apply_uses fs us flag_defaults) as [v0|] eqn:E0; [|done].
  cbn [mbind option_bind]. destruct (IH v0 eq_refl) as [IH1 IH2]. unfold apply_use. intros Hu.
  rewrite !omap_app, !last_app. cbn [omap list_omap].
  destruct (fs !! fu_name u) as [f|] eqn:Ef; [|done]. destruct (Hothers _ _ _ _ _ Ef Hu) as [Ho1 Ho2].
  split.
  - unfold used_value at 1. case_bool_decide as Hn; [|by rewrite Ho1 by done].
    rewrite Hn, Hns in Ef. injection Ef as <-. cbn in Hu. by injection Hu as <-.
  - unfold used_value at 1. case_bool_decide as Hn; [|by rewrite Ho2 by done].
    rewrite Hn, Hle in Ef. injection Ef as <-. cbn in Hu. cbn.
    destruct (ParseBool _) as [b|]; [|done]. by injection Hu as <-.
Qed.

(** C21: a command line is read back as it was written, in every spelling of the
    flags: the manager is run for the namespace that is given last, and for the
    one of the environment if none is given; likewise the leader is elected if
    the last such flag says so.  Flags of libraries do not interfere. *)
Theorem manager_command_line fs us v :
  commandLine = Returned fs ->
  Forall (fun u => flag_name (fu_name u) = true /\ use_ok fs u) us ->
  apply_uses fs us flag_defaults = Some v ->
  main (us ≫= write_flag) = run_manager v /\
  mf_managerNamespace v = default (Getenv "MANAGER_NAMESPACE") (last (omap (used_value "manager-namespace") us)) /\
  mf_enableLeaderElection v = default false (last (omap (used_value "leader-elect") us) ≫= ParseBool).
Proof.
  intros Hfs Hus Hv. split; [|by eapply apply_uses_last].
  unfold main. rewrite Hfs. pose proof (Parse_written fs us flag_defaults v [] Hus Hv) as Hp.
  rewrite app_nil_r in Hp. by rewrite Hp.
Qed.

End CommandLine.
End Manager.

(** ** A concrete start *)

Module ManagerExample.
Import PodExample TemplateExample RegistryExample.

Definition no_pods : goerr := Errorf "no kind is registered for the type v1.Pod".
(** Everything works except the registration of the Pod controller. *)
Definition answer (c : cmd (Sig := ManagerSig)) : resp (Sig := ManagerSig) c :=
  match c as c0 return resp (Sig := ManagerSig) c0 with
  | inl GetConfigOrDie => true
  | inl SetupSignalHandler => tt
  | inl (SetupWithManager CtlPod _) => Some no_pods
  | inl (SetupWithManager _ _) | inl (NewManager _) | inl NewProvisionerClient
  | inl AddHealthzCheck | inl AddReadyzCheck | inl Start => None
  | inr (ListProvisioners _) => Ok [example]
  | inr c => kresp_default c
  end.

Definition no_env (name : string) : string := "".
(** Flags of the libraries. *)
Definition kubeconfig : list (string * (bool * (string -> bool))) := [("kubeconfig", (false, fun _ => true))].
Definition zap_flags : list (string * (bool * (string -> bool))) :=
  [("zap-devel", (true, fun x => bool_decide (ParseBool x <> None)));
   ("zap-encoder", (false, fun x => bool_decide (x ∈ ["json"; "console"])))].
Definition manager_main := Manager.main no_env kubeconfig zap_flags.
Definition run (args : list string) :=
  (exec (S := ManagerSig) (fun c (_ : unit) => (answer c, tt)) (manager_main args) tt).1.

(** The error of the Pod controller does not keep the manager from starting; a
    namespace is needed, a flag must be known, help is no failure. *)
Example exit_codes :
  (fun args => (run args).2) <$>
    [["--manager-namespace=system"]; ["-zap-devel"; "-manager-namespace"; "system"]; []; ["--zap-encoder=xml"];
     ["--namespace=system"]; ["--manager-namespace"]; ["-help"]; ["x"; "--manager-namespace=system"]] =
  [Returned 0; Returned 0; Returned 1; Returned 2; Returned 2; Returned 2; Returned 0; Returned 1].
Proof. vm_compute. reflexivity. Qed.

Definition args1 : list string := ["--manager-namespace=system"].
Definition set_up_part := take 11 (run args1).1.

Lemma run_split : run args1 = (set_up_part ++ [Ev (S := ManagerSig) (inl Start) None], Returned 0).
Proof. vm_compute. reflexivity. Qed.

Lemma main_runs : runs (manager_main args1) (set_up_part ++ [Ev (S := ManagerSig) (inl Start) None]) (Returned 0).
Proof.
  pose proof (exec_runs_proj (S := ManagerSig) (fun c (_ : unit) => (answer c, tt)) (manager_main args1) tt) as Hr.
  change (runs (manager_main args1) (run args1).1 (run args1).2) in Hr. by rewrite run_split in Hr.
Qed.

Lemma manager_starts_set_up_witness :
  exists v r, parsed_flags no_env kubeconfig zap_flags args1 v /\ loaded (mf_managerNamespace v) set_up_part r /\
    set_up set_up_part CtlPersistentVolume r.
Proof.
  destruct (manager_starts_set_up no_env kubeconfig zap_flags args1 set_up_part None [] (Returned 0) main_runs)
    as (v & r & Hv & Hl & _ & Hs & _).
  exists v, r. exact (conj Hv (conj Hl Hs)).
Defined.

(** A command line with the flag of a library and two namespaces. *)
Definition uses1 : list flag_use :=
  [mkUse "manager-namespace" true "first" SameArg; mkUse "zap-devel" true "" NoValue;
   mkUse "leader-elect" false "" NoValue; mkUse "manager-namespace" false "second" NextArg].

Definition flags1 := match commandLine kubeconfig zap_flags with Returned fs => fs | Panicked _ => ∅ end.

Lemma manager_command_line_witness :
  uses1 ≫= write_flag =
    ["--manager-namespace=first"; "--zap-devel"; "-leader-elect"; "-manager-namespace"; "second"] /\
  Manager.main no_env kubeconfig zap_flags (uses1 ≫= write_flag) = run_manager (mkManagerFlags ":8080" true ":8081" "second").
Proof.
  split; [vm_compute; reflexivity|].
  apply (manager_command_line no_env kubeconfig zap_flags flags1 uses1).
  - reflexivity.
  - repeat apply Forall_cons_2; [..|apply Forall_nil_2];
      (split; [reflexivity|]; eexists; (split; [reflexivity|]); [exact I || reflexivity]).
  - reflexivity.
Defined.

End ManagerExample.
