(* ===== verification/Job.v ===== *)
(** * Pods as jobs ([internal/utils/pod.go], [internal/utils/deleteresource.go])

    The controllers run a Pod to completion by reconciling it: create it if it
    is missing, wait while it runs, call back once it has succeeded and delete
    it.  The callbacks of Go close over variables of the caller; here they get
    their value [x] and return the new one. *)

From Stdlib Require Import Ascii.
From S2P Require Import Prelude Effects Api Utils.

Definition EventTypeNormal := "Normal".
Definition EventTypeWarning := "Warning".

(** [DeleteResource]: done once the object is gone. *)
Definition DeleteResource (k : kind) (o : obj k) : prog (bool * option goerr) :=
  let! err := call (Delete k o) in
  match err with
  | None => Ret (false, None)
  | Some e => if IsNotFound e then Ret (true, None) else Ret (false, Some e)
  end.

Definition DeletePod (name : NamespacedName) : prog (bool * option goerr) :=
  let! r := call (Get KPod name) in
  match r with
  | Err err => if IsNotFound err then Ret (true, None) else Ret (false, Some err)
  | Ok pod => DeleteResource KPod pod
  end.

Section Reconcile.
Context {X : Type}.

(** The end of [ReconcilePod]: the state of an existing Pod. *)
Definition pod_state (pod : Pod) : bool * option Pod * option goerr :=
  if pod_Phase pod ==? PodSucceeded then (true, Some pod, None)
  else if pod_Phase pod ==? PodFailed then
    (true, Some pod, Some (Errorf ("pod " +++ om_Name (pod_Meta pod) +++ " failed")))
  else (false, Some pod, None).

(** [ReconcilePod]: done, the Pod and the error. *)
Definition ReconcilePod (name : NamespacedName) (create : X -> prog (X * result Pod)) (x : X)
  : prog (X * (bool * option Pod * option goerr)) :=
  let! r := call (Get KPod name) in
  match r with
  | Ok pod => Ret (x, pod_state pod)
  | Err err =>
      if negb (IsNotFound err) then Ret (x, (false, Some Pod_zero, Some (Wrap "reconcile pod" err)))
      else
        let! (x, r) := create x in
        match r with
        | Err err => Ret (x, (false, None, Some err))
        | Ok pod =>
            let pod := pod <| pod_Meta := (pod_Meta pod) <| om_Name := nn_Name name |>
                                                       <| om_Namespace := nn_Namespace name |> |> in
            let! r := call (Create KPod pod) in
            match r with
            | Ok pod => Ret (x, (false, Some pod, None))
            | Err err =>
                if negb (IsAlreadyExists err) then
                  Ret (x, (false, Some pod, Some (Wrap "reconcile pod" err)))
                else
                  let! r := call (Get KPod name) in
                  match r with
                  | Err err => Ret (x, (false, Some pod, Some (Wrap "reconcile pod" err)))
                  | Ok pod => Ret (x, pod_state pod)
                  end
            end
        end
  end.

Record JobReconciler := mkJobReconciler {
  jr_AnnotationOwnerName : string;
  jr_AnnotationOwnerNamespace : string
}.

(** [JobRequest]; the owner is given by its name. *)
Record JobRequest := mkJobRequest {
  jq_Name : string;
  jq_PodName : NamespacedName;
  jq_Owner : NamespacedName;
  jq_ShouldRun : bool;
  jq_Create : X -> prog (X * result Pod);
  jq_OnCompleted : X -> Pod -> prog (X * (bool * option goerr))
}.

(** The Pod as the job reconciler creates it. *)
Definition job_pod (r : JobReconciler) (owner : NamespacedName) (pod : Pod) : Pod :=
  let a := default ∅ (om_Annotations (pod_Meta pod)) in
  let a := <[jr_AnnotationOwnerName r := nn_Name owner]> a in
  let a := if jr_AnnotationOwnerNamespace r !=? ""
           then <[jr_AnnotationOwnerNamespace r := nn_Namespace owner]> a else a in
  pod <| pod_Meta := (pod_Meta pod) <| om_Annotations := Some a |> |>
      <| pod_Spec := (pod_Spec pod) <| ps_RestartPolicy := RestartPolicyNever |> |>.

(** [strings.ToUpper(name[0:1]) + name[1:]] for an ASCII letter. *)
Definition upper_first (name : string) : option string :=
  match name with
  | EmptyString => None
  | String c s =>
      let n := N_of_ascii c in
      let up := if ((97 <=? n) && (n <=? 122))%N then ascii_of_N (n - 32) else c in
      Some (String up s)
  end.

Definition ReconcileJob (r : JobReconciler) (req : JobRequest) (x : X)
  : prog (X * (bool * option goerr)) :=
  if negb (jq_ShouldRun req) then let! res := DeletePod (jq_PodName req) in Ret (x, res)
  else
    let create x :=
      let! (x, res) := jq_Create req x in
      match res with
      | Err err => Ret (x, Err err)
      | Ok pod => Ret (x, Ok (job_pod r (jq_Owner req) pod))
      end in
    let! (x, (done, pod, err)) := ReconcilePod (jq_PodName req) create x in
    match upper_first (jq_Name req) with
    | None => Panic "slice bounds out of range"
    | Some nameUpper =>
        let err := wrap_err (jq_Name req) err in
        match err, done, pod with
        | Some _, true, _ =>
            do! call (RecordEvent (jq_Owner req) EventTypeWarning
              (nameUpper +++ "Failed") (nameUpper +++ " Pod failed")) in
            Ret (x, (true, err))
        | Some _, false, _ | None, false, _ => Ret (x, (done, err))
        | None, true, None => Panic "nil pointer dereference"
        | None, true, Some pod =>
            do! call (RecordEvent (jq_Owner req) EventTypeNormal
              (nameUpper +++ "Completed") (nameUpper +++ " Pod completed")) in
            let! (x, (done, err)) := jq_OnCompleted req x pod in
            match err, done with
            | None, true => let! res := DeleteResource KPod pod in Ret (x, res)
            | _, _ => Ret (x, (done, err))
            end
        end
    end.
End Reconcile.
Arguments JobRequest : clear implicits.

(** The Pods that the job reconciler creates are mapped back to their
    owner by the event mapping with the same annotations; an owner without
    namespace needs no annotation for it. *)
Theorem job_pod_mapped_to_owner r owner pod ns :
  jr_AnnotationOwnerName r <> jr_AnnotationOwnerNamespace r ->
  om_Namespace (pod_Meta pod) = ns ->
  nn_Name owner <> "" ->
  (jr_AnnotationOwnerNamespace r <> "" /\ nn_Namespace owner <> "") \/
  (jr_AnnotationOwnerNamespace r = "" /\ nn_Namespace owner = "" /\
   map_index (om_Annotations (pod_Meta pod)) "" = "") ->
  PodToRequestMapper ns (jr_AnnotationOwnerName r) (jr_AnnotationOwnerNamespace r)
    (pod_Meta (job_pod r owner pod)) = [owner].
Proof.
  intros Hne Hns Hn1 Hcase. unfold PodToRequestMapper, job_pod. simpl.
  rewrite Hns, bool_decide_eq_true_2 by done. simpl.
  destruct Hcase as [[Ha Hn2]|(Ha & Hn2 & Hidx)].
  - rewrite (bool_decide_eq_false_2 (jr_AnnotationOwnerNamespace r = "")) by done. simpl.
    rewrite map_index_insert, map_index_insert_ne, map_index_insert by done.
    rewrite (bool_decide_eq_false_2 (nn_Name owner = "")),
      (bool_decide_eq_false_2 (nn_Namespace owner = "")) by done. by destruct owner.
  - rewrite Ha, (bool_decide_eq_true_2 ("" = "")) by done. simpl. rewrite Ha in Hne.
    rewrite map_index_insert, map_index_insert_ne by done.
    assert (map_index (Some (default ∅ (om_Annotations (pod_Meta pod)))) "" = "") as ->
      by (by destruct (om_Annotations (pod_Meta pod))).
    rewrite (bool_decide_eq_false_2 (nn_Name owner = "")) by done.
    destruct owner as [n ns']. simpl in *. by subst ns'.
Qed.

Lemma job_pod_mapped_to_owner_witness :
  let r := mkJobReconciler "example.com/name" "example.com/namespace" in
  let pod := Pod_zero <| pod_Meta := ObjectMeta_zero <| om_Namespace := "system" |> |> in
  PodToRequestMapper "system" "example.com/name" "example.com/namespace"
    (pod_Meta (job_pod r (mkNamespacedName "claim1" "default") pod)) =
    [mkNamespacedName "claim1" "default"].
Proof.
  intros r pod. apply (job_pod_mapped_to_owner r); [done..|]. left. done.
Defined.

(** ** What a job does *)

Lemma DeleteResource_done k o tr : runs (DeleteResource k o) tr (Returned (true, None)) ->
  exists e, tr = [Ev (Delete k o) (Some e)] /\ IsNotFound e = true.
Proof.
  intros (y & tr' & -> & Hr). destruct y as [e|]; simpl in Hr; [|by destruct Hr as [_ [=]]].
  destruct (IsNotFound e) eqn:En; destruct Hr as [-> [=]]. by exists e.
Qed.

Lemma pod_state_done pod : 
  match pod_state pod with
  | (true, Some pod', None) => pod' = pod /\ pod_Phase pod = PodSucceeded
  | (true, Some pod', Some _) => pod' = pod /\ pod_Phase pod = PodFailed
  | (true, None, _) => False
  | (false, _, err) => err = None /\ pod_Phase pod <> PodSucceeded /\ pod_Phase pod <> PodFailed
  end.
Proof. unfold pod_state. repeat case_bool_decide; done. Qed.

Section JobRuns.
Context {X : Type}.
Implicit Types x : X.

(** A Pod that is reported as done has been read under the requested name. *)
Lemma ReconcilePod_done name (create : X -> prog (X * result Pod)) x tr x' pod err :
  runs (ReconcilePod name create x) tr (Returned (x', (true, pod, err))) ->
  exists p tr0, pod = Some p /\ tr = tr0 ++ [Ev (Get KPod name) (Ok p)] /\
    match err with None => pod_Phase p = PodSucceeded | Some _ => pod_Phase p = PodFailed end.
Proof.
  intros (r & tr' & -> & Hr). destruct r as [p|e]; simpl in Hr.
  - destruct Hr as [-> [= -> Hp]]. exists p, []. pose proof (pod_state_done p) as Hd.
    rewrite <- Hp in Hd. destruct pod, err; naive_solver.
  - destruct (IsNotFound e); simpl in Hr; [|by destruct Hr as [_ [=]]].
    apply runs_bind in Hr as [(m & _ & [=])|([x1 r] & t1 & t2 & -> & _ & Hr)].
    destruct r as [p0|e0]; simpl in Hr; [|by destruct Hr as [_ [=]]].
    destruct Hr as (r & t3 & -> & Hr). destruct r as [p1|e1]; simpl in Hr; [by destruct Hr as [_ [=]]|].
    destruct (IsAlreadyExists e1); simpl in Hr; [|by destruct Hr as [_ [=]]].
    destruct Hr as (r & t4 & -> & Hr). destruct r as [p|e2]; simpl in Hr; [|by destruct Hr as [_ [=]]].
    destruct Hr as [-> [= -> Hp]]. pose proof (pod_state_done p) as Hd. rewrite <- Hp in Hd.
    exists p. eexists (_ :: t1 ++ [_]). rewrite <- app_comm_cons, <- app_assoc.
    destruct pod, err; naive_solver.
Qed.

End JobRuns.

(** ** Rules for the program logic *)

(** The object was looked up and not found. *)
Definition missing (k : kind) (n : NamespacedName) (h : list event) : Prop :=
  exists e, Ev (Get k n) (Err e) ∈ h /\ IsNotFound e = true.

(** The Pod was looked up and answered. *)
Definition seen_pod (n : NamespacedName) (pod : Pod) (h : list event) : Prop := Ev (Get KPod n) (Ok pod) ∈ h.

(** The Pod is gone: it was not found, also if only when it was to be deleted. *)
Definition pod_gone (n : NamespacedName) (h : list event) : Prop :=
  missing KPod n h \/
  exists pod e, seen_pod n pod h /\ Ev (Delete KPod pod) (Some e) ∈ h /\ IsNotFound e = true.

Lemma missing_mono k n h h' : h ⊆ h' -> missing k n h -> missing k n h'.
Proof. intros Hs (e & He & Hn). exists e. by split; [apply Hs|]. Qed.

Lemma pod_gone_mono n h h' : h ⊆ h' -> pod_gone n h -> pod_gone n h'.
Proof.
  intros Hs [Hm|(pod & e & H1 & H2 & H3)]; [left; by eapply missing_mono|right].
  exists pod, e. split_and!; [by apply Hs..|done].
Qed.

(** The calls of a job itself. *)
Definition job_guard (name : NamespacedName) (run : bool) (h : list event) (c : cmd) : Prop :=
  match c with
  | Get KPod n => n = name
  | RecordEvent _ _ _ _ => run = true
  | Create KPod pod =>
      run = true /\ missing KPod name h /\ om_key (pod_Meta pod) = name /\
      ps_RestartPolicy (pod_Spec pod) = RestartPolicyNever
  | Delete KPod pod => seen_pod name pod h
  | _ => False
  end.

Lemma DeletePod_wp name run h :
  wp (DeletePod name) (job_guard name run)
    (fun h' o => exists done err, o = Returned (done, err) /\ (done = true -> err = None /\ pod_gone name h')) h.
Proof.
  unfold DeletePod, DeleteResource. repeat wp_go; simpl; try done;
    try (do 2 eexists; split; [done|]; first [done|intros _; split; [done|]]).
  - unfold seen_pod. in_history.
  - right. do 2 eexists. unfold seen_pod. split_and!; [in_history|in_history|done].
  - left. eexists. split; [in_history|done].
Qed.

Section JobRule.
Context {X : Type} (r : JobReconciler) (req : JobRequest X) (G : list event -> cmd -> Prop) (h : list event)
  (I : X -> Prop) (C : bool * option goerr -> Prop).
Let name := jq_PodName req.

(** The callbacks return, their calls satisfy [G]; creating the Pod keeps the
    variables in [I], and the results of the completion are in [C]. *)
Hypothesis name_ok : upper_first (jq_Name req) <> None.
Hypothesis create_ok : jq_ShouldRun req = true ->
  forall x h', I x -> h ⊆ h' -> missing KPod name h' ->
  wp (jq_Create req x) G (fun _ o => exists x' res, o = Returned (x', res) /\ I x') h'.
Hypothesis completed_ok : jq_ShouldRun req = true ->
  forall x pod h', I x -> h ⊆ h' -> seen_pod name pod h' -> pod_Phase pod = PodSucceeded ->
  wp (jq_OnCompleted req x pod) G (fun _ o => exists x' res, o = Returned (x', res) /\ C res) h'.

Let G' (h' : list event) (c : cmd) : Prop := job_guard name (jq_ShouldRun req) h' c \/ G h' c.

Lemma job_ReconcilePod_wp x h0 : I x -> h ⊆ h0 -> jq_ShouldRun req = true ->
  wp (ReconcilePod name (fun x => let! (x, res) := jq_Create req x in
        match res with
        | Err err => Ret (x, Err err)
        | Ok pod => Ret (x, Ok (job_pod r (jq_Owner req) pod))
        end) x) G'
    (fun h' o => exists x' done pod err, o = Returned (x', (done, pod, err)) /\ I x' /\
       (done = true -> err = None -> exists p, pod = Some p /\ seen_pod name p h' /\
          pod_Phase p = PodSucceeded)) h0.
Proof.
  intros HI Hh0 Hrun. unfold ReconcilePod.
  assert (Hstate : forall p h1 (x1 : X), I x1 -> seen_pod name p h1 -> exists x' done pod err,
    Returned (x1, pod_state p) = Returned (x', (done, pod, err)) /\ I x' /\
    (done = true -> err = None -> exists p, pod = Some p /\ seen_pod name p h1 /\
      pod_Phase p = PodSucceeded)).
  { intros p h1 x1 HI1 Hs. pose proof (pod_state_done p) as Hp.
    destruct (pod_state p) as [[done pod] err]. do 4 eexists. split; [done|]. split; [done|]. intros -> ->.
    destruct pod; [|done]. destruct Hp as [-> Hp]. eauto. }
  rewrite wp_bind. unfold call. cbn [wp]. split; [by left|]. intros [p|e].
  { apply Hstate; [done|]. apply list_elem_of_here. }
  cbn [wp]. destruct (IsNotFound e) eqn:En; cbn [negb wp]; [|do 4 eexists; by split].
  assert (Hmiss : missing KPod name (Ev (Get KPod name) (Err e) :: h0)).
  { exists e. split; [apply list_elem_of_here|done]. }
  rewrite !wp_bind. eapply wp_frame; [apply create_ok; [done|done| |exact Hmiss]|by right|].
  { etrans; [exact Hh0|]. intros ev Hev. by apply list_elem_of_further. }
  intros h1 o Hh1 (x1 & [pod|err] & -> & HI1); cbn [wp]; [|do 4 eexists; by split].
  unfold call. rewrite wp_bind. cbn [wp]. split.
  { left. simpl. split_and!; [done|by eapply missing_mono| |done]. by destruct name. }
  intros [p|e1]; cbn [wp]; [do 4 eexists; by split|].
  destruct (IsAlreadyExists e1); cbn [negb wp]; [|do 4 eexists; by split].
  split; [by left|]. intros [p|e2]; cbn [wp]; [|do 4 eexists; by split].
  apply Hstate; [done|]. apply list_elem_of_here.
Qed.

Lemma ReconcileJob_wp x : I x ->
  wp (ReconcileJob r req x) G'
    (fun h' o => exists x' done err, o = Returned (x', (done, err)) /\
       (done = true -> err = None -> pod_gone name h' /\
          if jq_ShouldRun req then C (true, None) else x' = x)) h.
Proof.
  intros HI. assert ({jq_ShouldRun req = true} + {jq_ShouldRun req = false}) as [Hrun|Hrun]
    by (destruct (jq_ShouldRun req); auto); unfold ReconcileJob; rewrite Hrun; cbn [negb].
  - rewrite wp_bind. eapply wp_frame; [apply job_ReconcilePod_wp; [done|done|exact Hrun]|done|].
    intros h1 o Hh1 (x1 & done & pod & err & -> & HI1 & Hdone). cbn [wp].
    destruct (upper_first (jq_Name req)) as [up|]; [|done].
    destruct err as [e|]; cbn [wrap_err fmap option_fmap option_map].
    { destruct done; rewrite ?wp_bind; cbn [wp call]; [|do 3 eexists; by split].
      split; [by left|]. intros ?. do 3 eexists. split; [done|done]. }
    destruct done; cbn [wp]; [|do 3 eexists; by split].
    destruct (Hdone eq_refl eq_refl) as (p & -> & Hseen & Hph).
    rewrite wp_bind. unfold call. cbn [wp]. split; [by left|]. intros u.
    rewrite wp_bind. eapply wp_frame; [eapply completed_ok; [done|done| |by apply list_elem_of_further|done]|by right|].
    { etrans; [exact Hh1|]. intros ev Hev. by apply list_elem_of_further. }
    intros h2 o Hh2 (x2 & [done err] & -> & HC). cbn [wp].
    destruct err as [e|]; cbn [wp]; [do 3 eexists; by split|].
    destruct done; cbn [wp]; [|do 3 eexists; by split].
    unfold DeleteResource, call. rewrite !wp_bind. cbn [wp].
    assert (seen_pod name p h2) by (apply Hh2; by apply list_elem_of_further).
    split; [by left|]. intros [e|]; cbn [wp]; [|do 3 eexists; by split].
    destruct (IsNotFound e) eqn:En; cbn [wp]; do 3 eexists; (split; [done|]); [|done].
    intros _ _. split; [|done]. right. exists p, e.
    split_and!; [by apply list_elem_of_further|apply list_elem_of_here|done].
  - rewrite wp_bind. eapply wp_frame; [apply DeletePod_wp|by left|].
    intros h1 o _ (done & err & -> & Hd). cbn [wp]. do 3 eexists. split; [done|].
    intros -> _. split; [|done]. by apply Hd.
Qed.
End JobRule.

(** ** A concrete job *)

Module JobExample.

Definition pod : Pod := Pod_zero <| pod_Phase := PodSucceeded |>.
Definition request : JobRequest unit :=
  mkJobRequest "provisioner" (mkNamespacedName "pod1" "system") (mkNamespacedName "claim1" "default") true
    (fun x => Ret (x, Ok pod)) (fun x _ => Ret (x, (true, None))).
Definition jobs : JobReconciler := mkJobReconciler "name" "namespace".

(** The Pod exists and has succeeded, but is gone when it is to be deleted. *)
Definition handle (c : kcmd) : unit -> kresp c * unit :=
  match c as c0 return unit -> kresp c0 * unit with
  | Get KPod _ => fun s => (Ok pod, s)
  | Delete _ _ => fun s => (Some (ApiErr ReasonNotFound "not found"), s)
  | c => fun s => (kresp_default c, s)
  end.

Definition run := exec (S := KubeSig) handle (ReconcileJob jobs request tt) tt.


End JobExample.
