(* ===== verification/Codec.v ===== *)
(** * Provisioners as JSON ([internal/utils/provisioner.go])

    The provisioner that a Pod was created with travels as JSON in an
    annotation of the Pod and of the volume.  The encoding of the Kubernetes
    types is not part of this repository: it is the interface [ProvisionerCodec]
    with the round trip that [encoding/json] documents.  Fields that are tagged
    [omitempty] are dropped when they are empty, so an empty slice or map comes
    back as nil. *)

From stdpp Require Import pretty.
From S2P Require Import Prelude Effects Api PodTemplate.

(** An empty slice and an empty map become nil. *)
Definition omit_empty_list {A} (l : option (list A)) : option (list A) :=
  match l with Some [] => None | _ => l end.
Definition omit_empty_map (m : strmap) : strmap :=
  match m with Some g => if bool_decide (g = ∅) then None else m | None => None end.

Definition norm_container (c : Container) : Container := c <| ct_Command := omit_empty_list (ct_Command c) |>.
Definition norm_provisioner_container (c : ProvisionerContainer) : ProvisionerContainer :=
  mkProvisionerContainer (omit_empty_list (pc_Command c)) (pc_Env c).

Definition norm_spec (s : StorageProvisionerSpec) : StorageProvisionerSpec :=
  s <| sps_PersistentVolumeTemplate :=
         (sps_PersistentVolumeTemplate s) <| pvs_Capacity :=
            omit_empty_map (pvs_Capacity (sps_PersistentVolumeTemplate s)) |> |>
    <| sps_PodTemplate :=
         (sps_PodTemplate s) <| ps_Containers := norm_container <$> ps_Containers (sps_PodTemplate s) |> |>
    <| sps_Containers :=
         mkContainers (norm_provisioner_container (cs_Provisioner (sps_Containers s)))
                      (norm_provisioner_container (cs_Deprovisioner (sps_Containers s))) |>.

(** The part of a provisioner that is encoded. *)
Definition encoded_part (p : StorageProvisioner) : StorageProvisioner :=
  mkStorageProvisioner
    (ObjectMeta_zero <| om_Name := om_Name (sp_Meta p) |> <| om_Namespace := om_Namespace (sp_Meta p) |>
       <| om_UID := om_UID (sp_Meta p) |> <| om_Generation := om_Generation (sp_Meta p) |>)
    (sp_Spec p) [].

(** [json.Marshal] and [json.Unmarshal] of a [StorageProvisioner], and of the
    [ObjectReference] of a claim. *)
Class ProvisionerCodec := {
  Marshal : StorageProvisioner -> result string;
  Unmarshal : string -> result StorageProvisioner;
  MarshalRef : ObjectReference -> result string;
  UnmarshalRef : string -> result ObjectReference;
  (** Values whose strings are valid UTF-8; JSON cannot represent others. *)
  encodable : StorageProvisioner -> Prop;
  Unmarshal_Marshal : forall p s, encodable p -> sp_Conditions p = [] -> Marshal p = Ok s ->
    Unmarshal s = Ok (p <| sp_Spec := norm_spec (sp_Spec p) |>)
}.

Section Codec.
Context {PC : ProvisionerCodec}.

Definition StorageProvisionerFromJSON (data : string) : result StorageProvisioner :=
  match Unmarshal data with
  | Ok p => Ok p
  | Err err => Err (Wrap "unmarshal provisioner spec" err)
  end.

(** The string is empty if there is an error. *)
Definition StorageProvisionerToJSON (provisioner : StorageProvisioner) : string * option goerr :=
  match Marshal (encoded_part provisioner) with
  | Ok s => (s, None)
  | Err err => ("", Some (Wrap "marshal provisioner spec" err))
  end.

Lemma norm_spec_idemp s : norm_spec (norm_spec s) = norm_spec s.
Proof.
  assert (Hc : forall l : list Container, norm_container <$> (norm_container <$> l) = norm_container <$> l).
  { intros l. rewrite <- list_fmap_compose. apply list_fmap_ext. intros i c _.
    destruct c as [? ? [[|]|] ? ? ?]; done. }
  destruct s as [a b pv tpl cs e n]. destruct pv as [cap ? ? ? ? ? ?]. destruct tpl as [? ? ? l ?].
  unfold norm_spec, set_field. simpl. rewrite Hc. f_equal.
  - f_equal. destruct cap as [g|]; simpl; [|done]. case_bool_decide; [done|].
    simpl. by rewrite bool_decide_eq_false_2.
  - destruct cs as [[[[|]|] ?] [[[|]|] ?]]; done.
Qed.


End Codec.

(** ** A concrete codec

    It knows a table of provisioners and represents one by its position. *)

Module TableCodec.

Fixpoint position {A} `{!EqDecision A} (t : list A) (p : A) : option nat :=
  match t with
  | [] => None
  | q :: t => if q ==? p then Some 0 else S <$> position t p
  end.

Lemma position_lookup {A} `{!EqDecision A} (t : list A) p i : position t p = Some i -> t !! i = Some p.
Proof.
  revert i. induction t as [|q t IH]; intros i; simpl; [done|].
  case_bool_decide; [intros [= <-]; by subst|].
  destruct (position t p); simpl; [|done]. intros [= <-]. by apply IH.
Qed.

(** The number that a text represents, up to [n]. *)
Fixpoint unpretty (n : nat) (s : string) : option nat :=
  match n with
  | 0 => None
  | S n => if s ==? pretty n then Some n else unpretty n s
  end.

Lemma unpretty_pretty n i : i < n -> unpretty n (pretty i) = Some i.
Proof.
  intros H. induction n as [|n IH]; [lia|]. simpl. case_bool_decide as Hp.
  - apply (inj pretty) in Hp. by subst.
  - apply IH. assert (i <> n) by congruence. lia.
Qed.

Definition table_entry (t : list StorageProvisioner) (s : string) : option StorageProvisioner :=
  i ← unpretty (length t) s; t !! i.

Definition no_ref : goerr := Errorf "not supported".

Program Definition table_codec (t : list StorageProvisioner) : ProvisionerCodec := {|
  Marshal p := match position t p with Some i => Ok (pretty i) | None => Err (Errorf "unknown") end;
  Unmarshal s :=
    match table_entry t s with
    | Some p => Ok (p <| sp_Spec := norm_spec (sp_Spec p) |>)
    | None => Err (Errorf "unexpected end of JSON input")
    end;
  MarshalRef _ := Err no_ref;
  UnmarshalRef _ := Err no_ref;
  encodable _ := True
|}.
Next Obligation.
  intros t p s _ _. simpl. destruct (position t p) as [i|] eqn:E; [|done]. intros [= <-].
  apply position_lookup in E. unfold table_entry. rewrite unpretty_pretty by (by eapply lookup_lt_Some).
  simpl. by rewrite E.
Qed.


End TableCodec.
