(* ===== verification/Cluster.v ===== *)
(** * A cluster in memory

    A small environment for concrete runs of the controllers: it stores the
    objects by name, answers the lookups of the shared registry from a map and
    applies every write that names an existing object.  A status update writes
    the metadata too, as the API server does for volumes and claims. *)

From S2P Require Import Prelude Effects Api ApiServer.

Record cluster := mkCluster {
  cl_pods : gmap NamespacedName Pod;
  cl_claims : gmap NamespacedName PersistentVolumeClaim;
  cl_volumes : gmap NamespacedName PersistentVolume;
  cl_classes : gmap NamespacedName StorageClass;
  cl_caches : gmap NamespacedName Cache;
  cl_provisioners : gmap NamespacedName StorageProvisioner;
  cl_registry : gmap string StorageProvisioner
}.
#[global] Instance cluster_settable : Settable cluster := fun r =>
  mkCluster (cl_pods r) (cl_claims r) (cl_volumes r) (cl_classes r) (cl_caches r)
    (cl_provisioners r) (cl_registry r).

Definition cluster_empty : cluster := mkCluster ∅ ∅ ∅ ∅ ∅ ∅ ∅.

Definition objects (k : kind) : cluster -> gmap NamespacedName (obj k) :=
  match k with
  | KPod => cl_pods
  | KPersistentVolumeClaim => cl_claims
  | KPersistentVolume => cl_volumes
  | KStorageClass => cl_classes
  | KCache => cl_caches
  | KStorageProvisioner => cl_provisioners
  end.

Definition with_objects (k : kind) : gmap NamespacedName (obj k) -> cluster -> cluster :=
  match k as k return gmap NamespacedName (obj k) -> cluster -> cluster with
  | KPod => fun m s => s <| cl_pods := m |>
  | KPersistentVolumeClaim => fun m s => s <| cl_claims := m |>
  | KPersistentVolume => fun m s => s <| cl_volumes := m |>
  | KStorageClass => fun m s => s <| cl_classes := m |>
  | KCache => fun m s => s <| cl_caches := m |>
  | KStorageProvisioner => fun m s => s <| cl_provisioners := m |>
  end.

Definition cluster_write {k : kind} (o : obj k) (s : cluster) : result (obj k) * cluster :=
  let n := om_key (obj_meta o) in
  match objects k s !! n with
  | Some _ => (Ok o, with_objects k (<[n := o]> (objects k s)) s)
  | None => (Err not_found, s)
  end.

Definition cluster_handle (c : kcmd) : cluster -> kresp c * cluster :=
  match c as c0 return cluster -> kresp c0 * cluster with
  | Get k n => fun s =>
      (match objects k s !! n with Some o => Ok o | None => Err not_found end, s)
  | Create k o => fun s =>
      let n := om_key (obj_meta o) in
      match objects k s !! n with
      | Some _ => (Err already_exists, s)
      | None => (Ok o, with_objects k (<[n := o]> (objects k s)) s)
      end
  | Update k o => cluster_write o
  | StatusUpdate k o => cluster_write o
  | Delete k o => fun s =>
      let n := om_key (obj_meta o) in
      match objects k s !! n with
      | Some _ => (None, with_objects k (delete n (objects k s)) s)
      | None => (Some not_found, s)
      end
  | ProvisionersGet name => fun s => (cl_registry s !! name, s)
  | c => fun s => (kresp_default c, s)
  end.

Definition run_cluster {A} (p : prog A) (s : cluster) : list event * outcome A * cluster :=
  exec (S := KubeSig) cluster_handle p s.

Lemma run_cluster_runs {A} (p : prog A) s o :
  (run_cluster p s).1.2 = o -> runs p (run_cluster p s).1.1 o.
Proof. intros <-. apply exec_runs_proj. Qed.

(** The run, split at its [n]-th call. *)
Lemma run_cluster_at {A} (p : prog A) s n e :
  (run_cluster p s).1.1 !! n = Some e ->
  runs p (take n (run_cluster p s).1.1 ++ e :: drop (S n) (run_cluster p s).1.1) (run_cluster p s).1.2.
Proof. intros H. rewrite take_drop_middle by done. by apply run_cluster_runs. Qed.

(** ** The result of a run *)

Definition final {A} (p : prog A) (s : cluster) : outcome A * cluster :=
  ((run_cluster p s).1.2, (run_cluster p s).2).

Lemma final_Call {A} (c : kcmd) (k : kresp c -> prog A) s :
  final (Call (S := KubeSig) c k) s =
    final (k (cluster_handle c s).1) (cluster_handle c s).2.
Proof.
  unfold final, run_cluster. cbn [exec]. destruct (cluster_handle c s) as [x s1]. simpl.
  by destruct (exec _ (k x) s1) as [[tr o] s2].
Qed.

Lemma final_bind {A B} (p : prog A) (f : A -> prog B) s :
  final (bind p f) s =
    match final p s with
    | (Returned a, s1) => final (f a) s1
    | (Panicked m, s1) => (Panicked m, s1)
    end.
Proof.
  revert s. induction p as [a|m|c k IH]; intros s; [done..|]. cbn [bind]. rewrite !final_Call. apply IH.
Qed.

Lemma final_bind_call {B} (c : kcmd) (f : kresp c -> prog B) s :
  final (bind (call (S := KubeSig) c) f) s = final (f (cluster_handle c s).1) (cluster_handle c s).2.
Proof. apply final_Call. Qed.

Lemma final_bind_Ret {A B} (a : A) (f : A -> prog B) s : final (bind (Ret a) f) s = final (f a) s.
Proof. done. Qed.

Lemma final_bind_assoc {A B C} (p : prog A) (f : A -> prog B) (g : B -> prog C) s :
  final (bind (bind p f) g) s = final (bind p (fun a => bind (f a) g)) s.
Proof. rewrite !final_bind. destruct (final p s) as [[a|m] s1]; [|done]. by rewrite final_bind. Qed.

(** Symbolic execution against the cluster. *)
Ltac final_step :=
  lazymatch goal with
  | |- final (bind (call _) _) _ = _ => etransitivity; [apply final_bind_call|]
  | |- final (call _) _ = _ => etransitivity; [apply final_Call|]
  | |- final (bind (Ret _) _) _ = _ => rewrite final_bind_Ret
  | |- final (bind (bind _ _) _) _ = _ => rewrite final_bind_assoc
  end; cbn [cluster_handle objects obj obj_meta fst snd].
