(* ===== verification/PvcController.v ===== *)
(** * The PersistentVolumeClaim controller ([internal/controllers/persistentvolumeclaim_controller.go])

    One run of [Reconcile] for a claim.  The result is the error; the
    [ctrl.Result] is always empty.  Log messages are left out. *)

From S2P Require Import Prelude Effects Api GoPath Template Utils PodTemplate Registry Job Codec Cluster.

Definition annPVCName := "k8storagex.mgoltzsche.github.com/pvc-name".
Definition annPVCNamespace := "k8storagex.mgoltzsche.github.com/pvc-namespace".
Definition annStorageProvisioner := "volume.beta.kubernetes.io/storage-provisioner".
Definition annStorageProvisionerSpec := "k8storagex.mgoltzsche.github.com/provisioner-spec".
Definition annProvisionedBy := "pv.kubernetes.io/provisioned-by".
Definition annSelectedNode := "volume.kubernetes.io/selected-node".
Definition finalizer := "k8storagex.mgoltzsche.github.com/finalizer".
Definition finalizerPVCProtection := "kubernetes.io/pvc-protection".
Definition KeyNode := "kubernetes.io/hostname".
Definition BetaStorageClassAnnotation := "volume.beta.kubernetes.io/storage-class".

(** [resolveProvisioner] *)
Definition resolveProvisioner (annotations : strmap) : prog (option StorageProvisioner) :=
  match annotations with
  | None => Ret None
  | a => call (ProvisionersGet (map_index a annStorageProvisioner))
  end.

Definition pvNameForPVC (claim : PersistentVolumeClaim) : string := "pvc-" +++ om_UID (pvc_Meta claim).

(** [persistentVolumeClaimClass] *)
Definition persistentVolumeClaimClass (claim : PersistentVolumeClaim) : string :=
  match om_Annotations (pvc_Meta claim) ≫= (.!! BetaStorageClassAnnotation) with
  | Some class => class
  | None => default "" (pvc_StorageClassName claim)
  end.

Definition pvc_owner (claim : PersistentVolumeClaim) : NamespacedName := om_key (pvc_Meta claim).

Definition pvc_event (claim : PersistentVolumeClaim) (typ reason message : string) : prog unit :=
  call (RecordEvent (pvc_owner claim) typ reason message).

(** [shouldProvision] *)
Definition shouldProvision (claim : PersistentVolumeClaim) (provisioner : StorageProvisioner)
  : prog (bool * option goerr) :=
  if (pvc_VolumeName claim !=? "") || (pvc_StorageClassName claim ==? None) then Ret (false, None)
  else
    let claimClass := persistentVolumeClaimClass claim in
    let! r := call (Get KStorageClass (mkNamespacedName claimClass "")) in
    match r with
    | Err err =>
        if IsNotFound err then
          do! pvc_event claim EventTypeWarning "StorageClassNotFound" (Error err) in
          Ret (false, None)
        else Ret (false, Some err)
    | Ok class =>
        match pvs_VolumeMode (sps_PersistentVolumeTemplate (sp_Spec provisioner)) with
        | None => Panic "invalid memory address or nil pointer dereference"
        | Some pvMode =>
            if (pvc_VolumeMode claim ==? None) || (Some pvMode !=? pvc_VolumeMode claim) then
              let mode := match pvc_VolumeMode claim with None => "nil" | Some m => quoted m end in
              do! pvc_event claim EventTypeWarning "InvalidVolumeMode"
                    ("Invalid volume mode " +++ mode +++ ", expected " +++ pvMode) in
              Ret (false, None)
            else if sc_VolumeBindingMode class ==? Some VolumeBindingWaitForFirstConsumer then
              Ret (map_index (om_Annotations (pvc_Meta claim)) annSelectedNode !=? "", None)
            else Ret (true, None)
        end
    end.

Section Controller.
Context `{!Converter StorageProvisioner, !EnvSubst, !ProvisionerCodec} (ManagerNamespace : string).

Definition pvc_jobs : JobReconciler := mkJobReconciler annPVCName annPVCNamespace.

(** [persistentVolumeForClaim] *)
Definition persistentVolumeForClaim (claim : PersistentVolumeClaim) (provisioner : StorageProvisioner)
    (provisionerJSON : string) : PersistentVolume :=
  let spec := sps_PersistentVolumeTemplate (sp_Spec provisioner) in
  let spec := match pvs_Capacity spec with
              | None => spec <| pvs_Capacity := pvc_Requests claim |>
              | Some _ => spec
              end in
  let spec := match pvc_StorageClassName claim with
              | Some c => spec <| pvs_StorageClassName := c |>
              | None => spec
              end in
  let m := pvc_Meta claim in
  mkPersistentVolume
    (ObjectMeta_zero <| om_Name := pvNameForPVC claim |>
       <| om_Annotations := Some (<[annStorageProvisioner := sps_Name (sp_Spec provisioner)]>
            (<[annStorageProvisionerSpec := provisionerJSON]>
            (<[annProvisionedBy := "k8storagex"]> ∅))) |>
       <| om_Finalizers := [finalizer] |>)
    (spec <| pvs_ClaimRef := Some (mkObjectReference "v1" "PersistentVolumeClaim" (om_Name m)
                                     (om_Namespace m) (om_UID m) (om_ResourceVersion m)) |>)
    "".

(** The [Create] callback of [provision]; [x] is the variable
    [provisionerSpec], which it updates. *)
Definition provision_create (claim : PersistentVolumeClaim) (env : list EnvVar) (nodeName : string)
    (podName : NamespacedName) (x : StorageProvisioner) : prog (StorageProvisioner * result Pod) :=
  match StorageRootPathForNode nodeName (sps_Nodes (sp_Spec x)) with
  | Err err => Ret (x, Err (Wrap "invalid storageprovisioner" err))
  | Ok nodePath =>
      let '(x, err) := SubstituteProvisionerPlaceholders x
        (mkProvisionerParams nodeName nodePath (pvNameForPVC claim) (pvc_owner claim)) in
      match err with
      | Some err => Ret (x, Err err)
      | None =>
          let '(x, r) := NewProvisionerPod
            (mkPodSource podName provisioner x (cs_Provisioner (sps_Containers (sp_Spec x))) env) in
          match r with
          | Err err => Ret (x, Err err)
          | Ok pod =>
              let a := CopyAnnotations (om_Annotations (pvc_Meta claim))
                         (om_Annotations (pod_Meta pod)) (sps_Env (sp_Spec x)) in
              let json := (StorageProvisionerToJSON x).1 in
              let a := Some (<[annStorageProvisionerSpec := json]> (default ∅ a)) in
              do! pvc_event claim EventTypeNormal "Provisioning" "Provisioning PersistentVolume" in
              Ret (x, Ok (pod <| pod_Meta := (pod_Meta pod) <| om_Annotations := a |> |>))
          end
      end
  end.

(** The volume that is created for a completed Pod. *)
Definition provisioned_volume (claim : PersistentVolumeClaim) (pod : Pod) (x : StorageProvisioner)
  : PersistentVolume :=
  let provisionerJSON := map_index (om_Annotations (pod_Meta pod)) annStorageProvisionerSpec in
  let pv := persistentVolumeForClaim claim x provisionerJSON in
  pv <| vol_Meta := (vol_Meta pv) <| om_Annotations :=
    CopyAnnotations (om_Annotations (pod_Meta pod)) (om_Annotations (vol_Meta pv))
      (sps_Env (sp_Spec x)) |> |>.

(** The [OnCompleted] callback of [provision]. *)
Definition provision_completed (claim : PersistentVolumeClaim) (x : StorageProvisioner) (pod : Pod)
  : prog (StorageProvisioner * (bool * option goerr)) :=
  let provisionerJSON := map_index (om_Annotations (pod_Meta pod)) annStorageProvisionerSpec in
  match StorageProvisionerFromJSON provisionerJSON with
  | Err err =>
      Ret (x, (true, Some (Wrap ("invalid/missing provisioner pod annotation "
                                 +++ annStorageProvisionerSpec) err)))
  | Ok x =>
      let! r := call (Create KPersistentVolume (provisioned_volume claim pod x)) in
      match r with
      | Err err => Ret (x, (false, Some err))
      | Ok _ =>
          do! pvc_event claim EventTypeNormal "Provisioned"
                ("Provisioned PersistentVolume " +++ pvNameForPVC claim) in
          Ret (x, (true, None))
      end
  end.

Definition provision (claim : PersistentVolumeClaim) (provisionerSpec : StorageProvisioner)
  : prog (bool * option goerr) :=
  let pvName := mkNamespacedName (pvNameForPVC claim) "" in
  let! r := call (Get KPersistentVolume pvName) in
  let err := err_of r in
  let pvExists := err ==? None in
  if match err with Some e => negb (IsNotFound e) | None => false end then Ret (false, err)
  else
    let '(env, errAnn) := AnnotationsToEnv (om_Annotations (pvc_Meta claim)) (sps_Env (sp_Spec provisionerSpec)) in
    do! match errAnn, err with
        | None, _ => Ret tt
        | Some _, Some e => pvc_event claim EventTypeWarning "AnnotationMissing" (Error e)
        | Some _, None => Panic "invalid memory address or nil pointer dereference"
        end in
    let nodeName := map_index (om_Annotations (pvc_Meta claim)) annSelectedNode in
    let! podName := of_outcome (ResourceName (pvNameForPVC claim) provisioner) in
    let podName := mkNamespacedName podName ManagerNamespace in
    let! (_, (done, err)) := ReconcileJob pvc_jobs
      (mkJobRequest provisioner podName (pvc_owner claim)
         (negb pvExists && (nodeName !=? "") && (errAnn ==? None))
         (provision_create claim env nodeName podName)
         (provision_completed claim)) provisionerSpec in
    match err, done with
    | Some e, true =>
        do! pvc_event claim EventTypeWarning "ProvisionerFailed"
              ("Failed to provision PersistentVolume " +++ pvNameForPVC claim +++ ": " +++ Error e) in
        Ret (done, err)
    | _, _ => Ret (done, err)
    end.

(** [PersistentVolumeClaimReconciler.deprovision] *)
Definition pvc_deprovision (claim : PersistentVolumeClaim) : prog (bool * option goerr) :=
  let! r := call (Get KPersistentVolume (mkNamespacedName (pvNameForPVC claim) "")) in
  match r with
  | Err err => if IsNotFound err then Ret (true, None) else Ret (false, Some err)
  | Ok pv =>
      if pvs_ReclaimPolicy (vol_Spec pv) !=? PersistentVolumeReclaimDelete then Ret (true, None)
      else
        let! err := call (Delete KPersistentVolume pv) in
        match err with
        | Some e => if IsNotFound e then Ret (true, None) else Ret (false, Some e)
        | None => Ret (true, None)
        end
  end.

(** The branch of [Reconcile] for a claim that is being deleted. *)
Definition pvc_finalize (claim : PersistentVolumeClaim) : prog (option goerr) :=
  let m := pvc_Meta claim in
  let without f := claim <| pvc_Meta := m <| om_Finalizers := (RemoveString (om_Finalizers m) f).1 |> |> in
  if HasString (om_Finalizers m) finalizerPVCProtection then
    if map_index (om_Annotations m) AnnotationPersistentVolumeClaimNoProtection ==? Enabled then
      let! r := call (StatusUpdate KPersistentVolumeClaim (without finalizerPVCProtection)) in
      Ret (err_of r)
    else Ret None
  else if HasString (om_Finalizers m) finalizer then
    if negb (length (om_Finalizers m) =? 1) then Ret None
    else
      let! podName := of_outcome (ResourceName (pvNameForPVC claim) provisioner) in
      let! (done, err) := DeletePod (mkNamespacedName podName ManagerNamespace) in
      match err, done with
      | None, true =>
          let! (done, err) := pvc_deprovision claim in
          match err, done with
          | None, true =>
              let! r := call (StatusUpdate KPersistentVolumeClaim (without finalizer)) in
              Ret (err_of r)
          | _, _ => Ret err
          end
      | _, _ => Ret err
      end
  else Ret None.

Definition pvc_Reconcile (req : NamespacedName) : prog (option goerr) :=
  let! r := call (Get KPersistentVolumeClaim req) in
  match r with
  | Err err => if IsNotFound err then Ret None else Ret (Some err)
  | Ok claim =>
      match om_DeletionTimestamp (pvc_Meta claim) with
      | Some _ => pvc_finalize claim
      | None =>
          let! p := resolveProvisioner (om_Annotations (pvc_Meta claim)) in
          match p with
          | None => Ret None
          | Some provisionerSpec =>
              let! (should, err) := shouldProvision claim provisionerSpec in
              match err, should with
              | None, true =>
                  let '(finalizers, added) := AddString (om_Finalizers (pvc_Meta claim)) finalizer in
                  if added then
                    let! r := call (StatusUpdate KPersistentVolumeClaim
                      (claim <| pvc_Meta := (pvc_Meta claim) <| om_Finalizers := finalizers |> |>)) in
                    Ret (err_of r)
                  else
                    let! (_, err) := provision claim provisionerSpec in
                    Ret err
              | _, _ => Ret err
              end
          end
      end
  end.


(** ** What the controller does to the cluster *)

(** The claim that this run has read. *)
Definition read_claim (req : NamespacedName) (claim : PersistentVolumeClaim) (h : list event) : Prop :=
  Ev (Get KPersistentVolumeClaim req) (Ok claim) ∈ h.

(** The name of the provisioner Pod of a claim. *)
Definition is_pod_key (claim : PersistentVolumeClaim) (k : NamespacedName) : Prop :=
  exists n, ResourceName (pvNameForPVC claim) provisioner = Returned n /\
    k = mkNamespacedName n ManagerNamespace.

Definition pv_key (claim : PersistentVolumeClaim) : NamespacedName := mkNamespacedName (pvNameForPVC claim) "".

(** The claim is to be provisioned: it is not being deleted, has no volume and
    carries the finalizer of the controller. *)
Definition provisioning (claim : PersistentVolumeClaim) : Prop :=
  om_DeletionTimestamp (pvc_Meta claim) = None /\ pvc_VolumeName claim = "" /\
  HasString (om_Finalizers (pvc_Meta claim)) finalizer = true.

(** The volume of the claim does not exist, is not to be deleted or was asked to
    be deleted. *)
Definition volume_released (claim : PersistentVolumeClaim) (h : list event) : Prop :=
  missing KPersistentVolume (pv_key claim) h \/
  exists pv, Ev (Get KPersistentVolume (pv_key claim)) (Ok pv) ∈ h /\
    (pvs_ReclaimPolicy (vol_Spec pv) <> PersistentVolumeReclaimDelete \/
     exists r, Ev (Delete KPersistentVolume pv) r ∈ h /\ (forall e, r = Some e -> IsNotFound e = true)).

(** Each write is justified by what the run has read before. *)
Definition pvc_guard (req : NamespacedName) (h : list event) (c : cmd) : Prop :=
  match c with
  | Create KPod pod =>
      exists claim k p, read_claim req claim h /\ provisioning claim /\ is_pod_key claim k /\
        missing KPersistentVolume (pv_key claim) h /\ missing KPod k h /\
        Ev (ProvisionersGet (map_index (om_Annotations (pvc_Meta claim)) annStorageProvisioner)) (Some p) ∈ h /\
        map_index (om_Annotations (pvc_Meta claim)) annSelectedNode <> "" /\
        (AnnotationsToEnv (om_Annotations (pvc_Meta claim)) (sps_Env (sp_Spec p))).2 = None /\
        om_key (pod_Meta pod) = k /\ ps_RestartPolicy (pod_Spec pod) = RestartPolicyNever
  | Create KPersistentVolume pv =>
      exists claim k pod x, read_claim req claim h /\ provisioning claim /\ is_pod_key claim k /\
        missing KPersistentVolume (pv_key claim) h /\
        seen_pod k pod h /\ pod_Phase pod = PodSucceeded /\
        StorageProvisionerFromJSON (map_index (om_Annotations (pod_Meta pod)) annStorageProvisionerSpec) = Ok x /\
        pv = provisioned_volume claim pod x
  | StatusUpdate KPersistentVolumeClaim o =>
      exists claim, read_claim req claim h /\
        o = claim <| pvc_Meta := (pvc_Meta claim) <| om_Finalizers := om_Finalizers (pvc_Meta o) |> |> /\
        ((om_DeletionTimestamp (pvc_Meta claim) = None /\
          om_Finalizers (pvc_Meta o) = om_Finalizers (pvc_Meta claim) ++ [finalizer]) \/
         (is_Some (om_DeletionTimestamp (pvc_Meta claim)) /\
          HasString (om_Finalizers (pvc_Meta claim)) finalizerPVCProtection = true /\
          map_index (om_Annotations (pvc_Meta claim)) AnnotationPersistentVolumeClaimNoProtection = Enabled /\
          om_Finalizers (pvc_Meta o) = filter (fun f => f <> finalizerPVCProtection) (om_Finalizers (pvc_Meta claim))) \/
         (is_Some (om_DeletionTimestamp (pvc_Meta claim)) /\
          om_Finalizers (pvc_Meta claim) = [finalizer] /\ om_Finalizers (pvc_Meta o) = [] /\
          (exists k, is_pod_key claim k /\ pod_gone k h) /\ volume_released claim h))
  | Delete KPod pod =>
      exists claim k, read_claim req claim h /\ is_pod_key claim k /\ seen_pod k pod h
  | Delete KPersistentVolume pv =>
      exists claim, read_claim req claim h /\ is_Some (om_DeletionTimestamp (pvc_Meta claim)) /\
        Ev (Get KPersistentVolume (pv_key claim)) (Ok pv) ∈ h /\
        pvs_ReclaimPolicy (vol_Spec pv) = PersistentVolumeReclaimDelete
  | Get _ _ | RecordEvent _ _ _ _ | ProvisionersGet _ => True
  | _ => False
  end.

(** When the controller panics: the claim lacks a required annotation of its
    provisioner although its volume exists, or the provisioner has no volume
    mode. *)
Definition pvc_post (req : NamespacedName) (h : list event) (o : outcome (option goerr)) : Prop :=
  match o with
  | Returned _ => True
  | Panicked _ =>
      exists claim p, read_claim req claim h /\
        Ev (ProvisionersGet (map_index (om_Annotations (pvc_Meta claim)) annStorageProvisioner)) (Some p) ∈ h /\
        ((exists pv, Ev (Get KPersistentVolume (pv_key claim)) (Ok pv) ∈ h /\
            (AnnotationsToEnv (om_Annotations (pvc_Meta claim)) (sps_Env (sp_Spec p))).2 <> None) \/
         pvs_VolumeMode (sps_PersistentVolumeTemplate (sp_Spec p)) = None)
  end.

Lemma pvc_deprovision_wp req claim h :
  read_claim req claim h -> is_Some (om_DeletionTimestamp (pvc_Meta claim)) ->
  wp (pvc_deprovision claim) (pvc_guard req)
    (fun h' o => exists done err, o = Returned (done, err) /\ (done = true -> volume_released claim h')) h.
Proof.
  intros Hc Ht. unfold pvc_deprovision. repeat wp_go; try done;
    try (do 2 eexists; split; [done|]; first [done|intros _]).
  - right. eexists. split; [in_history|]. left. by apply bool_decide_neq_iff.
  - apply negb_false_iff, bool_decide_eq_true in Heqb.
    exists claim. split_and!; [by apply list_elem_of_further|done|apply list_elem_of_here|done].
  - right. eexists. split; [in_history|]. right. eexists. split; [in_history|]. by intros ? [= ->].
  - right. eexists. split; [in_history|]. right. eexists. split; [in_history|done].
  - left. eexists. split; [in_history|done].
Qed.

(** The suffix of the Pods is short enough for every claim. *)
Lemma pod_key_total claim : exists n, ResourceName (pvNameForPVC claim) provisioner = Returned n.
Proof. apply ResourceName_total. vm_compute. lia. Qed.

Lemma job_guard_pvc req claim k run h h' c :
  read_claim req claim h -> h ⊆ h' -> is_pod_key claim k ->
  (run = true -> forall pod, missing KPod k h' -> om_key (pod_Meta pod) = k ->
     ps_RestartPolicy (pod_Spec pod) = RestartPolicyNever -> pvc_guard req h' (Create KPod pod)) ->
  job_guard k run h' c -> pvc_guard req h' c.
Proof.
  intros Hc Hs Hk Hcreate. destruct c as [kd ?|?|kd ?|kd ?|kd ?|kd ?|? ? ? ?| |?|?|?];
    try destruct kd; cbn [job_guard]; try done.
  - intros (-> & Hm & Hn & Hr). by apply Hcreate.
  - intros Hp. exists claim, k. split_and!; [by apply Hs|done|done].
Qed.

Lemma single_finalizer fs : length fs = 1 -> HasString fs finalizer = true -> fs = [finalizer].
Proof.
  destruct fs as [|f [|? ?]]; simpl; try done. intros _. case_bool_decide; [by subst|done].
Qed.

Lemma pvc_finalize_wp req claim h :
  read_claim req claim h -> is_Some (om_DeletionTimestamp (pvc_Meta claim)) ->
  wp (pvc_finalize claim) (pvc_guard req) (pvc_post req) h.
Proof.
  intros Hc Ht. unfold pvc_finalize. destruct (HasString _ finalizerPVCProtection) eqn:Hpro.
  { destruct (_ ==? Enabled) eqn:Hen; [|done]. apply bool_decide_eq_true in Hen.
    unfold call. rewrite wp_bind. cbn [wp]. split; [|done].
    exists claim. split_and!; [done|done|]. right. left. split_and!; try done.
    simpl. by rewrite RemoveString_filter. }
  destruct (HasString _ finalizer) eqn:Hfin; [|done].
  destruct (length _ =? 1) eqn:Hlen; [|done]. apply Nat.eqb_eq in Hlen. cbn [negb].
  pose proof (single_finalizer _ Hlen Hfin) as Hfs.
  destruct (pod_key_total claim) as (n & Hn). rewrite Hn, wp_bind. cbn [wp of_outcome].
  assert (Hk : is_pod_key claim (mkNamespacedName n ManagerNamespace)) by (by exists n).
  rewrite wp_bind. eapply wp_frame; [apply DeletePod_wp with (run := false)| |].
  { intros h' c Hs. by eapply job_guard_pvc. }
  intros h1 o Hs1 (done & err & -> & Hdone). cbn [wp].
  destruct err as [e|]; [done|]. destruct done; [|done]. destruct (Hdone eq_refl) as [_ Hgone].
  rewrite wp_bind. eapply wp_frame; [apply pvc_deprovision_wp; [by apply Hs1|done]|done|].
  intros h2 o Hs2 (done & err & -> & Hrel). cbn [wp].
  destruct err as [e|]; [done|]. destruct done; [|done]. specialize (Hrel eq_refl).
  unfold call. rewrite wp_bind. cbn [wp]. split; [|done].
  exists claim. split_and!; [by apply Hs2, Hs1|done|]. right. right. split_and!; try done.
  - rewrite RemoveString_filter, Hfs. done.
  - exists (mkNamespacedName n ManagerNamespace). split; [done|]. by eapply pod_gone_mono.
Qed.

Lemma provision_create_wp req claim env node k x h :
  wp (provision_create claim env node k x) (pvc_guard req)
    (fun _ o => exists x' res, o = Returned (x', res) /\ True) h.
Proof.
  unfold provision_create, pvc_event.
  repeat wp_go; try done; eauto.
Qed.

Lemma provision_completed_wp req claim k pod x h :
  read_claim req claim h -> provisioning claim -> is_pod_key claim k ->
  missing KPersistentVolume (pv_key claim) h -> seen_pod k pod h -> pod_Phase pod = PodSucceeded ->
  wp (provision_completed claim x pod) (pvc_guard req)
    (fun _ o => exists x' res, o = Returned (x', res) /\ True) h.
Proof.
  intros Hc Hp Hk Hm Hs Hph. unfold provision_completed, pvc_event.
  destruct (StorageProvisionerFromJSON _) as [y|e] eqn:Ej; [|repeat wp_go; try done; eauto].
  repeat wp_go; try done; eauto. exists claim, k, pod, y. by split_and!.
Qed.

(** The provisioner that the run has looked up for the claim. *)
Definition read_provisioner (claim : PersistentVolumeClaim) (p : StorageProvisioner) (h : list event) : Prop :=
  Ev (ProvisionersGet (map_index (om_Annotations (pvc_Meta claim)) annStorageProvisioner)) (Some p) ∈ h.

(** What [provision] does once the volume has been looked up. *)
Definition provision_job (claim : PersistentVolumeClaim) (p : StorageProvisioner) (env : list EnvVar)
    (errAnn : option goerr) (pvExists : bool) : prog (bool * option goerr) :=
  let nodeName := map_index (om_Annotations (pvc_Meta claim)) annSelectedNode in
  let! podName := of_outcome (ResourceName (pvNameForPVC claim) provisioner) in
  let podName := mkNamespacedName podName ManagerNamespace in
  let! (_, (done, err)) := ReconcileJob pvc_jobs
    (mkJobRequest provisioner podName (pvc_owner claim)
       (negb pvExists && (nodeName !=? "") && (errAnn ==? None))
       (provision_create claim env nodeName podName) (provision_completed claim)) p in
  match err, done with
  | Some e, true =>
      do! pvc_event claim EventTypeWarning "ProvisionerFailed"
            ("Failed to provision PersistentVolume " +++ pvNameForPVC claim +++ ": " +++ Error e) in
      Ret (done, err)
  | _, _ => Ret (done, err)
  end.

Lemma provision_job_wp req claim p env errAnn pvExists h :
  read_claim req claim h -> provisioning claim -> read_provisioner claim p h ->
  AnnotationsToEnv (om_Annotations (pvc_Meta claim)) (sps_Env (sp_Spec p)) = (env, errAnn) ->
  (pvExists = false -> missing KPersistentVolume (pv_key claim) h) ->
  wp (provision_job claim p env errAnn pvExists) (pvc_guard req)
    (fun h' o => match o with Returned _ => True | Panicked m => pvc_post req h' (Panicked m) end) h.
Proof.
  intros Hc Hp Hprov Henv Hmissing. unfold provision_job.
  destruct (pod_key_total claim) as (n & Hn). rewrite Hn, wp_bind. cbn [wp of_outcome].
  set (k := mkNamespacedName n ManagerNamespace).
  assert (Hk : is_pod_key claim k) by (by exists n).
  set (run := (negb _ && _) && _).
  assert (Hrun : run = true -> missing KPersistentVolume (pv_key claim) h /\
    map_index (om_Annotations (pvc_Meta claim)) annSelectedNode <> "" /\ errAnn = None).
  { unfold run. rewrite !andb_true_iff, bool_decide_eq_true, bool_decide_neq_iff, negb_true_iff.
    intros [[Hr ?] ?]. split_and!; auto. }
  rewrite wp_bind.
  eapply wp_frame; [apply ReconcileJob_wp with (G := pvc_guard req) (I := fun _ => True) (C := fun _ => True)|..].
  - done.
  - intros _ x h2 _ _ _. apply provision_create_wp.
  - intros Hr x pod h2 _ Hs2 Hseen Hph. destruct (Hrun Hr) as (Hm & _).
    eapply provision_completed_wp; [by apply Hs2|done|done| |done|done]. by eapply missing_mono.
  - done.
  - intros h2 c Hs2 [Hj|Hg]; [|done]. eapply job_guard_pvc; [exact Hc|done|done| |exact Hj].
    intros Hr pod Hmiss Hkey Hrp. destruct (Hrun Hr) as (Hm & Hnode & ->).
    exists claim, k, p. split_and!; try done; [by apply Hs2|by eapply missing_mono| |by rewrite Henv].
    apply Hs2, Hprov.
  - intros h2 o _ (x' & done & err & -> & _). cbn [wp]. unfold pvc_event. repeat wp_go; done.
Qed.

Lemma provision_wp req claim p h :
  read_claim req claim h -> provisioning claim -> read_provisioner claim p h ->
  wp (provision claim p) (pvc_guard req)
    (fun h' o => match o with Returned _ => True | Panicked m => pvc_post req h' (Panicked m) end) h.
Proof.
  intros Hc Hp Hprov. unfold provision. rewrite wp_bind. unfold call. cbn [wp]. split; [done|]. intros r.
  set (h0 := Ev _ r :: h). assert (Hs : h ⊆ h0) by (intros ev Hev; by apply list_elem_of_further).
  destruct (match err_of r with Some e => _ | None => _ end) eqn:Eerr; [done|].
  destruct (AnnotationsToEnv _ _) as [env errAnn] eqn:Henv. rewrite wp_bind.
  assert (Hjob : forall h1, h0 ⊆ h1 -> wp (provision_job claim p env errAnn (err_of r ==? None)) (pvc_guard req)
    (fun h' o => match o with Returned _ => True | Panicked m => pvc_post req h' (Panicked m) end) h1).
  { intros h1 Hs1. apply provision_job_wp; [by apply Hs1, Hs|done|by apply Hs1, Hs|done|].
    intros Hr. apply bool_decide_eq_false in Hr. destruct r as [pv|e]; [done|].
    apply negb_false_iff in Eerr. exists e. split; [|done]. apply Hs1, list_elem_of_here. }
  destruct errAnn as [ea|]; [|by apply Hjob].
  destruct r as [pv|e]; cbn [err_of wp].
  - exists claim, p. split_and!; [by apply Hs|by apply Hs|]. left. exists pv.
    split; [apply list_elem_of_here|]. by rewrite Henv.
  - unfold pvc_event, call. cbn [wp]. split; [done|]. intros ?. apply Hjob.
    intros ev Hev. by apply list_elem_of_further.
Qed.

Lemma shouldProvision_wp req claim p h :
  read_claim req claim h -> read_provisioner claim p h ->
  wp (shouldProvision claim p) (pvc_guard req)
    (fun h' o => match o with
                 | Returned (true, _) => pvc_VolumeName claim = ""
                 | Returned _ => True
                 | Panicked m => pvc_post req h' (Panicked m)
                 end) h.
Proof.
  intros Hc Hp. unfold shouldProvision, pvc_event.
  destruct (_ || _) eqn:E; [done|]. apply orb_false_iff in E as [E _].
  apply negb_false_iff, bool_decide_eq_true in E. repeat wp_go; try done.
  - by destruct (_ !=? "").
  - exists claim, p. split_and!; [by apply list_elem_of_further|by apply list_elem_of_further|]. by right.
Qed.

Lemma pvc_Reconcile_wp req h : wp (pvc_Reconcile req) (pvc_guard req) (pvc_post req) h.
Proof.
  unfold pvc_Reconcile, call. rewrite wp_bind. cbn [wp]. split; [done|]. intros [claim|e].
  2:{ destruct (IsNotFound e); done. }
  set (h0 := _ :: h). assert (Hc : read_claim req claim h0) by apply list_elem_of_here.
  destruct (om_DeletionTimestamp (pvc_Meta claim)) eqn:Ed.
  { apply pvc_finalize_wp; [done|by rewrite Ed]. }
  rewrite wp_bind. unfold resolveProvisioner, call.
  destruct (om_Annotations (pvc_Meta claim)) as [a|] eqn:Ea; cbn [wp]; [|done].
  split; [done|]. intros [p|]; [|done].
  set (h1 := _ :: h0).
  assert (Hp : read_provisioner claim p h1).
  { unfold read_provisioner. rewrite Ea. apply list_elem_of_here. }
  assert (Hc1 : read_claim req claim h1) by (by apply list_elem_of_further).
  rewrite wp_bind. eapply wp_frame; [by apply shouldProvision_wp|done|].
  intros h2 [[[] [e|]]|m] Hs2 Hpost; cbn [wp]; try done.
  unfold AddString. destruct (HasString _ finalizer) eqn:Hf.
  - rewrite wp_bind. eapply wp_frame; [apply provision_wp; [by apply Hs2| |by apply Hs2]|done|].
    + by split_and!.
    + intros h3 [[d err]|m] _ Ho; [exact I|exact Ho].
  - rewrite wp_bind. cbn [wp]. split; [|done]. exists claim. split_and!; [by apply Hs2|done|].
    left. by split.
Qed.

(** ** Properties *)

(** C5: a provisioner Pod is only created for a claim that is not being
    deleted, has no volume yet and carries the finalizer of the controller,
    after both the volume and the Pod were looked up and not found, if a node is
    selected and every required annotation is set; it gets the name that is
    derived from the claim and runs only once. *)
Theorem pvc_pod_creation req tr pod r tr' o :
  runs (pvc_Reconcile req) (tr ++ Ev (Create KPod pod) r :: tr') o ->
  exists claim k p,
    Ev (Get KPersistentVolumeClaim req) (Ok claim) ∈ tr /\ provisioning claim /\ is_pod_key claim k /\
    missing KPersistentVolume (pv_key claim) tr /\ missing KPod k tr /\
    read_provisioner claim p tr /\
    map_index (om_Annotations (pvc_Meta claim)) annSelectedNode <> "" /\
    (AnnotationsToEnv (om_Annotations (pvc_Meta claim)) (sps_Env (sp_Spec p))).2 = None /\
    om_key (pod_Meta pod) = k /\ ps_RestartPolicy (pod_Spec pod) = RestartPolicyNever.
Proof.
  intros Hr. pose proof (wp_guard _ _ _ _ _ _ _ _ _ (pvc_Reconcile_wp req []) Hr) as Hg.
  pose proof (history_of_trace tr) as Hh.
  destruct Hg as (claim & k & p & H1 & H2 & H3 & H4 & H5 & H6 & H7 & H8 & H9 & H10).
  exists claim, k, p. split_and!; try done; [by apply Hh|by eapply missing_mono..|by apply Hh].
Qed.

(** C4: a volume is only created for a claim that is to be provisioned, after
    the provisioner Pod of the claim was read in phase Succeeded.  Its
    definition is the one that the Pod carries: it has the name derived from the
    claim, references the claim, has the finalizer of the controller and the
    annotations that the deprovisioner will need. *)
Theorem pvc_volume_creation req tr pv r tr' o :
  runs (pvc_Reconcile req) (tr ++ Ev (Create KPersistentVolume pv) r :: tr') o ->
  exists claim k pod x,
    Ev (Get KPersistentVolumeClaim req) (Ok claim) ∈ tr /\ provisioning claim /\ is_pod_key claim k /\
    missing KPersistentVolume (pv_key claim) tr /\ seen_pod k pod tr /\ pod_Phase pod = PodSucceeded /\
    StorageProvisionerFromJSON (map_index (om_Annotations (pod_Meta pod)) annStorageProvisionerSpec) = Ok x /\
    om_Name (vol_Meta pv) = pvNameForPVC claim /\ om_Finalizers (vol_Meta pv) = [finalizer] /\
    (exists ref, pvs_ClaimRef (vol_Spec pv) = Some ref /\
      mkNamespacedName (or_Name ref) (or_Namespace ref) = om_key (pvc_Meta claim) /\
      or_UID ref = om_UID (pvc_Meta claim)) /\
    map_index (om_Annotations (vol_Meta pv)) annStorageProvisionerSpec =
      map_index (om_Annotations (pod_Meta pod)) annStorageProvisionerSpec /\
    (om_Annotations (pod_Meta pod) <> None ->
     AnnotationsToEnv (om_Annotations (vol_Meta pv)) (sps_Env (sp_Spec x)) =
     AnnotationsToEnv (om_Annotations (pod_Meta pod)) (sps_Env (sp_Spec x))).
Proof.
  intros Hr. pose proof (wp_guard _ _ _ _ _ _ _ _ _ (pvc_Reconcile_wp req []) Hr) as Hg.
  pose proof (history_of_trace tr) as Hh.
  destruct Hg as (claim & k & pod & x & H1 & H2 & H3 & H4 & H5 & H6 & H7 & ->).
  exists claim, k, pod, x. split_and!; try done; [by apply Hh|by eapply missing_mono|by apply Hh|..].
  - by eexists.
  - unfold provisioned_volume. simpl. destruct (om_Annotations (pod_Meta pod)) as [a|].
    + rewrite CopyAnnotations_index. case_bool_decide; [done|].
      by rewrite map_index_insert_ne, map_index_insert.
    + by rewrite CopyAnnotations_nil, map_index_insert_ne, map_index_insert.
  - unfold provisioned_volume. simpl. intros Ha.
    destruct (om_Annotations (pod_Meta pod)) as [a|]; [apply AnnotationsToEnv_copied|done].
Qed.


(** C39: the controller panics only if the claim lacks an annotation that its
    provisioner requires although its volume already exists, or if the
    provisioner has no volume mode. *)
Theorem pvc_panics_only req tr m :
  runs (pvc_Reconcile req) tr (Panicked m) ->
  exists claim p, Ev (Get KPersistentVolumeClaim req) (Ok claim) ∈ tr /\ read_provisioner claim p tr /\
    ((exists pv, Ev (Get KPersistentVolume (pv_key claim)) (Ok pv) ∈ tr /\
        (AnnotationsToEnv (om_Annotations (pvc_Meta claim)) (sps_Env (sp_Spec p))).2 <> None) \/
     pvs_VolumeMode (sps_PersistentVolumeTemplate (sp_Spec p)) = None).
Proof.
  intros Hr. pose proof (wp_post _ _ _ _ _ _ (pvc_Reconcile_wp req []) Hr) as Hq.
  pose proof (history_of_trace tr) as Hh. destruct Hq as (claim & p & Hc & Hp & Hcase).
  exists claim, p. split; [by apply Hh|]. split; [by apply Hh|].
  destruct Hcase as [(pv & Hpv & Ha)|Hv]; [left|by right]. exists pv. split; [by apply Hh|done].
Qed.

End Controller.

(** ** Concrete runs *)

Module PvcExample.
Import PodExample TemplateExample RegistryExample TableCodec.

Definition claim_key : NamespacedName := mkNamespacedName "claim1" "default".
Definition claim1 : PersistentVolumeClaim :=
  mkPersistentVolumeClaim
    (mkObjectMeta "claim1" "default" "u1" "7" 1 None [finalizer]
       (Some (<[annStorageProvisioner := "storage/cache"]> (<[annSelectedNode := "node1"]>
             (<["example.com/cache" := "x"]> ∅)))))
    "" (Some "fast") (Some "Filesystem") [ReadWriteOnce] None.

(** The provisioner after the Pod was created. *)
Definition used : StorageProvisioner :=
  (NewProvisionerPod (source example (cs_Provisioner (sps_Containers (sp_Spec example))))).1.
#[export] Instance codec : ProvisionerCodec := table_codec [encoded_part used].

Definition before : cluster :=
  cluster_empty <| cl_claims := {[claim_key := claim1]} |>
    <| cl_classes := {[mkNamespacedName "fast" "" := mkStorageClass (ObjectMeta_zero <| om_Name := "fast" |>) None]} |>
    <| cl_registry := {["storage/cache" := example]} |>.

Definition pod1 : Pod :=
  mkPod (mkObjectMeta "pvc-u1-provisioner" "system" "" "" 0 None []
    (Some (<[annPVCNamespace := "default"]> (<[annPVCName := "claim1"]>
      (<[annStorageProvisionerSpec := "0"]> (<["example.com/cache" := "x"]> ∅))))))
    (mkPodSpec "" RestartPolicyNever ""
       [mkContainer "main" "alpine" (Some ["/bin/provision"]) []
          [mkEnvVar "A" "1" None; mkEnvVar "CACHE" "x" None] []] []) "".

Definition reconcile : prog (option goerr) := pvc_Reconcile "system" claim_key.
Definition trace1 := (run_cluster reconcile before).1.1.

Lemma pvc_pod_creation_witness :
  trace1 !! 6 = Some (Ev (Create KPod pod1) (Ok pod1)) /\
  exists claim k p, Ev (Get KPersistentVolumeClaim claim_key) (Ok claim) ∈ take 6 trace1 /\
    provisioning claim /\ is_pod_key "system" claim k /\ missing KPod k (take 6 trace1) /\
    read_provisioner claim p (take 6 trace1).
Proof.
  assert (E : trace1 !! 6 = Some (Ev (Create KPod pod1) (Ok pod1))) by (vm_compute; reflexivity).
  split; [exact E|].
  destruct (pvc_pod_creation "system" claim_key _ _ _ _ _ (run_cluster_at _ _ _ _ E))
    as (claim & k & p & H1 & H2 & H3 & _ & H5 & H6 & _).
  exists claim, k, p. exact (conj H1 (conj H2 (conj H3 (conj H5 H6)))).
Defined.

(** The Pod has succeeded: the volume is created. *)
Definition after_pod : cluster :=
  (run_cluster reconcile before).2
    <| cl_pods := {[om_key (pod_Meta pod1) := pod1 <| pod_Phase := PodSucceeded |>]} |>.
Definition trace2 := (run_cluster reconcile after_pod).1.1.
Definition volume1 : PersistentVolume :=
  provisioned_volume claim1 (pod1 <| pod_Phase := PodSucceeded |>)
    ((encoded_part used) <| sp_Spec := norm_spec (sp_Spec (encoded_part used)) |>).

Lemma pvc_volume_creation_witness :
  trace2 !! 6 = Some (Ev (Create KPersistentVolume volume1) (Ok volume1)) /\
  exists claim k pod, provisioning claim /\ is_pod_key "system" claim k /\
    seen_pod k pod (take 6 trace2) /\ pod_Phase pod = PodSucceeded.
Proof.
  assert (E : trace2 !! 6 = Some (Ev (Create KPersistentVolume volume1) (Ok volume1)))
    by (vm_compute; reflexivity).
  split; [exact E|].
  destruct (pvc_volume_creation "system" claim_key _ _ _ _ _ (run_cluster_at _ _ _ _ E))
    as (claim & k & pod & x & _ & H2 & H3 & _ & H5 & H6 & _).
  exists claim, k, pod. exact (conj H2 (conj H3 (conj H5 H6))).
Defined.

(** The claim is deleted: its finalizer is removed. *)
Definition deleted_claim : PersistentVolumeClaim :=
  claim1 <| pvc_Meta := (pvc_Meta claim1) <| om_DeletionTimestamp := Some 1%Z |> |>.
Definition deleted : cluster := before <| cl_claims := {[claim_key := deleted_claim]} |>.
Definition trace3 := (run_cluster reconcile deleted).1.1.
Definition released_claim : PersistentVolumeClaim :=
  deleted_claim <| pvc_Meta := (pvc_Meta deleted_claim) <| om_Finalizers := [] |> |>.


(** The volume exists and the claim has lost an annotation: the controller
    panics. *)
Definition broken_claim : PersistentVolumeClaim :=
  claim1 <| pvc_Meta := (pvc_Meta claim1) <| om_Annotations :=
    Some (<[annStorageProvisioner := "storage/cache"]> (<[annSelectedNode := "node1"]> ∅)) |> |>.
Definition broken : cluster :=
  before <| cl_claims := {[claim_key := broken_claim]} |>
         <| cl_volumes := {[mkNamespacedName "pvc-u1" "" := volume1]} |>.

Lemma pvc_panics_only_witness :
  (run_cluster reconcile broken).1.2 = Panicked "invalid memory address or nil pointer dereference" /\
  exists claim p, read_provisioner claim p (run_cluster reconcile broken).1.1.
Proof.
  assert (E : (run_cluster reconcile broken).1.2 =
    Panicked "invalid memory address or nil pointer dereference") by (vm_compute; reflexivity).
  split; [exact E|].
  destruct (pvc_panics_only "system" claim_key _ _ (run_cluster_runs _ _ _ E)) as (claim & p & _ & H & _).
  exists claim, p. exact H.
Defined.

End PvcExample.
