(* ===== verification/PvController.v ===== *)
(** * The PersistentVolume controller ([internal/controllers/persistentvolume_controller.go])

    One run of [Reconcile] for a volume: a volume that is being deleted is
    released from its claim, its deprovisioner Pod is run to completion and its
    finalizer is removed.  The object [pv] is updated in place by the calls; the
    operations return it. *)

From S2P Require Import Prelude Effects Api GoPath Template Utils PodTemplate Registry Job Codec Cluster PvcController.

Definition deprovisioner := "deprovisioner".
Definition annPVName := "k8storagex.mgoltzsche.github.com/pv-name".
Definition annPVDisableDeprovisioner := "k8storagex.mgoltzsche.github.com/pv-deprovisioner-disabled".
Definition annPVClaimRef := "k8storagex.mgoltzsche.github.com/pvc".

(** [hasSupportedProvisionerOrFinalizer] and [hasDeletionTimestamp]: the events
    that the controller handles. *)
Definition hasDeletionTimestamp (o : ObjectMeta) : bool := om_DeletionTimestamp o !=? None.
Definition hasSupportedProvisionerOrFinalizer (o : ObjectMeta) : prog bool :=
  let! p := resolveProvisioner (om_Annotations o) in
  Ret (match p with Some _ => true | None => false end || HasString (om_Finalizers o) finalizer).

(** [pvcToRequestMapper] *)
Definition pvcToRequestMapper (pvc : PersistentVolumeClaim) : list NamespacedName :=
  if pvc_VolumeName pvc ==? "" then [] else [mkNamespacedName (pvc_VolumeName pvc) ""].

Definition hostPathFromPV (pv : PersistentVolume) : string := default "" (pvs_HostPath (vol_Spec pv)).

(** The inner loop of [nodeNameFromPV] over the expressions of one term: the
    node is empty if no expression names one. *)
Fixpoint node_of_term (exprs : list NodeSelectorRequirement) : result string :=
  match exprs with
  | [] => Ok ""
  | e :: exprs =>
      if (nr_Key e ==? KeyNode) && (nr_Operator e ==? NodeSelectorOpIn) then
        match nr_Values e with
        | [v] => Ok v
        | _ => Err (Errorf "multiple values for the node affinity")
        end
      else node_of_term exprs
  end.

Fixpoint node_of_terms (terms : list (list NodeSelectorRequirement)) : result string :=
  match terms with
  | [] => Ok ""
  | t :: terms =>
      match node_of_term t with
      | Err err => Err err
      | Ok node => if node !=? "" then Ok node else node_of_terms terms
      end
  end.

Definition nodeNameFromPV (pv : PersistentVolume) : result string :=
  match pvs_NodeAffinity (vol_Spec pv) with
  | None => Err (Errorf "no NodeAffinity set")
  | Some affinity =>
      match na_Required affinity with
      | None => Err (Errorf "no NodeAffinity.Required set")
      | Some terms =>
          match node_of_terms terms with
          | Err err => Err err
          | Ok node => if node ==? "" then Err (Errorf "cannot find affinited node") else Ok node
          end
      end
  end.

Section Controller.
Context `{!Converter StorageProvisioner, !EnvSubst} {PC : ProvisionerCodec} (ManagerNamespace : string).

Definition pv_jobs : JobReconciler := mkJobReconciler annPVName "".

(** [setClaimRefAnnotation] *)
Definition setClaimRefAnnotation (pv : PersistentVolume) (claim : ObjectReference) : PersistentVolume :=
  match MarshalRef claim with
  | Err _ => pv
  | Ok s => pv <| vol_Meta := (vol_Meta pv) <| om_Annotations :=
              Some (<[annPVClaimRef := s]> (default ∅ (om_Annotations (vol_Meta pv)))) |> |>
  end.

(** [getClaimRef] *)
Definition getClaimRef (pv : PersistentVolume) : option ObjectReference :=
  match pvs_ClaimRef (vol_Spec pv) with
  | Some ref => Some ref
  | None =>
      let claimRefJSON := map_index (om_Annotations (vol_Meta pv)) annPVClaimRef in
      if claimRefJSON ==? "" then None
      else match UnmarshalRef claimRefJSON with Ok ref => Some ref | Err _ => None end
  end.

(** [event] *)
Definition pv_event (pv : PersistentVolume) (evtType reason message : string) : prog unit :=
  do! call (RecordEvent (om_key (vol_Meta pv)) evtType reason message) in
  match getClaimRef pv with
  | None => Ret tt
  | Some ref => call (RecordEvent (mkNamespacedName (or_Name ref) (or_Namespace ref)) evtType reason message)
  end.

(** [canDeprovision]: at most [n] more iterations; [err] is the variable of the
    function. *)
Fixpoint canDeprovision_loop (n : nat) (pv : PersistentVolume) (err : option goerr)
  : prog (PersistentVolume * (bool * option goerr)) :=
  let break pv err := Ret (pv, (false, wrap_err "remove claimRef from persistentvolume" err)) in
  match n with
  | 0 => break pv err
  | S n =>
      if vol_Phase pv ==? VolumeBound then Ret (pv, (false, None))
      else
        match pvs_ClaimRef (vol_Spec pv) with
        | None => Ret (pv, (true, None))
        | Some claimRef =>
            let pvcName := mkNamespacedName (or_Name claimRef) (or_Namespace claimRef) in
            let! r := call (Get KPersistentVolumeClaim pvcName) in
            if match r with Ok _ => true | Err e => negb (IsNotFound e) end then break pv (err_of r)
            else
              let! p := resolveProvisioner (om_Annotations (vol_Meta pv)) in
              match p with
              | None => Ret (pv, (false, None))
              | Some _ =>
                  let pv := setClaimRefAnnotation pv claimRef in
                  let pv := pv <| vol_Spec := (vol_Spec pv) <| pvs_ClaimRef := None |> |> in
                  let! r := call (Update KPersistentVolume pv) in
                  match r with
                  | Ok pv => Ret (pv, (false, None))
                  | Err err =>
                      if IsConflict err then
                        let! r := call (Get KPersistentVolume (om_key (vol_Meta pv))) in
                        match r with
                        | Err e => break pv (Some e)
                        | Ok pv => canDeprovision_loop n pv (Some err)
                        end
                      else break pv (Some err)
                  end
              end
        end
  end.

Definition canDeprovision (pv : PersistentVolume) : prog (PersistentVolume * (bool * option goerr)) :=
  canDeprovision_loop 2 pv None.

(** The variables that the callbacks of [deprovisionVolume] share: the
    provisioner and the volume. *)
Definition deprovision_create (podName : NamespacedName) (x : StorageProvisioner * PersistentVolume)
  : prog (StorageProvisioner * PersistentVolume * result Pod) :=
  let '(p, pv) := x in
  let '(env, err) := AnnotationsToEnv (om_Annotations (vol_Meta pv)) (sps_Env (sp_Spec p)) in
  match err with
  | Some err => Ret (x, Err (Wrap "persistentvolume does not specify annotation" err))
  | None =>
      let '(p, r) := NewProvisionerPod
        (mkPodSource podName deprovisioner p (cs_Deprovisioner (sps_Containers (sp_Spec p))) env) in
      match r with
      | Err err => Ret (p, pv, Err err)
      | Ok pod =>
          do! pv_event pv EventTypeNormal "Deprovisioning" "Deprovisioning PersistentVolume" in
          Ret (p, pv, Ok pod)
      end
  end.

(** The volume with the mark that its deprovisioner has completed. *)
Definition mark_deprovisioned (pv : PersistentVolume) (a : gmap string string) : PersistentVolume :=
  pv <| vol_Meta := (vol_Meta pv) <| om_Annotations := Some (<[annPVDisableDeprovisioner := "true"]> a) |> |>.

Definition deprovision_completed (x : StorageProvisioner * PersistentVolume) (_ : Pod)
  : prog (StorageProvisioner * PersistentVolume * (bool * option goerr)) :=
  let '(p, pv) := x in
  match om_Annotations (vol_Meta pv) with
  | None => Panic "assignment to entry in nil map"
  | Some a =>
      let! r := call (Update KPersistentVolume (mark_deprovisioned pv a)) in
      match r with
      | Ok pv => Ret (p, pv, (false, None))
      | Err err => Ret (p, mark_deprovisioned pv a, (false, Some err))
      end
  end.

Definition needs_deprovisioning (pv : PersistentVolume) : bool :=
  match om_Annotations (vol_Meta pv) with
  | None => false
  | a => map_index a annPVDisableDeprovisioner !=? "true"
  end.

Definition deprovisionVolume (pv : PersistentVolume) : prog (PersistentVolume * (bool * option goerr)) :=
  let provisionerJSON := map_index (om_Annotations (vol_Meta pv)) annStorageProvisionerSpec in
  if provisionerJSON ==? "" then
    do! pv_event pv EventTypeWarning "DeprovisionerSpecAnnotationMissing"
          ("missing annotation " +++ annStorageProvisionerSpec) in
    Ret (pv, (false, None))
  else
    match StorageProvisionerFromJSON provisionerJSON with
    | Err err =>
        let err := Wrap ("invalid deprovisioner annotation " +++ annStorageProvisionerSpec
                         +++ " on PersistentVolume") err in
        do! pv_event pv EventTypeWarning "DeprovisionerSpecAnnotationInvalid" (Error err) in
        Ret (pv, (false, None))
    | Ok p =>
        let! podName := of_outcome (ResourceName (om_Name (vol_Meta pv)) deprovisioner) in
        let podName := mkNamespacedName podName ManagerNamespace in
        let! (_, pv, (done, err)) := ReconcileJob pv_jobs
          (mkJobRequest deprovisioner podName (om_key (vol_Meta pv)) (needs_deprovisioning pv)
             (deprovision_create podName) deprovision_completed) (p, pv) in
        match err, done with
        | Some e, true =>
            do! pv_event pv EventTypeWarning "DeprovisionerFailed"
                  ("Failed to deprovision PersistentVolume: " +++ Error e) in
            Ret (pv, (done, err))
        | _, _ => Ret (pv, (done, err))
        end
    end.

Definition pv_Reconcile (req : NamespacedName) : prog (option goerr) :=
  let! r := call (Get KPersistentVolume req) in
  match r with
  | Err err => if IsNotFound err then Ret None else Ret (Some err)
  | Ok pv =>
      match om_DeletionTimestamp (vol_Meta pv) with
      | None => Ret None
      | Some _ =>
          if negb (HasString (om_Finalizers (vol_Meta pv)) finalizer) then Ret None
          else
            let! (pv, (should, err)) := canDeprovision pv in
            match err, should with
            | None, true =>
                let! (pv, (done, err)) := deprovisionVolume pv in
                match err, done with
                | None, true =>
                    let! r := call (StatusUpdate KPersistentVolume
                      (pv <| vol_Meta := (vol_Meta pv) <| om_Finalizers :=
                         (RemoveString (om_Finalizers (vol_Meta pv)) finalizer).1 |> |>)) in
                    match r with
                    | Err err => Ret (Some err)
                    | Ok pv =>
                        do! pv_event pv EventTypeNormal "Deprovisioned" "Deprovisioned PersistentVolume" in
                        Ret None
                    end
                | _, _ => Ret err
                end
            | _, _ => Ret err
            end
      end
  end.


(** ** What the controller does to the cluster *)

(** The volume that the run was started for: it is being deleted and carries
    the finalizer of the controller. *)
Definition deleting (req : NamespacedName) (h : list event) : Prop :=
  exists pv, Ev (Get KPersistentVolume req) (Ok pv) ∈ h /\ is_Some (om_DeletionTimestamp (vol_Meta pv)) /\
    HasString (om_Finalizers (vol_Meta pv)) finalizer = true.

(** A state of the volume that the run has read. *)
Definition read_volume (pv : PersistentVolume) (h : list event) : Prop :=
  exists n, Ev (Get KPersistentVolume n) (Ok pv) ∈ h.

(** The volume is not in use: it is not bound and references no claim. *)
Definition released (pv : PersistentVolume) : Prop :=
  vol_Phase pv <> VolumeBound /\ pvs_ClaimRef (vol_Spec pv) = None.

Definition is_deprovisioner_key (pv : PersistentVolume) (k : NamespacedName) : Prop :=
  exists n, ResourceName (om_Name (vol_Meta pv)) deprovisioner = Returned n /\
    k = mkNamespacedName n ManagerNamespace.

(** Each write is justified by what the run has read before. *)
Definition pv_guard (req : NamespacedName) (h : list event) (c : cmd) : Prop :=
  match c with
  | Update KPersistentVolume o =>
      deleting req h /\
      ((exists pv ref, read_volume pv h /\ vol_Phase pv <> VolumeBound /\
          pvs_ClaimRef (vol_Spec pv) = Some ref /\
          missing KPersistentVolumeClaim (mkNamespacedName (or_Name ref) (or_Namespace ref)) h /\
          (exists name p, Ev (ProvisionersGet name) (Some p) ∈ h) /\
          o = (setClaimRefAnnotation pv ref) <| vol_Spec := (vol_Spec pv) <| pvs_ClaimRef := None |> |>) \/
       (exists pv a k pod, read_volume pv h /\ released pv /\ om_Annotations (vol_Meta pv) = Some a /\
          is_deprovisioner_key pv k /\ seen_pod k pod h /\ pod_Phase pod = PodSucceeded /\
          o = mark_deprovisioned pv a))
  | StatusUpdate KPersistentVolume o =>
      deleting req h /\
      exists pv k, read_volume pv h /\ released pv /\
        map_index (om_Annotations (vol_Meta pv)) annPVDisableDeprovisioner = "true" /\
        is_deprovisioner_key pv k /\ pod_gone k h /\
        o = pv <| vol_Meta := (vol_Meta pv) <| om_Finalizers :=
              filter (fun f => f <> finalizer) (om_Finalizers (vol_Meta pv)) |> |>
  | Create KPod pod =>
      deleting req h /\
      exists pv k, read_volume pv h /\ released pv /\ needs_deprovisioning pv = true /\
        is_deprovisioner_key pv k /\ missing KPod k h /\ om_key (pod_Meta pod) = k /\
        ps_RestartPolicy (pod_Spec pod) = RestartPolicyNever
  | Delete KPod pod =>
      exists pv k, read_volume pv h /\ released pv /\ is_deprovisioner_key pv k /\ seen_pod k pod h
  | Get _ _ | RecordEvent _ _ _ _ | ProvisionersGet _ => True
  | _ => False
  end.

Lemma deleting_mono req h h' : h ⊆ h' -> deleting req h -> deleting req h'.
Proof. intros Hs (pv & H1 & H2). exists pv. split; [by apply Hs|done]. Qed.

Lemma read_volume_mono pv h h' : h ⊆ h' -> read_volume pv h -> read_volume pv h'.
Proof. intros Hs (n & Hn). exists n. by apply Hs. Qed.

Lemma pv_event_wp req pv t r m h :
  wp (pv_event pv t r m) (pv_guard req) (fun _ o => exists y, o = Returned y) h.
Proof. unfold pv_event. repeat wp_go; try done; eauto. Qed.

Lemma subseteq_history (e : event) h : h ⊆ e :: h.
Proof. intros x Hx. by apply list_elem_of_further. Qed.

Lemma canDeprovision_loop_wp req n pv err h :
  deleting req h -> read_volume pv h ->
  wp (canDeprovision_loop n pv err) (pv_guard req)
    (fun h' o => exists pv' should err', o = Returned (pv', (should, err')) /\
       (should = true -> read_volume pv' h' /\ released pv')) h.
Proof.
  revert pv err h. induction n as [|n IH]; intros pv err h Hd Hr; [do 3 eexists; by split|].
  cbn [canDeprovision_loop]. destruct (bool_decide_reflect (vol_Phase pv = VolumeBound)) as [Hb|Hb];
    [do 3 eexists; by split|].
  destruct (pvs_ClaimRef (vol_Spec pv)) as [ref|] eqn:Eref.
  2:{ do 3 eexists. split; [done|]. intros _. by split. }
  unfold call, resolveProvisioner. rewrite wp_bind. cbn [wp]. split; [done|]. intros r.
  set (h0 := Ev _ r :: h). assert (Hs0 : h ⊆ h0) by apply subseteq_history.
  destruct r as [c|e]; [do 3 eexists; by split|].
  destruct (IsNotFound e) eqn:En; cbn [negb]; [|do 3 eexists; by split].
  assert (Hm : missing KPersistentVolumeClaim (mkNamespacedName (or_Name ref) (or_Namespace ref)) h0).
  { exists e. split; [apply list_elem_of_here|done]. }
  rewrite wp_bind. unfold call.
  destruct (om_Annotations (vol_Meta pv)) as [a|]; cbn [wp]; [|do 3 eexists; by split].
  split; [done|]. intros p. destruct p as [p|]; [|do 3 eexists; by split].
  set (h1 := Ev _ _ :: h0). assert (Hs1 : h ⊆ h1) by (etrans; [exact Hs0|apply subseteq_history]).
  rewrite wp_bind. cbn [wp]. split.
  { split; [by eapply deleting_mono|]. left. exists pv, ref. split_and!; try done.
    - by eapply read_volume_mono.
    - eapply missing_mono; [apply subseteq_history|exact Hm].
    - do 2 eexists. apply list_elem_of_here.
    - unfold setClaimRefAnnotation. by destruct (MarshalRef ref). }
  intros [pv'|err']; [do 3 eexists; by split|].
  destruct (IsConflict err'); [|do 3 eexists; by split].
  rewrite wp_bind. cbn [wp]. split; [done|]. intros [pv'|e']; [|do 3 eexists; by split].
  apply IH; [eapply deleting_mono; [|exact Hd]|eexists; apply list_elem_of_here].
  etrans; [exact Hs1|]. do 2 (etrans; [|apply subseteq_history]). done.
Qed.

Lemma deprovisioner_key_total pv : exists n, ResourceName (om_Name (vol_Meta pv)) deprovisioner = Returned n.
Proof. apply ResourceName_total. vm_compute. lia. Qed.

Lemma deprovision_create_wp req k x h :
  wp (deprovision_create k x) (pv_guard req)
    (fun _ o => exists x' res, o = Returned (x', res) /\ x'.2 = x.2) h.
Proof.
  unfold deprovision_create. destruct x as [p pv].
  destruct (AnnotationsToEnv _ _) as [env [e|]]; [by do 2 eexists|].
  destruct (NewProvisionerPod _) as [p' [pod|e]]; [|by do 2 eexists].
  rewrite wp_bind. eapply wp_mono; [apply pv_event_wp|done|]. intros h' o [y ->]. by do 2 eexists.
Qed.

(** The completion of the deprovisioner is never the end of the job: the next
    run goes on from the mark. *)
Lemma deprovision_completed_wp req pv a k pod x h :
  deleting req h -> read_volume pv h -> released pv -> om_Annotations (vol_Meta pv) = Some a ->
  is_deprovisioner_key pv k -> seen_pod k pod h -> pod_Phase pod = PodSucceeded -> x.2 = pv ->
  wp (deprovision_completed x pod) (pv_guard req)
    (fun _ o => exists x' res, o = Returned (x', res) /\ res.1 = false) h.
Proof.
  intros Hd Hr Hrel Ha Hk Hseen Hph Hx. unfold deprovision_completed. destruct x as [p pv']. simpl in Hx.
  subst pv'. rewrite Ha. unfold call. rewrite wp_bind. cbn [wp]. split.
  - split; [done|]. right. exists pv, a, k, pod. by split_and!.
  - intros [pv'|e]; cbn [wp]; by do 2 eexists.
Qed.

Lemma needs_deprovisioning_false pv :
  map_index (om_Annotations (vol_Meta pv)) annStorageProvisionerSpec <> "" ->
  needs_deprovisioning pv = false ->
  map_index (om_Annotations (vol_Meta pv)) annPVDisableDeprovisioner = "true".
Proof.
  unfold needs_deprovisioning. destruct (om_Annotations (vol_Meta pv)); [|done].
  intros _. by rewrite negb_false_iff, bool_decide_eq_true.
Qed.

Lemma deprovisionVolume_wp req pv h :
  deleting req h -> read_volume pv h -> released pv ->
  wp (deprovisionVolume pv) (pv_guard req)
    (fun h' o => exists pv' d err, o = Returned (pv', (d, err)) /\
       (d = true -> err = None -> pv' = pv /\
          map_index (om_Annotations (vol_Meta pv)) annPVDisableDeprovisioner = "true" /\
          exists k, is_deprovisioner_key pv k /\ pod_gone k h')) h.
Proof.
  intros Hd Hr Hrel. unfold deprovisionVolume. case_bool_decide as Hj.
  { rewrite wp_bind. eapply wp_mono; [apply pv_event_wp|done|].
    intros h' o [y ->]. do 3 eexists. by split. }
  destruct (StorageProvisionerFromJSON _) as [p|e].
  2:{ rewrite wp_bind. eapply wp_mono; [apply pv_event_wp|done|].
      intros h' o [y ->]. do 3 eexists. by split. }
  destruct (deprovisioner_key_total pv) as (n & Hn). rewrite Hn, wp_bind. cbn [wp of_outcome].
  set (k := mkNamespacedName n ManagerNamespace).
  assert (Hk : is_deprovisioner_key pv k) by (by exists n).
  rewrite wp_bind. eapply wp_frame;
    [apply ReconcileJob_wp with (G := pv_guard req) (I := fun x => x.2 = pv) (C := fun res => res.1 = false)|..].
  - done.
  - intros _ x h' Hx _ _. eapply wp_mono; [apply deprovision_create_wp|done|].
    intros h1 o (x' & res & -> & Heq). exists x', res. split; [done|]. congruence.
  - cbn [jq_ShouldRun jq_PodName jq_OnCompleted]. intros Hrun x pod h' Hx Hs Hseen Hph.
    assert (exists a, om_Annotations (vol_Meta pv) = Some a) as [a Ha].
    { unfold needs_deprovisioning in Hrun. destruct (om_Annotations (vol_Meta pv)); [by eexists|done]. }
    eapply deprovision_completed_wp; try done; [by eapply deleting_mono|by eapply read_volume_mono].
  - done.
  - cbn [jq_ShouldRun jq_PodName]. intros h' c Hs [Hg|Hg]; [|done].
    destruct c as [kd ?|?|kd ?|kd ?|kd ?|kd ?|? ? ? ?| |?|?|?]; try destruct kd; try done; simpl in Hg.
    + destruct Hg as (Hrun & Hm & Hkey & Hrp). split; [by eapply deleting_mono|].
      exists pv, k. split_and!; try done. by eapply read_volume_mono.
    + exists pv, k. split_and!; try done. by eapply read_volume_mono.
  - cbn [jq_ShouldRun jq_PodName]. intros h' o Hs ([p' pv'] & d & err & -> & Hdone). cbn [wp].
    assert (Hpost : d = true -> err = None -> pv' = pv /\
      map_index (om_Annotations (vol_Meta pv)) annPVDisableDeprovisioner = "true" /\
      exists k, is_deprovisioner_key pv k /\ pod_gone k h').
    { intros -> ->. destruct (Hdone eq_refl eq_refl) as [Hgone Hx].
      destruct (needs_deprovisioning pv) eqn:En; [done|]. injection Hx as _ ->.
      split; [done|]. split; [by apply needs_deprovisioning_false|by exists k]. }
    destruct err as [e|]; [destruct d|].
    + rewrite wp_bind. eapply wp_mono; [apply pv_event_wp|done|].
      intros h2 o [y ->]. do 3 eexists. by split.
    + do 3 eexists. by split.
    + do 3 eexists. split; [done|]. done.
Qed.

Lemma pv_Reconcile_wp req h :
  wp (pv_Reconcile req) (pv_guard req) (fun _ o => exists e, o = Returned e) h.
Proof.
  unfold pv_Reconcile, call. rewrite wp_bind. cbn [wp]. split; [done|]. intros [pv|e].
  2:{ destruct (IsNotFound e); by eexists. }
  destruct (om_DeletionTimestamp (vol_Meta pv)) as [t|] eqn:Et; [|by eexists].
  destruct (HasString _ finalizer) eqn:Hf; cbn [negb]; [|by eexists].
  set (h0 := _ :: h).
  assert (Hd : deleting req h0).
  { exists pv. split_and!; [apply list_elem_of_here|by rewrite Et|done]. }
  assert (Hr : read_volume pv h0) by (eexists; apply list_elem_of_here).
  rewrite wp_bind. unfold canDeprovision. eapply wp_frame; [by apply canDeprovision_loop_wp|done|].
  intros h1 o Hs1 (pv' & should & err & -> & Hshould). cbn [wp].
  destruct err as [e|]; [by eexists|]. destruct should; [|by eexists].
  destruct (Hshould eq_refl) as [Hr' Hrel].
  assert (Hd1 : deleting req h1) by (by eapply deleting_mono).
  rewrite wp_bind. eapply wp_frame; [by apply deprovisionVolume_wp|done|].
  intros h2 o Hs2 (pv2 & d & err & -> & Hdone). cbn [wp].
  destruct err as [e|]; [by eexists|]. destruct d; [|by eexists].
  destruct (Hdone eq_refl eq_refl) as (-> & Hmark & k & Hk & Hgone).
  rewrite wp_bind. cbn [wp]. split.
  - split; [by eapply deleting_mono|]. exists pv', k. split_and!; try done; [by eapply read_volume_mono|..].
    simpl. by rewrite RemoveString_filter.
  - intros [pv3|e]; [|by eexists]. rewrite wp_bind.
    eapply wp_mono; [apply pv_event_wp|done|]. intros h3 o [y ->]. by eexists.
Qed.

(** ** Properties *)

(** C7: the finalizer of a volume is removed, and the volume let go, only if it
    is being deleted, is neither bound nor references a claim, carries the mark
    that its deprovisioner has completed, and the deprovisioner Pod is gone;
    nothing else of the volume is changed. *)
Theorem pv_finalizer_removal req tr pv' r tr' o :
  runs (pv_Reconcile req) (tr ++ Ev (StatusUpdate KPersistentVolume pv') r :: tr') o ->
  deleting req tr /\
  exists pv k, read_volume pv tr /\ released pv /\
    map_index (om_Annotations (vol_Meta pv)) annPVDisableDeprovisioner = "true" /\
    is_deprovisioner_key pv k /\ pod_gone k tr /\
    pv' = pv <| vol_Meta := (vol_Meta pv) <| om_Finalizers :=
            filter (fun f => f <> finalizer) (om_Finalizers (vol_Meta pv)) |> |>.
Proof.
  intros Hr. pose proof (wp_guard _ _ _ _ _ _ _ _ _ (pv_Reconcile_wp req []) Hr) as [Hd Hg].
  pose proof (history_of_trace tr) as Hh. split; [by eapply deleting_mono|].
  destruct Hg as (pv & k & H1 & H2 & H3 & H4 & H5 & H6). exists pv, k.
  split_and!; try done; [by eapply read_volume_mono|by eapply pod_gone_mono].
Qed.

(** C8: a volume is updated for two reasons only.  Either its claim reference
    is removed, after the claim was looked up and not found while the volume is
    not bound; or it gets the mark of the completed deprovisioner, after the
    deprovisioner Pod was read in phase Succeeded while the volume is not in
    use. *)
Theorem pv_updates req tr pv' r tr' o :
  runs (pv_Reconcile req) (tr ++ Ev (Update KPersistentVolume pv') r :: tr') o ->
  deleting req tr /\
  ((exists pv ref, read_volume pv tr /\ vol_Phase pv <> VolumeBound /\
      pvs_ClaimRef (vol_Spec pv) = Some ref /\
      missing KPersistentVolumeClaim (mkNamespacedName (or_Name ref) (or_Namespace ref)) tr /\
      pv' = (setClaimRefAnnotation pv ref) <| vol_Spec := (vol_Spec pv) <| pvs_ClaimRef := None |> |>) \/
   (exists pv a k pod, read_volume pv tr /\ released pv /\ om_Annotations (vol_Meta pv) = Some a /\
      is_deprovisioner_key pv k /\ seen_pod k pod tr /\ pod_Phase pod = PodSucceeded /\
      pv' = mark_deprovisioned pv a)).
Proof.
  intros Hr. pose proof (wp_guard _ _ _ _ _ _ _ _ _ (pv_Reconcile_wp req []) Hr) as [Hd Hg].
  pose proof (history_of_trace tr) as Hh. split; [by eapply deleting_mono|].
  destruct Hg as [(pv & ref & H1 & H2 & H3 & H4 & _ & H6)|(pv & a & k & pod & H1 & H2 & H3 & H4 & H5 & H6 & H7)].
  - left. exists pv, ref. split_and!; try done; [by eapply read_volume_mono|by eapply missing_mono].
  - right. exists pv, a, k, pod. split_and!; try done; [by eapply read_volume_mono|by apply Hh].
Qed.

(** The deprovisioner Pod is created only for a volume that is being
    deleted, not in use and not yet marked, after it was looked up and not
    found; and no run of the controller panics. *)
Theorem pv_pod_creation req tr pod r tr' o :
  runs (pv_Reconcile req) (tr ++ Ev (Create KPod pod) r :: tr') o ->
  (exists e, o = Returned e) /\ deleting req tr /\
  exists pv k, read_volume pv tr /\ released pv /\ needs_deprovisioning pv = true /\
    is_deprovisioner_key pv k /\ missing KPod k tr /\ om_key (pod_Meta pod) = k.
Proof.
  intros Hr. split; [exact (wp_post _ _ _ _ _ _ (pv_Reconcile_wp req []) Hr)|].
  pose proof (wp_guard _ _ _ _ _ _ _ _ _ (pv_Reconcile_wp req []) Hr) as [Hd Hg].
  pose proof (history_of_trace tr) as Hh. split; [by eapply deleting_mono|].
  destruct Hg as (pv & k & H1 & H2 & H3 & H4 & H5 & H6 & _). exists pv, k.
  split_and!; try done; [by eapply read_volume_mono|by eapply missing_mono].
Qed.
End Controller.

(** ** Concrete runs *)

Module PvExample.
Import PodExample TemplateExample RegistryExample TableCodec PvcExample.

(** The volume of the claim, deleted after the claim is gone. *)
Definition pv_name : NamespacedName := mkNamespacedName "pvc-u1" "".
Definition deleted_volume : PersistentVolume :=
  volume1 <| vol_Meta := (vol_Meta volume1) <| om_DeletionTimestamp := Some 1%Z |> |>
          <| vol_Phase := "Released" |>.
Definition start : cluster :=
  cluster_empty <| cl_volumes := {[pv_name := deleted_volume]} |>
    <| cl_registry := {["storage/cache" := example]} |>.

Definition step (s : cluster) : cluster := (run_cluster (pv_Reconcile "system" pv_name) s).2.
Definition trace (s : cluster) : list event := (run_cluster (pv_Reconcile "system" pv_name) s).1.1.

(** The Pod of the deprovisioner finishes. *)
Definition finish (s : cluster) : cluster :=
  s <| cl_pods := (fun p => p <| pod_Phase := PodSucceeded |>) <$> cl_pods s |>.

Definition unclaimed : cluster := step start.
Definition with_pod : cluster := step unclaimed.
Definition marked : cluster := step (finish with_pod).
Definition without_pod : cluster := step marked.
Definition freed : cluster := step without_pod.

(** The Pod runs the command of the provisioner: the deprovisioner has none, and
    the one of the template was overwritten when the claim was provisioned. *)
Example deprovisioner_runs_provisioner :
  (map (fun p => ct_Command <$> ps_Containers (pod_Spec p.2)) (map_to_list (cl_pods with_pod))) =
    [[Some ["/bin/provision"]]].
Proof. vm_compute. reflexivity. Qed.

(** Five runs free the volume. *)
Example volume_freed :
  (om_Finalizers ∘ vol_Meta) <$> cl_volumes freed !! pv_name = Some [].
Proof. vm_compute. reflexivity. Qed.

Definition volume_in (s : cluster) : PersistentVolume := default volume1 (cl_volumes s !! pv_name).
Definition pod_in (s : cluster) : Pod :=
  default pod1 (cl_pods s !! mkNamespacedName "pvc-u1-deprovisioner" "system").

Lemma pv_finalizer_removal_witness :
  trace without_pod !! 2 = Some (Ev (StatusUpdate KPersistentVolume (volume_in freed)) (Ok (volume_in freed))) /\
  exists pv, read_volume pv (take 2 (trace without_pod)) /\ released pv.
Proof.
  assert (E : trace without_pod !! 2 =
    Some (Ev (StatusUpdate KPersistentVolume (volume_in freed)) (Ok (volume_in freed))))
    by (vm_compute; reflexivity).
  split; [exact E|].
  destruct (pv_finalizer_removal "system" pv_name _ _ _ _ _ (run_cluster_at _ _ _ _ E))
    as (_ & pv & k & H1 & H2 & _). exists pv. exact (conj H1 H2).
Defined.

Lemma pv_updates_witness :
  trace (finish with_pod) !! 3 = Some (Ev (Update KPersistentVolume (volume_in marked)) (Ok (volume_in marked))) /\
  deleting pv_name (take 3 (trace (finish with_pod))).
Proof.
  assert (E : trace (finish with_pod) !! 3 =
    Some (Ev (Update KPersistentVolume (volume_in marked)) (Ok (volume_in marked))))
    by (vm_compute; reflexivity).
  split; [exact E|].
  exact (proj1 (pv_updates "system" pv_name _ _ _ _ _ (run_cluster_at _ _ _ _ E))).
Defined.

Lemma pv_pod_creation_witness :
  trace unclaimed !! 3 = Some (Ev (Create KPod (pod_in with_pod)) (Ok (pod_in with_pod))) /\
  exists pv k, read_volume pv (take 3 (trace unclaimed)) /\ released pv /\ needs_deprovisioning pv = true /\
    is_deprovisioner_key "system" pv k /\ missing KPod k (take 3 (trace unclaimed)).
Proof.
  assert (E : trace unclaimed !! 3 = Some (Ev (Create KPod (pod_in with_pod)) (Ok (pod_in with_pod))))
    by (vm_compute; reflexivity).
  split; [exact E|].
  destruct (pv_pod_creation "system" pv_name _ _ _ _ _ (run_cluster_at _ _ _ _ E))
    as (_ & _ & pv & k & H1 & H2 & H3 & H4 & H5 & _).
  exists pv, k. exact (conj H1 (conj H2 (conj H3 (conj H4 H5)))).
Defined.

End PvExample.
