(* ===== verification/PodController.v ===== *)
(** * The Pod controller ([internal/controllers/pod_controller.go])

    One run of [Reconcile] for a completed Pod: it deletes the claims that the
    Pod could write to, if their provisioner asks for it. *)

From S2P Require Import Prelude Effects Api ApiServer Utils PodTemplate Cluster PvcController.

Definition errPVCDelete : goerr := Errorf "pvc deletion failed".

(** [writeablePVCs] *)
Definition writeablePVCs (pod : Pod) : list NamespacedName :=
  omap (fun v =>
    match pv_PersistentVolumeClaim v with
    | Some pvc => if cs_ReadOnly pvc then None
                  else Some (mkNamespacedName (cs_ClaimName pvc) (om_Namespace (pod_Meta pod)))
    | None => None
    end) (ps_Volumes (pod_Spec pod)).

(** The predicate of [SetupWithManager]: the Pods the controller handles. *)
Definition podCompleted (pod : Pod) : bool :=
  let podFailed := pod_Phase pod ==? PodFailed in
  let podSucceeded := pod_Phase pod ==? PodSucceeded in
  let policy := ps_RestartPolicy (pod_Spec pod) in
  let finished := ((policy ==? RestartPolicyNever) && (podSucceeded || podFailed)) ||
                  ((policy ==? RestartPolicyOnFailure) && podSucceeded) in
  finished && (0 <? length (writeablePVCs pod)).

Definition hasAccessMode (pvc : PersistentVolumeClaim) (mode : string) : bool :=
  match pvc_AccessModes pvc with
  | [m] => m ==? mode
  | _ => false
  end.

(** [setAnnotation]: the new annotations and whether they changed; a nil map
    that needs no change stays nil. *)
Definition setAnnotation (a : strmap) (key value : string) : strmap * bool :=
  if map_index a key !=? value then (Some (<[key := value]> (default ∅ a)), true) else (a, false).

(** [shouldDelete] *)
Definition shouldDelete (pvc : PersistentVolumeClaim) : prog bool :=
  if negb (hasAccessMode pvc ReadWriteOnce) || (om_Annotations (pvc_Meta pvc) ==? None) then Ret false
  else
    let! p := call (ProvisionersGet (map_index (om_Annotations (pvc_Meta pvc)) annStorageProvisioner)) in
    match p with
    | None => Ret false
    | Some p => Ret (sps_DeprovisionOnPodCompletion (sp_Spec p))
    end.

(** The error of the run after a call for one claim failed with [e]. *)
Definition record_error (e : goerr) (err : option goerr) : option goerr :=
  if negb (IsNotFound e) then Some errPVCDelete else err.

(** The body of the loop over the claims. *)
Definition reconcile_claim (pvcName : NamespacedName) (err : option goerr) : prog (option goerr) :=
  let! r := call (Get KPersistentVolumeClaim pvcName) in
  match r with
  | Err e => Ret (record_error e err)
  | Ok pvc =>
      let! del := shouldDelete pvc in
      if negb del then Ret err
      else
        let '(a, changed) := setAnnotation (om_Annotations (pvc_Meta pvc))
                               AnnotationPersistentVolumeClaimNoProtection Enabled in
        let pvc := pvc <| pvc_Meta := (pvc_Meta pvc) <| om_Annotations := a |> |> in
        let! r := if changed then call (Update KPersistentVolumeClaim pvc) else Ret (Ok pvc) in
        match r with
        | Err e => Ret (record_error e err)
        | Ok pvc =>
            match om_DeletionTimestamp (pvc_Meta pvc) with
            | Some _ => Ret err
            | None =>
                let! e := call (Delete KPersistentVolumeClaim pvc) in
                match e with
                | Some e => Ret (record_error e err)
                | None => Ret err
                end
            end
        end
  end.

Fixpoint reconcile_claims (names : list NamespacedName) (err : option goerr) : prog (option goerr) :=
  match names with
  | [] => Ret err
  | n :: names => let! err := reconcile_claim n err in reconcile_claims names err
  end.

Definition pod_Reconcile (req : NamespacedName) : prog (option goerr) :=
  let! r := call (Get KPod req) in
  match r with
  | Err err => if IsNotFound err then Ret None else Ret (Some err)
  | Ok pod => reconcile_claims (writeablePVCs pod) None
  end.

(** ** What the controller does to the cluster *)

(** The claim is one that the Pod could write to, as the run has read it, and
    its provisioner wants it deleted with the Pod. *)
Definition disposable (req : NamespacedName) (pvc : PersistentVolumeClaim) (h : list event) : Prop :=
  exists pod n p, Ev (Get KPod req) (Ok pod) ∈ h /\ n ∈ writeablePVCs pod /\
    Ev (Get KPersistentVolumeClaim n) (Ok pvc) ∈ h /\ pvc_AccessModes pvc = [ReadWriteOnce] /\
    Ev (ProvisionersGet (map_index (om_Annotations (pvc_Meta pvc)) annStorageProvisioner)) (Some p) ∈ h /\
    sps_DeprovisionOnPodCompletion (sp_Spec p) = true.

(** The claim with the annotation that gives up its protection. *)
Definition unprotected (pvc : PersistentVolumeClaim) : PersistentVolumeClaim :=
  pvc <| pvc_Meta := (pvc_Meta pvc) <| om_Annotations :=
    (setAnnotation (om_Annotations (pvc_Meta pvc)) AnnotationPersistentVolumeClaimNoProtection Enabled).1 |> |>.

Definition pod_guard (req : NamespacedName) (h : list event) (c : cmd) : Prop :=
  match c with
  | Update KPersistentVolumeClaim o => exists pvc, disposable req pvc h /\ o = unprotected pvc
  | Delete KPersistentVolumeClaim o =>
      om_DeletionTimestamp (pvc_Meta o) = None /\
      exists pvc, disposable req pvc h /\
        ((o = pvc /\ map_index (om_Annotations (pvc_Meta pvc)) AnnotationPersistentVolumeClaimNoProtection
                       = Enabled) \/
         Ev (Update KPersistentVolumeClaim (unprotected pvc)) (Ok o) ∈ h)
  | Get _ _ | ProvisionersGet _ => True
  | _ => False
  end.

Lemma disposable_mono req pvc h h' : h ⊆ h' -> disposable req pvc h -> disposable req pvc h'.
Proof.
  intros Hs (pod & n & p & H1 & H2 & H3 & H4 & H5 & H6). exists pod, n, p.
  split_and!; try done; by apply Hs.
Qed.

Lemma hasAccessMode_spec pvc mode : hasAccessMode pvc mode = true <-> pvc_AccessModes pvc = [mode].
Proof.
  unfold hasAccessMode. destruct (pvc_AccessModes pvc) as [|m [|? ?]]; try done.
  rewrite bool_decide_eq_true. naive_solver.
Qed.

Lemma shouldDelete_wp req pvc h :
  wp (shouldDelete pvc) (pod_guard req) (fun h' o => exists b, o = Returned b /\
    (b = true -> pvc_AccessModes pvc = [ReadWriteOnce] /\ exists p,
      Ev (ProvisionersGet (map_index (om_Annotations (pvc_Meta pvc)) annStorageProvisioner)) (Some p) ∈ h' /\
      sps_DeprovisionOnPodCompletion (sp_Spec p) = true)) h.
Proof.
  unfold shouldDelete. destruct (_ || _) eqn:E; [by eexists|].
  apply orb_false_iff in E as [E _]. apply negb_false_iff, hasAccessMode_spec in E.
  repeat wp_go; try done; eexists; (split; [done|]); try done.
  intros Hb. split; [done|]. eexists. split; [apply list_elem_of_here|done].
Qed.

Lemma setAnnotation_spec a key value :
  let '(a', changed) := setAnnotation a key value in
  (value <> "" -> map_index a' key = value) /\
  (changed = false -> a' = a /\ map_index a key = value) /\
  (forall k, k <> key -> map_index a' k = map_index a k).
Proof.
  unfold setAnnotation. destruct (bool_decide_reflect (map_index a key = value)) as [He|He]; cbn [negb].
  - by split_and!.
  - split_and!; [by rewrite map_index_insert|done|].
    intros k Hk. rewrite map_index_insert_ne by done. by destruct a.
Qed.

Lemma reconcile_claim_wp req pod n err h :
  Ev (Get KPod req) (Ok pod) ∈ h -> n ∈ writeablePVCs pod ->
  wp (reconcile_claim n err) (pod_guard req)
    (fun _ o => o = Returned err \/ o = Returned (Some errPVCDelete)) h.
Proof.
  intros Hpod Hn. unfold reconcile_claim.
  assert (Hrec : forall e, Returned (record_error e err) = Returned err \/
    Returned (record_error e err) = Returned (Some errPVCDelete)).
  { intros e. unfold record_error. destruct (negb _); auto. }
  unfold call. rewrite wp_bind. cbn [wp]. split; [done|]. intros [pvc|e]; [|apply Hrec].
  set (h0 := Ev (S := KubeSig) (Get KPersistentVolumeClaim n) (Ok pvc) :: h). assert (Hs0 : h ⊆ h0) by (intros ev Hev; by apply list_elem_of_further).
  rewrite wp_bind. eapply wp_frame; [apply shouldDelete_wp|done|].
  intros h1 o Hs1 (b & -> & Hb). cbn [wp]. destruct b; cbn [negb wp]; [|by left].
  destruct (Hb eq_refl) as (Hmode & p & Hp & Hdel).
  assert (Hdis : disposable req pvc h1).
  { exists pod, n, p. split_and!; try done; [by apply Hs1, Hs0|apply Hs1, list_elem_of_here]. }
  pose proof (setAnnotation_spec (om_Annotations (pvc_Meta pvc))
    AnnotationPersistentVolumeClaimNoProtection Enabled) as Hset.
  assert (Hun : unprotected pvc = pvc <| pvc_Meta := (pvc_Meta pvc) <| om_Annotations :=
    (setAnnotation (om_Annotations (pvc_Meta pvc)) AnnotationPersistentVolumeClaimNoProtection Enabled).1 |> |>)
    by done.
  destruct (setAnnotation _ _ _) as [a changed]. cbn [fst] in Hun. rewrite <- Hun.
  assert (Hfinal : forall o h2, h1 ⊆ h2 ->
    ((o = pvc /\ map_index (om_Annotations (pvc_Meta pvc)) AnnotationPersistentVolumeClaimNoProtection
                   = Enabled) \/ Ev (Update KPersistentVolumeClaim (unprotected pvc)) (Ok o) ∈ h2) ->
    wp (match om_DeletionTimestamp (pvc_Meta o) with
        | Some _ => Ret err
        | None => let! e := call (Delete KPersistentVolumeClaim o) in
            match e with Some e => Ret (record_error e err) | None => Ret err end
        end) (pod_guard req) (fun _ o => o = Returned err \/ o = Returned (Some errPVCDelete)) h2).
  { intros o h2 Hs2 Hcase. destruct (om_DeletionTimestamp (pvc_Meta o)) eqn:Ed; [by left|].
    unfold call. rewrite wp_bind. cbn [wp]. split.
    - split; [done|]. exists pvc. split; [by eapply disposable_mono|done].
    - intros [e|]; [apply Hrec|by left]. }
  rewrite wp_bind. destruct changed; cbn [wp].
  - split; [by exists pvc|]. intros [o|e]; [|apply Hrec].
    apply Hfinal; [intros ev Hev; by apply list_elem_of_further|]. right. apply list_elem_of_here.
  - destruct Hset as (_ & Hset & _). destruct (Hset eq_refl) as [-> Hen].
    assert (unprotected pvc = pvc) as -> by (rewrite Hun; by destruct pvc as [[] ? ? ? ? ?]).
    apply Hfinal; [done|]. by left.
Qed.

Lemma reconcile_claims_wp req pod names err h :
  Ev (Get KPod req) (Ok pod) ∈ h -> names ⊆ writeablePVCs pod ->
  wp (reconcile_claims names err) (pod_guard req)
    (fun _ o => o = Returned err \/ o = Returned (Some errPVCDelete)) h.
Proof.
  revert err h. induction names as [|n names IH]; intros err h Hpod Hsub; [by left|].
  cbn [reconcile_claims]. rewrite wp_bind.
  eapply wp_frame; [eapply reconcile_claim_wp; [done|apply Hsub, list_elem_of_here]|done|].
  assert (Hsub' : names ⊆ writeablePVCs pod) by (intros m Hm; by apply Hsub, list_elem_of_further).
  intros h1 o Hs1 [->| ->]; cbn [wp]; (eapply wp_mono; [by apply IH; [apply Hs1|]|done|]);
    intros h2 o' [->| ->]; auto.
Qed.

Lemma pod_Reconcile_wp req h :
  wp (pod_Reconcile req) (pod_guard req) (fun _ o => exists e, o = Returned e) h.
Proof.
  unfold pod_Reconcile, call. rewrite wp_bind. cbn [wp]. split; [done|]. intros [pod|e].
  - eapply wp_mono; [apply reconcile_claims_wp with (pod := pod); [apply list_elem_of_here|done]|done|].
    intros h' o [->| ->]; by eexists.
  - destruct (IsNotFound e); by eexists.
Qed.


(** ** One claim does not affect another *)

(** A call for a claim failed, for another reason than that it is gone. *)
Definition claim_failure (e : event) : bool :=
  match e with
  | Ev (Get KPersistentVolumeClaim _) (Err e) => negb (IsNotFound e)
  | Ev (Update KPersistentVolumeClaim _) (Err e) => negb (IsNotFound e)
  | Ev (Delete KPersistentVolumeClaim _) (Some e) => negb (IsNotFound e)
  | _ => false
  end.

Definition claim_lookup (e : event) : option NamespacedName :=
  match ev_cmd e with Get KPersistentVolumeClaim n => Some n | _ => None end.

(** The error of the run as a function of its history. *)
Definition history_error (h : list event) : option goerr :=
  if existsb claim_failure h then Some errPVCDelete else None.

Lemma reconcile_claim_error n h :
  wp (reconcile_claim n (history_error h)) (fun _ _ => True)
    (fun h' o => o = Returned (history_error h') /\ omap claim_lookup h' = n :: omap claim_lookup h) h.
Proof.
  unfold reconcile_claim, shouldDelete. set (err := history_error h).
  repeat wp_go; try done; (split; [f_equal|done]); unfold err, history_error, record_error; simpl;
    repeat (destruct (IsNotFound _); simpl); done.
Qed.

Lemma reconcile_claims_error names h :
  wp (reconcile_claims names (history_error h)) (fun _ _ => True)
    (fun h' o => o = Returned (history_error h') /\
       omap claim_lookup h' = rev names ++ omap claim_lookup h) h.
Proof.
  revert h. induction names as [|n names IH]; intros h; [by split|].
  cbn [reconcile_claims]. rewrite wp_bind. eapply wp_mono; [apply reconcile_claim_error|done|].
  intros h1 o [-> Hl]. cbn [wp]. eapply wp_mono; [apply IH|done|].
  intros h2 o [-> Hl2]. split; [done|]. rewrite Hl2, Hl. simpl. by rewrite <- app_assoc.
Qed.

Lemma existsb_rev {A} (f : A -> bool) (l : list A) : existsb f (rev l) = existsb f l.
Proof.
  induction l as [|x l IH]; [done|]. simpl. rewrite existsb_app, IH. simpl.
  by rewrite orb_false_r, orb_comm.
Qed.

(** Every claim that the Pod could write to is looked up, in the order of
    the volumes, whatever happened to the ones before it; the run fails iff some
    call for a claim failed for another reason than that the claim is gone. *)
Theorem pod_claims_independent req tr o :
  runs (pod_Reconcile req) tr o ->
  (exists pod, Ev (Get KPod req) (Ok pod) ∈ tr /\ omap claim_lookup tr = writeablePVCs pod /\
     o = Returned (if existsb claim_failure tr then Some errPVCDelete else None)) \/
  (exists e, tr = [Ev (Get KPod req) (Err e)] /\ o = Returned (if IsNotFound e then None else Some e)).
Proof.
  intros (y & tr' & -> & Hr). destruct y as [pod|e].
  - left. exists pod. split; [apply list_elem_of_here|]. cbn [bind call] in Hr.
    pose proof (wp_post _ _ _ _ _ _ (reconcile_claims_error (writeablePVCs pod) []) Hr) as [-> Hl].
    rewrite !app_nil_r, omap_rev in Hl. split.
    + change (omap claim_lookup tr' = writeablePVCs pod). apply (f_equal (@rev _)) in Hl.
      by rewrite !rev_involutive in Hl.
    + unfold history_error. simpl. by rewrite app_nil_r, existsb_rev.
  - right. exists e. cbn [bind call] in Hr. by destruct (IsNotFound e); destruct Hr as [-> ->].
Qed.

(** ** Concrete runs *)

Module PodControllerExample.
Import PodExample PvcExample.

Definition worker : Pod :=
  mkPod (ObjectMeta_zero <| om_Name := "worker" |> <| om_Namespace := "default" |>)
    (mkPodSpec "" RestartPolicyNever "" []
       [mkPodVolume "tmp" None "emptyDir"; mkPodVolume "cache" (Some (mkClaimSource "claim1" false)) ""])
    PodSucceeded.
Definition worker_key : NamespacedName := mkNamespacedName "worker" "default".
Definition eager : StorageProvisioner :=
  example <| sp_Spec := (sp_Spec example) <| sps_DeprovisionOnPodCompletion := true |> |>.
Definition completed : cluster :=
  cluster_empty <| cl_pods := {[worker_key := worker]} |> <| cl_claims := {[claim_key := claim1]} |>
    <| cl_registry := {["storage/cache" := eager]} |>.

Definition trace := (run_cluster (pod_Reconcile worker_key) completed).1.1.


Lemma pod_claims_independent_witness :
  (run_cluster (pod_Reconcile worker_key) completed).1.2 = Returned None /\
  ((exists pod, Ev (Get KPod worker_key) (Ok pod) ∈ trace /\ omap claim_lookup trace = writeablePVCs pod /\
     Returned None = Returned (if existsb claim_failure trace then Some errPVCDelete else None)) \/
   (exists e, trace = [Ev (Get KPod worker_key) (Err e)] /\
     Returned None = Returned (if IsNotFound e then None else Some e))).
Proof.
  assert (E : (run_cluster (pod_Reconcile worker_key) completed).1.2 = Returned None)
    by (vm_compute; reflexivity).
  split; [exact E|]. apply (pod_claims_independent worker_key). exact (run_cluster_runs _ _ _ E).
Defined.

End PodControllerExample.
