(* ===== verification/ProvisionerController.v ===== *)
(** * The StorageProvisioner controller ([internal/controllers/storageprovisioner_controller.go])

    One run of [Reconcile] for a provisioner: it is put into the shared registry
    and its condition [Configured] says whether it was accepted. *)

From S2P Require Import Prelude Effects Api GoPath Template Utils PodTemplate Registry.

(** The predicate of [SetupWithManager]. *)
Definition in_namespace (namespace : string) (o : ObjectMeta) : bool :=
  (namespace ==? "") || (om_Namespace o ==? namespace).

Definition configured (config : StorageProvisioner) (err : option goerr) : Condition :=
  match err with
  | Some e => mkCondition ConditionConfigured ConditionFalse (om_Generation (sp_Meta config)) 0
                "InvalidProvisioner" (Error e)
  | None => mkCondition ConditionConfigured ConditionTrue (om_Generation (sp_Meta config)) 0
              "Success" "provisioner configured"
  end.

Definition sp_Reconcile (req : NamespacedName) : prog (option goerr) :=
  let! r := call (Get KStorageProvisioner req) in
  match r with
  | Err err =>
      if IsNotFound err then
        (* the object that was to be filled is still empty *)
        do! call (ProvisionersDelete StorageProvisioner_zero) in
        Ret None
      else Ret (Some err)
  | Ok config =>
      let! err := call (ProvisionersPut config) in
      let! clock := call Clock in
      let '(conditions, changed) := SetCondition (sp_Conditions config) (configured config err) (clock 0) in
      if changed then
        let! r := call (StatusUpdate KStorageProvisioner (config <| sp_Conditions := conditions |>)) in
        Ret (err_of r)
      else Ret None
  end.

Section WithRegistry.
Context `{!Converter StorageProvisioner, !EnvSubst}.

(** The registry after the calls of a trace. *)
Definition registry_call (r : registry) (e : event) : registry :=
  match ev_cmd e with
  | ProvisionersPut p => (Put r p).1
  | ProvisionersDelete p => Remove r p
  | _ => r
  end.

Definition registry_after (r : registry) (tr : list event) : registry := foldl registry_call r tr.

(** The answers of the trace are those of the registry. *)
Fixpoint registry_answers (r : registry) (tr : list event) : Prop :=
  match tr with
  | [] => True
  | e :: tr =>
      match e with
      | Ev (ProvisionersGet n) x => x = Lookup r n
      | Ev (ProvisionersPut p) x => x = (Put r p).2
      | _ => True
      end /\ registry_answers (registry_call r e) tr
  end.

Definition provisioner_answer (e : event) : option (result StorageProvisioner) :=
  match e with Ev (Get KStorageProvisioner _) x => Some x | _ => None end.

(** The first call of a run and its answer. *)
Lemma sp_Reconcile_first req x tr o :
  runs (sp_Reconcile req) (Ev (Get KStorageProvisioner req) x :: tr) o ->
  runs (match x with
        | Err err =>
            if IsNotFound err then do! call (ProvisionersDelete StorageProvisioner_zero) in Ret None
            else Ret (Some err)
        | Ok config =>
            let! err := call (ProvisionersPut config) in
            let! clock := call Clock in
            let '(conditions, changed) :=
              SetCondition (sp_Conditions config) (configured config err) (clock 0) in
            if changed then
              let! r := call (StatusUpdate KStorageProvisioner (config <| sp_Conditions := conditions |>)) in
              Ret (err_of r)
            else Ret None
        end) tr o.
Proof.
  intros (y & tr' & Heq & Hr). pose proof (f_equal (fun l => provisioner_answer <$> head l) Heq) as Hx.
  apply (f_equal tail) in Heq. simpl in Hx, Heq. injection Hx as <-. by subst tr'.
Qed.

Lemma configured_status config err :
  cd_Type (configured config err) = ConditionConfigured /\
  (cd_Status (configured config err) = ConditionTrue <-> err = None).
Proof. by destruct err. Qed.

(** C31: a provisioner that is read is put into the registry as it was read, and
    the condition that is written says whether the registry accepted it: its
    status is True iff it is registered now.  Nothing is written if the
    condition is already stored. *)
Theorem sp_condition_reflects_registry req config tr o r :
  runs (sp_Reconcile req) (Ev (Get KStorageProvisioner req) (Ok config) :: tr) o ->
  registry_answers r tr ->
  exists clock, let err := (Put r config).2 in
    let '(conditions, changed) := SetCondition (sp_Conditions config) (configured config err) (clock 0) in
    registry_after r tr = (Put r config).1 /\
    (exists c, GetCondition conditions ConditionConfigured = Some c /\
      (cd_Status c = ConditionTrue <-> err = None)) /\
    if changed then exists x, o = Returned (err_of x) /\
      tr = [Ev (ProvisionersPut config) err; Ev Clock clock;
            Ev (StatusUpdate KStorageProvisioner (config <| sp_Conditions := conditions |>)) x]
    else tr = [Ev (ProvisionersPut config) err; Ev Clock clock] /\ o = Returned None.
Proof.
  intros Hr Ha. apply sp_Reconcile_first in Hr. cbn [bind call runs] in Hr.
  destruct Hr as (err & t1 & -> & clock & t2 & -> & Hr).
  destruct Ha as [-> Ha].
  exists clock. cbv zeta. pose proof (SetCondition_get (sp_Conditions config)
    (configured config (Put r config).2) (clock 0)) as Hget.
  destruct (configured_status config (Put r config).2) as [Hty Hst]. rewrite Hty in Hget.
  destruct (SetCondition _ _ _) as [conditions changed]. cbn [fst] in Hget.
  assert (Hc : exists c, GetCondition conditions ConditionConfigured = Some c /\
    (cd_Status c = ConditionTrue <-> (Put r config).2 = None)).
  { eexists. split; [exact Hget|]. exact Hst. }
  destruct changed; cbn [bind call runs] in Hr.
  - destruct Hr as (x & t3 & -> & -> & ->). split; [done|]. split; [done|]. by exists x.
  - destruct Hr as [-> ->]. by split_and!.
Qed.

(** When a provisioner has been deleted from the cluster, the controller
    deletes the registration of the empty name: every registered provisioner,
    the deleted one included, stays registered. *)
Theorem deleted_provisioner_stays_registered req e tr o r name :
  runs (sp_Reconcile req) (Ev (Get KStorageProvisioner req) (Err e) :: tr) o ->
  IsNotFound e = true -> name <> "" ->
  o = Returned None /\ Lookup (registry_after r tr) name = Lookup r name.
Proof.
  intros Hr He Hn. apply sp_Reconcile_first in Hr. rewrite He in Hr.
  cbn [bind call runs] in Hr. destruct Hr as (x & t & -> & -> & ->). split; [done|].
  unfold registry_after, registry_call, Remove, Lookup. simpl. by rewrite lookup_delete_ne.
Qed.

End WithRegistry.

(** ** Concrete runs *)

Module ProvisionerControllerExample.
Import PodExample TemplateExample RegistryExample.

Definition key : NamespacedName := mkNamespacedName "cache" "".
Definition config : StorageProvisioner := example.

(** The cluster answers [x] for the provisioner; the registry is [r]. *)
Definition handle (x : result StorageProvisioner) (c : kcmd) : registry -> kresp c * registry :=
  match c as c0 return registry -> kresp c0 * registry with
  | Get KStorageProvisioner _ => fun r => (x, r)
  | ProvisionersPut p => fun r => ((Put r p).2, (Put r p).1)
  | ProvisionersDelete p => fun r => (tt, Remove r p)
  | StatusUpdate k o => fun r => (Ok o, r)
  | c => fun r => (kresp_default c, r)
  end.

Definition run (x : result StorageProvisioner) (r : registry) :=
  exec (S := KubeSig) (handle x) (sp_Reconcile key) r.

Definition gone : goerr := ApiErr ReasonNotFound "not found".

Lemma sp_condition_reflects_registry_witness :
  exists tr, runs (sp_Reconcile key) (Ev (Get KStorageProvisioner key) (Ok config) :: tr) (Returned None) /\
    (Put ∅ config).2 = None /\ registry_after ∅ tr = (Put ∅ config).1.
Proof.
  pose (tr := tail (run (Ok config) ∅).1.1). exists tr.
  assert (Hr : runs (sp_Reconcile key) (Ev (Get KStorageProvisioner key) (Ok config) :: tr) (Returned None)).
  { exact (exec_runs_proj (S := KubeSig) (handle (Ok config)) (sp_Reconcile key) ∅). }
  assert (Ha : registry_answers ∅ tr) by (vm_compute; repeat split).
  split; [exact Hr|]. split; [vm_compute; reflexivity|].
  destruct (sp_condition_reflects_registry key config tr (Returned None) ∅ Hr Ha) as (clock & H).
  cbv zeta in H. destruct (SetCondition _ _ _) as [conditions changed]. exact (proj1 H).
Defined.

Lemma deleted_provisioner_stays_registered_witness :
  Lookup (run (Err gone) (registry_run [OpPut example])).2 "storage/cache" = Some example /\
  exists tr, Lookup (registry_after (registry_run [OpPut example]) tr) "storage/cache" =
    Lookup (registry_run [OpPut example]) "storage/cache".
Proof.
  split; [vm_compute; reflexivity|].
  exists (tail (run (Err gone) (registry_run [OpPut example])).1.1).
  apply (deleted_provisioner_stays_registered key gone _ (Returned None)).
  - exact (exec_runs_proj (S := KubeSig) (handle (Err gone)) (sp_Reconcile key) (registry_run [OpPut example])).
  - reflexivity.
  - discriminate.
Defined.

End ProvisionerControllerExample.
