(* ===== verification/CacheController.v ===== *)
(** * The Cache controller ([internal/controllers/cache_controller.go])

    One run of [Reconcile] for a cache.  The object [cache] is updated in place
    by the calls; the operations return it.  [time.Now()] is read once per
    [Clock] call. *)

From S2P Require Import Prelude Effects Api ApiServer CacheConcurrency Utils Job Cluster.

Definition annCacheName := "k8storagex.mgoltzsche.github.com/cache-name".
Definition annCacheNamespace := "k8storagex.mgoltzsche.github.com/cache-namespace".

Definition with_conditions (cache : Cache) (l : list Condition) : Cache :=
  cache <| c_Status := (c_Status cache) <| st_Conditions := l |> |>.

(** [utils.SetCondition] on the conditions of the cache. *)
Definition set_cache_condition (cache : Cache) (typ status reason message : string) : prog (Cache * bool) :=
  let! clock := call Clock in
  let '(l, changed) := SetCondition (st_Conditions (c_Status cache))
    (mkCondition typ status (om_Generation (c_Meta cache)) 0 reason message) (clock 0) in
  Ret (with_conditions cache l, changed).

Definition setPodsClearedCondition (cache : Cache) (status reason message : string) : prog (Cache * bool) :=
  set_cache_condition cache ConditionPodsCleared status reason message.

(** A status write; the answer replaces the object. *)
Definition update_status (cache : Cache) : prog (Cache * option goerr) :=
  let! r := call (StatusUpdate KCache cache) in
  match r with
  | Ok cache => Ret (cache, None)
  | Err err => Ret (cache, Some err)
  end.

Section Controller.
Context (ManagerNamespace ServiceAccountName : string).

Definition imageUntagPodName (cache : Cache) : string := om_Name (c_Meta cache).

(** [CacheReconciler.deletePod]: an error as long as the Pod exists. *)
Definition cache_deletePod (name : string) : prog (option goerr) :=
  let! r := call (Get KPod (mkNamespacedName name ManagerNamespace)) in
  match r with
  | Err err => if IsNotFound err then Ret None else Ret (Some err)
  | Ok pod =>
      let! err := call (Delete KPod pod) in
      match err with
      | None => Ret (Some (Errorf "pod deletion pending"))
      | Some _ => Ret err
      end
  end.

Fixpoint delete_pods_loop (podNames : list string) (err : option goerr) : prog (option goerr) :=
  match podNames with
  | [] => Ret err
  | pod :: podNames =>
      let! e := cache_deletePod pod in
      delete_pods_loop podNames (match e, err with Some _, None => e | _, _ => err end)
  end.

(** [deletePods] *)
Definition deletePods (cache : Cache) (podNames : list string) : prog (Cache * option goerr) :=
  let cleared := match GetCondition (st_Conditions (c_Status cache)) ConditionPodsCleared with
                 | Some c => cd_Status c ==? ConditionTrue
                 | None => false
                 end in
  if cleared then Ret (cache, None)
  else
    let! err := delete_pods_loop podNames None in
    let! (cache, changed) :=
      match err with
      | Some e => setPodsClearedCondition cache ConditionFalse "PodDeletionFailed" (Error e)
      | None => setPodsClearedCondition cache ConditionTrue "Completed" "all pods removed"
      end in
    if changed then
      let! (cache, e) := update_status cache in
      Ret (cache, match e, err with Some _, None => e | _, _ => err end)
    else Ret (cache, err).

(** The [create] callback of [freeStorage]: it locks the cache and reads it
    again. *)
Definition untag_pod (cache : Cache) : Pod :=
  mkPod (ObjectMeta_zero <| om_Annotations := Some (<[annCacheName := om_Name (c_Meta cache)]>
                              (<[annCacheNamespace := om_Namespace (c_Meta cache)]> ∅)) |>)
    (mkPodSpec "" RestartPolicyNever ServiceAccountName
       [mkContainer "image-untagger" "TODO" None ["untag image within registry"] [] []] []) "".

Definition lock_cache (cache : Cache) : Cache :=
  cache <| c_Status := (c_Status cache) <| st_CacheGeneration := int64 (st_CacheGeneration (c_Status cache) + 1) |>
                                        <| st_Phase := CachePhaseReject |> |>.

Definition untag_create (cache : Cache) : prog (Cache * result Pod) :=
  let pod := untag_pod cache in
  let! (cache, changed) := setPodsClearedCondition cache ConditionFalse "PodDeletionPending"
                             "new reset pod will be removed on success" in
  if (st_Phase (c_Status cache) !=? CachePhaseReject) || changed then
    let! (cache, err) := update_status (lock_cache cache) in
    match err with
    | Some err => Ret (cache, Err err)
    | None =>
        let! r := call (Get KCache (om_key (c_Meta cache))) in
        match r with
        | Ok cache => Ret (cache, Ok pod)
        | Err err => Ret (cache, Err err)
        end
    end
  else Ret (cache, Ok pod).

(** The cache after a reset that is taken for successful. *)
Definition reset_done (cache : Cache) (now : Time) : Cache :=
  cache <| c_Status := (c_Status cache) <| st_Phase := CachePhaseReady |>
     <| st_LastReset := Some (mkResetStatus (om_Generation (c_Meta cache)) now) |> |>.

(** The end of [freeStorage] after the Pod could not be reconciled. *)
Definition reset_failed (cache : Cache) (done : bool) (err : goerr) : prog (Cache * option goerr) :=
  let! (cache, changed) := set_cache_condition cache ConditionStorageReset ConditionFalse
                             "PendingImageDeletion" (Error err) in
  let! (cache, e) := if changed then update_status cache else Ret (cache, None) in
  match e with
  | Some _ => Ret (cache, e)
  | None => Ret (cache, if done then None else Some err)
  end.

(** The end of [freeStorage] without an error; whether the Pod is done is not
    asked. *)
Definition reset_succeeded (cache : Cache) (podName : string) : prog (Cache * option goerr) :=
  let! (cache, _) := set_cache_condition cache ConditionStorageReset ConditionTrue
                       "Success" "Cache image has been untagged" in
  let! clock := call Clock in
  let! (cache, err) := update_status (reset_done cache (clock 0)) in
  match err with
  | Some _ => Ret (cache, err)
  | None => deletePods cache [podName]
  end.

(** [freeStorage] *)
Definition freeStorage (cache : Cache) : prog (Cache * option goerr) :=
  let podName := imageUntagPodName cache in
  let already := match st_LastReset (c_Status cache) with
                 | Some r => (rs_CacheGeneration r =? st_CacheGeneration (c_Status cache))%Z
                 | None => false
                 end in
  if already then deletePods cache [podName]
  else
    let! (cache, (done, _, err)) :=
      ReconcilePod (mkNamespacedName podName ManagerNamespace) untag_create cache in
    match err with
    | Some e => reset_failed cache done e
    | None => reset_succeeded cache podName
    end.

(** [finalize] *)
Definition cache_finalize (cache : Cache) : prog (option goerr) :=
  let! (cache, err) := freeStorage cache in
  match err with
  | Some _ => Ret err
  | None =>
      let '(finalizers, removed) := RemoveString (om_Finalizers (c_Meta cache)) CacheFinalizer in
      if removed then
        let! (_, err) := update_status (cache <| c_Meta := (c_Meta cache) <| om_Finalizers := finalizers |> |>) in
        Ret err
      else Ret None
  end.

Definition cache_Reconcile (req : NamespacedName) : prog (option goerr) :=
  let! r := call (Get KCache req) in
  match r with
  | Err err => if IsNotFound err then Ret None else Ret (Some err)
  | Ok cache =>
      match om_DeletionTimestamp (c_Meta cache) with
      | Some _ => cache_finalize cache
      | None =>
          let '(finalizers, added) := AddString (om_Finalizers (c_Meta cache)) CacheFinalizer in
          if added then
            let! r := call (Update KCache (cache <| c_Meta := (c_Meta cache) <| om_Finalizers := finalizers |> |>)) in
            Ret (err_of r)
          else Ret None
      end
  end.


(** ** What the controller does to the cluster *)

(** The cache was locked: this run has read or written it in phase reject. *)
Definition locked (h : list event) : Prop :=
  (exists n cache, Ev (Get KCache n) (Ok cache) ∈ h /\ st_Phase (c_Status cache) = CachePhaseReject) \/
  (exists o stored, Ev (StatusUpdate KCache o) (Ok stored) ∈ h /\ st_Phase (c_Status o) = CachePhaseReject).

Definition cache_guard (h : list event) (c : cmd) : Prop :=
  match c with
  | Create KPod pod => locked h /\ ps_ServiceAccountName (pod_Spec pod) = ServiceAccountName
  | Delete KPod pod => exists n, seen_pod n pod h
  | Get _ _ | StatusUpdate KCache _ | Clock => True
  | _ => False
  end.

Lemma locked_mono h h' : h ⊆ h' -> locked h -> locked h'.
Proof.
  intros Hs [(n & c & H1 & H2)|(o & st & H1 & H2)].
  - left. exists n, c. split; [by apply Hs|done].
  - right. exists o, st. split; [by apply Hs|done].
Qed.

Lemma set_cache_condition_wp cache typ status reason message h :
  wp (set_cache_condition cache typ status reason message) cache_guard
    (fun h' o => exists cache' changed, o = Returned (cache', changed) /\
       st_Phase (c_Status cache') = st_Phase (c_Status cache)) h.
Proof.
  unfold set_cache_condition, call. rewrite wp_bind. cbn [wp]. split; [done|]. intros clock.
  destruct (SetCondition _ _ _) as [l ch]. by do 2 eexists.
Qed.

Lemma update_status_wp cache h :
  wp (update_status cache) cache_guard
    (fun h' o => exists cache' err, o = Returned (cache', err) /\
       (err = None -> Ev (StatusUpdate KCache cache) (Ok cache') ∈ h')) h.
Proof.
  unfold update_status, call. rewrite wp_bind. cbn [wp]. split; [done|].
  intros [c|e]; do 2 eexists; (split; [done|]); [intros _; apply list_elem_of_here|done].
Qed.

Lemma delete_pods_loop_wp names err h :
  wp (delete_pods_loop names err) cache_guard (fun _ o => exists e, o = Returned e) h.
Proof.
  revert err h. induction names as [|n names IH]; intros err h; [by eexists|].
  cbn [delete_pods_loop]. rewrite wp_bind. unfold cache_deletePod.
  repeat (wp_go; try done); try apply IH. eexists. apply list_elem_of_here.
Qed.

Definition returns {A} (o : outcome A) : Prop := exists a, o = Returned a.

Lemma set_then_update_wp cache typ st rs ms (f : Cache -> option goerr -> Cache * option goerr) h :
  wp (let! (cache, changed) := set_cache_condition cache typ st rs ms in
      if changed then let! (cache, e) := update_status cache in Ret (f cache e)
      else Ret (f cache None)) cache_guard (fun _ => returns) h.
Proof.
  rewrite wp_bind. eapply wp_mono; [apply set_cache_condition_wp|done|].
  intros h2 o (c & ch & -> & _). cbn [wp]. destruct ch; [|by eexists].
  rewrite wp_bind. eapply wp_mono; [apply update_status_wp|done|].
  intros h3 o (c' & e & -> & _). by eexists.
Qed.

Lemma deletePods_wp cache names h : wp (deletePods cache names) cache_guard (fun _ => returns) h.
Proof.
  unfold deletePods. case_match; [by eexists|].
  rewrite wp_bind. eapply wp_mono; [apply delete_pods_loop_wp|done|].
  intros h1 o [err ->]. cbn [wp]. unfold setPodsClearedCondition.
  pose proof (fun st rs ms => set_then_update_wp cache ConditionPodsCleared st rs ms
    (fun c e => (c, match e, err with Some _, None => e | _, _ => err end)) h1) as Hs.
  destruct err as [e|]; apply Hs.
Qed.

Lemma untag_create_wp req cache h :
  Ev (Get KCache req) (Ok cache) ∈ h ->
  wp (untag_create cache) cache_guard
    (fun h' o => exists c r, o = Returned (c, r) /\
       (forall pod, r = Ok pod -> locked h' /\ ps_ServiceAccountName (pod_Spec pod) = ServiceAccountName)) h.
Proof.
  intros Hc. unfold untag_create, setPodsClearedCondition. rewrite wp_bind.
  eapply wp_frame; [apply set_cache_condition_wp|done|].
  intros h1 o Hs1 (c1 & ch & -> & Hph). cbn [wp]. destruct (_ || _) eqn:E.
  - rewrite wp_bind. eapply wp_frame; [apply update_status_wp|done|].
    intros h2 o Hs2 (c2 & err & -> & Hup). cbn [wp]. destruct err as [e|]; [by do 2 eexists|].
    specialize (Hup eq_refl). unfold call. rewrite wp_bind. cbn [wp]. split; [done|].
    intros [c3|e]; do 2 eexists; (split; [done|]); [|done]. intros pod [= <-]. split; [|done].
    right. do 2 eexists. split; [apply list_elem_of_further, Hup|done].
  - apply orb_false_iff in E as [E _]. apply negb_false_iff, bool_decide_eq_true in E.
    do 2 eexists. split; [done|]. intros pod [= <-]. split; [|done].
    left. exists req, cache. split; [by apply Hs1|]. congruence.
Qed.

Lemma untag_ReconcilePod_wp req cache name h :
  Ev (Get KCache req) (Ok cache) ∈ h ->
  wp (ReconcilePod name untag_create cache) cache_guard (fun _ => returns) h.
Proof.
  intros Hc. unfold ReconcilePod. rewrite wp_bind. unfold call at 1. cbn [wp]. split; [done|].
  intros [p|e]; [by eexists|]. destruct (IsNotFound e); cbn [negb]; [|by eexists].
  rewrite wp_bind. eapply wp_frame; [eapply untag_create_wp; by apply list_elem_of_further|done|].
  intros h1 o _ (c1 & [pod|e1] & -> & Hpod); cbn [wp]; [|by eexists].
  destruct (Hpod pod eq_refl) as [Hl Hsa]. repeat wp_go; try done; by eexists.
Qed.

Lemma reset_failed_wp cache d e h : wp (reset_failed cache d e) cache_guard (fun _ => returns) h.
Proof.
  unfold reset_failed. rewrite wp_bind. eapply wp_mono; [apply set_cache_condition_wp|done|].
  intros h1 o (c & ch & -> & _). cbn [wp]. rewrite wp_bind. destruct ch; cbn [wp]; [|by eexists].
  eapply wp_mono; [apply update_status_wp|done|]. intros h2 o (c' & e' & -> & _). cbn [wp].
  destruct e'; by eexists.
Qed.

Lemma reset_succeeded_wp cache n h : wp (reset_succeeded cache n) cache_guard (fun _ => returns) h.
Proof.
  unfold reset_succeeded. rewrite wp_bind. eapply wp_mono; [apply set_cache_condition_wp|done|].
  intros h1 o (c & ch & -> & _). cbn [wp]. unfold call. rewrite wp_bind. cbn [wp]. split; [done|].
  intros clock. rewrite wp_bind. eapply wp_mono; [apply update_status_wp|done|].
  intros h2 o (c' & e' & -> & _). cbn [wp]. destruct e'; [by eexists|apply deletePods_wp].
Qed.

Lemma freeStorage_wp req cache h :
  Ev (Get KCache req) (Ok cache) ∈ h -> wp (freeStorage cache) cache_guard (fun _ => returns) h.
Proof.
  intros Hc. unfold freeStorage. destruct (match st_LastReset _ with Some _ => _ | None => _ end);
    [apply deletePods_wp|].
  rewrite wp_bind. eapply wp_mono; [by eapply untag_ReconcilePod_wp|done|].
  intros h1 o [[c1 [[d pod] err]] ->]. cbn [wp].
  destruct err; [apply reset_failed_wp|apply reset_succeeded_wp].
Qed.

Lemma cache_finalize_wp req cache h :
  Ev (Get KCache req) (Ok cache) ∈ h -> wp (cache_finalize cache) cache_guard (fun _ => returns) h.
Proof.
  intros Hc. unfold cache_finalize. rewrite wp_bind.
  eapply wp_mono; [by eapply freeStorage_wp|done|]. intros h1 o [[c1 err] ->]. cbn [wp].
  destruct err; [by eexists|]. destruct (RemoveString _ _) as [fs []]; [|by eexists].
  rewrite wp_bind. eapply wp_mono; [apply update_status_wp|done|]. intros h2 o (c2 & e & -> & _). by eexists.
Qed.

(** The only other write of a run is the one that adds the finalizer. *)
Lemma cache_Reconcile_wp req h :
  wp (cache_Reconcile req) (fun h c => cache_guard h c \/ exists o, c = Update KCache o)
    (fun _ => returns) h.
Proof.
  unfold cache_Reconcile, call. rewrite wp_bind. cbn [wp]. split; [by left|]. intros [cache|e].
  - destruct (om_DeletionTimestamp _).
    + eapply wp_mono; [eapply cache_finalize_wp, list_elem_of_here|by left|done].
    + destruct (AddString _ _) as [fs []]; [|by eexists]. rewrite wp_bind. cbn [wp].
      split; [right; by eexists|]. intros r. by eexists.
  - destruct (IsNotFound e); by eexists.
Qed.

(** ** Properties *)

(** The Pod that resets a cache is created only after the cache is locked:
    the run has read it in phase reject, or has written this phase and the write
    was accepted. *)
Theorem cache_locked_before_reset req tr pod r tr' o :
  runs (cache_Reconcile req) (tr ++ Ev (Create KPod pod) r :: tr') o -> locked tr.
Proof.
  intros Hr.
  pose proof (wp_guard _ _ _ _ _ _ _ _ _ (cache_Reconcile_wp req []) Hr) as [[Hl _]|[? [=]]].
  eapply locked_mono; [apply history_of_trace|done].
Qed.

(** Outside of [ReconcilePod] no Pod is created. *)
Definition creates_pod (c : cmd) : bool := match c with Create KPod _ => true | _ => false end.
Definition creation_answer (e : event) : option (result Pod) :=
  match ev_cmd e as c return resp c -> option (result Pod) with
  | Create k _ => match k as k return result (obj k) -> option (result Pod) with
                  | KPod => Some
                  | _ => fun _ => None
                  end
  | _ => fun _ => None
  end (ev_resp e).
Definition no_creation (h : list event) (c : cmd) : Prop := creates_pod c = false.

Lemma no_creation_runs {A} (p : prog A) h Q tr o pod x :
  wp p no_creation Q h -> runs p tr o -> Ev (Create KPod pod) x ∉ tr.
Proof.
  intros Hw Hr (t1 & t2 & ->)%list_elem_of_split.
  by pose proof (wp_guard _ _ _ _ _ _ _ _ _ Hw Hr).
Qed.

Lemma set_cache_condition_quiet cache typ st rs ms h :
  wp (set_cache_condition cache typ st rs ms) no_creation (fun _ _ => True) h.
Proof. unfold set_cache_condition. repeat wp_go; done. Qed.

Lemma update_status_quiet cache h : wp (update_status cache) no_creation (fun _ _ => True) h.
Proof. unfold update_status. repeat wp_go; done. Qed.

Lemma delete_pods_loop_quiet names err h :
  wp (delete_pods_loop names err) no_creation (fun _ _ => True) h.
Proof.
  revert err h. induction names as [|n names IH]; intros err h; [done|].
  cbn [delete_pods_loop]. rewrite wp_bind. unfold cache_deletePod.
  repeat (wp_go; try done); apply IH.
Qed.

Lemma quiet_bind {A B} (p : prog A) (f : A -> prog B) h :
  wp p no_creation (fun _ _ => True) h ->
  (forall a h', wp (f a) no_creation (fun _ _ => True) h') ->
  wp (bind p f) no_creation (fun _ _ => True) h.
Proof. intros Hp Hf. rewrite wp_bind. eapply wp_mono; [exact Hp|done|]. intros h' [a|m] _; [apply Hf|done]. Qed.

Ltac quiet :=
  repeat first
    [ done | apply set_cache_condition_quiet | apply update_status_quiet | apply delete_pods_loop_quiet
    | apply quiet_bind; [|intros ? ?]
    | case_match | cbn [wp call]; (done || (split; [done|intros ?])) ].

Lemma deletePods_quiet cache names h : wp (deletePods cache names) no_creation (fun _ _ => True) h.
Proof. unfold deletePods, setPodsClearedCondition. quiet. Qed.

Lemma untag_create_quiet cache h : wp (untag_create cache) no_creation (fun _ _ => True) h.
Proof. unfold untag_create, setPodsClearedCondition. quiet. Qed.

Lemma reset_failed_quiet cache d e h : wp (reset_failed cache d e) no_creation (fun _ _ => True) h.
Proof. unfold reset_failed. quiet. Qed.

Lemma reset_succeeded_quiet cache n h :
  wp (reset_succeeded cache n) no_creation (fun _ _ => True) h.
Proof. unfold reset_succeeded. quiet. apply deletePods_quiet. Qed.

(** The creation of the Pod is the last call of [ReconcilePod] if it succeeds. *)
Lemma ReconcilePod_created name create (cache : Cache) tr pod p tr' o :
  (forall h, wp (create cache) no_creation (fun _ _ => True) h) ->
  runs (ReconcilePod name create cache) (tr ++ Ev (Create KPod pod) (Ok p) :: tr') o ->
  tr' = [] /\ exists c, o = Returned (c, (false, Some p, None)).
Proof.
  intros Hq (x & t & E & Hr). destruct tr as [|e tr]; simplify_eq/=.
  destruct x as [p0|e0]; [destruct Hr as [Hr _]; by destruct tr|].
  destruct (IsNotFound e0); cbn [negb] in Hr; [|destruct Hr as [Hr _]; by destruct tr].
  apply runs_bind in Hr as [(m & Hr & _)|(a & t1 & t2 & E & Hu & Hr)].
  - exfalso. refine (no_creation_runs _ _ _ _ _ pod (Ok p) (Hq []) Hr _). set_solver.
  - pose proof (no_creation_runs _ _ _ _ _ pod (Ok p) (Hq []) Hu) as Hn.
    destruct a as [c [pod0|e1]]; [|by destruct Hr as [-> _]; rewrite app_nil_r in E; subst t1; set_solver].
    destruct Hr as (r & t3 & -> & Hr).
    apply app_eq_cons_split in E as [(k & -> & E)|(k & -> & E)]; [|set_solver].
    destruct k as [|e2 k]; simplify_eq/=.
    { assert (Er : Some r = Some (Ok p)) by exact (f_equal creation_answer H). injection Er as ->.
      destruct Hr as [-> ->]. eauto. }
    destruct r as [q|e3]; cbn [runs] in Hr; [destruct Hr as [Hr _]; by destruct k|].
    destruct (IsAlreadyExists e3); cbn [negb] in Hr; [|destruct Hr as [Hr _]; by destruct k].
    destruct Hr as (r & t4 & E & Hr). destruct k as [|e4 k]; simplify_eq/=.
    destruct r; destruct Hr as [Hr _]; by destruct k.
Qed.

(** A reset counts as done when its Pod has just been created: the next
    thing [freeStorage] does is to write the cache in phase ready, with the
    condition StorageReset true and a last reset that carries the generation of
    the resource. *)
Theorem reset_reported_on_creation cache tr pod p tr' o :
  runs (freeStorage cache) (tr ++ Ev (Create KPod pod) (Ok p) :: tr') o ->
  exists t1 t2 c x tr'', tr' = Ev Clock t1 :: Ev Clock t2 :: Ev (StatusUpdate KCache c) x :: tr'' /\
    st_Phase (c_Status c) = CachePhaseReady /\
    st_LastReset (c_Status c) = Some (mkResetStatus (om_Generation (c_Meta c)) (t2 0)) /\
    exists cond, GetCondition (st_Conditions (c_Status c)) ConditionStorageReset = Some cond /\
      cd_Status cond = ConditionTrue.
Proof.
  intros Hr. unfold freeStorage in Hr.
  destruct (match st_LastReset _ with Some _ => _ | None => _ end).
  { exfalso. refine (no_creation_runs _ _ _ _ _ pod (Ok p) (deletePods_quiet _ _ []) Hr _). set_solver. }
  apply runs_bind in Hr as [(m & Hr & _)|([c0 [[d pd] err]] & t1 & t2 & E & Hu & Hr)].
  { apply ReconcilePod_created in Hr as [_ [c [=]]]. apply untag_create_quiet. }
  apply app_eq_cons_split in E as [(k & -> & ->)|(k & -> & ->)].
  - exfalso. destruct err.
    + refine (no_creation_runs _ _ _ _ _ pod (Ok p) (reset_failed_quiet _ _ _ []) Hr _). set_solver.
    + refine (no_creation_runs _ _ _ _ _ pod (Ok p) (reset_succeeded_quiet _ _ []) Hr _). set_solver.
  - apply ReconcilePod_created in Hu as [-> [c [= -> -> -> ->]]]; [|apply untag_create_quiet].
    cbn [app]. unfold reset_succeeded, set_cache_condition in Hr.
    destruct Hr as (k1 & t3 & -> & Hr).
    pose proof (SetCondition_get (st_Conditions (c_Status c)) (mkCondition ConditionStorageReset ConditionTrue
      (om_Generation (c_Meta c)) 0 "Success" "Cache image has been untagged") (k1 0)) as Hg.
    cbn [bind call] in Hr. destruct (SetCondition _ _ _) as [l ch]. cbn [bind] in Hr.
    destruct Hr as (k2 & t4 & -> & Hr). cbn [bind] in Hr. destruct Hr as (x & t5 & -> & Hr).
    do 5 eexists. split; [reflexivity|]. split; [done|]. split; [done|]. eexists. split; [exact Hg|done].
Qed.

(** ** The finalizer *)

Section Finalizer.
Context {St : Type} `{!OptimisticServer St}.

(** The server answers the calls of a trace, one after the other. *)
Inductive serves : St -> list event -> St -> Prop :=
| serves_nil s : serves s [] s
| serves_cons s c x s1 tr s2 : answers c s x s1 -> serves s1 tr s2 -> serves s (Ev c x :: tr) s2.

Definition stored_finalizers (s : St) (n : NamespacedName) : option (list string) :=
  (fun c => om_Finalizers (c_Meta c)) <$> caches s !! n.

Lemma cache_guard_finalizers h (c : kcmd) s x s' n :
  cache_guard h c -> answers c s x s' -> stored_finalizers s' n = stored_finalizers s n.
Proof.
  intros Hg Ha. unfold stored_finalizers.
  assert (Hs : (exists o, c = StatusUpdate KCache o) \/ caches s' = caches s).
  { pose proof (reads_only _ _ _ _ Ha) as Hro.
    destruct c as [k ?|?|k ?|k ?|k ?|k ?|? ? ? ?| |?|?|?]; try destruct k; simpl in Hg; try done; eauto. }
  destruct Hs as [[o ->]| ->]; [|done].
  apply status_write in Ha as [[-> _]|(cur & rv & Hcur & _ & ->)]; [done|].
  destruct (decide (om_key (c_Meta o) = n)) as [<-|Hne].
  - by rewrite lookup_insert_eq, Hcur.
  - by rewrite lookup_insert_ne.
Qed.

Lemma guarded_finalizers {A} (p : prog A) Q h tr o s s' n :
  wp p cache_guard Q h -> runs p tr o -> serves s tr s' -> stored_finalizers s' n = stored_finalizers s n.
Proof.
  intros Hw Hr Hs. revert h p Hw Hr. induction Hs as [|s c x s1 tr s2 Ha Hs IH]; intros h p Hw Hr; [done|].
  destruct p as [a|m|c0 k]; cbn [runs] in Hr; [by destruct Hr..|].
  destruct Hr as (y & tr' & E & Hr). destruct Hw as [Hg Hw].
  injection E as E1 E2 E3. subst c0 tr'.
  transitivity (stored_finalizers s1 n).
  - eapply IH; [apply (Hw y)|exact Hr].
  - by eapply cache_guard_finalizers.
Qed.

(** Reconciling a cache that is being deleted leaves the finalizers of
    every stored cache as they are, however often it runs: the controller
    removes its finalizer with a status write, which the server does not apply
    to the metadata. *)
Theorem cache_finalizer_never_removed req cache tr o s s' n :
  runs (cache_Reconcile req) (Ev (Get KCache req) (Ok cache) :: tr) o ->
  om_DeletionTimestamp (c_Meta cache) <> None ->
  serves s (Ev (Get KCache req) (Ok cache) :: tr) s' ->
  stored_finalizers s' n = stored_finalizers s n.
Proof.
  intros Hr Hd Hs. inversion Hs as [|? ? ? s1 ? ? Ha Hs1]; subst.
  assert (Hf : runs (cache_finalize cache) tr o).
  { destruct Hr as (y & tr' & E & Hr).
    assert (Ey : Some (req, cache) = match y with Ok c => Some (req, c) | Err _ => None end).
    { exact (f_equal (fun l => match l with e :: _ => got_cache e | [] => None end) E). }
    destruct y as [c|]; [|done]. injection Ey as <-. cbn [bind call] in Hr.
    destruct (om_DeletionTimestamp (c_Meta cache)); [|done]. by injection E as <-. }
  transitivity (stored_finalizers s1 n).
  - eapply guarded_finalizers; [|exact Hf|exact Hs1].
    eapply (cache_finalize_wp req cache [Ev (S := KubeSig) (Get KCache req) (Ok cache)]). apply list_elem_of_here.
  - exact (cache_guard_finalizers [] (Get KCache req) _ _ _ _ I Ha).
Qed.

End Finalizer.

End Controller.

(** Runs against the server in memory are served by it. *)
Lemma run_mem_serves {A} (p : prog A) : forall s (Hs : mem_ok s),
  exists Hs', serves (exist _ s Hs) (run_mem p s).1.1 (exist _ (run_mem p s).2 Hs').
Proof.
  unfold run_mem. induction p as [a|m|c k IH]; intros s Hs; cbn [exec].
  - exists Hs. apply serves_nil.
  - exists Hs. apply serves_nil.
  - destruct (mem_handle c s) as [x s1] eqn:E.
    destruct (mem_handle_ok c s x s1 Hs E) as [Hs1 _]. specialize (IH x s1 Hs1).
    destruct (exec (S := KubeSig) mem_handle (k x) s1) as [[tr o] s2]. destruct IH as [Hs2 IH]. exists Hs2.
    eapply serves_cons; [|exact IH]. exact E.
Qed.

(** ** Concrete runs *)

Module CacheControllerExample.

Definition cache_key : NamespacedName := mkNamespacedName "build" "default".
Definition deleting : Cache :=
  Cache_zero <| c_Meta := ObjectMeta_zero <| om_Name := "build" |> <| om_Namespace := "default" |>
    <| om_Generation := 7%Z |> <| om_Finalizers := [CacheFinalizer] |> <| om_DeletionTimestamp := Some 1%Z |> |>.
Definition pending : cluster := cluster_empty <| cl_caches := {[cache_key := deleting]} |>.
Definition reconcile : prog (option goerr) := cache_Reconcile "system" "manager" cache_key.
Definition trace := (run_cluster reconcile pending).1.1.
Definition reset_pod : Pod :=
  (untag_pod "manager" deleting) <| pod_Meta :=
    (pod_Meta (untag_pod "manager" deleting)) <| om_Name := "build" |> <| om_Namespace := "system" |> |>.

Lemma cache_locked_before_reset_witness :
  trace !! 5 = Some (Ev (Create KPod reset_pod) (Ok reset_pod)) /\ locked (take 5 trace).
Proof.
  assert (E : trace !! 5 = Some (Ev (Create KPod reset_pod) (Ok reset_pod))) by (vm_compute; reflexivity).
  split; [exact E|].
  exact (cache_locked_before_reset "system" "manager" cache_key _ _ _ _ _ (run_cluster_at _ _ _ _ E)).
Defined.

(** The run that creates the Pod deletes it again; the cache is ready and says
    that it was reset. *)
Definition reset_run := run_cluster (freeStorage "system" "manager" deleting) pending.

Lemma reset_reported_on_creation_witness :
  reset_run.1.1 !! 4 = Some (Ev (Create KPod reset_pod) (Ok reset_pod)) /\
  cl_pods reset_run.2 = ∅ /\
  exists t1 t2 c x tr'', drop 5 reset_run.1.1 = Ev Clock t1 :: Ev Clock t2 :: Ev (StatusUpdate KCache c) x :: tr'' /\
    st_Phase (c_Status c) = CachePhaseReady.
Proof.
  assert (E : reset_run.1.1 !! 4 = Some (Ev (Create KPod reset_pod) (Ok reset_pod))) by (vm_compute; reflexivity).
  split; [exact E|]. split; [vm_compute; reflexivity|].
  destruct (reset_reported_on_creation "system" "manager" deleting _ _ _ _ _ (run_cluster_at _ _ _ _ E))
    as (t1 & t2 & c & x & tr & H1 & H2 & _).
  exists t1, t2, c, x, tr. split; [exact H1|exact H2].
Defined.

Definition stored : mem := (mem_store cache_key deleting mem_empty).2.
Lemma stored_ok : mem_ok stored.
Proof. by eapply (mem_store_ok cache_key deleting mem_empty); [apply mem_empty_ok| |]. Qed.
Definition deleting' : Cache := (mem_store cache_key deleting mem_empty).1.

Lemma cache_finalizer_never_removed_witness :
  om_DeletionTimestamp (c_Meta deleting') <> None /\
  exists s' : mem_state, mem_caches (`s') = mem_caches (run_mem reconcile stored).2 /\
    stored_finalizers s' cache_key = Some [CacheFinalizer].
Proof.
  split; [vm_compute; discriminate|].
  destruct (run_mem_serves reconcile stored stored_ok) as [Hs' Hserves].
  exists (exist _ (run_mem reconcile stored).2 Hs'). split; [reflexivity|].
  assert (E : (run_mem reconcile stored).1.1 =
    Ev (Get KCache cache_key) (Ok deleting') :: drop 1 (run_mem reconcile stored).1.1)
    by (vm_compute; reflexivity).
  pose proof (run_mem_runs reconcile stored _ eq_refl) as Hruns.
  rewrite E in Hruns, Hserves.
  transitivity (stored_finalizers (exist _ stored stored_ok : mem_state) cache_key);
    [|vm_compute; reflexivity].
  exact (cache_finalizer_never_removed "system" "manager" cache_key deleting' _ _ _ _ cache_key Hruns
    ltac:(vm_compute; discriminate) Hserves).
Defined.

End CacheControllerExample.
