(* ===== verification/Watches.v ===== *)
(** * Watches and work queues

    What wakes the controllers: the [SetupWithManager] methods of
    [internal/controllers] as lists of watches, and the system that a
    controller, its work queue and the rest of the cluster make.  Which requests
    an event leads to is decided by controller-runtime: the class
    [EventDispatch] states what its documentation promises.  The last part is
    the argument for liveness that the life-cycle theorems share. *)

From S2P Require Import Prelude Effects Api Utils Registry Job Cluster PvcController PvController PodController ProvisionerController CacheController.

(** ** Watches *)

#[global] Instance obj_eq_dec (k : kind) : EqDecision (obj k).
Proof. destruct k; apply _. Defined.

(** An event handler: [EnqueueRequestForObject], which [For] installs, or
    [EnqueueRequestsFromMapFunc]. *)
Inductive handler (k : kind) :=
| EnqueueRequestForObject
| EnqueueRequestsFromMapFunc (f : obj k -> list NamespacedName).
Arguments EnqueueRequestForObject {k}.
Arguments EnqueueRequestsFromMapFunc {k} f.

(** The predicates ask the shared registry, hence they are programs. *)
Record watch := mkWatch {
  w_kind : kind;
  w_predicates : list (obj w_kind -> prog bool);
  w_handler : handler w_kind
}.

Definition For (k : kind) (predicates : list (obj k -> prog bool)) : watch :=
  mkWatch k predicates EnqueueRequestForObject.
Definition Watches (k : kind) (f : obj k -> list NamespacedName) : watch :=
  mkWatch k [] (EnqueueRequestsFromMapFunc f).

(** [SetupWithManager] of the controllers. *)
Definition pvc_SetupWithManager (ManagerNamespace : string) : list watch :=
  [For KPersistentVolumeClaim [];
   Watches KPod (fun pod => PodToRequestMapper ManagerNamespace annPVCName annPVCNamespace (pod_Meta pod))].

Definition pv_SetupWithManager (ManagerNamespace : string) : list watch :=
  [For KPersistentVolume
     [fun pv => Ret (hasDeletionTimestamp (vol_Meta pv));
      fun pv => hasSupportedProvisionerOrFinalizer (vol_Meta pv)];
   Watches KPod (fun pod => PodToRequestMapper ManagerNamespace annPVName "" (pod_Meta pod))].

Definition pod_SetupWithManager : list watch := [For KPod [fun pod => Ret (podCompleted pod)]].

Definition sp_SetupWithManager (Namespace : string) : list watch :=
  [For KStorageProvisioner [fun p => Ret (in_namespace Namespace (sp_Meta p))]].

Definition cache_SetupWithManager (ManagerNamespace : string) : list watch :=
  [For KCache [];
   Watches KPod (fun pod => PodToRequestMapper ManagerNamespace annCacheName annCacheNamespace (pod_Meta pod))].

(** ** Events *)

Inductive change (k : kind) :=
| Added (o : obj k)
| Updated (old new : obj k)
| Removed (o : obj k).
Arguments Added {k} o.
Arguments Updated {k} old new.
Arguments Removed {k} o.

(** What a watch reports of an object that was [old] and is [new]. *)
Definition change_of {k} (old new : option (obj k)) : option (change k) :=
  match old, new with
  | None, Some o => Some (Added o)
  | Some o, None => Some (Removed o)
  | Some o, Some o' => if bool_decide (o = o') then None else Some (Updated o o')
  | None, None => None
  end.

Definition changes (k : kind) (s s' : cluster) : list (change k) :=
  omap (fun n => change_of (objects k s !! n) (objects k s' !! n))
    (elements (dom (objects k s) ∪ dom (objects k s'))).

(** The object that the predicates look at, and those that the handler maps. *)
Definition subject {k} (c : change k) : obj k :=
  match c with Added o | Updated _ o | Removed o => o end.
Definition participants {k} (c : change k) : list (obj k) :=
  match c with Added o | Removed o => [o] | Updated old new => [old; new] end.

Definition admitted (w : watch) (c : change (w_kind w)) (s : cluster) : Prop :=
  Forall (fun p => (final (p (subject c)) s).1 = Returned true) (w_predicates w).
Definition handled (w : watch) (o : obj (w_kind w)) : list NamespacedName :=
  match w_handler w with
  | EnqueueRequestForObject => [om_key (obj_meta o)]
  | EnqueueRequestsFromMapFunc f => f o
  end.

#[global] Instance admitted_dec w c s : Decision (admitted w c s).
Proof.
  apply Forall_dec. intros p. destruct (final (p (subject c)) s).1 as [b|m].
  - destruct b; [left; done|right; done].
  - right. done.
Defined.

(** What controller-runtime promises: an event that the predicates admit leads
    to the requests of its object, and nothing else leads to a request. *)
Class EventDispatch := {
  dispatch : forall w : watch, change (w_kind w) -> cluster -> gset NamespacedName;
  dispatch_complete : forall w c s n,
    admitted w c s -> n ∈ handled w (subject c) -> n ∈ dispatch w c s;
  dispatch_sound : forall w c s n,
    n ∈ dispatch w c s -> admitted w c s /\ exists o, o ∈ participants c /\ n ∈ handled w o
}.

(** An instance that maps the old and the new object. *)
Program Definition plain_dispatch : EventDispatch := {|
  dispatch := fun w c s =>
    if decide (admitted w c s) then list_to_set (participants c ≫= handled w) else ∅
|}.
Next Obligation.
  intros w c s n Ha Hn. cbv beta. rewrite decide_True by done. apply elem_of_list_to_set, list_elem_of_bind.
  exists (subject c). split; [done|]. destruct c; set_solver.
Qed.
Next Obligation.
  intros w c s n. cbv beta. destruct (decide _) as [Ha|]; [|set_solver]. intros Hn. split; [done|].
  apply elem_of_list_to_set, list_elem_of_bind in Hn as (o & Hn & Ho). eauto.
Qed.

(** ** Eventually

    A system whose states pass through numbered phases, down to 0.  No step
    raises the phase; for every other phase there is an action that is pending
    and that lowers it.  If a pending action is eventually taken, every execution
    ends in phase 0 and stays there. *)

Section Eventually.
Context {State Label : Type} (step : Label -> State -> State -> Prop) (phase : nat -> State -> Prop).
Context (pending : Label -> State -> Prop) (helper : nat -> Label).

Hypothesis phase_step : forall l r s s',
  phase r s -> step l s s' -> exists r', r' <= r /\ phase r' s' /\ (0 < r -> l = helper r -> r' < r).
Hypothesis phase_pending : forall r s, phase (S r) s -> pending (helper (S r)) s.

(** An execution with the action of each step, in which no pending action is
    forgotten. *)
Record fair_execution (e : nat -> State) (l : nat -> Label) : Prop := {
  fe_steps : forall i, step (l i) (e i) (e (S i));
  fe_fair : forall a i, pending a (e i) -> exists j, i <= j /\ l j = a
}.

Context (e : nat -> State) (l : nat -> Label) (He : fair_execution e l).

Lemma phase_later r i j : phase r (e i) -> i <= j -> exists r', r' <= r /\ phase r' (e j).
Proof.
  intros Hr Hij. induction Hij as [|j _ (r' & Hle & Hr')]; [eauto|].
  destruct (phase_step _ _ _ _ Hr' (fe_steps _ _ He j)) as (r2 & ? & ? & _). exists r2. split; [lia|done].
Qed.

Lemma eventually_phase_0 r i : phase r (e i) -> exists k, i <= k /\ forall j, k <= j -> phase 0 (e j).
Proof.
  revert i. induction (lt_wf r) as [r _ IH]. intros i Hr. destruct r as [|r].
  - exists i. split; [done|]. intros j Hj. destruct (phase_later 0 i j Hr Hj) as (r' & Hle & Hr').
    by replace 0 with r' by lia.
  - destruct (fe_fair _ _ He _ _ (phase_pending _ _ Hr)) as (j & Hij & Hl).
    destruct (phase_later _ _ _ Hr Hij) as (r' & Hle & Hr').
    pose proof (phase_step _ _ _ _ Hr' (fe_steps _ _ He j)) as (r2 & Hle2 & Hr2 & Hlow).
    assert (r2 < S r) by (destruct (decide (r' = S r)) as [->|]; [apply Hlow; [lia|done]|lia]).
    destruct (IH r2 ltac:(lia) (S j) Hr2) as (k & Hk & Hs). exists k. split; [lia|done].
Qed.

End Eventually.

(** ** A controller and its queue *)

Section System.
Context `{!EventDispatch} (ws : list watch) (Reconcile : NamespacedName -> prog (option goerr)).

(** The requests that the changes from [s] to [s'] lead to. *)
Definition woken (s s' : cluster) : gset NamespacedName :=
  ⋃ ((fun w => ⋃ ((fun c => dispatch w c s') <$> changes (w_kind w) s s')) <$> ws).

Lemma woken_intro w m c n s s' :
  w ∈ ws -> change_of (objects (w_kind w) s !! m) (objects (w_kind w) s' !! m) = Some c ->
  admitted w c s' -> n ∈ handled w (subject c) -> n ∈ woken s s'.
Proof.
  intros Hw Hc Ha Hn. apply elem_of_union_list. eexists. split; [by apply list_elem_of_fmap_2|].
  apply elem_of_union_list. eexists. split; [|by eapply dispatch_complete].
  apply (list_elem_of_fmap_2 (fun c => dispatch w c s')), list_elem_of_omap. exists m. split; [|done].
  apply elem_of_elements, elem_of_union. rewrite !elem_of_dom.
  destruct (objects (w_kind w) s !! m); [by left; eexists|]. right.
  destruct (objects (w_kind w) s' !! m); [by eexists|done].
Qed.

Lemma woken_elim n s s' :
  n ∈ woken s s' -> exists w m c o, w ∈ ws /\
    change_of (objects (w_kind w) s !! m) (objects (w_kind w) s' !! m) = Some c /\
    admitted w c s' /\ o ∈ participants c /\ n ∈ handled w o.
Proof.
  intros (X & HX & Hn)%elem_of_union_list. apply list_elem_of_fmap_1 in HX as (w & -> & Hw).
  apply elem_of_union_list in Hn as (Y & HY & Hn). apply list_elem_of_fmap_1 in HY as (c & -> & Hc).
  apply list_elem_of_omap in Hc as (m & _ & Hc). apply dispatch_sound in Hn as (Ha & o & Ho & Hn).
  by exists w, m, c, o.
Qed.

Record system := mkSystem { sy_cluster : cluster; sy_queue : gset NamespacedName }.

(** A run for a queued request takes it from the queue; the changes that it makes
    are reported, and it is repeated after a failure. *)
Definition run_request (n : NamespacedName) (y : system) : system :=
  let r := final (Reconcile n) (sy_cluster y) in
  mkSystem r.2 (sy_queue y ∖ {[n]} ∪ woken (sy_cluster y) r.2
    ∪ match r.1 with Returned None => ∅ | _ => {[n]} end).

(** A run without an error. *)
Lemma run_request_ok n y s' :
  final (Reconcile n) (sy_cluster y) = (Returned None, s') ->
  run_request n y = mkSystem s' (sy_queue y ∖ {[n]} ∪ woken (sy_cluster y) s').
Proof. intros E. unfold run_request. rewrite E. cbn. f_equal. apply leibniz_equiv. set_solver. Qed.

(** What happens to the request [n], whose job runs in the Pod [pod]: it is run,
    the Pod proceeds or succeeds, or something else happens in the cluster, which
    [others] describes.  Other requests may come and go. *)
Context (n pod : NamespacedName) (others : cluster -> cluster -> Prop).

Definition set_phase (ph : string) (s : cluster) : cluster :=
  s <| cl_pods := alter (fun p => p <| pod_Phase := ph |>) pod (cl_pods s) |>.
Definition unfinished (s : cluster) : Prop :=
  exists p, cl_pods s !! pod = Some p /\ pod_Phase p <> PodSucceeded /\ pod_Phase p <> PodFailed.

Definition unfinishedb (s : cluster) : bool :=
  match pod_Phase <$> cl_pods s !! pod with
  | Some ph => (ph !=? PodSucceeded) && (ph !=? PodFailed)
  | None => false
  end.
Lemma unfinishedb_spec s : unfinishedb s = true <-> unfinished s.
Proof.
  unfold unfinishedb, unfinished. destruct (cl_pods s !! pod) as [p|]; cbn.
  - rewrite andb_true_iff, !negb_true_iff, !bool_decide_eq_false. split.
    + intros [? ?]. by exists p.
    + by intros (? & [= <-] & ? & ?).
  - split; [done|]. by intros (? & [=] & _).
Qed.

Inductive label := LRun | LProceeds | LSucceeds | LOthers.

(** The queue after a step that is not a run for [n]. *)
Definition queue_keeps (y : system) (s' : cluster) (q' : gset NamespacedName) : Prop :=
  n ∈ sy_queue y ∪ woken (sy_cluster y) s' -> n ∈ q'.

Inductive system_step : label -> system -> system -> Prop :=
| step_run y : n ∈ sy_queue y -> system_step LRun y (run_request n y)
| step_proceeds y ph q' :
    unfinished (sy_cluster y) -> ph <> PodSucceeded -> ph <> PodFailed ->
    queue_keeps y (set_phase ph (sy_cluster y)) q' ->
    system_step LProceeds y (mkSystem (set_phase ph (sy_cluster y)) q')
| step_succeeds y q' :
    unfinished (sy_cluster y) -> queue_keeps y (set_phase PodSucceeded (sy_cluster y)) q' ->
    system_step LSucceeds y (mkSystem (set_phase PodSucceeded (sy_cluster y)) q')
| step_others y s' q' :
    others (sy_cluster y) s' -> queue_keeps y s' q' -> system_step LOthers y (mkSystem s' q').

(** A queued request is to be run, an unfinished Pod is to succeed. *)
Definition system_pending (l : label) (y : system) : Prop :=
  match l with
  | LRun => n ∈ sy_queue y
  | LSucceeds => unfinished (sy_cluster y)
  | LProceeds | LOthers => False
  end.

(** A request that passes through numbered phases: in phase [w] its Pod is at
    work, in the others the request is queued; a run lowers every phase but [w]. *)

Section JobPhases.
Context (phase : nat -> system -> Prop) (w : nat).
Hypothesis phase_others : forall r y s' q',
  others (sy_cluster y) s' -> (n ∈ sy_queue y -> n ∈ q') -> phase r y -> phase r (mkSystem s' q').
Hypothesis phase_run : forall r y, phase r y -> n ∈ sy_queue y ->
  exists r', r' <= r /\ phase r' (run_request n y) /\ (0 < r -> r <> w -> r' < r).
Hypothesis phase_unfinished : forall r y, phase r y -> unfinished (sy_cluster y) -> r = w.
Hypothesis phase_proceeds : forall y ph q',
  phase w y -> ph <> PodSucceeded -> ph <> PodFailed -> phase w (mkSystem (set_phase ph (sy_cluster y)) q').
Hypothesis phase_succeeds : forall y q', phase w y ->
  queue_keeps y (set_phase PodSucceeded (sy_cluster y)) q' ->
  exists r', r' < w /\ phase r' (mkSystem (set_phase PodSucceeded (sy_cluster y)) q').
Hypothesis phase_queued : forall r y,
  phase (S r) y -> if bool_decide (S r = w) then unfinished (sy_cluster y) else n ∈ sy_queue y.

Definition job_helper (r : nat) : label := if bool_decide (r = w) then LSucceeds else LRun.

Lemma job_phase_step l r y y' :
  phase r y -> system_step l y y' ->
  exists r', r' <= r /\ phase r' y' /\ (0 < r -> l = job_helper r -> r' < r).
Proof.
  intros Hph Hstep. unfold job_helper. destruct Hstep as [y Hq|y ph qu Hu Hs1 Hs2 _|y qu Hu Hq|y s' qu Ho Hq].
  - destruct (phase_run r y Hph Hq) as (r' & Hle & Hph' & Hlow). exists r'. split; [done|]. split; [done|].
    intros Hr. case_bool_decide; [done|]. intros _. by apply Hlow.
  - pose proof (phase_unfinished r y Hph Hu) as ->. exists w. split; [done|]. split; [by apply phase_proceeds|].
    by rewrite bool_decide_eq_true_2.
  - pose proof (phase_unfinished r y Hph Hu) as ->. destruct (phase_succeeds y qu Hph Hq) as (r' & Hlt & Hph').
    exists r'. split; [lia|done].
  - exists r. split; [done|]. split; [|by case_bool_decide].
    eapply phase_others; [done| |done]. intros Hn. by apply Hq, elem_of_union_l.
Qed.

Lemma job_phase_pending r y : phase (S r) y -> system_pending (job_helper (S r)) y.
Proof. intros Hph%phase_queued. unfold job_helper. by case_bool_decide. Qed.

Lemma job_eventually e l r :
  fair_execution system_step system_pending e l -> phase r (e 0) -> exists k, forall j, k <= j -> phase 0 (e j).
Proof.
  intros He Hr. destruct (eventually_phase_0 system_step phase system_pending job_helper
    job_phase_step job_phase_pending e l He r 0 Hr) as (k & _ & Hk). by exists k.
Qed.

End JobPhases.
End System.
Arguments mkSystem sy_cluster sy_queue.

(** ** What the controllers are woken for *)

Section Requests.
Context `{!EventDispatch}.

Lemma change_of_participant {k} (o o' : option (obj k)) c x :
  change_of o o' = Some c -> x ∈ participants c -> o = Some x \/ o' = Some x.
Proof. destruct o, o'; cbn; repeat case_bool_decide; intros; simplify_eq/=; set_solver. Qed.

(** The object of a change: the new one, or the old one if it was removed. *)
Lemma change_of_subject {k} (o o' : option (obj k)) c :
  change_of o o' = Some c -> o' = Some (subject c) \/ o' = None /\ o = Some (subject c).
Proof. destruct o, o'; cbn; repeat case_bool_decide; intros; simplify_eq/=; auto. Qed.

(** Objects are stored under their names. *)
Definition well_keyed (k : kind) (s : cluster) : Prop :=
  forall m o, objects k s !! m = Some o -> om_key (obj_meta o) = m.

(** The controller of Pods is woken only for a Pod that has completed and could
    write to a claim. *)
Theorem pod_requests_completed n s s' :
  well_keyed KPod s -> well_keyed KPod s' -> n ∈ woken pod_SetupWithManager s s' ->
  exists pod, podCompleted pod = true /\
    (cl_pods s' !! n = Some pod \/ cl_pods s' !! n = None /\ cl_pods s !! n = Some pod).
Proof.
  intros Hk Hk' (w & m & c & o & Hw & Hc & Ha & Ho & Hn)%woken_elim.
  apply list_elem_of_singleton in Hw as ->. cbn in Ha, Ho, Hn, c, o.
  apply list_elem_of_singleton in Hn as ->. apply Forall_inv in Ha. injection Ha as Ha.
  assert (om_key (pod_Meta o) = m) as ->.
  { destruct (change_of_participant _ _ _ _ Hc Ho) as [Hm|Hm]; [by apply Hk|by apply Hk']. }
  exists (subject c). split; [done|]. exact (change_of_subject _ _ _ Hc).
Qed.

(** The controller of volumes is woken only for a volume that is being deleted
    and is its own, or by a Pod of a job. *)
Theorem volume_requests_deleted ManagerNamespace n s s' :
  well_keyed KPersistentVolume s -> well_keyed KPersistentVolume s' ->
  n ∈ woken (pv_SetupWithManager ManagerNamespace) s s' ->
  (exists pv, om_DeletionTimestamp (vol_Meta pv) <> None /\
     (final (hasSupportedProvisionerOrFinalizer (vol_Meta pv)) s').1 = Returned true /\
     (cl_volumes s' !! n = Some pv \/ cl_volumes s' !! n = None /\ cl_volumes s !! n = Some pv)) \/
  exists m pod, om_Namespace (pod_Meta pod) = ManagerNamespace /\
    map_index (om_Annotations (pod_Meta pod)) annPVName = nn_Name n /\
    (cl_pods s !! m = Some pod \/ cl_pods s' !! m = Some pod).
Proof.
  intros Hk Hk' (w & m & c & o & Hw & Hc & Ha & Ho & Hn)%woken_elim.
  apply elem_of_cons in Hw as [->|Hw]; [left|apply list_elem_of_singleton in Hw as ->; right]; cbn in Ha, Ho, Hn, c, o.
  - apply list_elem_of_singleton in Hn as ->. apply Forall_cons_1 in Ha as [Hd Ha]. apply Forall_inv in Ha.
    injection Hd as Hd. assert (om_key (vol_Meta o) = m) as ->.
    { destruct (change_of_participant _ _ _ _ Hc Ho) as [Hm|Hm]; [by apply Hk|by apply Hk']. }
    exists (subject c). split; [|split; [done|exact (change_of_subject _ _ _ Hc)]].
    unfold hasDeletionTimestamp in Hd. by case_bool_decide.
  - exists m, o. unfold PodToRequestMapper in Hn. repeat case_bool_decide; cbn in Hn; try set_solver.
    split; [done|]. split; [|exact (change_of_participant _ _ _ _ Hc Ho)].
    destruct (om_Annotations (pod_Meta o)); [|set_solver]. cbn in *.
    repeat case_bool_decide; cbn in Hn; set_solver.
Qed.
End Requests.
