(* ===== verification/LayerApi.v ===== *)
(** * The environment of the local store

    What [internal/layerfs] calls: the container storage
    ([containers/storage]), image references and image copies
    ([containers/image]), containers under construction ([containers/buildah]),
    the file system and the mount system calls, the context and the standard
    streams.  None of these is part of this repository; their answers are
    arbitrary.  Log output is left out. *)

From S2P Require Import Prelude Effects.

(** [types.ImageReference]: the text of its Docker reference, if it has one,
    and [transports.ImageName] of it. *)
Record ImageReference := mkImageReference {
  ref_DockerReference : option string;
  ref_ImageName : string
}.
#[global] Instance ImageReference_eq_dec : EqDecision ImageReference.
Proof. solve_decision. Defined.

(** [storage.Image], [storage.Layer], [storage.Container], [archive.Change] *)
Record Image := mkImage {
  im_ID : string;
  im_Names : list string;
  im_TopLayer : string;
  im_ReadOnly : bool
}.
#[global] Instance Image_settable : Settable Image := fun r =>
  mkImage (im_ID r) (im_Names r) (im_TopLayer r) (im_ReadOnly r).
#[global] Instance Image_eq_dec : EqDecision Image.
Proof. solve_decision. Defined.

Record Layer := mkLayer { ly_ID : string; ly_Parent : string }.
Record StoredContainer := mkStoredContainer {
  sc_ID : string;
  sc_Names : list string;
  sc_ImageID : string;
  sc_LayerID : string
}.
Record Change := mkChange { ch_Path : string; ch_Kind : nat }.

(** [imgspecv1.History] and the parts of [imgspecv1.Image] that are read. *)
Record History := mkHistory {
  hi_Created : option Z;
  hi_CreatedBy : string;
  hi_Author : string;
  hi_Comment : string;
  hi_EmptyLayer : bool
}.
#[global] Instance History_eq_dec : EqDecision History.
Proof. solve_decision. Defined.

Record ImageConfig := mkImageConfig {
  cfg_History : list History;
  cfg_DiffIDs : list string
}.
#[global] Instance ImageConfig_eq_dec : EqDecision ImageConfig.
Proof. solve_decision. Defined.

(** [buildah.Builder] and the options that vary between calls; the isolation is
    chroot and the network is disabled in all of them. *)
Record Builder := mkBuilder {
  b_ContainerID : string;
  b_FromImageID : string;
  b_MountLabel : string;
  b_Args : strmap
}.
#[global] Instance Builder_settable : Settable Builder := fun r =>
  mkBuilder (b_ContainerID r) (b_FromImageID r) (b_MountLabel r) (b_Args r).

Inductive PullPolicy := PullNever | PullAlways.
#[global] Instance PullPolicy_eq_dec : EqDecision PullPolicy.
Proof. solve_decision. Defined.

Record BuilderOptions := mkBuilderOptions {
  bo_Container : string;
  bo_FromImage : string;
  bo_PullPolicy : PullPolicy
}.

(** An error of the file system; [os.IsNotExist] looks at its cause. *)
Record oserr := mkOsErr { oe_IsNotExist : bool; oe_err : goerr }.

Inductive stream := Stdout | Stderr.

Inductive lcmd :=
(* container storage *)
| Images
| LayerByID (id : string)
| ImageByID (id : string)
| Containers
| ContainerByID (id : string)
| Changes (from to : string)
| DeleteImage (id : string) (commit : bool)
| DeleteContainer (id : string)
| SetNames (id : string) (names : list string)
| StoreFree
(* image references *)
| ParseImageName (name : string)
| ParseStoreReference (name : string)
| NewStoreReference (named : option string) (id : string)
| GetStoreImage (ref : ImageReference)
| NewImageSource (ref : ImageReference)
| CloseImageSource (ref : ImageReference)
| NewImage (ref : ImageReference)
| OCIConfig (ref : ImageReference)
| CloseImage (ref : ImageReference)
| FindImage (name : string)
| NewPolicyContext
| CopyImage (dest src : ImageReference)
(* buildah *)
| NewBuilder (opts : BuilderOptions)
| OpenBuilder (name : string)
| OpenBuilderByPath (path : string)
| BuilderMount (b : Builder) (label : string)
| BuilderUnmount (b : Builder)
| BuilderDelete (b : Builder)
| BuilderSave (b : Builder)
| BuilderCommit (b : Builder) (ref : ImageReference)
(* operating system *)
| OsMkdir (dir : string)
| OsRemove (dir : string)
| OsChmod (dir : string) (mode : Z)
| UnixMount (src dest : string)
| UnixUnmount (dest : string)
| ContextErr
| Println (out : stream) (line : string).

Definition lresp (c : lcmd) : Type :=
  match c with
  | Images => result (list Image)
  | LayerByID _ => result Layer
  | ImageByID _ => result Image
  | Containers => result (list StoredContainer)
  | ContainerByID _ => result StoredContainer
  | Changes _ _ => result (list Change)
  | ParseImageName _ | ParseStoreReference _ | NewStoreReference _ _ => result ImageReference
  | GetStoreImage _ => result Image
  | OCIConfig _ => result ImageConfig
  | FindImage _ => (option ImageReference * option goerr)%type
  | NewBuilder _ | OpenBuilder _ | OpenBuilderByPath _ => result Builder
  | BuilderMount _ _ => result string
  | BuilderCommit _ _ => result (string * option string)
  | OsRemove _ => option oserr
  | StoreFree | CloseImageSource _ | CloseImage _ | Println _ _ => unit
  | DeleteImage _ _ | DeleteContainer _ | SetNames _ _ | NewImageSource _ | NewImage _
  | NewPolicyContext | CopyImage _ _ | BuilderUnmount _ | BuilderDelete _ | BuilderSave _
  | OsMkdir _ | OsChmod _ _ | UnixMount _ _ | UnixUnmount _ | ContextErr => option goerr
  end.

#[global] Instance LayerSig : Sig := { cmd := lcmd; resp := lresp }.

(** An answer to every call: everything fails. *)
Definition lresp_default (c : lcmd) : lresp c :=
  match c with
  | Images | LayerByID _ | ImageByID _ | Containers | ContainerByID _ | Changes _ _
  | ParseImageName _ | ParseStoreReference _ | NewStoreReference _ _ | GetStoreImage _
  | OCIConfig _ | NewBuilder _ | OpenBuilder _ | OpenBuilderByPath _ | BuilderMount _ _
  | BuilderCommit _ _ => Err (Errorf "unavailable")
  | FindImage _ => (None, Some (Errorf "unavailable"))
  | OsRemove _ => Some (mkOsErr false (Errorf "unavailable"))
  | StoreFree | CloseImageSource _ | CloseImage _ | Println _ _ => tt
  | DeleteImage _ _ | DeleteContainer _ | SetNames _ _ | NewImageSource _ | NewImage _
  | NewPolicyContext | CopyImage _ _ | BuilderUnmount _ | BuilderDelete _ | BuilderSave _
  | OsMkdir _ | OsChmod _ _ | UnixMount _ _ | UnixUnmount _ | ContextErr => Some (Errorf "unavailable")
  end.
