(* ===== verification/LayerStore.v ===== *)
(** * The local store ([internal/layerfs/store.go], [mount.go], [push.go])

    A volume is a buildah container whose root file system is bind-mounted at
    the directory the options name.  [Mount] creates the container from the
    cache image, [Unmount] commits and deletes it. *)

From S2P Require Import Prelude Effects GoPath StoreApi LayerApi.

(** [strings.HasSuffix] *)
Definition HasSuffix (s suffix : string) : bool :=
  let n := String.length s - String.length suffix in
  bool_decide (String.length suffix <= String.length s) &&
  (String.substring n (String.length suffix) s ==? suffix).

(** ** Retrying a push

    [retry.RetryIfNecessary] of [containers/common] is an interface: it calls
    the operation again after an error, at most [n] times, and returns the
    error of the last call. *)
Inductive push_attempts (op : prog (option goerr)) : nat -> list event -> outcome (option goerr) -> Prop :=
| push_last n tr o : runs op tr o -> push_attempts op n tr o
| push_again n tr e tr' o :
    runs op tr (Returned (Some e)) -> push_attempts op n tr' o -> push_attempts op (S n) (tr ++ tr') o.

Class PushRetry := {
  RetryIfNecessary : nat -> prog (option goerr) -> prog (option goerr);
  RetryIfNecessary_attempts : forall n op tr o,
    runs (RetryIfNecessary n op) tr o -> push_attempts op n tr o
}.

(** An implementation that repeats after every error. *)
Fixpoint push_loop (n : nat) (op : prog (option goerr)) : prog (option goerr) :=
  let! e := op in
  match e, n with
  | Some _, S n => push_loop n op
  | _, _ => Ret e
  end.

Lemma push_loop_attempts n op tr o : runs (push_loop n op) tr o -> push_attempts op n tr o.
Proof.
  revert tr. induction n as [|n IH]; intros tr H; cbn [push_loop] in H; apply runs_bind in H;
    destruct H as [(m & Hr & ->)|(e & tr1 & tr2 & -> & Hr & Hf)]; try by apply push_last.
  - destruct e; destruct Hf as [-> ->]; rewrite app_nil_r; by apply push_last.
  - destruct e as [e|]; [by eapply push_again; [|apply IH]|].
    destruct Hf as [-> ->]. rewrite app_nil_r. by apply push_last.
Qed.

Definition push_loop_impl : PushRetry :=
  {| RetryIfNecessary := push_loop; RetryIfNecessary_attempts := push_loop_attempts |}.

(** ** Options *)

Definition validate (o : MountOptions) : option goerr :=
  if (mo_Image o ==? "") && (mo_CacheName o ==? "") then
    Some (Errorf "neither cache name nor image specified")
  else
    let dir := mo_ExtMountDir o in
    if (dir !=? "") && negb (IsAbs dir) then
      Some (Errorf ("non-absolute mount path " +++ quoted dir +++ " provided"))
    else None.

Definition containerName (o : MountOptions) : result string :=
  if mo_ContainerName o !=? "" then Ok (mo_ContainerName o)
  else if mo_ExtMountDir o !=? "" then
    let name := Base (mo_ExtMountDir o) in
    if (name ==? "") || (name ==? "..") || (name ==? ".") || (name ==? "/") then
      Err (Errorf ("cannot derive container name from provided mount path " +++
        quoted (mo_ExtMountDir o) +++ ", requires sub directory"))
    else Ok (Clean (mo_ExtMountDir o))
  else Ok "".

Definition localImageName (o : MountOptions) : string :=
  "localhost/cache/" +++ mo_CacheNamespace o +++ "/" +++ mo_CacheName o +++ ":latest".

Definition storeImageRef (name : string) : prog (result ImageReference) :=
  call (ParseStoreReference name).

Definition imageRef (o : MountOptions) : prog (result ImageReference) :=
  if mo_Image o ==? "" then
    if (mo_CacheName o ==? "") || (mo_CacheNamespace o ==? "") then
      Ret (Err (Errorf "cache name and namespace must be specified"))
    else storeImageRef (localImageName o)
  else
    let! r := call (ParseImageName (mo_Image o)) in
    match r with
    | Ok ref => Ret (Ok ref)
    | Err e => Ret (Err (Wrap "invalid image name provided" e))
    end.

(** [ref.DockerReference().String()] panics on a reference without a Docker
    reference. *)
Definition nil_pointer := "invalid memory address or nil pointer dereference".
Definition docker_reference (ref : ImageReference) : outcome string :=
  match ref_DockerReference ref with
  | Some s => Returned s
  | None => Panicked nil_pointer
  end.

(** ** Mounting ([mount.go]) *)

Definition mount (srcDir destDir : string) : prog (option goerr) :=
  let! err := call (UnixMount srcDir destDir) in
  Ret (wrap_err ("bind mount " +++ srcDir +++ " to " +++ destDir) err).

Definition unmount (destDir : string) : prog (option goerr) :=
  let! err := call (UnixUnmount destDir) in
  Ret (wrap_err ("unmount " +++ destDir) err).

Definition unmountAndDelete (dir : string) : prog (option goerr) :=
  do! unmount dir in
  let! err := call (OsRemove dir) in
  match err with
  | Some err => if negb (oe_IsNotExist err) then Ret (Some (oe_err err)) else Ret None
  | None => Ret None
  end.

(** ** Mount *)

Definition newBuilder (name imageName : string) (pullPolicy : PullPolicy) : prog (result Builder) :=
  call (NewBuilder (mkBuilderOptions name imageName pullPolicy)).

(** From [builder.Mount] to the end of [Mount]. *)
Definition mount_builder (opts : MountOptions) (builder : Builder) : prog (string * option goerr) :=
  let! r := call (BuilderMount builder (b_MountLabel builder)) in
  match r with
  | Err err => Ret ("", Some err)
  | Ok dir =>
      if mo_ExtMountDir opts !=? "" then
        let builder := builder <| b_Args := Some {["MOUNT_DIR" := mo_ExtMountDir opts]} |> in
        let! err := call (BuilderSave builder) in
        match err with
        | Some _ => Ret ("", err)
        | None =>
            let! err := mount dir (mo_ExtMountDir opts) in
            Ret (mo_ExtMountDir opts, err)
        end
      else Ret (dir, None)
  end.

(** The image is missing. *)
Definition image_not_found (err : goerr) : bool :=
  HasSuffix (Error err) ": manifest unknown" || HasSuffix (Error err) " could not be found locally".

(** The container, from the image or empty, and what is done with it; the
    deferred function deletes it if [Mount] returns an error. *)
Definition mount_container (opts : MountOptions) (name imageName : string) (pullPolicy : PullPolicy)
  : prog (string * option goerr) :=
  let! r := newBuilder name imageName pullPolicy in
  let! r := match r with
            | Ok builder => Ret (Ok builder)
            | Err err =>
                if negb (image_not_found err) || (imageName ==? "scratch") then Ret (Err err)
                else newBuilder name "scratch" PullNever
            end in
  match r with
  | Err err => Ret ("", Some err)
  | Ok builder =>
      let! (dir, err) := mount_builder opts builder in
      match err with
      | Some _ =>
          do! call (BuilderUnmount builder) in
          do! call (BuilderDelete builder) in
          Ret (dir, err)
      | None => Ret (dir, err)
      end
  end.

(** [store.Mount]; the deferred function removes the mount directory if [Mount]
    returns an error.  Nothing panics once it is registered. *)
Definition store_Mount (opts : MountOptions) : prog (string * option goerr) :=
  match validate opts, containerName opts with
  | Some err, _ => Ret ("", Some err)
  | None, Err err => Ret ("", Some err)
  | None, Ok name =>
      let pullPolicy := if mo_Image opts ==? "" then PullNever else PullAlways in
      let! r := if mo_Image opts ==? "" then storeImageRef (localImageName opts) else imageRef opts in
      match r with
      | Err err => Ret ("", Some err)
      | Ok ref =>
          let! imageName := of_outcome (docker_reference ref) in
          let! mkdirErr := if mo_ExtMountDir opts !=? "" then call (OsMkdir (mo_ExtMountDir opts))
                           else Ret None in
          match mkdirErr with
          | Some _ => Ret ("", mkdirErr)
          | None =>
              let! (dir, err) := mount_container opts name imageName pullPolicy in
              match err with
              | Some _ =>
                  if mo_ExtMountDir opts !=? "" then
                    do! call (OsRemove (mo_ExtMountDir opts)) in Ret (dir, err)
                  else Ret (dir, err)
              | None => Ret (dir, err)
              end
          end
      end
  end.

(** ** Commit and push *)

Definition commit (builder : Builder) (imgRef : option ImageReference)
  : prog (string * option string * bool * option goerr) :=
  let! c := call (ContainerByID (b_ContainerID builder)) in
  match c with
  | Err err => Ret ("", None, false, Some err)
  | Ok c =>
      let! changes := call (Changes "" (sc_LayerID c)) in
      match changes with
      | Err err => Ret ("", None, false, Some err)
      | Ok changes =>
          let imageID := sc_ImageID c in
          match imgRef with
          | None => Ret (imageID, None, false, None)
          | Some imgRef =>
              do! of_outcome (docker_reference imgRef) in
              if (length changes ==? 0) && (imageID !=? "") then Ret (imageID, None, false, None)
              else
                let! r := call (BuilderCommit builder imgRef) in
                match r with
                | Err err => Ret ("", None, false, Some (Wrap "commit" err))
                | Ok (imageID, ref) => Ret (imageID, ref, true, None)
                end
          end
      end
  end.

Section Push.
Context `{!PushRetry}.

Definition pushImage (srcImageRef : option string) (srcImageID : string) (destRef : ImageReference)
  : prog (option goerr) :=
  let! err := call NewPolicyContext in
  match err with
  | Some err => Panic (Error err)
  | None =>
      let! srcRef := call (NewStoreReference srcImageRef srcImageID) in
      match srcRef with
      | Err err => Ret (Some (Wrap "push source" err))
      | Ok srcRef => RetryIfNecessary 10 (call (CopyImage destRef srcRef))
      end
  end.

(** ** Unmount *)

(** The rest of [Unmount] once the container is unmounted. *)
Definition commit_and_push (opts : MountOptions) (builder : Builder)
  : prog (string * bool * option goerr) :=
  let! localImgRef := storeImageRef (localImageName opts) in
  match localImgRef with
  | Err err => Ret ("", false, Some err)
  | Ok localImgRef =>
      let! destRef := if mo_Image opts !=? "" then
                        let! r := imageRef opts in
                        match r with
                        | Ok ref => Ret (Ok (Some ref))
                        | Err err => Ret (Err err)
                        end
                      else Ret (Ok None) in
      match destRef with
      | Err err => Ret ("", false, Some err)
      | Ok destRef =>
          let! (imageID, ref, newImage, err) := commit builder (Some localImgRef) in
          match err with
          | Some err => Ret ("", false, Some err)
          | None =>
              match destRef with
              | Some destRef =>
                  if newImage then
                    let! err := pushImage ref imageID destRef in
                    match err with
                    | Some err => Ret ("", false, Some err)
                    | None => Ret (imageID, newImage, None)
                    end
                  else Ret (imageID, newImage, None)
              | None => Ret (imageID, newImage, None)
              end
          end
      end
  end.

Definition unmount_builder (opts : MountOptions) (builder : Builder) (err : option goerr)
  : prog (string * bool * option goerr) :=
  let! e := call (BuilderUnmount builder) in
  let err := match err with Some _ => err | None => e end in
  match err with
  | Some _ => Ret ("", false, err)
  | None => if mo_Commit opts then commit_and_push opts builder else Ret ("", false, None)
  end.

(** The container of the volume, by its name or else by its path. *)
Definition open_builder (opts : MountOptions) (name : string) : prog (result Builder) :=
  let! r := call (OpenBuilder name) in
  match r with
  | Ok builder => Ret (Ok builder)
  | Err err =>
      if mo_ContainerName opts ==? "" then
        let! r := call (OpenBuilderByPath (mo_ExtMountDir opts)) in
        match r with
        | Ok builder => Ret (Ok builder)
        | Err err => Ret (Err (Wrap ("find cache container by path " +++ mo_ExtMountDir opts) err))
        end
      else Ret (Err (Wrap ("find cache container " +++ quoted name) err))
  end.

(** The directory the container remembers, if it is another one. *)
Definition unmount_remembered (opts : MountOptions) (builder : Builder) : prog (option goerr) :=
  let dir := map_index (b_Args builder) "MOUNT_DIR" in
  if (dir !=? "") && (dir !=? mo_ExtMountDir opts) then unmountAndDelete dir else Ret None.

(** [store.Unmount].  The error of the first [unmountAndDelete] is overwritten
    by the result of [OpenBuilder]. *)
Definition store_Unmount (opts : MountOptions) : prog (string * bool * option goerr) :=
  match validate opts with
  | Some err => Ret ("", false, Some err)
  | None =>
      if (mo_ContainerName opts ==? "") && (mo_ExtMountDir opts ==? "") then
        Ret ("", false, Some (Errorf "neither container name nor mount path provided"))
      else
        match containerName opts with
        | Err err => Ret ("", false, Some err)
        | Ok name =>
            do! (if mo_ExtMountDir opts !=? "" then unmountAndDelete (mo_ExtMountDir opts) else Ret None) in
            let! r := open_builder opts name in
            match r with
            | Err err => Ret ("", false, Some err)
            | Ok builder =>
                let! err := unmount_remembered opts builder in
                finally (unmount_builder opts builder err) (fun o =>
                  let! ctxErr := call ContextErr in
                  match ctxErr with
                  | None =>
                      let! e := call (BuilderDelete builder) in
                      match o with
                      | Returned (imageID, newImage, err) =>
                          Ret (imageID, newImage, match err with Some _ => err | None => e end)
                      | Panicked m => Panic m
                      end
                  | Some _ => of_outcome o
                  end)
            end
        end
  end.

End Push.

(** ** What a mount leaves behind

    The directories and containers that calls have created and not tried to
    remove since. *)

Record held := mkHeld { held_dirs : list string; held_containers : list string }.
Definition held_nothing : held := mkHeld [] [].

Definition hold (e : event) (s : held) : held :=
  match ev_cmd e as c return resp c -> held with
  | OsMkdir dir => fun r => match r with None => mkHeld (dir :: held_dirs s) (held_containers s) | Some _ => s end
  | OsRemove dir => fun _ => mkHeld (filter (fun d => d <> dir) (held_dirs s)) (held_containers s)
  | NewBuilder _ => fun r =>
      match r with Ok b => mkHeld (held_dirs s) (b_ContainerID b :: held_containers s) | Err _ => s end
  | BuilderDelete b => fun _ =>
      mkHeld (held_dirs s) (filter (fun c => c <> b_ContainerID b) (held_containers s))
  | _ => fun _ => s
  end (ev_resp e).

(** After a trace, oldest call first. *)
Definition held_after (tr : list event) : held := foldl (fun s e => hold e s) held_nothing tr.
(** After a history, latest call first. *)
Definition held_history (h : list event) : held := foldr hold held_nothing h.

Lemma held_after_history tr : held_history (rev tr ++ []) = held_after tr.
Proof.
  rewrite app_nil_r. unfold held_history, held_after. generalize held_nothing.
  induction tr as [|e tr IH]; intros s; [done|]. cbn [rev foldl]. by rewrite foldr_app, IH.
Qed.

(** What a mount that succeeds has created. *)
Definition held_mounted (opts : MountOptions) (b : Builder) : held :=
  mkHeld (if mo_ExtMountDir opts !=? "" then [mo_ExtMountDir opts] else []) [b_ContainerID b].

(** The directory [Mount] returns: the one of the options, or the one of the
    container. *)
Definition mounted_at (opts : MountOptions) (b : Builder) (dir : string) (h : list event) : Prop :=
  exists root, Ev (BuilderMount b (b_MountLabel b)) (Ok root) ∈ h /\
    if mo_ExtMountDir opts !=? "" then
      dir = mo_ExtMountDir opts /\ Ev (UnixMount root dir) None ∈ h /\
      Ev (BuilderSave (b <| b_Args := Some {["MOUNT_DIR" := dir]} |>)) None ∈ h
    else dir = root.

Lemma mount_builder_wp opts b h :
  wp (mount_builder opts b) (fun _ _ => True)
    (fun h' o => held_history h' = held_history h /\
       exists dir err, o = Returned (dir, err) /\ (err = None -> mounted_at opts b dir h')) h.
Proof.
  unfold mount_builder, mount. wp_go. repeat (wp_go; try done).
  all: split; [done|]; do 2 eexists; (split; [done|]); try done; intros Hn.
  - apply wrap_err_None in Hn. unfold mounted_at. eexists. split; [in_history|].
    rewrite Heqb0. simplify_eq. split; [done|]. split; in_history.
  - eexists. split; [in_history|]. by rewrite Heqb0.
Qed.

Lemma newBuilder_wp name image policy h :
  wp (newBuilder name image policy) (fun _ _ => True)
    (fun h' o => exists r, o = Returned r /\
       match r with
       | Ok b => held_history h' = mkHeld (held_dirs (held_history h)) (b_ContainerID b :: held_containers (held_history h))
       | Err _ => held_history h' = held_history h
       end) h.
Proof. unfold newBuilder, call. cbn [wp]. split; [done|]. intros r. exists r. by destruct r. Qed.

Lemma mount_container_wp opts name image policy h :
  held_containers (held_history h) = [] ->
  wp (mount_container opts name image policy) (fun _ _ => True)
    (fun h' o => exists dir err, o = Returned (dir, err) /\
       match err with
       | Some _ => held_history h' = held_history h
       | None => exists b, held_history h' = mkHeld (held_dirs (held_history h)) [b_ContainerID b] /\
                   mounted_at opts b dir h'
       end) h.
Proof.
  intros Hc. unfold mount_container. rewrite wp_bind.
  eapply wp_mono; [apply newBuilder_wp|done|]. intros h1 o (r & -> & Hr). cbn [wp]. rewrite wp_bind.
  (* the container that is used in the end *)
  assert (Hb : wp match r with
                  | Ok builder => Ret (Ok builder)
                  | Err err => if negb (image_not_found err) || (image ==? "scratch") then Ret (Err err)
                               else newBuilder name "scratch" PullNever
                  end (fun _ _ => True)
    (fun h' o => exists r, o = Returned r /\
       match r with
       | Ok b => held_history h' = mkHeld (held_dirs (held_history h)) [b_ContainerID b]
       | Err _ => held_history h' = held_history h
       end) h1).
  { destruct r as [b|e]; [exists (Ok b); by rewrite Hr, Hc|].
    destruct (_ || _); [by exists (Err e)|].
    eapply wp_mono; [apply newBuilder_wp|done|]. intros h2 o (r & -> & Hr2). exists r. split; [done|].
    rewrite Hr in Hr2. destruct r; by rewrite ?Hr2, ?Hc. }
  eapply wp_mono; [exact Hb|done|]. clear Hb. intros h2 o (r2 & -> & Hr2). cbn [wp].
  destruct r2 as [b|e]; [|by do 2 eexists].
  rewrite wp_bind. eapply wp_mono; [apply mount_builder_wp|done|].
  intros h3 o (Hh & dir & err & -> & Hm). cbn [wp]. destruct err as [e|].
  - cbn [bind call wp]. split; [done|]. intros r3. split; [done|]. intros r4. do 2 eexists. split; [done|].
    cbn. change (foldr hold held_nothing h3) with (held_history h3). rewrite Hh, Hr2. cbn.
    destruct (held_history h) as [ds cs]. cbn in Hc |- *. subst cs. f_equal.
    rewrite decide_False by (intros H; by apply H). done.
  - do 2 eexists. split; [done|]. exists b. rewrite Hh. split; [done|]. by apply Hm.
Qed.

Lemma mounted_at_mono opts b dir h h' : h ⊆ h' -> mounted_at opts b dir h -> mounted_at opts b dir h'.
Proof.
  intros Hs (root & H1 & H2). exists root. split; [by apply Hs|].
  destruct (_ !=? _); [|done]. destruct H2 as (-> & H2 & H3). split; [done|]. split; by apply Hs.
Qed.

(** References are looked up without creating anything. *)
Lemma image_lookup_wp opts h :
  wp (if mo_Image opts ==? "" then storeImageRef (localImageName opts) else imageRef opts)
    (fun _ _ => True) (fun h' o => held_history h' = held_history h /\ exists r, o = Returned r) h.
Proof. unfold storeImageRef, imageRef. repeat (wp_go; try done); (split; [done|by eexists]). Qed.

Lemma store_Mount_wp opts :
  wp (store_Mount opts) (fun _ _ => True)
    (fun h' o => match o with
                 | Returned (_, Some _) => held_history h' = held_nothing
                 | Returned (dir, None) => exists b, held_history h' = held_mounted opts b /\ mounted_at opts b dir h'
                 | Panicked _ => True
                 end) [].
Proof.
  unfold store_Mount. destruct (validate opts); [done|]. destruct (containerName opts) as [name|]; [|done].
  rewrite wp_bind. eapply wp_mono; [apply image_lookup_wp|done|]. intros h1 o (Hh1 & r & ->). cbn [wp].
  destruct r as [ref|]; [|done]. unfold docker_reference.
  destruct (ref_DockerReference ref) as [image|]; [|done]. cbn [of_outcome bind]. rewrite wp_bind.
  set (policy := if _ ==? _ then _ else _).
  destruct (mo_ExtMountDir opts !=? "") eqn:Hd.
  - unfold call at 1. cbn [wp]. split; [done|]. intros [e|]; cbn [wp]; [done|].
    rewrite wp_bind. eapply wp_mono; [apply mount_container_wp; change (held_containers (held_history h1) = []); by rewrite Hh1|done|].
    intros h2 o (dir & err & -> & Hh). cbn in Hh. change (foldr hold held_nothing h1) with (held_history h1) in Hh. rewrite Hh1 in Hh. destruct err as [e|]; cbn [wp bind call].
    + split; [done|]. intros r. cbn. change (foldr hold held_nothing h2) with (held_history h2).
      rewrite Hh. cbn. rewrite decide_False by (intros H; by apply H). done.
    + destruct Hh as (b & Hh & Hm). exists b. unfold held_mounted. by rewrite Hd.
  - cbn [wp]. rewrite wp_bind. eapply wp_mono; [apply mount_container_wp; by rewrite Hh1|done|].
    intros h2 o (dir & err & -> & Hh). rewrite Hh1 in Hh. destruct err as [e|]; [done|].
    destruct Hh as (b & Hh & Hm). exists b. unfold held_mounted. by rewrite Hd.
Qed.

(** C13: a mount leaves nothing behind when it fails: the directory it has
    created is removed and the container it has created is deleted.  A mount
    that succeeds has created the directory of the options, if they name one,
    and one container, and answers the directory where the root of this
    container is mounted. *)
Theorem mount_all_or_nothing opts tr dir err :
  runs (store_Mount opts) tr (Returned (dir, err)) ->
  match err with
  | Some _ => held_after tr = held_nothing
  | None => exists b, held_after tr = held_mounted opts b /\ mounted_at opts b dir tr
  end.
Proof.
  intros Hr. pose proof (wp_post _ _ _ _ _ _ (store_Mount_wp opts) Hr) as H. cbn in H.
  rewrite held_after_history in H. destruct err as [e|]; [done|]. destruct H as (b & Hh & Hm).
  exists b. split; [done|]. eapply mounted_at_mono; [apply history_of_trace|done].
Qed.

(** ** Proof rule for the push *)

Section PushRule.
Context `{!PushRetry} (op : prog (option goerr)) (I : list event -> Prop) (G : list event -> cmd -> Prop)
  (Q : list event -> outcome (option goerr) -> Prop).
Hypothesis push_ok : forall h, I h ->
  wp op G (fun h' o => Q h' o /\ forall e, o = Returned (Some e) -> I h') h.

Lemma push_post n tr o h : push_attempts op n tr o -> I h -> Q (rev tr ++ h) o.
Proof.
  intros Ha. revert h. induction Ha as [n tr o Hr|n tr e tr' o Hr _ IH]; intros h HI;
    destruct (wp_post _ _ _ _ _ _ (push_ok h HI) Hr) as [HQ Hn]; [done|].
  rewrite rev_app_distr, <- app_assoc. apply IH. by eapply Hn.
Qed.

Lemma push_guard n tr o h tr0 c y tr1 :
  push_attempts op n tr o -> tr = tr0 ++ Ev c y :: tr1 -> I h -> G (rev tr0 ++ h) c.
Proof.
  intros Ha. revert h tr0. induction Ha as [n tr o Hr|n tr e tr' o Hr _ IH]; intros h tr0 Heq HI.
  - subst tr. by eapply wp_guard; [exact (push_ok h HI)|].
  - symmetry in Heq. apply app_eq_cons_split in Heq as [(k & -> & ->)|(k & -> & ->)].
    + destruct (wp_post _ _ _ _ _ _ (push_ok h HI) Hr) as [_ Hn].
      rewrite rev_app_distr, <- app_assoc. apply IH; [done|by eapply Hn].
    + by eapply wp_guard; [exact (push_ok h HI)|].
Qed.

Lemma wp_push n h : I h -> wp (RetryIfNecessary n op) G Q h.
Proof.
  intros HI. apply wp_complete; [exact lresp_default| |].
  - intros tr o Hr. apply RetryIfNecessary_attempts in Hr. by eapply push_post.
  - intros tr c y tr' o Hr. apply RetryIfNecessary_attempts in Hr. by eapply push_guard.
Qed.

End PushRule.

Section UnmountProperties.
Context `{!PushRetry}.

(** The container a call has found. *)
Definition opened_builder (e : event) : option Builder :=
  match ev_cmd e as c return resp c -> option Builder with
  | OpenBuilder _ | OpenBuilderByPath _ => fun r => match r with Ok b => Some b | Err _ => None end
  | _ => fun _ => None
  end (ev_resp e).
Definition opened (b : Builder) (h : list event) : Prop := omap opened_builder h = [b].

(** The container is unmounted and has changes, or no image to keep. *)
Definition committable (b : Builder) (h : list event) : Prop :=
  Ev (BuilderUnmount b) None ∈ h /\
  exists c changes, Ev (ContainerByID (b_ContainerID b)) (Ok c) ∈ h /\
    Ev (Changes "" (sc_LayerID c)) (Ok changes) ∈ h /\ (changes <> [] \/ sc_ImageID c = "").

(** When an image may be created and pushed, after the container is found. *)
Definition unmount_guard (opts : MountOptions) (b : Builder) (h : list event) (c : cmd) : Prop :=
  match c with
  | BuilderCommit b' ref =>
      b' = b /\ mo_Commit opts = true /\ committable b h /\
      Ev (ParseStoreReference (localImageName opts)) (Ok ref) ∈ h
  | CopyImage dest src =>
      Ev (ParseImageName (mo_Image opts)) (Ok dest) ∈ h /\
      exists local id named, Ev (BuilderCommit b local) (Ok (id, named)) ∈ h /\
        Ev (NewStoreReference named id) (Ok src) ∈ h
  | BuilderUnmount b' => b' = b
  | UnixUnmount _ => True
  | OsRemove dir => exists r, head h = Some (Ev (UnixUnmount dir) r)
  | BuilderDelete b' => b' = b /\ head h = Some (Ev ContextErr None)
  | ParseStoreReference _ | ParseImageName _ | NewStoreReference _ _ | ContainerByID _ | Changes _ _
  | NewPolicyContext | ContextErr => True
  | _ => False
  end.

Lemma commit_wp opts b ref h :
  mo_Commit opts = true -> Ev (BuilderUnmount b) None ∈ h ->
  Ev (ParseStoreReference (localImageName opts)) (Ok ref) ∈ h ->
  wp (commit b (Some ref)) (unmount_guard opts b)
    (fun h' o => match o with
                 | Returned (id, named, new, err) =>
                     err = None -> new = true -> Ev (BuilderCommit b ref) (Ok (id, named)) ∈ h'
                 | Panicked _ => True
                 end) h.
Proof.
  intros Hc Hu Hp. unfold commit. rewrite wp_bind. cbn [call wp]. split; [done|]. intros [c|e]; cbn [wp]; [|done].
  rewrite wp_bind. cbn [call wp]. split; [done|]. intros [changes|e]; cbn [wp]; [|done].
  rewrite wp_bind. destruct (docker_reference ref); cbn [of_outcome wp]; [|done].
  destruct (_ && _) eqn:E; cbn [wp]; [done|].
  assert (Hch : changes <> [] \/ sc_ImageID c = "").
  { apply andb_false_iff in E as [E|E]; [left|right].
    - intros ->. by apply bool_decide_eq_false in E.
    - by apply negb_false_iff, bool_decide_eq_true in E. }
  rewrite wp_bind. cbn [call wp]. split.
  - cbn. split; [done|]. split; [done|]. split; [|by in_history].
    split; [by in_history|]. exists c, changes. split; [in_history|]. split; [in_history|done].
  - intros [[id named]|e]; cbn [wp]; [intros _ _; in_history|done].
Qed.

Lemma pushImage_wp opts b local id named dest h :
  Ev (ParseImageName (mo_Image opts)) (Ok dest) ∈ h ->
  Ev (BuilderCommit b local) (Ok (id, named)) ∈ h ->
  wp (pushImage named id dest) (unmount_guard opts b)
    (fun h' o => h ⊆ h' /\ (o = Returned None -> exists src, Ev (CopyImage dest src) None ∈ h')) h.
Proof.
  intros Hd Hb. unfold pushImage. rewrite wp_bind. cbn [call wp]. split; [done|].
  intros [e|]; cbn [wp]; [split; [set_solver|done]|].
  rewrite wp_bind. cbn [call wp]. split; [done|]. intros [src|e]; cbn [wp]; [|split; [set_solver|done]].
  match goal with |- wp _ _ _ ?h1 => apply (wp_push _ (fun h' => h1 ⊆ h')); [|done]; intros h2 Hs end.
  cbn [call wp]. split.
  - cbn. split; [set_solver|]. exists local, id, named. split; set_solver.
  - intros x. split; [split; [set_solver|]|]; [intros [= ->]; exists src; in_history|set_solver].
Qed.

(** What [Unmount] reports: an image is new only if it was committed from the
    container, and then it is in the registry too, if the options name one. *)
Definition unmount_result (opts : MountOptions) (b : Builder) (h : list event)
    (o : outcome (string * bool * option goerr)) : Prop :=
  match o with
  | Returned (id, true, err) =>
      exists local named, Ev (BuilderCommit b local) (Ok (id, named)) ∈ h /\
        (mo_Image opts <> "" -> exists dest src, Ev (CopyImage dest src) None ∈ h)
  | _ => True
  end.

Lemma unmount_result_mono opts b h h' o : h ⊆ h' -> unmount_result opts b h o -> unmount_result opts b h' o.
Proof.
  intros Hs. destruct o as [[[id []] err]|]; [|done..]. intros (l & n & H1 & H2). exists l, n.
  split; [by apply Hs|]. intros Hi. destruct (H2 Hi) as (d & src & Hc). exists d, src. by apply Hs.
Qed.

(** The reference of the registry, if the options name an image. *)
Lemma dest_ref_wp opts b h :
  wp (if mo_Image opts !=? "" then
        let! r := imageRef opts in
        match r with Ok ref => Ret (Ok (Some ref)) | Err err => Ret (Err err) end
      else Ret (Ok None)) (unmount_guard opts b)
    (fun h' o => exists r, o = Returned r /\
       match r with
       | Ok (Some dest) => Ev (ParseImageName (mo_Image opts)) (Ok dest) ∈ h'
       | Ok None => mo_Image opts = ""
       | Err _ => True
       end) h.
Proof.
  destruct (mo_Image opts !=? "") eqn:E.
  - unfold imageRef. rewrite (negb_true_iff) in E. rewrite E. repeat (wp_go; try done);
      eexists; (split; [done|]); try done. in_history.
  - eexists. split; [done|]. by apply negb_false_iff, bool_decide_eq_true in E.
Qed.

Lemma commit_and_push_wp opts b h :
  mo_Commit opts = true -> Ev (BuilderUnmount b) None ∈ h ->
  wp (commit_and_push opts b) (unmount_guard opts b) (unmount_result opts b) h.
Proof.
  intros Hc Hu. unfold commit_and_push, storeImageRef. rewrite wp_bind. cbn [call wp]. split; [done|].
  intros [local|e]; cbn [wp]; [|done]. rewrite wp_bind.
  eapply wp_frame; [apply (dest_ref_wp opts b)|done|]. intros h2 o Hs2 (r & -> & Hr). cbn [wp].
  destruct r as [dest|e]; [|done]. rewrite wp_bind.
  eapply wp_frame; [apply (commit_wp opts b local); [done|by apply Hs2, list_elem_of_further|apply Hs2; in_history]|done|].
  intros h3 o Hs3 Hq. destruct o as [[[[id named] new] err]|]; [|done]. cbn [wp].
  destruct err as [e|]; [done|]. specialize (Hq eq_refl).
  destruct dest as [dest|].
  - destruct new; [|done]. specialize (Hq eq_refl). rewrite wp_bind.
    eapply wp_mono; [eapply (pushImage_wp opts b local); [by apply Hs3|done]|done|].
    intros h4 o [Hs4 Hp]. destruct o as [[e|]|]; [done| |done]. destruct (Hp eq_refl) as [src Hsrc].
    exists local, named. split; [by apply Hs4|]. intros _. by exists dest, src.
  - destruct new; [|done]. exists local, named. split; [by apply Hq|]. by intros [].
Qed.

Lemma unmount_builder_wp opts b err h :
  wp (unmount_builder opts b err) (unmount_guard opts b)
    (fun h' o => unmount_result opts b h' o /\ exists x, Ev (BuilderUnmount b) x ∈ h') h.
Proof.
  unfold unmount_builder. rewrite wp_bind. cbn [call wp]. split; [done|]. intros e. cbn [wp].
  destruct (match err with Some _ => err | None => e end) as [e'|] eqn:E.
  - split; [done|]. eexists. in_history.
  - destruct err; [done|]. subst e. destruct (mo_Commit opts) eqn:Hc.
    + eapply wp_frame; [apply commit_and_push_wp; [done|in_history]|done|].
      intros h' o Hs Hres. split; [done|]. eexists. apply Hs. in_history.
    + split; [done|]. eexists. in_history.
Qed.

(** Before the container is found, only the directory of the options is
    unmounted and removed. *)
Definition open_guard (opts : MountOptions) (h : list event) (c : cmd) : Prop :=
  match c with
  | UnixUnmount dir => dir = mo_ExtMountDir opts
  | OsRemove dir => exists r, head h = Some (Ev (UnixUnmount dir) r)
  | OpenBuilder _ | OpenBuilderByPath _ => True
  | _ => False
  end.

Lemma unmountAndDelete_wp G dir h :
  (G h (UnixUnmount dir) : Prop) -> (forall r, G (Ev (UnixUnmount dir) r :: h) (OsRemove dir)) ->
  wp (unmountAndDelete dir) G
    (fun h' o => (exists e, o = Returned e) /\ omap opened_builder h' = omap opened_builder h) h.
Proof.
  intros H1 H2. unfold unmountAndDelete, unmount. rewrite !wp_bind. cbn [call wp]. split; [done|].
  intros r. cbn [wp]. rewrite wp_bind. cbn [call wp]. split; [apply H2|]. intros x.
  repeat (wp_go; try done); (split; [by eexists|done]).
Qed.

Lemma open_builder_wp opts name h :
  omap opened_builder h = [] ->
  wp (open_builder opts name) (open_guard opts)
    (fun h' o => exists r, o = Returned r /\
       match r with Ok b => opened b h' | Err _ => omap opened_builder h' = [] end) h.
Proof.
  intros Hh. unfold open_builder, opened. repeat (wp_go; try done);
    eexists; (split; [done|]); simpl; (exact Hh || by apply (f_equal (cons _))).
Qed.

(** The guard of the whole program. *)
Definition store_unmount_guard (opts : MountOptions) (h : list event) (c : cmd) : Prop :=
  open_guard opts h c \/ exists b, opened b h /\ unmount_guard opts b h c.

(** What has happened when [Unmount] ends. *)
Definition unmounted (opts : MountOptions) (h : list event) (o : outcome (string * bool * option goerr)) : Prop :=
  (omap opened_builder h = [] /\ exists err, o = Returned ("", false, Some err)) \/
  exists b, opened b h /\ (exists x, Ev (BuilderUnmount b) x ∈ h) /\ unmount_result opts b h o /\
    ((exists e h', h = Ev (BuilderDelete b) e :: Ev ContextErr None :: h') \/
     (exists e h', h = Ev ContextErr (Some e) :: h')).

Lemma unmount_guard_unopened opts b h c x : unmount_guard opts b h c -> opened_builder (Ev c x) = None.
Proof. by destruct c. Qed.

(** A program that obeys the guard of the container. *)
Lemma opened_wp {A} opts b (p : prog A) Q h :
  wp p (unmount_guard opts b) Q h -> opened b h ->
  wp p (store_unmount_guard opts) (fun h' o => Q h' o /\ opened b h') h.
Proof.
  intros Hw Ho.
  assert (Hgen : forall h0, opened b h0 -> wp p (unmount_guard opts b) Q h0 ->
    wp p (store_unmount_guard opts) (fun h' o => Q h' o /\ opened b h') h0); [|by apply Hgen].
  clear h Hw Ho. induction p as [a|m|c k IH]; intros h Ho Hw; cbn [wp] in *; [by auto..|].
  destruct Hw as [Hg Hk]. split; [right; eauto|]. intros x. apply IH; [|done].
  unfold opened in *. simpl. by rewrite (unmount_guard_unopened _ _ _ _ x Hg).
Qed.

Lemma store_Unmount_wp opts : wp (store_Unmount opts) (store_unmount_guard opts) (unmounted opts) [].
Proof.
  assert (Herr : forall err h, omap opened_builder h = [] -> unmounted opts h (Returned ("", false, Some err))).
  { intros err h Hh. left. eauto. }
  unfold store_Unmount. destruct (validate opts); [by apply Herr|].
  destruct (_ && _); [by apply Herr|]. destruct (containerName opts) as [name|]; [|by apply Herr].
  rewrite wp_bind. eapply (wp_mono _ _ _ (fun h' o => (exists e, o = Returned e) /\ omap opened_builder h' = []));
    [|done|].
  { destruct (mo_ExtMountDir opts !=? ""); [|split; [by eexists|done]].
    apply (unmountAndDelete_wp (store_unmount_guard opts)); [by left|]. intros r. left. by exists r. }
  intros h1 o [[e0 ->] Hh1]. cbn [wp]. rewrite wp_bind.
  eapply wp_mono; [by apply open_builder_wp|by left|]. intros h2 o (r & -> & Hr). cbn [wp].
  destruct r as [b|err]; [|by apply Herr]. rewrite wp_bind.
  eapply (wp_mono _ _ _ (fun h' o => (exists e, o = Returned e) /\ opened b h')); [|done|].
  { unfold unmount_remembered. destruct (_ && _); [|split; [by eexists|done]].
    eapply wp_mono; [apply (unmountAndDelete_wp (store_unmount_guard opts))|done|].
    - right. by exists b.
    - intros r. left. by exists r.
    - intros h3 o [He Ho]. split; [done|]. unfold opened. by rewrite Ho. }
  intros h3 o [[err ->] Ho]. cbn [wp]. rewrite wp_finally.
  eapply wp_mono; [by apply opened_wp, Ho; apply unmount_builder_wp|done|].
  intros h4 o [[Hres [x Hx]] Ho4]. rewrite wp_bind. cbn [call wp].
  split; [right; by exists b|]. intros [e|].
  - assert (Hu : unmounted opts (Ev ContextErr (Some e) :: h4) o).
    { right. exists b. split; [done|]. split; [exists x; by in_history|]. split; [|right; eauto].
      eapply unmount_result_mono; [|done]. set_solver. }
    by destruct o as [[[id new] err']|m].
  - rewrite wp_bind. cbn [call wp]. split; [right; exists b; by split_and!|]. intros e.
    assert (Hu : forall o', unmount_result opts b h4 o' ->
      unmounted opts (Ev (BuilderDelete b) e :: Ev ContextErr None :: h4) o').
    { intros o' Hr'. right. exists b. split; [done|]. split; [exists x; by in_history|]. split; [|left; eauto].
      eapply unmount_result_mono; [|done]. set_solver. }
    destruct o as [[[id new] err']|m]; [apply Hu; by destruct new|by apply Hu].
Qed.

Lemma opened_rev b tr : opened b (rev tr ++ []) <-> opened b tr.
Proof.
  unfold opened. rewrite app_nil_r, omap_rev. split; intros Hb.
  - apply (f_equal (@rev _)) in Hb. by rewrite rev_involutive in Hb.
  - by rewrite Hb.
Qed.

Lemma committable_mono b h h' : h ⊆ h' -> committable b h -> committable b h'.
Proof.
  intros Hs (H1 & c & ch & H2 & H3 & H4). split; [by apply Hs|]. exists c, ch.
  split; [by apply Hs|]. split; [by apply Hs|done].
Qed.

(** C12: when [Unmount] ends it has unmounted the container it has found, and
    the last thing it does is to delete it, unless the context is cancelled by
    then; without a container it fails.  An image is reported as new only if it
    was committed from this container, and then it was pushed if the options
    name an image. *)
Theorem unmount_releases_container opts tr o :
  runs (store_Unmount opts) tr o ->
  (omap opened_builder tr = [] /\ exists err, o = Returned ("", false, Some err)) \/
  exists b, opened b tr /\ (exists x, Ev (BuilderUnmount b) x ∈ tr) /\ unmount_result opts b tr o /\
    ((exists e tr', tr = tr' ++ [Ev ContextErr None; Ev (BuilderDelete b) e]) \/
     (exists e tr', tr = tr' ++ [Ev ContextErr (Some e)])).
Proof.
  intros Hr. pose proof (wp_post _ _ _ _ _ _ (store_Unmount_wp opts) Hr) as [[Hn He]|(b & Ho & [x Hx] & Hres & Hend)].
  - left. split; [|done]. rewrite app_nil_r, omap_rev in Hn.
    apply (f_equal (@rev _)) in Hn. by rewrite rev_involutive in Hn.
  - right. exists b. split; [by apply opened_rev|].
    split; [exists x; by apply history_of_trace in Hx|].
    split; [eapply unmount_result_mono; [apply history_of_trace|done]|].
    rewrite app_nil_r in Hend. destruct Hend as [(e & h & Heq)|(e & h & Heq)]; [left|right];
      exists e, (rev h); apply (f_equal (@rev _)) in Heq; rewrite rev_involutive in Heq; rewrite Heq;
      simpl; by rewrite <- ?app_assoc.
Qed.

(** C14: a container is committed only if the options ask for it, it has been
    unmounted, and it has changes or no image yet; the image gets the local name
    of the cache. *)
Theorem commit_only_if_changed opts tr b ref x tr' o :
  runs (store_Unmount opts) (tr ++ Ev (BuilderCommit b ref) x :: tr') o ->
  mo_Commit opts = true /\ opened b tr /\ committable b tr /\
  Ev (ParseStoreReference (localImageName opts)) (Ok ref) ∈ tr.
Proof.
  intros Hr. pose proof (wp_guard _ _ _ _ _ _ _ _ _ (store_Unmount_wp opts) Hr)
    as [[]|(b' & Ho & -> & Hc & Hcom & Href)].
  split; [done|]. split; [by apply opened_rev|]. split; [|by apply history_of_trace].
  eapply committable_mono; [apply history_of_trace|done].
Qed.

(** Only the image that was committed is pushed, to the name the options
    give. *)
Theorem push_only_after_commit opts tr dest src x tr' o :
  runs (store_Unmount opts) (tr ++ Ev (CopyImage dest src) x :: tr') o ->
  Ev (ParseImageName (mo_Image opts)) (Ok dest) ∈ tr /\
  exists b local id named, opened b tr /\ Ev (BuilderCommit b local) (Ok (id, named)) ∈ tr /\
    Ev (NewStoreReference named id) (Ok src) ∈ tr.
Proof.
  intros Hr. pose proof (wp_guard _ _ _ _ _ _ _ _ _ (store_Unmount_wp opts) Hr)
    as [[]|(b & Ho & Hd & local & id & named & Hb & Hs)].
  split; [by apply history_of_trace|]. exists b, local, id, named.
  split; [by apply opened_rev|]. split; by apply history_of_trace.
Qed.

(** The first two calls of [unmountAndDelete] and what follows. *)
Lemma runs_unmountAndDelete {A} dir (p : prog A) u x tr o :
  runs (do! unmountAndDelete dir in p) (Ev (UnixUnmount dir) u :: Ev (OsRemove dir) x :: tr) o <-> runs p tr o.
Proof.
  split.
  - intros (y & t & E & z & t2 & E2 & Hr). apply (f_equal (@tail _)) in E. cbn in E. subst t.
    apply (f_equal (@tail _)) in E2. cbn in E2. subst t2. destruct z as [[[]]|]; exact Hr.
  - intros Hr. exists u, (Ev (S := LayerSig) (OsRemove dir) x :: tr). split; [done|]. exists x, tr. split; [done|].
    destruct x as [[[]]|]; exact Hr.
Qed.

(** Whether the mount directory could be unmounted and removed makes no
    difference to what [Unmount] does next and returns. *)
Theorem unmount_dir_error_ignored opts u x u' x' tr o :
  let dir := mo_ExtMountDir opts in
  runs (store_Unmount opts) (Ev (UnixUnmount dir) u :: Ev (OsRemove dir) x :: tr) o ->
  dir <> "" ->
  runs (store_Unmount opts) (Ev (UnixUnmount dir) u' :: Ev (OsRemove dir) x' :: tr) o.
Proof.
  cbv zeta. unfold store_Unmount. destruct (validate opts); [by intros [? _]|].
  destruct (_ && _); [by intros [? _]|]. destruct (containerName opts); [|by intros [? _]].
  intros Hr Hd. rewrite bool_decide_eq_false_2 in * by done. cbn [negb] in *.
  apply runs_unmountAndDelete in Hr. by apply runs_unmountAndDelete.
Qed.

End UnmountProperties.

(** ** Concrete runs *)

(** Run a program against fixed answers. *)
Definition run_fixed {A} (ans : forall c : lcmd, lresp c) (p : prog A) : list event * outcome A :=
  (exec (S := LayerSig) (fun c (_ : unit) => (ans c, tt)) p tt).1.

Lemma run_fixed_runs {A} ans (p : prog A) : runs p (run_fixed ans p).1 (run_fixed ans p).2.
Proof. apply exec_runs_proj. Qed.

Lemma run_fixed_at {A} ans (p : prog A) n e :
  (run_fixed ans p).1 !! n = Some e ->
  runs p (take n (run_fixed ans p).1 ++ e :: drop (S n) (run_fixed ans p).1) (run_fixed ans p).2.
Proof. intros H. rewrite take_drop_middle by done. apply run_fixed_runs. Qed.

Module LayerExample.
#[export] Existing Instance push_loop_impl.

Definition opts : MountOptions :=
  mkMountOptions "docker://registry/cache:build" "pv1" "/data/pv1" true "build" "default".
Definition ref (name : string) : ImageReference := mkImageReference (Some name) ("docker://" +++ name).
Definition builder : Builder := mkBuilder "c1" "img1" "" (Some {["MOUNT_DIR" := "/data/pv1"]}).

(** Everything works; the file system may refuse to remove the directory. *)
Definition ans (removed : option oserr) (mounted : option goerr) (c : lcmd) : lresp c :=
  match c with
  | ParseImageName name => Ok (ref name)
  | ParseStoreReference name => Ok (ref name)
  | NewStoreReference _ id => Ok (mkImageReference None id)
  | NewBuilder _ | OpenBuilder _ => Ok builder
  | BuilderMount _ _ => Ok "/storage/c1"
  | ContainerByID id => Ok (mkStoredContainer id ["pv1"] "img1" "layer1")
  | Changes _ _ => Ok [mkChange "/file" 1]
  | BuilderCommit _ _ => Ok ("img2", Some "localhost/cache/default/build@img2")
  | OsRemove _ => removed
  | UnixMount _ _ => mounted
  | BuilderUnmount _ | BuilderDelete _ | BuilderSave _ | OsMkdir _ | UnixUnmount _
  | ContextErr | NewPolicyContext | CopyImage _ _ => None
  | c => lresp_default c
  end.

Lemma mount_all_or_nothing_witness :
  (exists b, held_after (run_fixed (ans None None) (store_Mount opts)).1 = held_mounted opts b) /\
  held_after (run_fixed (ans None (Some (Errorf "busy"))) (store_Mount opts)).1 = held_nothing /\
  In (Ev (BuilderDelete builder) None) (run_fixed (ans None (Some (Errorf "busy"))) (store_Mount opts)).1.
Proof.
  split; [|split].
  - assert (E : (run_fixed (ans None None) (store_Mount opts)).2 = Returned ("/data/pv1", None))
      by (vm_compute; reflexivity).
    pose proof (run_fixed_runs (ans None None) (store_Mount opts)) as Hr. rewrite E in Hr.
    destruct (mount_all_or_nothing opts _ _ _ Hr) as (b & H & _). exists b. exact H.
  - assert (E : (run_fixed (ans None (Some (Errorf "busy"))) (store_Mount opts)).2 =
      Returned ("/data/pv1", Some (Wrap "bind mount /storage/c1 to /data/pv1" (Errorf "busy"))))
      by (vm_compute; reflexivity).
    pose proof (run_fixed_runs (ans None (Some (Errorf "busy"))) (store_Mount opts)) as Hr. rewrite E in Hr.
    exact (mount_all_or_nothing opts _ _ _ Hr).
  - vm_compute. tauto.
Defined.

Definition unmount_run := run_fixed (ans None None) (store_Unmount opts).

Lemma unmount_releases_container_witness :
  unmount_run.2 = Returned ("img2", true, None) /\
  exists b, opened b unmount_run.1 /\ unmount_result opts b unmount_run.1 unmount_run.2.
Proof.
  split; [vm_compute; reflexivity|].
  destruct (unmount_releases_container opts _ _ (run_fixed_runs (ans None None) (store_Unmount opts)))
    as [[H _]|(b & H1 & _ & H2 & _)].
  - exfalso. vm_compute in H. discriminate H.
  - exists b. split; [exact H1|exact H2].
Defined.

Lemma commit_only_if_changed_witness :
  unmount_run.1 !! 8 = Some (Ev (BuilderCommit builder (ref "localhost/cache/default/build:latest"))
     (Ok ("img2", Some "localhost/cache/default/build@img2"))) /\
  committable builder (take 8 unmount_run.1).
Proof.
  assert (E : unmount_run.1 !! 8 = Some (Ev (BuilderCommit builder (ref "localhost/cache/default/build:latest"))
     (Ok ("img2", Some "localhost/cache/default/build@img2")))) by (vm_compute; reflexivity).
  split; [exact E|].
  destruct (commit_only_if_changed opts _ _ _ _ _ _ (run_fixed_at (ans None None) (store_Unmount opts) _ _ E)) as (_ & _ & H & _).
  exact H.
Defined.

Lemma push_only_after_commit_witness :
  unmount_run.1 !! 11 = Some (Ev (CopyImage (ref "docker://registry/cache:build") (mkImageReference None "img2")) None) /\
  Ev (ParseImageName (mo_Image opts)) (Ok (ref "docker://registry/cache:build")) ∈ take 11 unmount_run.1.
Proof.
  assert (E : unmount_run.1 !! 11 = Some (Ev (CopyImage (ref "docker://registry/cache:build") (mkImageReference None "img2")) None))
    by (vm_compute; reflexivity).
  split; [exact E|].
  exact (proj1 (push_only_after_commit opts _ _ _ _ _ _ (run_fixed_at (ans None None) (store_Unmount opts) _ _ E))).
Defined.

(** The directory cannot be removed; the unmount is a success. *)
Lemma unmount_dir_error_ignored_witness :
  exists tr, runs (store_Unmount opts)
    (Ev (UnixUnmount "/data/pv1") (Some (Errorf "busy")) ::
     Ev (OsRemove "/data/pv1") (Some (mkOsErr false (Errorf "busy"))) :: tr)
    (Returned ("img2", true, None)).
Proof.
  exists (drop 2 unmount_run.1).
  assert (Hr : runs (store_Unmount opts)
    (Ev (UnixUnmount "/data/pv1") None :: Ev (OsRemove "/data/pv1") None :: drop 2 unmount_run.1)
    (Returned ("img2", true, None))).
  { pose proof (run_fixed_runs (ans None None) (store_Unmount opts)) as Hr. vm_compute in Hr. exact Hr. }
  refine (unmount_dir_error_ignored opts _ _ _ _ _ _ Hr _). vm_compute. discriminate.
Defined.

End LayerExample.
