(* ===== verification/Prune.v ===== *)
(** * Pruning images ([internal/layerfs/prune.go])

    [Prune] deletes the dangling images of the store together with the parents
    that become unused.  The image list, the layers and the configurations are
    read again for every decision.  Two variables of a fallible call are often
    shadowed in this code: [errors.Wrapf] of the outer, nil one is nil, so
    [properImageRef] and [storageImageID] never return an error. *)

From Stdlib Require Import Ascii.
From S2P Require Import Prelude Effects GoPath StoreApi LayerApi LayerStore.

(** [%v] of a list of strings *)
Definition show_strings (l : list string) : string := "[" +++ String.concat " " l +++ "]".

(** ** Image references *)

Definition properImageRef (id : string) : prog (option ImageReference) :=
  let! r := call (ParseImageName id) in
  match r with
  | Ok ref =>
      let! err := call (NewImageSource ref) in
      match err with
      | None => do! call (CloseImageSource ref) in Ret (Some ref)
      | Some _ => Ret None
      end
  | Err _ => Ret None
  end.

Definition storageImageRef (id : string) : prog (option ImageReference * option goerr) :=
  let! (ref, err) := call (FindImage id) in
  match err with
  | Some err =>
      match ref with
      | Some ref => Ret (None, Some (Wrap ("error confirming presence of storage image reference " +++
                                             quoted (ref_ImageName ref)) err))
      | None => Ret (None, Some (Wrap ("error confirming presence of storage image name " +++ quoted id) err))
      end
  | None => Ret (ref, None)
  end.

Definition storageImageID (id : string) : prog (option ImageReference) :=
  let! img := call (ImageByID id) in
  let imageID := match img with Ok img => im_ID img | Err _ => id end in
  let! r := call (ParseStoreReference imageID) in
  match r with
  | Ok ref =>
      let! err := call (NewImageSource ref) in
      match err with
      | None => do! call (CloseImageSource ref) in Ret (Some ref)
      | Some _ => Ret None
      end
  | Err _ => Ret None
  end.

(** [getImage]: without a reference the image and the error are nil. *)
Definition getImage (id : string) : prog (option Image * option goerr) :=
  let! ref := properImageRef id in
  let! (ref, err) := match ref with
                     | Some _ => Ret (ref, None)
                     | None => storageImageRef id
                     end in
  let! (ref, err) := match ref with
                     | Some _ => Ret (ref, err)
                     | None => let! ref := storageImageID id in Ret (ref, None)
                     end in
  match ref with
  | Some ref =>
      let! image := call (GetStoreImage ref) in
      match image with
      | Ok image => Ret (Some image, None)
      | Err err => Ret (None, Some (Wrap ("error reading image using reference " +++ quoted (ref_ImageName ref)) err))
      end
  | None => Ret (None, err)
  end.

(** ** Tags *)

(** [strings.Contains] of a one-byte string is [contains_byte].  Indexing the
    parts of a name without a tag panics. *)
Definition index_out_of_range := "index out of range".

Definition matchesReference (name argName : string) : outcome bool :=
  if argName ==? "" then Returned true
  else
    let splitName := Split ":"%char name in
    let repo := default "" (splitName !! 0) in
    if contains_byte ":"%char argName then
      let splitArg := Split ":"%char argName in
      if HasSuffix repo (default "" (splitArg !! 0)) then
        match splitName !! 1, splitArg !! 1 with
        | Some tag, Some argTag => Returned (tag ==? argTag)
        | _, _ => Panicked index_out_of_range
        end
      else Returned false
    else Returned (HasSuffix repo argName).

Fixpoint untag_loop (imgArg : string) (names newNames : list string) (removedName : string)
  : outcome (list string * string) :=
  match names with
  | [] => Returned (newNames, removedName)
  | name :: names =>
      match matchesReference name imgArg with
      | Returned true => untag_loop imgArg names newNames name
      | Returned false => untag_loop imgArg names (newNames ++ [name]) removedName
      | Panicked m => Panicked m
      end
  end.

Definition untagImage (imgArg : string) (image : Image) : prog (string * option goerr) :=
  let! (newNames, removedName) := of_outcome (untag_loop imgArg (im_Names image) [] "") in
  if removedName !=? "" then
    let! err := call (SetNames (im_ID image) newNames) in
    match err with
    | Some err => Ret ("", Some (Wrap ("error removing name " +++ quoted removedName +++
                                        " from image " +++ quoted (im_ID image)) err))
    | None => Ret (removedName, None)
    end
  else Ret (removedName, None).

(** ** Containers *)

Definition runningContainers (image : Image) : prog (result (list string)) :=
  let! containers := call Containers in
  match containers with
  | Err err => Ret (Err err)
  | Ok containers => Ret (Ok (sc_ID <$> filter (fun c => sc_ImageID c = im_ID image) containers))
  end.

Fixpoint removeContainers (ctrIDs : list string) : prog (option goerr) :=
  match ctrIDs with
  | [] => Ret None
  | ctrID :: ctrIDs =>
      let! err := call (DeleteContainer ctrID) in
      match err with
      | Some err => Ret (Some (Wrap ("could not remove container " +++ quoted ctrID) err))
      | None => removeContainers ctrIDs
      end
  end.

(** ** Parents and children *)

Definition getImageConfig (imageID : string) : prog (result (option ImageConfig)) :=
  let! ref := call (ParseStoreReference imageID) in
  match ref with
  | Err err => Ret (Err (Wrap ("unable to parse reference to image " +++ quoted imageID) err))
  | Ok ref =>
      let! err := call (NewImage ref) in
      match err with
      | Some err =>
          let! img := call (ImageByID imageID) in
          match img with
          | Ok img => if im_ID img ==? imageID then Ret (Ok None)
                      else Ret (Err (Wrap ("unable to open image " +++ quoted imageID) err))
          | Err _ => Ret (Err (Wrap ("unable to open image " +++ quoted imageID) err))
          end
      | None =>
          let! config := call (OCIConfig ref) in
          do! call (CloseImage ref) in
          match config with
          | Err err => Ret (Err (Wrap ("unable to read configuration from image " +++ quoted imageID) err))
          | Ok config => Ret (Ok (Some config))
          end
      end
  end.

(** The loop of [historiesDiffer]: the number of leading entries that agree. *)
Definition history_differs (a b : History) : bool :=
  match hi_Created a, hi_Created b with
  | None, Some _ | Some _, None => true
  | Some s, Some t => s !=? t
  | None, None => false
  end || (hi_CreatedBy a !=? hi_CreatedBy b) || (hi_Author a !=? hi_Author b)
  || (hi_Comment a !=? hi_Comment b) || (hi_EmptyLayer a !=? hi_EmptyLayer b).

Fixpoint histories_agree (a b : list History) (i : nat) : nat :=
  match a, b with
  | x :: a, y :: b => if history_differs x y then i else histories_agree a b (S i)
  | _, _ => i
  end.

Definition historiesDiffer (a b : list History) : bool :=
  if length a !=? length b then true else histories_agree a b 0 !=? length a.

(** [childConfig.RootFS.DiffIDs] starts with all the layers of the parent. *)
Definition uses_all_layers (parent child : list string) : bool :=
  match parent with
  | [] => true
  | _ => bool_decide (length parent <= length child) && (take (length parent) child ==? parent)
  end.

(** The loop of [getParent]. *)
Fixpoint find_parent (child : Image) (childTopLayer : option Layer) (childConfig : ImageConfig)
    (images : list Image) : prog (result (option Image)) :=
  match images with
  | [] => Ret (Ok None)
  | parent :: images =>
      let continue_ := find_parent child childTopLayer childConfig images in
      if im_ID parent ==? im_ID child then continue_
      else if match childTopLayer with
              | Some l => (im_TopLayer parent !=? ly_Parent l) && (im_TopLayer parent !=? ly_ID l)
              | None => false
              end then continue_
      else
        let! parentConfig := getImageConfig (im_ID parent) in
        match parentConfig with
        | Err err => Ret (Err (Wrap ("unable to read configuration from image " +++ quoted (im_ID parent)) err))
        | Ok None => continue_
        | Ok (Some parentConfig) =>
            if length (cfg_History parentConfig) + 1 !=? length (cfg_History childConfig) then continue_
            else if negb (uses_all_layers (cfg_DiffIDs parentConfig) (cfg_DiffIDs childConfig)) then continue_
            else if historiesDiffer (cfg_History parentConfig)
                      (take (length (cfg_History parentConfig)) (cfg_History childConfig)) then continue_
            else Ret (Ok (Some parent))
        end
  end.

Definition top_layer (image : Image) : prog (result (option Layer)) :=
  if im_TopLayer image !=? "" then
    let! l := call (LayerByID (im_TopLayer image)) in
    match l with
    | Ok l => Ret (Ok (Some l))
    | Err err => Ret (Err err)
    end
  else Ret (Ok None).

Definition getParent (child : Image) : prog (result (option Image)) :=
  let! images := call Images in
  match images with
  | Err err => Ret (Err (Wrap "unable to retrieve image list from store" err))
  | Ok images =>
      let! childTopLayer := top_layer child in
      match childTopLayer with
      | Err err => Ret (Err (Wrap ("unable to retrieve information about layer " +++ im_TopLayer child +++ " from store") err))
      | Ok childTopLayer =>
          let! childConfig := getImageConfig (im_ID child) in
          match childConfig with
          | Err err => Ret (Err (Wrap ("unable to read configuration from image " +++ quoted (im_ID child)) err))
          | Ok None => Ret (Ok None)
          | Ok (Some childConfig) => find_parent child childTopLayer childConfig images
          end
      end
  end.

(** The loop of [getChildren]. *)
Fixpoint find_children (parent : Image) (parentConfig : ImageConfig) (max : nat) (children : list string)
    (images : list Image) : prog (result (list string)) :=
  match images with
  | [] => Ret (Ok children)
  | child :: images =>
      let continue_ := find_children parent parentConfig max children images in
      if im_ID child ==? im_ID parent then continue_
      else
        let! childTopLayer := top_layer child in
        match childTopLayer with
        | Err err => Ret (Err (Wrap ("unable to retrieve information about layer " +++
                                quoted (im_TopLayer child) +++ " from store") err))
        | Ok childTopLayer =>
            if match childTopLayer with
               | Some l => (ly_Parent l !=? im_TopLayer parent) && (ly_ID l !=? im_TopLayer parent)
               | None => false
               end then continue_
            else
              let! childConfig := getImageConfig (im_ID child) in
              match childConfig with
              | Err err => Ret (Err (Wrap ("unable to read configuration from image " +++ quoted (im_ID child)) err))
              | Ok None => continue_
              | Ok (Some childConfig) =>
                  if length (cfg_History parentConfig) + 1 !=? length (cfg_History childConfig) then continue_
                  else if historiesDiffer (cfg_History parentConfig)
                            (take (length (cfg_History parentConfig)) (cfg_History childConfig)) then continue_
                  else
                    let children := children ++ [im_ID child] in
                    if bool_decide (0 < max) && bool_decide (max <= length children) then Ret (Ok children)
                    else find_children parent parentConfig max children images
              end
        end
  end.

Definition getChildren (parent : Image) (max : nat) : prog (result (list string)) :=
  let! images := call Images in
  match images with
  | Err err => Ret (Err (Wrap "unable to retrieve images from store" err))
  | Ok images =>
      let! parentConfig := getImageConfig (im_ID parent) in
      match parentConfig with
      | Err err => Ret (Err (Wrap ("unable to read configuration from image " +++ quoted (im_ID parent)) err))
      | Ok None => Ret (Ok [])
      | Ok (Some parentConfig) => find_children parent parentConfig max [] images
      end
  end.

Definition imageIsParent (image : Image) : prog (result bool) :=
  let! children := getChildren image 1 in
  match children with
  | Err err => Ret (Err err)
  | Ok children => Ret (Ok (bool_decide (0 < length children)))
  end.

(** ** Removal *)

(** The loop over the parents takes [fuel] rounds at most. *)
Definition out_of_fuel := "out of fuel".

Fixpoint remove_parents (fuel : nat) (imageID : string) (parent : option Image)
  : prog (string * option goerr) :=
  match parent, fuel with
  | None, _ => Ret (imageID, None)
  | Some _, O => Panic out_of_fuel
  | Some parent, S fuel =>
      let! nextParent := getParent parent in
      match nextParent with
      | Err err => Ret (imageID, Some (Wrap ("unable to get parent from image " +++ quoted imageID) err))
      | Ok nextParent =>
          let! isParent := imageIsParent parent in
          match isParent with
          | Err err => Ret (imageID, Some (Wrap ("unable to get check if image " +++ quoted imageID +++ " is a parent") err))
          | Ok isParent =>
              if bool_decide (0 < length (im_Names parent)) || isParent then Ret (imageID, None)
              else
                let id := im_ID parent in
                let! err := call (DeleteImage id true) in
                do! (match err with
                     | Some _ => Ret tt
                     | None => call (Println Stdout id)
                     end) in
                remove_parents fuel imageID nextParent
          end
      end
  end.

Definition removeImage (fuel : nat) (image : Image) : prog (string * option goerr) :=
  let! parent := getParent image in
  match parent with
  | Err err => Ret ("", Some err)
  | Ok parent =>
      let! err := call (DeleteImage (im_ID image) true) in
      match err with
      | Some err => Ret ("", Some (Wrap ("could not remove image " +++ quoted (im_ID image)) err))
      | None => remove_parents fuel (im_ID image) parent
      end
  end.

(** ** Deleting a list of images *)

Section Delete.
Context (ErrNotAnImage ErrImageUsedByContainer : goerr).

Definition EINVAL : goerr := Errorf "invalid argument".

(** [if lastError != nil { fmt.Fprintln(os.Stderr, lastError) }; lastError = e] *)
Definition set_error (lastError e : option goerr) : prog (option goerr) :=
  do! (match lastError with Some l => call (Println Stderr (Error l)) | None => Ret tt end) in
  Ret e.

Fixpoint used_by_containers (id : string) (ctrIDs : list string) (lastError : option goerr)
  : prog (option goerr) :=
  match ctrIDs with
  | [] => Ret lastError
  | ctrID :: ctrIDs =>
      let! lastError := set_error lastError (Some (Wrap ("Could not remove image " +++ quoted id +++
        " (must force) - container " +++ quoted ctrID +++ " is using its reference image")
        ErrImageUsedByContainer)) in
      used_by_containers id ctrIDs lastError
  end.

(** From the containers that use the image to the tags: whether to go on, with
    which image, and the error. *)
Definition release_containers (id : string) (image : Image) (ctrIDs : list string) (force : bool)
    (lastError : option goerr) : prog (bool * option goerr) :=
  if bool_decide (0 < length ctrIDs) && bool_decide (length (im_Names image) <= 1) then
    if force then
      let! err := removeContainers ctrIDs in
      match err with
      | Some err =>
          let! lastError := set_error lastError (Some (Wrap ("error removing containers " +++
            show_strings ctrIDs +++ " for image " +++ quoted id) err)) in
          Ret (false, lastError)
      | None => Ret (true, lastError)
      end
    else
      let! lastError := used_by_containers id ctrIDs lastError in
      Ret (false, lastError)
  else Ret (true, lastError).

Definition release_names (id : string) (image : Image) (force : bool) (lastError : option goerr)
  : prog (option Image * option goerr) :=
  if String.prefix id (im_ID image) then
    if bool_decide (1 < length (im_Names image)) && negb force then
      let! lastError := set_error lastError (Some (Errorf ("unable to delete " +++ im_ID image +++
        " (must force) - image is referred to in multiple tags"))) in
      Ret (None, lastError)
    else Ret (Some (image <| im_Names := [] |>), lastError)
  else
    let! (name, err2) := untagImage id image in
    match err2 with
    | Some err2 =>
        let! lastError := set_error lastError (Some (Wrap ("error removing tag " +++ quoted id +++
          " from image " +++ quoted (im_ID image)) err2)) in
        Ret (None, lastError)
    | None =>
        do! call (Println Stdout ("untagged: " +++ name)) in
        let! (image1, err) := getImage (im_ID image) in
        match err, image1 with
        | None, Some image1 => Ret (Some image1, lastError)
        | _, _ =>
            let! lastError := set_error lastError
              (wrap_err ("error getting image after untag " +++ quoted (im_ID image)) err) in
            Ret (Some image, lastError)
        end
    end.

Definition delete_unless_needed (fuel : nat) (image : Image) (removeAll prune : bool)
    (lastError : option goerr) : prog (option goerr) :=
  let! isParent := imageIsParent image in
  match isParent with
  | Err err => set_error lastError (Some (Wrap ("error determining if the image " +++
                 quoted (im_ID image) +++ " is a parent") err))
  | Ok isParent =>
      if bool_decide (0 < length (im_Names image)) && negb removeAll then Ret lastError
      else if isParent && (length (im_Names image) ==? 0) && negb removeAll then
        if negb prune then
          set_error lastError (Some (Errorf ("unable to delete " +++ quoted (im_ID image) +++
            " (cannot be forced) - image has dependent child images")))
        else Ret lastError
      else
        let! (id, err) := removeImage fuel image in
        match err with
        | Some err => set_error lastError (Some (Wrap ("error removing image " +++ quoted (im_ID image)) err))
        | None => do! call (Println Stdout id) in Ret lastError
        end
  end.

(** One round of the loop of [deleteImages]. *)
Definition delete_image (fuel : nat) (id : string) (removeAll force prune : bool)
    (lastError : option goerr) : prog (option goerr) :=
  let! (image, err) := getImage id in
  match err, image with
  | None, Some image =>
      if im_ReadOnly image then
        set_error lastError (Some (Wrap ("can not remove readonly image " +++ quoted id) EINVAL))
      else
        let! ctrIDs := runningContainers image in
        match ctrIDs with
        | Err err => set_error lastError (Some (Wrap ("error getting running containers for image " +++ quoted id) err))
        | Ok ctrIDs =>
            let! (go_on, lastError) := release_containers id image ctrIDs force lastError in
            if go_on then
              let! (image, lastError) := release_names id image force lastError in
              match image with
              | None => Ret lastError
              | Some image => delete_unless_needed fuel image removeAll prune lastError
              end
            else Ret lastError
        end
  | _, _ =>
      set_error lastError (Some (Wrap ("could not get image " +++ quoted id) (default ErrNotAnImage err)))
  end.

Fixpoint deleteImages (fuel : nat) (imagesToDelete : list string) (removeAll force prune : bool)
    (lastError : option goerr) : prog (option goerr) :=
  match imagesToDelete with
  | [] => Ret lastError
  | id :: ids =>
      let! lastError := delete_image fuel id removeAll force prune lastError in
      deleteImages fuel ids removeAll force prune lastError
  end.

Definition findDanglingImages : prog (result (list string)) :=
  let! images := call Images in
  match images with
  | Err err => Ret (Err (Wrap "error reading images" err))
  | Ok images => Ret (Ok (im_ID <$> filter (fun i => im_Names i = []) images))
  end.

(** [store.Prune] *)
Definition store_Prune (fuel : nat) : prog (option goerr) :=
  let! imagesToDelete := findDanglingImages in
  match imagesToDelete with
  | Err err => Ret (Some err)
  | Ok imagesToDelete => deleteImages fuel imagesToDelete false false true None
  end.

End Delete.

(** ** Histories *)

Lemma history_differs_spec a b : history_differs a b = false <-> a = b.
Proof.
  unfold history_differs. rewrite !orb_false_iff, !negb_false_iff, !bool_decide_eq_true.
  destruct a as [[s|] cb au co em], b as [[t|] cb' au' co' em']; simpl; [|naive_solver..].
  rewrite negb_false_iff, bool_decide_eq_true. naive_solver.
Qed.

Lemma histories_agree_spec a b i :
  length a = length b -> (histories_agree a b i = i + length a <-> a = b) /\ histories_agree a b i <= i + length a.
Proof.
  revert b i. induction a as [|x a IH]; intros [|y b] i Hl; try done; simpl in *.
  - split; [split; [done|lia]|lia].
  - destruct (history_differs x y) eqn:E.
    + split; [|lia]. split; [lia|]. intros [= -> ->].
      assert (history_differs y y = false) by by apply history_differs_spec. congruence.
    + apply history_differs_spec in E as ->. destruct (IH b (S i)) as [IH1 IH2]; [lia|].
      split; [|lia]. rewrite <- Nat.add_succ_comm, IH1. naive_solver.
Qed.

(** [historiesDiffer] decides the equality of histories. *)
Lemma historiesDiffer_spec a b : historiesDiffer a b = false <-> a = b.
Proof.
  unfold historiesDiffer. destruct (decide (length a = length b)) as [Hl|Hl].
  - rewrite (bool_decide_eq_true_2 (length a = _)) by done. simpl.
    rewrite negb_false_iff, bool_decide_eq_true. apply (histories_agree_spec a b 0 Hl).
  - rewrite bool_decide_eq_false_2 by done. simpl. split; [done|]. by intros ->.
Qed.

(** ** What the store has answered *)

Definition config_read (id : string) (c : ImageConfig) (h : list event) : Prop :=
  exists ref, Ev (ParseStoreReference id) (Ok ref) ∈ h /\ Ev (OCIConfig ref) (Ok c) ∈ h.
Definition config_unreadable (id : string) (h : list event) : Prop :=
  exists ref e, Ev (ParseStoreReference id) (Ok ref) ∈ h /\ Ev (NewImage ref) (Some e) ∈ h.

(** The history of the child is the one of the parent and one more entry. *)
Definition extends (parent child : ImageConfig) : Prop :=
  exists x, cfg_History child = cfg_History parent ++ [x].

(** The answers that show that [c] is not a child of [p]. *)
Definition not_child (p : Image) (pc : ImageConfig) (c : Image) (h : list event) : Prop :=
  im_ID c = im_ID p \/
  (exists l, Ev (LayerByID (im_TopLayer c)) (Ok l) ∈ h /\
     ly_Parent l <> im_TopLayer p /\ ly_ID l <> im_TopLayer p) \/
  config_unreadable (im_ID c) h \/
  exists cc, config_read (im_ID c) cc h /\ ~ extends pc cc.

(** No image of a listing is a child of [p]. *)
Definition childless (p : Image) (h : list event) : Prop :=
  exists images, Ev Images (Ok images) ∈ h /\
    (config_unreadable (im_ID p) h \/
     exists pc, config_read (im_ID p) pc h /\ Forall (fun c => not_child p pc c h) images).

Lemma config_read_mono id c h h' : h ⊆ h' -> config_read id c h -> config_read id c h'.
Proof. intros Hs (ref & H1 & H2). exists ref. split; by apply Hs. Qed.
Lemma config_unreadable_mono id h h' : h ⊆ h' -> config_unreadable id h -> config_unreadable id h'.
Proof. intros Hs (ref & e & H1 & H2). exists ref, e. split; by apply Hs. Qed.
Lemma not_child_mono p pc c h h' : h ⊆ h' -> not_child p pc c h -> not_child p pc c h'.
Proof.
  intros Hs [H|[(l & H1 & H2)|[H|(cc & H1 & H2)]]].
  - by left.
  - right. left. exists l. split; [by apply Hs|done].
  - right. right. left. by eapply config_unreadable_mono.
  - right. right. right. exists cc. split; [by eapply config_read_mono|done].
Qed.
Lemma childless_mono p h h' : h ⊆ h' -> childless p h -> childless p h'.
Proof.
  intros Hs (images & H1 & H2). exists images. split; [by apply Hs|].
  destruct H2 as [H2|(pc & H2 & H3)]; [left; by eapply config_unreadable_mono|].
  right. exists pc. split; [by eapply config_read_mono|].
  eapply Forall_impl; [exact H3|]. intros c. by apply not_child_mono.
Qed.
#[local] Hint Resolve config_read_mono config_unreadable_mono not_child_mono childless_mono : k8s.

(** Calls that change nothing. *)
Definition read_only (h : list event) (c : cmd) : Prop :=
  match c with
  | Images | LayerByID _ | ImageByID _ | Containers | ParseImageName _ | ParseStoreReference _
  | GetStoreImage _ | NewImageSource _ | CloseImageSource _ | NewImage _ | OCIConfig _ | CloseImage _
  | FindImage _ | Println _ _ => True
  | _ => False
  end.

Lemma getImageConfig_wp id h :
  wp (getImageConfig id) read_only
    (fun h' o => exists r, o = Returned r /\
       match r with
       | Ok (Some c) => config_read id c h'
       | Ok None => config_unreadable id h'
       | Err _ => True
       end) h.
Proof.
  unfold getImageConfig. repeat (wp_go; try done); eexists; (split; [done|]); try done.
  - do 2 eexists. split; in_history.
  - eexists. split; in_history.
Qed.

Lemma top_layer_wp c h :
  wp (top_layer c) read_only
    (fun h' o => exists r, o = Returned r /\
       match r with
       | Ok (Some l) => Ev (LayerByID (im_TopLayer c)) (Ok l) ∈ h'
       | Ok None => im_TopLayer c = ""
       | Err _ => True
       end) h.
Proof.
  unfold top_layer. repeat (wp_go; try done); eexists; (split; [done|]); try done.
  - in_history.
  - by apply negb_false_iff, bool_decide_eq_true in Heqb.
Qed.

Lemma extends_length pc cc : length (cfg_History pc) + 1 <> length (cfg_History cc) -> ~ extends pc cc.
Proof. intros Hl [x Hx]. rewrite Hx, length_app in Hl. by apply Hl. Qed.

Lemma extends_iff pc cc :
  length (cfg_History pc) + 1 = length (cfg_History cc) ->
  (historiesDiffer (cfg_History pc) (take (length (cfg_History pc)) (cfg_History cc)) = false <-> extends pc cc).
Proof.
  intros Hl. rewrite historiesDiffer_spec. unfold extends. split.
  - intros Ht. rewrite <- (take_drop (length (cfg_History pc)) (cfg_History cc)), <- Ht.
    assert (Hd : length (drop (length (cfg_History pc)) (cfg_History cc)) = 1) by (rewrite length_drop; lia).
    destruct (drop _ _) as [|x [|y l]]; [done| |done]. by exists x.
  - intros [x Hx]. by rewrite Hx, take_app_length.
Qed.

Lemma find_children_wp p pc max children images h :
  wp (find_children p pc max children images) read_only
    (fun h' o => exists r, o = Returned r /\
       forall l, r = Ok l -> length children <= length l /\
         (length l = length children -> Forall (fun c => not_child p pc c h') images)) h.
Proof.
  revert children h. induction images as [|c images IH]; intros children h; cbn [find_children].
  { eexists. split; [done|]. by intros l [= <-]. }
  (* the rest of the loop, when [c] is known not to be a child *)
  assert (Hcont : forall h1, not_child p pc c h1 -> wp (find_children p pc max children images) read_only
    (fun h' o => exists r, o = Returned r /\
       forall l, r = Ok l -> length children <= length l /\
         (length l = length children -> Forall (fun c => not_child p pc c h') (c :: images))) h1).
  { intros h1 Hn. eapply wp_frame; [apply IH|done|]. intros h' o Hs (r & -> & Hr). exists r. split; [done|].
    intros l El. destruct (Hr l El) as [H1 H2]. split; [done|]. intros Hlen. constructor; [|by apply H2].
    by eapply not_child_mono. }
  destruct (im_ID c ==? im_ID p) eqn:E.
  { apply Hcont. left. by apply bool_decide_eq_true in E. }
  rewrite wp_bind. eapply wp_frame; [apply top_layer_wp|done|]. intros h1 o Hs1 (r & -> & Hr). cbn [wp].
  destruct r as [l|e]; [|eexists; by split].
  destruct (match l with Some _ => _ | None => false end) eqn:El.
  { destruct l as [l|]; [|done]. apply andb_true_iff in El as [E1 E2].
    apply negb_true_iff, bool_decide_eq_false in E1. apply negb_true_iff, bool_decide_eq_false in E2.
    apply Hcont. right. left. by exists l. }
  rewrite wp_bind. eapply wp_frame; [apply getImageConfig_wp|done|]. intros h2 o Hs2 (r & -> & Hr2). cbn [wp].
  destruct r as [[cc|]|e]; [|apply Hcont; right; right; by left|eexists; by split].
  destruct (_ + 1 !=? _) eqn:Elen.
  { apply Hcont. right. right. right. exists cc. split; [done|]. apply extends_length.
    by apply negb_true_iff, bool_decide_eq_false in Elen. }
  apply negb_false_iff, bool_decide_eq_true in Elen.
  destruct (historiesDiffer _ _) eqn:Eh.
  { apply Hcont. right. right. right. exists cc. split; [done|]. intros He.
    apply (extends_iff _ _ Elen) in He. congruence. }
  assert (Hlen : length children < length (children ++ [im_ID c])) by (rewrite length_app; simpl; lia).
  destruct (_ && _).
  - eexists. split; [done|]. intros l' [= <-]. split; lia.
  - eapply wp_mono; [apply IH|done|]. intros h' o (r & -> & Hr'). exists r. split; [done|].
    intros l' El'. destruct (Hr' l' El') as [H1 _]. split; lia.
Qed.

Lemma imageIsParent_wp p h :
  wp (imageIsParent p) read_only
    (fun h' o => exists r, o = Returned r /\ (r = Ok false -> childless p h')) h.
Proof.
  unfold imageIsParent, getChildren. rewrite wp_bind. cbn [bind call wp]. split; [done|].
  intros [images|e]; cbn [wp bind]; [|by eexists].
  rewrite wp_bind. eapply wp_frame; [apply getImageConfig_wp|done|]. intros h1 o Hs1 (r & -> & Hr). cbn [wp].
  assert (Hi : Ev Images (Ok images) ∈ h1) by (apply Hs1; in_history).
  destruct r as [[pc|]|e]; cbn [wp].
  - eapply wp_frame; [apply find_children_wp|done|]. intros h2 o Hs2 (r & -> & Hc). cbn [wp].
    destruct r as [l|e]; [|by eexists]. eexists. split; [done|]. intros [= Hb]. apply bool_decide_eq_false in Hb.
    destruct (Hc l eq_refl) as [_ Hall]. exists images. split; [by apply Hs2|]. right. exists pc.
    split; [by eapply config_read_mono|]. apply Hall. simpl. lia.
  - eexists. split; [done|]. intros _. exists images. split; [done|]. by left.
  - by eexists.
Qed.

(** ** Parents *)

(** The answers that make [p] the parent of the image with identifier [id]. *)
Definition is_parent (p : Image) (id : string) (h : list event) : Prop :=
  (exists images, Ev Images (Ok images) ∈ h /\ p ∈ images) /\ im_ID p <> id /\
  exists pc cc, config_read (im_ID p) pc h /\ config_read id cc h /\ extends pc cc.

Lemma is_parent_mono p id h h' : h ⊆ h' -> is_parent p id h -> is_parent p id h'.
Proof.
  intros Hs ((l & Hl & Hp) & Hne & pc & cc & H1 & H2 & H3). split; [exists l; split; [by apply Hs|done]|].
  split; [done|]. exists pc, cc. split; [by eapply config_read_mono|]. split; [by eapply config_read_mono|done].
Qed.

Lemma find_parent_wp child layer cc images all h :
  Ev Images (Ok all) ∈ h -> images ⊆ all -> config_read (im_ID child) cc h ->
  wp (find_parent child layer cc images) read_only
    (fun h' o => exists r, o = Returned r /\ forall p, r = Ok (Some p) -> is_parent p (im_ID child) h') h.
Proof.
  revert h. induction images as [|p images IH]; intros h Hall Hsub Hcc; cbn [find_parent]; [by eexists|].
  assert (Hcont : forall h1, h ⊆ h1 -> wp (find_parent child layer cc images) read_only
    (fun h' o => exists r, o = Returned r /\ forall p, r = Ok (Some p) -> is_parent p (im_ID child) h') h1).
  { intros h1 Hs. apply IH; [by apply Hs|set_solver|by eapply config_read_mono]. }
  destruct (im_ID p ==? im_ID child) eqn:E; [by apply Hcont|].
  destruct (match layer with Some _ => _ | None => false end); [by apply Hcont|].
  rewrite wp_bind. eapply wp_frame; [apply getImageConfig_wp|done|]. intros h1 o Hs (r & -> & Hr). cbn [wp].
  destruct r as [[pc|]|e]; [|by apply Hcont|by eexists].
  destruct (_ + 1 !=? _) eqn:Elen; [by apply Hcont|]. apply negb_false_iff, bool_decide_eq_true in Elen.
  destruct (negb (uses_all_layers _ _)); [by apply Hcont|].
  destruct (historiesDiffer _ _) eqn:Eh; [by apply Hcont|]. apply (extends_iff _ _ Elen) in Eh.
  eexists. split; [done|]. intros p' [= <-]. split; [exists all; split; [by apply Hs|set_solver]|].
  split; [by apply bool_decide_eq_false in E|]. exists pc, cc.
  split; [done|]. split; [by eapply config_read_mono|done].
Qed.

Lemma getParent_wp child h :
  wp (getParent child) read_only
    (fun h' o => exists r, o = Returned r /\ forall p, r = Ok (Some p) -> is_parent p (im_ID child) h') h.
Proof.
  unfold getParent. rewrite wp_bind. cbn [call wp]. split; [done|]. intros [images|e]; cbn [wp]; [|by eexists].
  rewrite wp_bind. eapply wp_frame; [apply top_layer_wp|done|]. intros h1 o Hs1 (r & -> & _). cbn [wp].
  destruct r as [l|e]; [|by eexists].
  rewrite wp_bind. eapply wp_frame; [apply getImageConfig_wp|done|]. intros h2 o Hs2 (r & -> & Hr). cbn [wp].
  destruct r as [[cc|]|e]; [|by eexists..].
  apply (find_parent_wp _ _ _ _ images); [apply Hs2, Hs1; in_history|done|done].
Qed.

(** ** When an image may be deleted *)

Definition fetched (image : Image) (h : list event) : Prop :=
  exists ref, Ev (GetStoreImage ref) (Ok image) ∈ h.

(** No container of a listing was created from the image. *)
Definition unused (image : Image) (h : list event) : Prop :=
  exists cs, Ev Containers (Ok cs) ∈ h /\ Forall (fun c => sc_ImageID c <> im_ID image) cs.

(** An image that was looked up, may be written and is not used by a container,
    unless it had several names at first; it has at most the name that goes with
    it. *)
Definition releasable (image : Image) (h : list event) : Prop :=
  exists image0, fetched image0 h /\ im_ReadOnly image0 = false /\
    (unused image0 h \/ 1 < length (im_Names image0)) /\
    ((im_ID image = im_ID image0 /\ length (im_Names image0) <= 1) \/
     (fetched image h /\ im_Names image = [])).

(** An untagged image of a listing. *)
Definition untagged (image : Image) (h : list event) : Prop :=
  im_Names image = [] /\ exists images, Ev Images (Ok images) ∈ h /\ image ∈ images.

Definition deletable (id : string) (h : list event) : Prop :=
  exists image, im_ID image = id /\ childless image h /\ (releasable image h \/ untagged image h).

Definition prune_guard (h : list event) (c : cmd) : Prop :=
  match c with
  | DeleteImage id _ => deletable id h
  | SetNames id _ => exists image, fetched image h /\ im_ID image = id
  | c => read_only h c
  end.

Lemma read_only_prune h c : read_only h c -> prune_guard h c.
Proof. by destruct c. Qed.

(** Image identifiers stand for one configuration. *)
Definition consistent (h : list event) : Prop :=
  forall id c c', config_read id c h -> config_read id c' h -> c = c'.

Lemma consistent_mono h h' : h ⊆ h' -> consistent h' -> consistent h.
Proof. intros Hs Hc id c c' H1 H2. by apply (Hc id); eapply config_read_mono. Qed.

(** Running out of fuel takes a history of that length. *)
Definition fuel_needed (fuel : nat) {A} (h : list event) (o : outcome A) : Prop :=
  o = Panicked out_of_fuel -> consistent h ->
  exists id c, config_read id c h /\ fuel <= length (cfg_History c).

Lemma remove_parents_wp fuel id p h :
  (forall img, p = Some img -> exists images, Ev Images (Ok images) ∈ h /\ img ∈ images) ->
  wp (remove_parents fuel id p) prune_guard
    (fun h' o => o = Panicked out_of_fuel -> consistent h' ->
       exists img, p = Some img /\ forall pc, config_read (im_ID img) pc h -> fuel <= length (cfg_History pc)) h.
Proof.
  revert p h. induction fuel as [|fuel IH]; intros [img|] h Hp; cbn [remove_parents]; try done.
  { cbn. intros _ _. exists img. split; [done|]. intros. lia. }
  destruct (Hp img eq_refl) as (images & Hi & Hin).
  rewrite wp_bind. eapply wp_frame; [apply getParent_wp|intros ? ? _; apply read_only_prune|].
  intros h1 o Hs1 (r & -> & Hnext). cbn [wp]. destruct r as [next|e]; [|done].
  rewrite wp_bind. eapply wp_frame; [apply imageIsParent_wp|intros ? ? _; apply read_only_prune|].
  intros h2 o Hs2 (r & -> & Hch). cbn [wp]. destruct r as [b|e]; [|done].
  destruct (_ || b) eqn:E; [done|]. apply orb_false_iff in E as [En ->].
  apply bool_decide_eq_false in En. rewrite wp_bind. cbn [call wp]. split.
  { exists img. split; [done|]. split; [by apply Hch|]. right. split; [destruct (im_Names img); [done|simpl in En; lia]|].
    exists images. split; [by apply Hs2, Hs1|done]. }
  intros x. cbn [wp]. rewrite wp_bind.
  assert (Hrest : forall h3, h2 ⊆ h3 -> wp (remove_parents fuel id next) prune_guard
    (fun h' o => o = Panicked out_of_fuel -> consistent h' ->
       exists img', Some img = Some img' /\
         forall pc, config_read (im_ID img') pc h -> S fuel <= length (cfg_History pc)) h3).
  { intros h3 Hs3. eapply wp_frame; [apply IH|done|].
    - intros q ->. destruct (Hnext q eq_refl) as ((l & Hl & Hq) & _). exists l. split; [by apply Hs3, Hs2|done].
    - intros h4 o Hs4 Ho Hpan Hcon. destruct (Ho Hpan Hcon) as (q & -> & Hq).
      exists img. split; [done|]. intros pc Hpc.
      destruct (Hnext q eq_refl) as (_ & _ & qc & cc & Hqc & Hcc & [y Hy]).
      assert (Hmono : h1 ⊆ h3) by (intros e He; apply Hs3, Hs2, He).
      assert (pc = cc) as ->.
      { apply (Hcon (im_ID img)); eapply config_read_mono; [| eassumption| |eassumption]; set_solver. }
      specialize (Hq qc ltac:(by eapply config_read_mono)). rewrite Hy, length_app. simpl. lia. }
  destruct x; cbn [call wp]; [apply Hrest; set_solver|]. split; [done|]. intros []. apply Hrest; set_solver.
Qed.

Lemma fetched_mono image h h' : h ⊆ h' -> fetched image h -> fetched image h'.
Proof. intros Hs [ref H]. exists ref. by apply Hs. Qed.
Lemma unused_mono image h h' : h ⊆ h' -> unused image h -> unused image h'.
Proof. intros Hs (cs & H & Ha). exists cs. split; [by apply Hs|done]. Qed.
Lemma releasable_mono image h h' : h ⊆ h' -> releasable image h -> releasable image h'.
Proof.
  intros Hs (i & H1 & H2 & H3 & H4). exists i. split; [by eapply fetched_mono|]. split; [done|]. split.
  - destruct H3 as [H3|H3]; [left; by eapply unused_mono|by right].
  - destruct H4 as [H4|[H4 H5]]; [by left|right; split; [by eapply fetched_mono|done]].
Qed.
Lemma untagged_mono image h h' : h ⊆ h' -> untagged image h -> untagged image h'.
Proof. intros Hs (H1 & l & H2 & H3). split; [done|]. exists l. split; [by apply Hs|done]. Qed.
Lemma deletable_mono id h h' : h ⊆ h' -> deletable id h -> deletable id h'.
Proof.
  intros Hs (i & H1 & H2 & H3). exists i. split; [done|]. split; [by eapply childless_mono|].
  destruct H3 as [H3|H3]; [left; by eapply releasable_mono|right; by eapply untagged_mono].
Qed.

Lemma removeImage_wp fuel image h :
  childless image h -> releasable image h ->
  wp (removeImage fuel image) prune_guard (fuel_needed fuel) h.
Proof.
  intros Hc Hr. unfold removeImage. rewrite wp_bind.
  eapply wp_frame; [apply getParent_wp|intros ? ? _; apply read_only_prune|].
  intros h1 o Hs (r & -> & Hp). cbn [wp]. destruct r as [parent|e]; [|done].
  rewrite wp_bind. cbn [call wp]. split.
  { exists image. split; [done|]. split; [by eapply childless_mono|]. left. by eapply releasable_mono. }
  intros [e|]; cbn [wp]; [done|].
  eapply wp_frame; [apply remove_parents_wp|done|].
  - intros p ->. destruct (Hp p eq_refl) as ((l & Hl & Hin) & _). exists l. split; [by apply list_elem_of_further|done].
  - intros h' o Hs' Ho Hpan Hcon. destruct (Ho Hpan Hcon) as (p & -> & Hlen).
    destruct (Hp p eq_refl) as (_ & _ & pc & cc & Hpc & _). exists (im_ID p), pc.
    split; [eapply config_read_mono; [|exact Hpc]; set_solver|]. apply Hlen.
    eapply config_read_mono; [|exact Hpc]. set_solver.
Qed.

Section DeleteProofs.
Context (ErrNotAnImage ErrImageUsedByContainer : goerr).

Lemma set_error_wp last e h :
  wp (set_error last e) prune_guard (fun h' o => exists e', o = Returned e') h.
Proof. unfold set_error. repeat (wp_go; try done); by eexists. Qed.

Lemma used_by_containers_wp id ids last h :
  wp (used_by_containers ErrImageUsedByContainer id ids last) prune_guard (fun h' o => exists e', o = Returned e') h.
Proof.
  revert last h. induction ids as [|i ids IH]; intros last h; cbn [used_by_containers]; [by eexists|].
  rewrite wp_bind. eapply wp_mono; [apply set_error_wp|done|]. intros h' o [e ->]. apply IH.
Qed.

Lemma getImage_wp id h :
  wp (getImage id) prune_guard
    (fun h' o => exists r e, o = Returned (r, e) /\ forall i, r = Some i -> fetched i h') h.
Proof.
  assert (Href : forall h, wp (properImageRef id) prune_guard (fun _ o => exists r, o = Returned r) h)
    by (intros h0; unfold properImageRef; repeat (wp_go; try done); by eexists).
  assert (Hid : forall h, wp (storageImageID id) prune_guard (fun _ o => exists r, o = Returned r) h)
    by (intros h0; unfold storageImageID; repeat (wp_go; try done); by eexists).
  assert (Hsto : forall h, wp (storageImageRef id) prune_guard (fun _ o => exists r, o = Returned r) h)
    by (intros h0; unfold storageImageRef; repeat (wp_go; try done); by eexists).
  unfold getImage. rewrite wp_bind. eapply wp_mono; [apply Href|done|]. intros h1 o [r ->]. cbn [wp].
  rewrite wp_bind. eapply (wp_mono _ _ _ (fun _ o => exists r, o = Returned r)); [|done|].
  { destruct r; [by eexists|apply Hsto]. }
  intros h2 o [[r2 e2] ->]. cbn [wp]. rewrite wp_bind.
  eapply (wp_mono _ _ _ (fun _ o => exists r, o = Returned r)); [|done|].
  { destruct r2; [by eexists|]. rewrite wp_bind. eapply wp_mono; [apply Hid|done|]. intros h3 o [r3 ->]. by eexists. }
  intros h3 o [[r3 e3] ->]. cbn [wp]. destruct r3 as [ref|]; [|by do 2 eexists].
  rewrite wp_bind. cbn [call wp]. split; [done|]. intros [i|e]; do 2 eexists; (split; [done|]); [|done].
  intros i' [= <-]. exists ref. in_history.
Qed.

Lemma runningContainers_wp image h :
  wp (runningContainers image) prune_guard
    (fun h' o => exists r, o = Returned r /\ (r = Ok [] -> unused image h')) h.
Proof.
  unfold runningContainers. rewrite wp_bind. cbn [call wp]. split; [done|].
  intros [cs|e]; cbn [wp]; (eexists; split; [done|]); [|done]. intros [= E]. apply fmap_nil_inv in E.
  exists cs. split; [in_history|]. apply Forall_forall. intros c Hc Heq.
  assert (Hin : c ∈ filter (fun c => sc_ImageID c = im_ID image) cs) by by apply list_elem_of_filter.
  rewrite E in Hin. set_solver.
Qed.

Lemma release_containers_wp id image ids last h :
  (ids = [] -> unused image h) ->
  wp (release_containers ErrImageUsedByContainer id image ids false last) prune_guard
    (fun h' o => exists b e, o = Returned (b, e) /\
       (b = true -> unused image h' \/ 1 < length (im_Names image))) h.
Proof.
  intros Hu. unfold release_containers. destruct (_ && _) eqn:E.
  - rewrite wp_bind. eapply wp_mono; [apply used_by_containers_wp|done|]. intros h' o [e ->]. by do 2 eexists.
  - do 2 eexists. split; [done|]. intros _. apply andb_false_iff in E as [E|E]; apply bool_decide_eq_false in E.
    + left. apply Hu. destruct ids; [done|simpl in E; lia].
    + right. lia.
Qed.

Lemma untagImage_wp id image h :
  fetched image h ->
  wp (untagImage id image) prune_guard
    (fun h' o => match o with Returned _ => True | Panicked m => m = index_out_of_range end) h.
Proof.
  intros Hf. unfold untagImage. rewrite wp_bind.
  assert (Hp : forall names acc r m, untag_loop id names acc r = Panicked m -> m = index_out_of_range).
  { induction names as [|n names IH]; intros acc r m; cbn [untag_loop]; [done|].
    destruct (matchesReference n id) as [[]|m'] eqn:E; [apply IH..|]. intros [= ->]. revert E.
    unfold matchesReference. repeat case_match; congruence. }
  destruct (untag_loop id (im_Names image) [] "") as [[names removed]|m] eqn:E; cbn [of_outcome wp]; [|by eapply Hp].
  destruct (removed !=? ""); cbn [wp]; [|done]. rewrite wp_bind. cbn [call wp].
  split; [by exists image|]. intros [e|]; done.
Qed.

Lemma release_names_wp id image last h :
  fetched image h -> im_ReadOnly image = false -> (unused image h \/ 1 < length (im_Names image)) ->
  wp (release_names id image false last) prune_guard
    (fun h' o => match o with
                 | Returned (r, _) => forall i, r = Some i -> im_Names i = [] -> releasable i h'
                 | Panicked m => m = index_out_of_range
                 end) h.
Proof.
  intros Hf Hro Hu. unfold release_names. destruct (String.prefix id (im_ID image)).
  - destruct (_ && _) eqn:E.
    + rewrite wp_bind. eapply wp_mono; [apply set_error_wp|done|]. by intros h' o [e ->].
    + cbn [wp]. intros i [= <-] _. exists image. split; [done|]. split; [done|]. split; [done|]. left.
      split; [done|]. rewrite andb_true_r in E. apply bool_decide_eq_false in E. lia.
  - rewrite wp_bind. eapply wp_frame; [by apply untagImage_wp|done|].
    intros h1 o Hs1 Ho. destruct o as [[name e]|m]; [|done].
    destruct e as [e|].
    + rewrite wp_bind. eapply wp_mono; [apply set_error_wp|done|]. by intros h' o [e' ->].
    + rewrite wp_bind. cbn [call wp]. split; [done|]. intros []. rewrite wp_bind.
      eapply wp_frame; [apply getImage_wp|done|]. intros h2 o Hs2 (r & e & -> & Hr). cbn [wp].
      assert (Hs : h ⊆ h2) by (intros x Hx; apply Hs2; apply list_elem_of_further; by apply Hs1).
      assert (Hu2 : unused image h2 \/ 1 < length (im_Names image)).
      { destruct Hu as [Hu|Hu]; [left; by eapply unused_mono|by right]. }
      assert (Hkeep : forall l e, wp (let! le := set_error l e in Ret (Some image, le)) prune_guard
        (fun h' o => match o with
                     | Returned (r, _) => forall i, r = Some i -> im_Names i = [] -> releasable i h'
                     | Panicked m => m = index_out_of_range
                     end) h2).
      { intros l e'. rewrite wp_bind. eapply wp_frame; [apply set_error_wp|done|]. intros h' o Hs' [e'' ->].
        cbn [wp]. intros i [= <-] Hn. eapply releasable_mono; [exact Hs'|]. exists image.
        split; [by eapply fetched_mono|]. split; [done|]. split; [done|]. left. rewrite Hn. simpl. split; [done|lia]. }
      destruct e as [e|]; [apply Hkeep|]. destruct r as [i1|]; [|apply Hkeep].
      cbn [wp]. intros i [= <-] Hn. exists image. split; [by eapply fetched_mono|]. split; [done|].
      split; [done|]. right. split; [by apply Hr|done].
Qed.

(** What is left of a run: it never runs out of fuel without a long history. *)
Lemma delete_unless_needed_wp fuel image last h :
  (im_Names image = [] -> releasable image h) ->
  wp (delete_unless_needed fuel image false true last) prune_guard (fuel_needed fuel) h.
Proof.
  intros Hrel. unfold delete_unless_needed. rewrite wp_bind.
  assert (Herr : forall e h, wp (set_error last e) prune_guard (fuel_needed fuel) h).
  { intros e h0. eapply wp_mono; [apply set_error_wp|done|]. by intros h' o [e' ->]. }
  eapply wp_frame; [apply imageIsParent_wp|intros ? ? _; apply read_only_prune|].
  intros h1 o Hs (r & -> & Hc). cbn [wp]. destruct r as [b|e]; [|apply Herr].
  destruct (_ && negb false) eqn:En; [done|]. rewrite andb_true_r in En. apply bool_decide_eq_false in En.
  assert (Hn : im_Names image = []) by (destruct (im_Names image); [done|simpl in En; lia]).
  rewrite Hn. cbn [length]. rewrite bool_decide_eq_true_2, !andb_true_r by done. destruct b; [done|].
  rewrite wp_bind. eapply wp_mono; [apply removeImage_wp|done|].
  - by apply Hc.
  - eapply releasable_mono; [exact Hs|by apply Hrel].
  - intros h2 o Ho. destruct o as [[id e]|m]; [|intros [= ->]; by apply Ho].
    destruct e as [e|]; [apply Herr|]. rewrite wp_bind. cbn [call wp]. by split.
Qed.

Lemma delete_image_wp fuel id last h :
  wp (delete_image ErrNotAnImage ErrImageUsedByContainer fuel id false false true last) prune_guard (fuel_needed fuel) h.
Proof.
  assert (Herr : forall l e h, wp (set_error l e) prune_guard (fuel_needed fuel) h).
  { intros l e h0. eapply wp_mono; [apply set_error_wp|done|]. by intros h' o [e' ->]. }
  unfold delete_image. rewrite wp_bind. eapply wp_mono; [apply getImage_wp|done|].
  intros h1 o (r & e & -> & Hf). cbn [wp]. destruct e as [e|]; [apply Herr|]. destruct r as [image|]; [|apply Herr].
  specialize (Hf image eq_refl). destruct (im_ReadOnly image) eqn:Hro; [apply Herr|].
  rewrite wp_bind. eapply wp_frame; [apply runningContainers_wp|done|]. intros h2 o Hs2 (r & -> & Hun). cbn [wp].
  destruct r as [ids|e]; [|apply Herr].
  rewrite wp_bind. eapply wp_frame; [apply release_containers_wp; intros ->; by apply Hun|done|].
  intros h3 o Hs3 (b & e & -> & Hb). cbn [wp]. destruct b; [|done].
  rewrite wp_bind. eapply wp_mono; [apply release_names_wp|done|].
  - eapply fetched_mono; [|exact Hf]. intros x Hx. by apply Hs3, Hs2.
  - done.
  - by apply Hb.
  - intros h4 o Ho. destruct o as [[i e']|m]; [|by intros [= ->]]. cbn [wp].
    destruct i as [i|]; [|done]. apply delete_unless_needed_wp. by apply Ho.
Qed.

Lemma deleteImages_wp fuel ids last h :
  wp (deleteImages ErrNotAnImage ErrImageUsedByContainer fuel ids false false true last) prune_guard (fuel_needed fuel) h.
Proof.
  revert last h. induction ids as [|id ids IH]; intros last h; cbn [deleteImages]; [done|].
  rewrite wp_bind. eapply wp_mono; [apply delete_image_wp|done|].
  intros h' o Ho. destruct o as [e|m]; [apply IH|]. intros [= ->]. by apply Ho.
Qed.

Lemma store_Prune_wp fuel h :
  wp (store_Prune ErrNotAnImage ErrImageUsedByContainer fuel) prune_guard (fuel_needed fuel) h.
Proof.
  unfold store_Prune, findDanglingImages. rewrite !wp_bind. cbn [call wp]. split; [done|].
  intros [images|e]; cbn [wp]; [apply deleteImages_wp|done].
Qed.


(** C16: pruning terminates: if an image identifier always stands for the same
    configuration, the loop over the parents takes no more rounds than the
    longest image history has entries. *)
Theorem prune_terminates fuel tr o :
  runs (store_Prune ErrNotAnImage ErrImageUsedByContainer fuel) tr o ->
  consistent tr ->
  (forall id c, config_read id c tr -> length (cfg_History c) < fuel) ->
  o <> Panicked out_of_fuel.
Proof.
  intros Hr Hc Hl Ho. pose proof (wp_post _ _ _ _ _ _ (store_Prune_wp fuel []) Hr Ho) as Hn.
  destruct Hn as (id & c & Hread & Hlen); [eapply consistent_mono; [apply history_of_trace|done]|].
  apply (config_read_mono _ _ _ _ (history_of_trace tr)) in Hread. specialize (Hl _ _ Hread). lia.
Qed.

End DeleteProofs.

(** ** Parents and children agree

    Against a store that does not change, the parent that [getParent] finds has
    the image among the children that [getChildren] finds. *)

Section Frozen.
Context (ans : forall c : lcmd, lresp c).

Definition eval {A} (p : prog A) : outcome A := (run_fixed ans p).2.

Lemma eval_Call {A} (c : lcmd) (k : lresp c -> prog A) : eval (Call (S := LayerSig) c k) = eval (k (ans c)).
Proof. unfold eval, run_fixed. cbn [exec]. by destruct (exec _ (k (ans c)) tt) as [[tr o] []]. Qed.

Lemma eval_bind {A B} (p : prog A) (f : A -> prog B) :
  eval (bind p f) = match eval p with Returned a => eval (f a) | Panicked m => Panicked m end.
Proof. induction p as [a|m|c k IH]; [done..|]. cbn [bind]. rewrite !eval_Call. apply IH. Qed.

(** What makes [child] a child of [p], as both functions see it. *)
Definition linked (p child : Image) : Prop :=
  im_ID child <> im_ID p /\
  (exists l, eval (top_layer child) = Returned (Ok l) /\
     match l with Some l => ly_Parent l = im_TopLayer p \/ ly_ID l = im_TopLayer p | None => True end) /\
  exists pc cc, eval (getImageConfig (im_ID p)) = Returned (Ok (Some pc)) /\
    eval (getImageConfig (im_ID child)) = Returned (Ok (Some cc)) /\ extends pc cc.

Lemma find_parent_eval child l cc images p :
  eval (top_layer child) = Returned (Ok l) ->
  eval (getImageConfig (im_ID child)) = Returned (Ok (Some cc)) ->
  eval (find_parent child l cc images) = Returned (Ok (Some p)) -> linked p child.
Proof.
  intros Hl Hcc. induction images as [|q images IH]; cbn [find_parent]; [done|].
  destruct (im_ID q ==? im_ID child) eqn:E; [done|]. apply bool_decide_eq_false in E.
  destruct (match l with Some _ => _ | None => false end) eqn:Elay; [done|].
  rewrite eval_bind. destruct (eval (getImageConfig (im_ID q))) as [[[pc|]|e]|m] eqn:Epc; try done.
  destruct (_ + 1 !=? _) eqn:Elen; [done|]. apply negb_false_iff, bool_decide_eq_true in Elen.
  destruct (negb (uses_all_layers _ _)); [done|].
  destruct (historiesDiffer _ _) eqn:Eh; [done|]. apply (extends_iff _ _ Elen) in Eh.
  intros [= ->]. split; [congruence|]. split; [|by exists pc, cc]. exists l. split; [done|].
  destruct l as [l|]; [|done]. apply andb_false_iff in Elay as [Elay|Elay];
    apply negb_false_iff, bool_decide_eq_true in Elay; [by left|by right].
Qed.

(** The children found so far stay in the answer, and a linked image is one. *)
Lemma find_children_eval p pc max children images l :
  eval (getImageConfig (im_ID p)) = Returned (Ok (Some pc)) ->
  eval (find_children p pc max children images) = Returned (Ok l) ->
  children ⊆ l /\
  forall child, child ∈ images -> linked p child -> l <> [] /\ (max = 0 -> im_ID child ∈ l).
Proof.
  intros Hpc. revert children. induction images as [|c images IH]; intros children; cbn [find_children].
  { intros [= <-]. split; [done|]. set_solver. }
  (* the rest of the loop, if [c] is not linked *)
  assert (Hskip : ~ linked p c -> eval (find_children p pc max children images) = Returned (Ok l) ->
    children ⊆ l /\ forall child, child ∈ c :: images -> linked p child -> l <> [] /\ (max = 0 -> im_ID child ∈ l)).
  { intros Hn He. destruct (IH _ He) as [H1 H2]. split; [done|]. intros child [->|Hin]%elem_of_cons; [done|].
    by apply H2. }
  destruct (im_ID c ==? im_ID p) eqn:E.
  { apply Hskip. intros (Hne & _). by apply bool_decide_eq_true in E. }
  rewrite eval_bind. destruct (eval (top_layer c)) as [[lay|e]|m] eqn:Elay; try done.
  destruct (match lay with Some _ => _ | None => false end) eqn:Em.
  { apply Hskip. intros (_ & (l' & Hl' & Hm) & _). rewrite Elay in Hl'. injection Hl' as <-.
    destruct lay as [lay|]; [|done]. apply andb_true_iff in Em as [E1 E2].
    apply negb_true_iff, bool_decide_eq_false in E1. apply negb_true_iff, bool_decide_eq_false in E2. tauto. }
  rewrite eval_bind. destruct (eval (getImageConfig (im_ID c))) as [[[cc|]|e]|m] eqn:Ecc; try done.
  2: { apply Hskip. intros (_ & _ & pc' & cc' & _ & H & _). congruence. }
  assert (Hcfg : linked p c -> extends pc cc).
  { intros (_ & _ & pc' & cc' & H1 & H2 & H3). rewrite Hpc in H1. rewrite Ecc in H2. by simplify_eq. }
  destruct (_ + 1 !=? _) eqn:Elen.
  { apply Hskip. intros Hl. apply Hcfg in Hl. revert Hl. apply extends_length.
    by apply negb_true_iff, bool_decide_eq_false in Elen. }
  apply negb_false_iff, bool_decide_eq_true in Elen.
  destruct (historiesDiffer _ _) eqn:Eh.
  { apply Hskip. intros Hl%Hcfg. apply (extends_iff _ _ Elen) in Hl. congruence. }
  destruct (_ && _) eqn:Emax.
  - intros [= <-]. split; [set_solver|]. intros child _ _. split; [by destruct children|].
    intros ->. by rewrite bool_decide_eq_false_2 in Emax by lia.
  - intros He. destruct (IH _ He) as [H1 H2]. split; [set_solver|].
    intros child [->|Hin]%elem_of_cons Hl; [|by apply H2]. split; [|intros _; set_solver].
    intros ->. set_solver.
Qed.

Lemma getParent_linked child p : eval (getParent child) = Returned (Ok (Some p)) -> linked p child.
Proof.
  unfold getParent, call. cbn [bind]. rewrite eval_Call. cbn [bind].
  destruct (ans Images) as [images|e]; [|done]. rewrite eval_bind.
  destruct (eval (top_layer child)) as [[l|e]|m] eqn:El; try done. rewrite eval_bind.
  destruct (eval (getImageConfig (im_ID child))) as [[[cc|]|e]|m] eqn:Ecc; try done.
  by apply find_parent_eval.
Qed.

Lemma getChildren_linked p max images child l :
  ans Images = Ok images -> child ∈ images -> linked p child ->
  eval (getChildren p max) = Returned (Ok l) -> l <> [] /\ (max = 0 -> im_ID child ∈ l).
Proof.
  intros Hi Hin Hl. unfold getChildren, call. cbn [bind]. rewrite eval_Call. cbn [bind]. rewrite Hi, eval_bind.
  destruct Hl as (Hne & Hlay & pc & cc & Hpc & Hcc & Hx). rewrite Hpc. intros He.
  apply (find_children_eval p pc max [] images l Hpc He); [done|]. split; [done|]. split; [done|]. by exists pc, cc.
Qed.

(** In a store that does not change, the parent that is found for an image
    of the store has this image among its children, and counts as a parent; so
    it is not removed before the image. *)
Theorem parent_has_child images child p :
  ans Images = Ok images -> child ∈ images ->
  eval (getParent child) = Returned (Ok (Some p)) ->
  (forall l, eval (getChildren p 0) = Returned (Ok l) -> im_ID child ∈ l) /\
  (forall b, eval (imageIsParent p) = Returned (Ok b) -> b = true).
Proof.
  intros Hi Hin Hp. apply getParent_linked in Hp. split.
  - intros l He. by eapply getChildren_linked.
  - intros b. unfold imageIsParent. rewrite eval_bind.
    destruct (eval (getChildren p 1)) as [[l|e]|m] eqn:E; try done. intros [= <-].
    destruct (getChildren_linked p 1 images child l Hi Hin Hp E) as [Hl _].
    apply bool_decide_eq_true. destruct l; [done|]. simpl. lia.
Qed.

End Frozen.

(** ** Checking what was read *)

Definition parse_answer (e : event) : option (string * ImageReference) :=
  match ev_cmd e as c return resp c -> option (string * ImageReference) with
  | ParseStoreReference id => fun r => match r with Ok ref => Some (id, ref) | Err _ => None end
  | _ => fun _ => None
  end (ev_resp e).
Definition config_answer (e : event) : option (ImageReference * ImageConfig) :=
  match ev_cmd e as c return resp c -> option (ImageReference * ImageConfig) with
  | OCIConfig ref => fun r => match r with Ok c => Some (ref, c) | Err _ => None end
  | _ => fun _ => None
  end (ev_resp e).

(** The configurations a trace reads, with the identifiers they belong to. *)
Definition configs_read (tr : list event) : list (string * ImageConfig) :=
  '(id, ref) ← omap parse_answer tr; '(ref', c) ← omap config_answer tr;
  if decide (ref = ref') then [(id, c)] else [].

Lemma config_read_in id c tr : config_read id c tr -> (id, c) ∈ configs_read tr.
Proof.
  intros (ref & H1 & H2). unfold configs_read.
  assert (Hp : (id, ref) ∈ omap parse_answer tr) by (apply list_elem_of_omap; eexists; split; [exact H1|done]).
  assert (Hc : (ref, c) ∈ omap config_answer tr) by (apply list_elem_of_omap; eexists; split; [exact H2|done]).
  apply list_elem_of_bind. exists (id, ref). split; [|done]. apply list_elem_of_bind. exists (ref, c). split; [|done].
  rewrite decide_True by done. set_solver.
Qed.

Definition configs_agree (tr : list event) : bool :=
  forallb (fun a => forallb (fun b => bool_decide (a.1 = b.1 -> a.2 = b.2)) (configs_read tr)) (configs_read tr).

Lemma configs_agree_consistent tr : configs_agree tr = true -> consistent tr.
Proof.
  unfold configs_agree. intros H id c c' H1%config_read_in H2%config_read_in.
  rewrite forallb_forall in H. specialize (H _ (proj1 (list_elem_of_In _ _) H1)).
  rewrite forallb_forall in H. specialize (H _ (proj1 (list_elem_of_In _ _) H2)).
  apply bool_decide_eq_true in H. by apply H.
Qed.

(** ** A concrete store *)

Module PruneExample.

(** The images with their configurations. *)
Abbreviation istore := (list (Image * ImageConfig)).

Definition find (s : istore) (id : string) : option (Image * ImageConfig) :=
  head (filter (fun i => im_ID i.1 = id) s).

Definition missing : goerr := Errorf "missing".

Definition handle (c : lcmd) : istore -> lresp c * istore :=
  match c as c return istore -> lresp c * istore with
  | Images => fun s => (Ok s.*1, s)
  | LayerByID id => fun s => (Ok (mkLayer id "layer1"), s)
  | Containers => fun s => (Ok [], s)
  | ParseStoreReference id => fun s => (Ok (mkImageReference None id), s)
  | ImageByID id => fun s => (match find s id with Some i => Ok i.1 | None => Err missing end, s)
  | GetStoreImage ref => fun s =>
      (match find s (ref_ImageName ref) with Some i => Ok i.1 | None => Err missing end, s)
  | NewImageSource ref => fun s => (if find s (ref_ImageName ref) then None else Some missing, s)
  | NewImage ref => fun s => (if find s (ref_ImageName ref) then None else Some missing, s)
  | OCIConfig ref => fun s =>
      (match find s (ref_ImageName ref) with Some i => Ok i.2 | None => Err missing end, s)
  | DeleteImage id _ => fun s => (None, filter (fun i => im_ID i.1 <> id) s)
  | c => fun s => (lresp_default c, s)
  end.

Definition entry (n : Z) : History := mkHistory (Some n) "sh" "" "" false.
Definition base : Image := mkImage "base" [] "layer1" false.
Definition top : Image := mkImage "top" [] "layer2" false.
Definition named : Image := mkImage "named" ["localhost/cache:latest"] "layer3" false.
Definition start : istore :=
  [(top, mkImageConfig [entry 1; entry 2] ["d1"; "d2"]); (base, mkImageConfig [entry 1] ["d1"]);
   (named, mkImageConfig [entry 5] ["d5"])].

Definition prune : prog (option goerr) := store_Prune missing missing 3.
Definition run := exec (S := LayerSig) handle prune start.

(** The image is deleted with its parent; the named image is kept.  The listing
    is not repeated, so the parent is reported as missing afterwards. *)
Example prune_run :
  (run.2).*1 = [named] /\ run.1.2 = Returned (Some (Wrap ("could not get image " +++ quoted "base") missing)).
Proof. vm_compute. split; reflexivity. Qed.

Definition deletion (e : event) : bool := match ev_cmd e with DeleteImage _ _ => true | _ => false end.
Fixpoint position (tr : list event) (i : nat) : nat :=
  match tr with [] => i | e :: tr => if deletion e then i else position tr (S i) end.
Definition at_ : nat := position run.1.1 0.


Lemma prune_terminates_witness :
  configs_agree run.1.1 = true /\ run.1.2 <> Panicked out_of_fuel.
Proof.
  assert (E : configs_agree run.1.1 = true) by (vm_compute; reflexivity).
  split; [exact E|].
  apply (prune_terminates missing missing 3 run.1.1 run.1.2 (exec_runs_proj (S := LayerSig) handle prune start)
    (configs_agree_consistent _ E)).
  intros id c Hc%config_read_in.
  assert (Hall : forallb (fun a => bool_decide (length (cfg_History a.2) < 3)) (configs_read run.1.1) = true)
    by (vm_compute; reflexivity).
  rewrite forallb_forall in Hall. apply (proj1 (list_elem_of_In _ _)) in Hc.
  exact (proj1 (bool_decide_eq_true _) (Hall _ Hc)).
Defined.

Definition frozen (c : lcmd) : lresp c := (handle c start).1.

Lemma parent_has_child_witness :
  eval frozen (getParent top) = Returned (Ok (Some base)) /\
  forall l, eval frozen (getChildren base 0) = Returned (Ok l) -> "top" ∈ l.
Proof.
  assert (E : eval frozen (getParent top) = Returned (Ok (Some base))) by (vm_compute; reflexivity).
  split; [exact E|].
  apply (parent_has_child frozen (start.*1) top base); [reflexivity| |exact E].
  apply list_elem_of_here.
Defined.

End PruneExample.
