(* ===== verification/Lifecycle.v ===== *)
(** * The life of a volume across the controllers

    What the claim controller writes into a Pod and a volume is what the volume
    controller reads back when it releases the volume.  The second part shows
    that releasing makes progress: in a cluster that accepts the writes, five
    runs of the volume controller free a volume whose claim is gone, once the
    Pod of the deprovisioner has succeeded. *)

From S2P Require Import Prelude Effects Api ApiServer GoPath Template Utils PodTemplate Registry Job Codec Cluster PvcController PvController.

Section Lifecycle.
Context `{!Converter StorageProvisioner, !EnvSubst} {PC : ProvisionerCodec} (ManagerNamespace : string).

(** Events change nothing. *)
Lemma final_pv_event pv t r m s : final (pv_event pv t r m) s = (Returned tt, s).
Proof. unfold pv_event. final_step. destruct (getClaimRef pv); [|done]. by final_step. Qed.

Lemma final_bind_event {B} pv t r m (f : unit -> prog B) s :
  final (bind (pv_event pv t r m) f) s = final (f tt) s.
Proof. by rewrite final_bind, final_pv_event. Qed.

(** ** Releasing a volume *)

Section Release.
Context (n : NamespacedName).

Definition release_run (s : cluster) : outcome (option goerr) * cluster := final (pv_Reconcile ManagerNamespace n) s.

(** The volume [pv] is stored under [n] and is being deleted. *)
Definition volume_deleting (pv : PersistentVolume) (s : cluster) : Prop :=
  cl_volumes s !! n = Some pv /\ om_key (vol_Meta pv) = n /\
  om_DeletionTimestamp (vol_Meta pv) <> None /\
  HasString (om_Finalizers (vol_Meta pv)) finalizer = true /\ vol_Phase pv <> VolumeBound.

Definition put_volume (pv : PersistentVolume) (s : cluster) : cluster :=
  s <| cl_volumes := <[n := pv]> (cl_volumes s) |>.

Lemma final_write_volume pv pv' s :
  cl_volumes s !! n = Some pv -> om_key (vol_Meta pv') = n ->
  cluster_write (k := KPersistentVolume) pv' s = (Ok pv', put_volume pv' s).
Proof. intros Hv Hk. unfold cluster_write. cbn. rewrite Hk, Hv. done. Qed.

(** The volume without its claim. *)
Definition unclaimed_volume (pv : PersistentVolume) (ref : ObjectReference) : PersistentVolume :=
  (setClaimRefAnnotation pv ref) <| vol_Spec := (vol_Spec (setClaimRefAnnotation pv ref)) <| pvs_ClaimRef := None |> |>.

Lemma setClaimRefAnnotation_meta pv ref :
  om_key (vol_Meta (setClaimRefAnnotation pv ref)) = om_key (vol_Meta pv) /\
  om_DeletionTimestamp (vol_Meta (setClaimRefAnnotation pv ref)) = om_DeletionTimestamp (vol_Meta pv) /\
  om_Finalizers (vol_Meta (setClaimRefAnnotation pv ref)) = om_Finalizers (vol_Meta pv) /\
  vol_Phase (setClaimRefAnnotation pv ref) = vol_Phase pv.
Proof. unfold setClaimRefAnnotation. by destruct (MarshalRef ref). Qed.

Lemma release_claim pv ref s :
  volume_deleting pv s -> pvs_ClaimRef (vol_Spec pv) = Some ref ->
  cl_claims s !! mkNamespacedName (or_Name ref) (or_Namespace ref) = None ->
  om_Annotations (vol_Meta pv) <> None ->
  cl_registry s !! map_index (om_Annotations (vol_Meta pv)) annStorageProvisioner <> None ->
  release_run s = (Returned None, put_volume (unclaimed_volume pv ref) s).
Proof.
  intros (Hv & Hk & Hd & Hf & Hb) Hc Hpvc Ha Hreg. unfold release_run, pv_Reconcile.
  final_step. rewrite Hv. destruct (om_DeletionTimestamp _); [|done]. rewrite Hf. cbn [negb].
  unfold canDeprovision. cbn [canDeprovision_loop]. rewrite bool_decide_eq_false_2 by done.
  rewrite Hc. do 2 final_step. rewrite Hpvc. change (IsNotFound not_found) with true. cbn [negb].
  unfold resolveProvisioner. destruct (om_Annotations (vol_Meta pv)) as [a|] eqn:Ea; [|done].
  do 2 final_step. destruct (cl_registry s !! _) as [p|]; [|done].
  do 2 final_step. rewrite (final_write_volume pv); [done..|].
  etransitivity; [apply (setClaimRefAnnotation_meta pv ref)|done].
Qed.

(** The name of the deprovisioner's Pod. *)
Context (podName : string).
Definition pod_key : NamespacedName := mkNamespacedName podName ManagerNamespace.

(** A volume without a claim that the controller can release with [p]. *)
Definition volume_ready (pv : PersistentVolume) (p : StorageProvisioner) (s : cluster) : Prop :=
  volume_deleting pv s /\ pvs_ClaimRef (vol_Spec pv) = None /\
  ResourceName (om_Name (vol_Meta pv)) deprovisioner = Returned podName /\
  map_index (om_Annotations (vol_Meta pv)) annStorageProvisionerSpec <> "" /\
  StorageProvisionerFromJSON (map_index (om_Annotations (vol_Meta pv)) annStorageProvisionerSpec) = Ok p.

(** Up to the job, every run of the controller is the same. *)
Lemma release_job pv p s o s' :
  volume_ready pv p s ->
  (final (ReconcileJob pv_jobs (mkJobRequest deprovisioner pod_key (om_key (vol_Meta pv))
      (needs_deprovisioning pv) (deprovision_create pod_key) deprovision_completed) (p, pv)) s) = (Returned o, s') ->
  release_run s =
    match o with
    | (_, pv', (true, None)) =>
        final (let! r := call (StatusUpdate KPersistentVolume
                 (pv' <| vol_Meta := (vol_Meta pv') <| om_Finalizers :=
                    (RemoveString (om_Finalizers (vol_Meta pv')) finalizer).1 |> |>)) in
               match r with
               | Err err => Ret (Some err)
               | Ok pv => do! pv_event pv EventTypeNormal "Deprovisioned" "Deprovisioned PersistentVolume" in Ret None
               end) s'
    | (_, _, (_, err)) => (Returned err, s')
    end.
Proof.
  intros ((Hv & Hk & Hd & Hf & Hb) & Hc & Hn & Hj & Hp) Hjob. unfold release_run, pv_Reconcile.
  final_step. rewrite Hv. destruct (om_DeletionTimestamp _); [|done]. rewrite Hf. cbn [negb].
  unfold canDeprovision. cbn [canDeprovision_loop]. rewrite bool_decide_eq_false_2 by done. rewrite Hc.
  final_step. unfold deprovisionVolume. rewrite bool_decide_eq_false_2 by done. rewrite Hp, Hn. cbn [of_outcome].
  final_step. final_step. fold pod_key. rewrite final_bind_assoc, final_bind, Hjob.
  destruct o as [[p' pv'] [done err]]. destruct err as [e|], done; try done.
  rewrite final_bind_assoc, final_bind, final_pv_event. done.
Qed.

Definition release_request (pv : PersistentVolume) : JobRequest (StorageProvisioner * PersistentVolume) :=
  mkJobRequest deprovisioner pod_key (om_key (vol_Meta pv)) (needs_deprovisioning pv)
    (deprovision_create pod_key) deprovision_completed.

Definition put_pod (pod : Pod) (s : cluster) : cluster := s <| cl_pods := <[pod_key := pod]> (cl_pods s) |>.
Definition drop_pod (s : cluster) : cluster := s <| cl_pods := delete pod_key (cl_pods s) |>.

(** The Pod that is created from [pod]. *)
Definition release_pod (pv : PersistentVolume) (pod : Pod) : Pod :=
  let pod := job_pod pv_jobs (om_key (vol_Meta pv)) pod in
  pod <| pod_Meta := (pod_Meta pod) <| om_Name := podName |> <| om_Namespace := ManagerNamespace |> |>.

Lemma job_creates pv p env p' pod s :
  needs_deprovisioning pv = true -> cl_pods s !! pod_key = None ->
  AnnotationsToEnv (om_Annotations (vol_Meta pv)) (sps_Env (sp_Spec p)) = (env, None) ->
  NewProvisionerPod (mkPodSource pod_key deprovisioner p (cs_Deprovisioner (sps_Containers (sp_Spec p))) env) = (p', Ok pod) ->
  final (ReconcileJob pv_jobs (release_request pv) (p, pv)) s =
    (Returned (p', pv, (false, None)), put_pod (release_pod pv pod) s).
Proof.
  intros Hn Hpod He Hp. unfold ReconcileJob, release_request. cbn [jq_ShouldRun jq_PodName jq_Create jq_Owner jq_Name].
  rewrite Hn. cbn [negb]. unfold ReconcilePod. do 2 final_step. rewrite Hpod.
  change (IsNotFound not_found) with true. cbn [negb]. unfold deprovision_create. rewrite He, Hp.
  repeat (rewrite final_bind_event || final_step).
  match goal with |- context [om_key (pod_Meta ?q)] => change (om_key (pod_Meta q)) with pod_key end.
  rewrite Hpod. reflexivity.
Qed.

Lemma job_marks pv p a pod s :
  needs_deprovisioning pv = true -> om_Annotations (vol_Meta pv) = Some a ->
  cl_volumes s !! n = Some pv -> om_key (vol_Meta pv) = n ->
  cl_pods s !! pod_key = Some pod -> pod_Phase pod = PodSucceeded ->
  final (ReconcileJob pv_jobs (release_request pv) (p, pv)) s =
    (Returned (p, mark_deprovisioned pv a, (false, None)), put_volume (mark_deprovisioned pv a) s).
Proof.
  intros Hn Ha Hv Hk Hpod Hph. unfold ReconcileJob, release_request.
  cbn [jq_ShouldRun jq_PodName jq_Create jq_Owner jq_Name jq_OnCompleted].
  rewrite Hn. cbn [negb]. unfold ReconcilePod. do 2 final_step. rewrite Hpod.
  unfold pod_state. rewrite bool_decide_eq_true_2 by done. final_step. cbn [wrap_err fmap option_fmap option_map upper_first deprovisioner].
  final_step. unfold deprovision_completed. rewrite Ha. do 2 final_step. by rewrite (final_write_volume pv).
Qed.

Lemma job_pends pv p pod s :
  needs_deprovisioning pv = true -> cl_pods s !! pod_key = Some pod ->
  pod_Phase pod <> PodSucceeded -> pod_Phase pod <> PodFailed ->
  final (ReconcileJob pv_jobs (release_request pv) (p, pv)) s = (Returned (p, pv, (false, None)), s).
Proof.
  intros Hn Hpod Hs Hf. unfold ReconcileJob, release_request.
  cbn [jq_ShouldRun jq_PodName jq_Create jq_Owner jq_Name jq_OnCompleted].
  rewrite Hn. cbn [negb]. unfold ReconcilePod. do 2 final_step. rewrite Hpod.
  unfold pod_state. rewrite !bool_decide_eq_false_2 by done. by final_step.
Qed.

Lemma job_deletes pv p pod s :
  needs_deprovisioning pv = false -> cl_pods s !! pod_key = Some pod -> om_key (pod_Meta pod) = pod_key ->
  final (ReconcileJob pv_jobs (release_request pv) (p, pv)) s = (Returned (p, pv, (false, None)), drop_pod s).
Proof.
  intros Hn Hpod Hk. unfold ReconcileJob, release_request. cbn [jq_ShouldRun jq_PodName]. rewrite Hn. cbn [negb].
  unfold DeletePod. do 2 final_step. rewrite Hpod. unfold DeleteResource. do 2 final_step. rewrite Hk, Hpod. done.
Qed.

Lemma job_gone pv p s :
  needs_deprovisioning pv = false -> cl_pods s !! pod_key = None ->
  final (ReconcileJob pv_jobs (release_request pv) (p, pv)) s = (Returned (p, pv, (true, None)), s).
Proof.
  intros Hn Hpod. unfold ReconcileJob, release_request. cbn [jq_ShouldRun jq_PodName]. rewrite Hn. cbn [negb].
  unfold DeletePod. do 2 final_step. rewrite Hpod. done.
Qed.

Lemma annotation_unclaimed pv ref a k :
  om_Annotations (vol_Meta pv) = Some a -> k <> annPVClaimRef ->
  map_index (om_Annotations (vol_Meta (unclaimed_volume pv ref))) k = map_index (Some a) k.
Proof.
  intros Ha Hk. unfold unclaimed_volume, setClaimRefAnnotation. cbn. destruct (MarshalRef ref); cbn.
  - rewrite Ha. cbn. by rewrite map_index_insert_ne.
  - by rewrite Ha.
Qed.

(** What releasing takes: the volume is being deleted, its claim is gone, its
    provisioner is registered, and the provisioner that it records can build a
    deprovisioner Pod; the Pod does not exist yet. *)
Record release_scenario (pv : PersistentVolume) (ref : ObjectReference) (p : StorageProvisioner)
    (s : cluster) : Prop := {
  rs_deleting : volume_deleting pv s;
  rs_claim : pvs_ClaimRef (vol_Spec pv) = Some ref;
  rs_claim_gone : cl_claims s !! mkNamespacedName (or_Name ref) (or_Namespace ref) = None;
  rs_registered : cl_registry s !! map_index (om_Annotations (vol_Meta pv)) annStorageProvisioner <> None;
  rs_not_done : needs_deprovisioning pv = true;
  rs_name : ResourceName (om_Name (vol_Meta pv)) deprovisioner = Returned podName;
  rs_spec : map_index (om_Annotations (vol_Meta pv)) annStorageProvisionerSpec <> "" /\
    StorageProvisionerFromJSON (map_index (om_Annotations (vol_Meta pv)) annStorageProvisionerSpec) = Ok p;
  rs_pod : exists env p' pod,
    AnnotationsToEnv (om_Annotations (vol_Meta (unclaimed_volume pv ref))) (sps_Env (sp_Spec p)) = (env, None) /\
    NewProvisionerPod (mkPodSource pod_key deprovisioner p (cs_Deprovisioner (sps_Containers (sp_Spec p))) env) = (p', Ok pod);
  rs_no_pod : cl_pods s !! pod_key = None
}.

(** The Pod succeeds. *)
Definition pod_succeeds (s : cluster) : cluster :=
  s <| cl_pods := alter (fun p => p <| pod_Phase := PodSucceeded |>) pod_key (cl_pods s) |>.

Definition after_run (s : cluster) : cluster := (release_run s).2.

Lemma unclaimed_ready pv ref p s :
  release_scenario pv ref p s ->
  volume_ready (unclaimed_volume pv ref) p (put_volume (unclaimed_volume pv ref) s) /\
  needs_deprovisioning (unclaimed_volume pv ref) = true /\
  is_Some (om_Annotations (vol_Meta (unclaimed_volume pv ref))).
Proof.
  intros [(Hv & Hk & Hd & Hf & Hb) Hc _ _ Hn Hname [Hj Hp] _ _].
  pose proof (setClaimRefAnnotation_meta pv ref) as (Hk' & Hd' & Hf' & Hb').
  destruct (om_Annotations (vol_Meta pv)) as [a|] eqn:Ea; [|unfold needs_deprovisioning in Hn; by rewrite Ea in Hn].
  assert (Hsome : is_Some (om_Annotations (vol_Meta (unclaimed_volume pv ref)))).
  { unfold unclaimed_volume, setClaimRefAnnotation. destruct (MarshalRef ref); [by eexists|]. cbn. by rewrite Ea. }
  split; [|split; [|done]].
  - split; [|split; [done|]].
    + split; [cbn; by rewrite lookup_insert_eq|]. split; [by rewrite <- Hk|]. split; [by rewrite <- Hd' in Hd|].
      split; [by rewrite <- Hf' in Hf|]. by rewrite <- Hb' in Hb.
    + split; [replace (om_Name _) with (om_Name (vol_Meta pv)) by (by injection Hk'); done|].
      by rewrite (annotation_unclaimed _ _ a).
  - unfold needs_deprovisioning in *. rewrite Ea in Hn. destruct Hsome as [a' Ha']. rewrite Ha', <- Ha'.
    by rewrite (annotation_unclaimed _ _ a).
Qed.

Lemma marked_ready pv p a s s' :
  volume_ready pv p s -> om_Annotations (vol_Meta pv) = Some a -> cl_volumes s' !! n = Some (mark_deprovisioned pv a) ->
  volume_ready (mark_deprovisioned pv a) p s' /\ needs_deprovisioning (mark_deprovisioned pv a) = false.
Proof.
  intros ((Hv & Hk & Hd & Hf & Hb) & Hc & Hname & Hj) Ha Hs'. split; [|unfold needs_deprovisioning; cbn; by rewrite map_index_insert].
  split; [done|]. split; [done|]. split; [done|]. cbn. rewrite map_index_insert_ne, <- Ha by done. done.
Qed.

(** The runs, one after the other. *)
Lemma run_creates_pod pv p env p' pod s :
  volume_ready pv p s -> needs_deprovisioning pv = true -> cl_pods s !! pod_key = None ->
  AnnotationsToEnv (om_Annotations (vol_Meta pv)) (sps_Env (sp_Spec p)) = (env, None) ->
  NewProvisionerPod (mkPodSource pod_key deprovisioner p (cs_Deprovisioner (sps_Containers (sp_Spec p))) env) = (p', Ok pod) ->
  release_run s = (Returned None, put_pod (release_pod pv pod) s).
Proof.
  intros Hr Hn Hpod He Hp. by rewrite (release_job pv p s _ _ Hr (job_creates pv p env p' pod s Hn Hpod He Hp)).
Qed.

Lemma run_pends pv p pod s :
  volume_ready pv p s -> needs_deprovisioning pv = true -> cl_pods s !! pod_key = Some pod ->
  pod_Phase pod <> PodSucceeded -> pod_Phase pod <> PodFailed ->
  release_run s = (Returned None, s).
Proof.
  intros Hr Hn Hpod Hs Hf. by rewrite (release_job pv p s _ _ Hr (job_pends pv p pod s Hn Hpod Hs Hf)).
Qed.

Lemma run_marks pv p a pod s :
  volume_ready pv p s -> needs_deprovisioning pv = true -> om_Annotations (vol_Meta pv) = Some a ->
  cl_pods s !! pod_key = Some pod -> pod_Phase pod = PodSucceeded ->
  release_run s = (Returned None, put_volume (mark_deprovisioned pv a) s).
Proof.
  intros Hr Hn Ha Hpod Hph. pose proof Hr as ((Hv & Hk & _) & _).
  by rewrite (release_job pv p s _ _ Hr (job_marks pv p a pod s Hn Ha Hv Hk Hpod Hph)).
Qed.

Lemma run_deletes_pod pv p pod s :
  volume_ready pv p s -> needs_deprovisioning pv = false ->
  cl_pods s !! pod_key = Some pod -> om_key (pod_Meta pod) = pod_key ->
  release_run s = (Returned None, drop_pod s).
Proof.
  intros Hr Hn Hpod Hk. by rewrite (release_job pv p s _ _ Hr (job_deletes pv p pod s Hn Hpod Hk)).
Qed.

Definition freed_volume (pv : PersistentVolume) : PersistentVolume :=
  pv <| vol_Meta := (vol_Meta pv) <| om_Finalizers := (RemoveString (om_Finalizers (vol_Meta pv)) finalizer).1 |> |>.

Lemma run_frees pv p s :
  volume_ready pv p s -> needs_deprovisioning pv = false -> cl_pods s !! pod_key = None ->
  release_run s = (Returned None, put_volume (freed_volume pv) s).
Proof.
  intros Hr Hn Hpod. pose proof Hr as ((Hv & Hk & _) & _).
  rewrite (release_job pv p s _ _ Hr (job_gone pv p s Hn Hpod)).
  final_step. rewrite (final_write_volume pv) by done. cbn [fst snd]. by rewrite final_bind_event.
Qed.

Lemma freed_volume_finalizer pv : finalizer ∉ om_Finalizers (vol_Meta (freed_volume pv)).
Proof. unfold freed_volume. rewrite RemoveString_filter. cbn. by intros [? _]%list_elem_of_filter. Qed.

(** A volume without the finalizer is left alone. *)
Lemma run_ignores pv s :
  cl_volumes s !! n = Some pv -> finalizer ∉ om_Finalizers (vol_Meta pv) -> release_run s = (Returned None, s).
Proof.
  intros Hv Hf. unfold release_run, pv_Reconcile. final_step. rewrite Hv.
  destruct (om_DeletionTimestamp _); [|done]. destruct (HasString _ _) eqn:E; [|done].
  by apply HasString_elem in E.
Qed.

(** A volume that is being deleted after its claim is freed: five runs of
    the controller, with the deprovisioner Pod succeeding after the second one,
    let the finalizer go, each without an error. *)
Theorem volume_eventually_freed pv ref p s :
  release_scenario pv ref p s ->
  let s1 := after_run s in let s2 := after_run s1 in
  let s3 := after_run (pod_succeeds s2) in let s4 := after_run s3 in let s5 := after_run s4 in
  Forall (fun s => (release_run s).1 = Returned None) [s; s1; pod_succeeds s2; s3; s4] /\
  exists pv', cl_volumes s5 !! n = Some pv' /\ om_key (vol_Meta pv') = n /\
    finalizer ∉ om_Finalizers (vol_Meta pv').
Proof.
  intros Hsc. destruct (unclaimed_ready _ _ _ _ Hsc) as (Hr1 & Hn1 & [a1 Ha1]).
  pose proof Hsc as [Hdel Hc Hgone Hreg Hn0 _ _ (env & p' & pod & He & Hp) Hpod].
  set (pv1 := unclaimed_volume pv ref) in *.
  assert (E1 : release_run s = (Returned None, put_volume pv1 s)).
  { apply release_claim; try done. intros Ha. unfold needs_deprovisioning in Hn0. by rewrite Ha in Hn0. }
  set (s1 := put_volume pv1 s) in *.
  assert (E2 : release_run s1 = (Returned None, put_pod (release_pod pv1 pod) s1))
    by by eapply run_creates_pod.
  set (s2 := pod_succeeds (put_pod (release_pod pv1 pod) s1)).
  assert (Hp2 : cl_pods s2 !! pod_key = Some ((release_pod pv1 pod) <| pod_Phase := PodSucceeded |>)).
  { cbn. by rewrite lookup_alter_eq, lookup_insert_eq. }
  assert (E3 : release_run s2 = (Returned None, put_volume (mark_deprovisioned pv1 a1) s2)).
  { by eapply run_marks. }
  set (s3 := put_volume (mark_deprovisioned pv1 a1) s2) in *.
  destruct (marked_ready pv1 p a1 s1 s3 Hr1 Ha1) as [Hr3 Hn3]; [apply lookup_insert_eq|].
  assert (E4 : release_run s3 = (Returned None, drop_pod s3)) by by eapply run_deletes_pod.
  destruct (marked_ready pv1 p a1 s1 (drop_pod s3) Hr1 Ha1) as [Hr4 _]; [apply lookup_insert_eq|].
  assert (E5 : release_run (drop_pod s3) = (Returned None, put_volume (freed_volume (mark_deprovisioned pv1 a1)) (drop_pod s3))).
  { eapply run_frees; [exact Hr4|done|]. apply lookup_delete_eq. }
  unfold after_run. rewrite E1. cbn [snd]. rewrite E2. cbn [snd]. fold s2. rewrite E3. cbn [snd]. rewrite E4.
  cbn [snd]. rewrite E5. split; [repeat constructor; by rewrite ?E1, ?E2, ?E3, ?E4, ?E5|].
  eexists. split; [apply lookup_insert_eq|]. split; [apply Hr3|]. apply freed_volume_finalizer.
Qed.

End Release.

(** ** What is recorded when a claim is provisioned *)

(** A successful [provision_create]: the Pod is built from the substituted
    provisioner [x1], which takes over the merged container. *)
Lemma provision_create_runs claim env node key x tr x' pod :
  runs (provision_create claim env node key x) tr (Returned (x', Ok pod)) ->
  exists x1 pod0, let src := mkPodSource key provisioner x1 (cs_Provisioner (sps_Containers (sp_Spec x1))) env in
    NewProvisionerPod src = (x', Ok pod0) /\
    om_Annotations (pod_Meta pod) = Some (<[annStorageProvisionerSpec := (StorageProvisionerToJSON x').1]>
      (default ∅ (CopyAnnotations (om_Annotations (pvc_Meta claim)) (om_Annotations (pod_Meta pod0)) (sps_Env (sp_Spec x'))))).
Proof.
  unfold provision_create. destruct (StorageRootPathForNode _ _) as [path|e]; [|by intros [_ [=]]].
  destruct (SubstituteProvisionerPlaceholders _ _) as [x1 [e|]]; [by intros [_ [=]]|].
  destruct (NewProvisionerPod _) as [x2 [pod0|e]] eqn:E; [|by intros [_ [=]]].
  intros (y & t & _ & _ & [= -> ->]). exists x1, pod0. by rewrite E.
Qed.

Lemma job_pod_annotation owner pod g k :
  om_Annotations (pod_Meta pod) = Some g -> k ∉ [annPVCName; annPVCNamespace] ->
  map_index (om_Annotations (pod_Meta (job_pod pvc_jobs owner pod))) k = map_index (Some g) k.
Proof.
  intros Hg Hk.
  change (om_Annotations (pod_Meta (job_pod pvc_jobs owner pod))) with
    (Some (<[annPVCNamespace := nn_Namespace owner]> (<[annPVCName := nn_Name owner]>
       (default ∅ (om_Annotations (pod_Meta pod)))))).
  rewrite Hg, !map_index_insert_ne by set_solver. done.
Qed.

(** The annotations of the volume that are taken from the Pod. *)
Lemma provisioned_volume_annotation claim pod x g k :
  om_Annotations (pod_Meta pod) = Some g ->
  k = annStorageProvisionerSpec \/ k ∈ em_Annotation <$> sps_Env (sp_Spec x) ->
  map_index (om_Annotations (vol_Meta (provisioned_volume claim pod x))) k = map_index (Some g) k.
Proof.
  intros Hg Hk. unfold provisioned_volume. cbn. rewrite Hg, CopyAnnotations_index.
  case_bool_decide as Hin; [done|]. destruct Hk as [->|Hk]; [|done].
  rewrite map_index_insert_ne by done. by rewrite map_index_insert.
Qed.

Lemma encoded_read p s :
  encodable (encoded_part p) -> StorageProvisionerToJSON p = (s, None) ->
  exists q, StorageProvisionerFromJSON s = Ok q /\ sp_Spec q = norm_spec (sp_Spec p).
Proof.
  unfold StorageProvisionerToJSON, StorageProvisionerFromJSON. intros He Hs.
  destruct (Marshal (encoded_part p)) as [s'|] eqn:E; [|done]. injection Hs as ->.
  rewrite (Unmarshal_Marshal _ _ He eq_refl E). by eexists.
Qed.

Section Recorded.
Context (claim : PersistentVolumeClaim) (env : list EnvVar) (node : string) (key : NamespacedName)
  (x x' : StorageProvisioner) (tr : list event) (pod : Pod) (json : string).
Hypothesis provisioned : runs (provision_create claim env node key x) tr (Returned (x', Ok pod)).
Hypothesis recorded : StorageProvisionerToJSON x' = (json, None).
Hypothesis recordable : encodable (encoded_part x').

Definition created : Pod := job_pod pvc_jobs (pvc_owner claim) pod.

Lemma created_annotations : exists g, om_Annotations (pod_Meta created) = Some g /\
  map_index (Some g) annStorageProvisionerSpec = json /\
  forall a k, om_Annotations (pvc_Meta claim) = Some a -> k ∈ em_Annotation <$> sps_Env (sp_Spec x') ->
    k ∉ [annPVCName; annPVCNamespace; annStorageProvisionerSpec] -> map_index (Some g) k = map_index (Some a) k.
Proof.
  destruct (provision_create_runs _ _ _ _ _ _ _ _ provisioned) as (x1 & pod0 & _ & Ha).
  assert (Hg : exists g, om_Annotations (pod_Meta created) = Some g) by by eexists.
  destruct Hg as [g Hg]. exists g. split; [done|]. rewrite <- Hg. unfold created.
  split.
  - rewrite (job_pod_annotation _ _ _ _ Ha) by (unfold annStorageProvisionerSpec, annPVCName, annPVCNamespace; set_solver).
    rewrite map_index_insert, recorded. done.
  - intros a k Hc Hk Hn. rewrite (job_pod_annotation _ _ _ _ Ha) by set_solver.
    rewrite map_index_insert_ne by set_solver. rewrite Hc. pose proof (CopyAnnotations_index a
      (om_Annotations (pod_Meta pod0)) (sps_Env (sp_Spec x')) k) as Hi. rewrite bool_decide_eq_true_2 in Hi by done.
    by destruct (CopyAnnotations _ _ _).
Qed.

(** C11: the volume that is created for a claim lets the volume controller read
    the provisioner that was used for the claim, with the same placeholders
    filled in, and gives the deprovisioner the environment of the claim. *)
Theorem deprovisioner_inherits claim' a :
  om_Annotations (pvc_Meta claim) = Some a ->
  (forall m, m ∈ sps_Env (sp_Spec x') -> em_Annotation m ∉ [annPVCName; annPVCNamespace; annStorageProvisionerSpec]) ->
  exists q, StorageProvisionerFromJSON (map_index (om_Annotations (pod_Meta created)) annStorageProvisionerSpec) = Ok q /\
    sp_Spec q = norm_spec (sp_Spec x') /\
    let pv := provisioned_volume claim' created q in
    StorageProvisionerFromJSON (map_index (om_Annotations (vol_Meta pv)) annStorageProvisionerSpec) = Ok q /\
    AnnotationsToEnv (om_Annotations (vol_Meta pv)) (sps_Env (sp_Spec q)) =
      AnnotationsToEnv (Some a) (sps_Env (sp_Spec x')).
Proof.
  intros Ha Hkeys. destruct created_annotations as (g & Hg & Hj & Hc).
  destruct (encoded_read _ _ recordable recorded) as (q & Hq & Hspec).
  assert (Henv : sps_Env (sp_Spec q) = sps_Env (sp_Spec x')) by by rewrite Hspec.
  exists q. rewrite Hg, Hj. split; [done|]. split; [done|]. cbv zeta.
  rewrite (provisioned_volume_annotation _ _ _ _ _ Hg) by by left. rewrite Hj. split; [done|].
  rewrite Henv. apply AnnotationsToEnv_ext. intros m Hm.
  assert (Hin : em_Annotation m ∈ em_Annotation <$> sps_Env (sp_Spec x')) by by apply list_elem_of_fmap_2.
  rewrite (provisioned_volume_annotation _ _ _ _ _ Hg) by (right; by rewrite Henv).
  apply Hc; [done|done|by apply Hkeys].
Qed.

(** A deprovisioner without a command of its own runs the command of the
    provisioner instead of the one of the Pod template. *)
Theorem deprovisioner_runs_provisioner_command q k env' pod2 c cmd :
  StorageProvisionerFromJSON json = Ok q ->
  pc_Command (cs_Provisioner (sps_Containers (sp_Spec x'))) = Some (c :: cmd) ->
  pc_Command (cs_Deprovisioner (sps_Containers (sp_Spec x'))) = None ->
  (NewProvisionerPod (mkPodSource k deprovisioner q (cs_Deprovisioner (sps_Containers (sp_Spec q))) env')).2 = Ok pod2 ->
  exists pre m post, main_at (pod_Spec pod2) pre m post /\ ct_Command m = Some (c :: cmd).
Proof.
  intros Hq Hprov Hdep Hp2.
  destruct (encoded_read _ _ recordable recorded) as (q' & Hq' & Hspec). rewrite Hq in Hq'. injection Hq' as <-.
  destruct (provision_create_runs _ _ _ _ _ _ _ _ provisioned) as (x1 & pod0 & Hnew & _). cbv zeta in Hnew.
  set (src := mkPodSource key provisioner x1 _ env) in Hnew.
  destruct (findContainer (ps_Containers (sps_PodTemplate (sp_Spec x1))) "main") as [i|] eqn:Ef;
    [|unfold NewProvisionerPod in Hnew; cbn in Hnew; by rewrite Ef in Hnew].
  apply findContainer_main in Ef as (pre & m & post & Hm & _).
  destruct (NewProvisionerPod_main src pre m post Hm) as [Hx' _]. rewrite Hnew in Hx'. cbn [fst] in Hx'.
  set (m1 := merge_container src m) in *.
  assert (Hm1 : ct_Command m1 = Some (c :: cmd)).
  { unfold m1. rewrite merge_container_command. cbn. subst x'. cbn in Hprov. by rewrite Hprov. }
  set (src2 := mkPodSource k deprovisioner q (cs_Deprovisioner (sps_Containers (sp_Spec q))) env') in *.
  assert (Hmain : main_at (sps_PodTemplate (sp_Spec q)) (norm_container <$> pre) (norm_container m1) (norm_container <$> post)).
  { rewrite Hspec, Hx'. split_and!.
    - cbn. by rewrite fmap_app, fmap_cons.
    - cbn. unfold m1. rewrite merge_container_name. apply Hm.
    - rewrite <- list_fmap_compose. apply Hm. }
  destruct (NewProvisionerPod_main src2 _ _ _ Hmain) as [_ Hr].
  destruct (runnable (merge_container src2 (norm_container m1))); [|destruct Hr; congruence].
  rewrite Hp2 in Hr. injection Hr as ->. do 3 eexists. split; [split_and!; [done| |apply Hmain]|].
  - rewrite merge_container_name. apply Hmain.
  - rewrite merge_container_command. cbn. rewrite Hspec. cbn. rewrite Hdep. cbn. by rewrite Hm1.
Qed.

End Recorded.
End Lifecycle.

(** ** A concrete life *)

Module LifecycleExample.
Import PodExample TemplateExample RegistryExample TableCodec PvcExample PvExample.

Definition claim_ref : ObjectReference := mkObjectReference "v1" "PersistentVolumeClaim" "claim1" "default" "u1" "7".
Definition recorded_provisioner : StorageProvisioner :=
  (encoded_part used) <| sp_Spec := norm_spec (sp_Spec (encoded_part used)) |>.

Lemma scenario : release_scenario "system" pv_name "pvc-u1-deprovisioner" deleted_volume claim_ref recorded_provisioner start.
Proof.
  split.
  - split_and!; vm_compute; congruence.
  - vm_compute. reflexivity.
  - vm_compute. reflexivity.
  - vm_compute. congruence.
  - vm_compute. reflexivity.
  - vm_compute. reflexivity.
  - split; vm_compute; congruence.
  - do 3 eexists. split; vm_compute; reflexivity.
  - vm_compute. reflexivity.
Qed.

Lemma volume_eventually_freed_witness :
  release_scenario "system" pv_name "pvc-u1-deprovisioner" deleted_volume claim_ref recorded_provisioner start /\
  let run := after_run "system" pv_name in
  exists pv', cl_volumes (run (run (run (pod_succeeds "system" "pvc-u1-deprovisioner" (run (run start)))))) !! pv_name = Some pv' /\
    finalizer ∉ om_Finalizers (vol_Meta pv').
Proof.
  split; [exact scenario|]. intros run.
  destruct (volume_eventually_freed "system" pv_name "pvc-u1-deprovisioner" _ _ _ _ scenario) as (_ & pv' & H1 & _ & H2).
  exists pv'. exact (conj H1 H2).
Defined.

(** The provisioning of the claim. *)
Definition pod_key1 : NamespacedName := mkNamespacedName "pvc-u1-provisioner" "system".
Definition provision1 := provision_create claim1 [mkEnvVar "CACHE" "x" None] "node1" pod_key1 example.
Definition run1 := run_cluster provision1 before.
Definition provisioned_pod : Pod :=
  match run1.1.2 with Returned (_, Ok pod) => pod | _ => pod1 end.

Lemma provisioned1 : runs provision1 run1.1.1 (Returned (used, Ok provisioned_pod)).
Proof. apply run_cluster_runs. vm_compute. reflexivity. Qed.

Lemma recorded1 : StorageProvisionerToJSON used = ("0", None).
Proof. vm_compute. reflexivity. Qed.

Lemma deprovisioner_inherits_witness :
  exists q, StorageProvisionerFromJSON "0" = Ok q /\
    AnnotationsToEnv (om_Annotations (vol_Meta (provisioned_volume claim1 (created claim1 provisioned_pod) q)))
      (sps_Env (sp_Spec q)) = ([mkEnvVar "CACHE" "x" None], None).
Proof.
  destruct (deprovisioner_inherits claim1 _ "node1" pod_key1 example used _ _ "0" provisioned1 recorded1 I claim1
    (default ∅ (om_Annotations (pvc_Meta claim1))) eq_refl) as (q & H1 & _ & _ & H2).
  - intros m Hm. vm_compute in Hm. apply list_elem_of_singleton in Hm as ->.
    apply (proj1 (bool_decide_eq_true _)). vm_compute. reflexivity.
  - exists q. split; [exact H1|]. etransitivity; [exact H2|]. vm_compute. reflexivity.
Defined.

Lemma deprovisioner_runs_provisioner_command_witness :
  exists pod2 pre m post, (NewProvisionerPod (mkPodSource pod_key1 deprovisioner recorded_provisioner
     (cs_Deprovisioner (sps_Containers (sp_Spec recorded_provisioner))) [])).2 = Ok pod2 /\
    main_at (pod_Spec pod2) pre m post /\ ct_Command m = Some ["/bin/provision"].
Proof.
  eexists.
  destruct (deprovisioner_runs_provisioner_command claim1 _ "node1" pod_key1 example used _ _ "0" provisioned1 recorded1 I
    recorded_provisioner pod_key1 [] (default pod1 (match (NewProvisionerPod (mkPodSource pod_key1 deprovisioner recorded_provisioner
     (cs_Deprovisioner (sps_Containers (sp_Spec recorded_provisioner))) [])).2 with Ok p => Some p | Err _ => None end))
    "/bin/provision" []) as (pre & m & post & H1 & H2).
  - vm_compute. reflexivity.
  - vm_compute. reflexivity.
  - vm_compute. reflexivity.
  - vm_compute. reflexivity.
  - exists pre, m, post. split; [|exact (conj H1 H2)]. vm_compute. reflexivity.
Defined.

End LifecycleExample.
