(* ===== verification/ClaimLifecycle.v ===== *)
(** * Provisioning makes progress

    In a cluster that accepts the writes, three runs of the claim controller
    provision a claim that its provisioner can serve: the finalizer is added, the
    provisioner Pod is created and, once the Pod has succeeded, the volume is
    created and the Pod deleted.  A further run changes nothing. *)

From S2P Require Import Prelude Effects Api ApiServer GoPath Template Utils PodTemplate Registry Job Codec Cluster PvcController PvController Lifecycle.

Section Provisioning.
Context `{!Converter StorageProvisioner, !EnvSubst, !ProvisionerCodec} (ManagerNamespace : string).
Context (n : NamespacedName) (podName : string).

Definition provision_run (s : cluster) : outcome (option goerr) * cluster := final (pvc_Reconcile ManagerNamespace n) s.
Definition after_provision_run (s : cluster) : cluster := (provision_run s).2.
Definition provisioner_pod_key : NamespacedName := mkNamespacedName podName ManagerNamespace.
Definition volume_key (claim : PersistentVolumeClaim) : NamespacedName := mkNamespacedName (pvNameForPVC claim) "".
Definition selected_node (claim : PersistentVolumeClaim) : string :=
  map_index (om_Annotations (pvc_Meta claim)) annSelectedNode.

(** A stored claim that [p] is to provision. *)
Record claim_ready (claim : PersistentVolumeClaim) (p : StorageProvisioner) (s : cluster) : Prop := {
  cr_stored : cl_claims s !! n = Some claim;
  cr_key : om_key (pvc_Meta claim) = n;
  cr_kept : om_DeletionTimestamp (pvc_Meta claim) = None;
  cr_annotated : is_Some (om_Annotations (pvc_Meta claim));
  cr_registered : cl_registry s !! map_index (om_Annotations (pvc_Meta claim)) annStorageProvisioner = Some p;
  cr_unbound : pvc_VolumeName claim = "";
  cr_class : pvc_StorageClassName claim <> None /\
    is_Some (cl_classes s !! mkNamespacedName (persistentVolumeClaimClass claim) "");
  cr_mode : is_Some (pvc_VolumeMode claim) /\
    pvs_VolumeMode (sps_PersistentVolumeTemplate (sp_Spec p)) = pvc_VolumeMode claim;
  cr_node : selected_node claim <> "";
  cr_pod_name : ResourceName (pvNameForPVC claim) provisioner = Returned podName
}.

(** The claim with the finalizer. *)
Definition finalized (claim : PersistentVolumeClaim) : PersistentVolumeClaim :=
  claim <| pvc_Meta := (pvc_Meta claim) <| om_Finalizers := (AddString (om_Finalizers (pvc_Meta claim)) finalizer).1 |> |>.
Definition put_claim (claim : PersistentVolumeClaim) (s : cluster) : cluster :=
  s <| cl_claims := <[n := claim]> (cl_claims s) |>.
Definition put_provisioner_pod (pod : Pod) (s : cluster) : cluster :=
  s <| cl_pods := <[provisioner_pod_key := pod]> (cl_pods s) |>.
Definition drop_provisioner_pod (s : cluster) : cluster :=
  s <| cl_pods := delete provisioner_pod_key (cl_pods s) |>.
Definition put_new_volume (pv : PersistentVolume) (s : cluster) : cluster :=
  s <| cl_volumes := <[om_key (vol_Meta pv) := pv]> (cl_volumes s) |>.

Lemma final_shouldProvision claim p s : claim_ready claim p s -> final (shouldProvision claim p) s = (Returned (true, None), s).
Proof.
  intros [_ _ _ _ _ Hv [Hc [class Hcl]] [[mode Hm] Hpm] Hnode _]. unfold shouldProvision. rewrite Hv.
  destruct (pvc_StorageClassName claim) as [c|] eqn:Ec; [|done]. cbn [negb bool_decide orb].
  rewrite bool_decide_eq_true_2, bool_decide_eq_false_2 by done. cbn [negb orb].
  final_step. rewrite Hcl, Hpm, Hm. rewrite bool_decide_eq_false_2 by done.
  rewrite bool_decide_eq_true_2 by done. cbn [negb orb]. destruct (_ ==? _); [|done].
  unfold selected_node in Hnode. by rewrite bool_decide_eq_false_2.
Qed.

Lemma final_write_claim claim claim' s :
  cl_claims s !! n = Some claim -> om_key (pvc_Meta claim') = n ->
  cluster_write (k := KPersistentVolumeClaim) claim' s = (Ok claim', put_claim claim' s).
Proof. intros Hv Hk. unfold cluster_write. cbn. rewrite Hk, Hv. done. Qed.

(** Up to the finalizer, every run is the same. *)
Lemma run_ready claim p s :
  claim_ready claim p s ->
  provision_run s =
    if (AddString (om_Finalizers (pvc_Meta claim)) finalizer).2 then (Returned None, put_claim (finalized claim) s)
    else final (let! (_, err) := provision ManagerNamespace claim p in Ret err) s.
Proof.
  intros Hr. pose proof Hr as [Hs Hk Hd [a Ha] Hreg _ _ _ _ _]. unfold provision_run, pvc_Reconcile.
  final_step. rewrite Hs, Hd. unfold resolveProvisioner. rewrite Ha. final_step. rewrite <- Ha, Hreg.
  rewrite final_bind, (final_shouldProvision _ _ _ Hr).
  destruct (AddString (om_Finalizers (pvc_Meta claim)) finalizer) as [fs added] eqn:Ea.
  destruct added; [|done]. final_step.
  rewrite (final_write_claim claim) by done. unfold finalized. by rewrite Ea.
Qed.

(** What a claim is provisioned with: its environment, the path of its node, the
    substituted provisioner, the Pod that is built and the provisioner that is
    read back from the Pod. *)
Record provisionable (claim : PersistentVolumeClaim) (p p' q : StorageProvisioner) (env : list EnvVar)
    (pod : Pod) : Prop := {
  pr_env : AnnotationsToEnv (om_Annotations (pvc_Meta claim)) (sps_Env (sp_Spec p)) = (env, None);
  pr_pod : exists path p1 pod0,
    StorageRootPathForNode (selected_node claim) (sps_Nodes (sp_Spec p)) = Ok path /\
    SubstituteProvisionerPlaceholders p
      (mkProvisionerParams (selected_node claim) path (pvNameForPVC claim) (pvc_owner claim)) = (p1, None) /\
    NewProvisionerPod (mkPodSource provisioner_pod_key provisioner p1
      (cs_Provisioner (sps_Containers (sp_Spec p1))) env) = (p', Ok pod0) /\
    pod = pod0 <| pod_Meta := (pod_Meta pod0) <| om_Annotations := Some (<[annStorageProvisionerSpec :=
      (StorageProvisionerToJSON p').1]> (default ∅ (CopyAnnotations (om_Annotations (pvc_Meta claim))
        (om_Annotations (pod_Meta pod0)) (sps_Env (sp_Spec p'))))) |> |>;
  pr_recorded : StorageProvisionerFromJSON (StorageProvisionerToJSON p').1 = Ok q
}.

(** The Pod as it is stored. *)
Definition stored_pod (claim : PersistentVolumeClaim) (pod : Pod) : Pod :=
  let pod := job_pod pvc_jobs (pvc_owner claim) pod in
  pod <| pod_Meta := (pod_Meta pod) <| om_Name := podName |> <| om_Namespace := ManagerNamespace |> |>.

Definition provision_request (claim : PersistentVolumeClaim) (env : list EnvVar) (run : bool) : JobRequest StorageProvisioner :=
  mkJobRequest provisioner provisioner_pod_key (pvc_owner claim) run
    (provision_create claim env (selected_node claim) provisioner_pod_key) (provision_completed claim).

(** Up to the job, every run with the finalizer is the same. *)
Lemma run_job claim p env s o s' :
  claim_ready claim p s -> finalizer ∈ om_Finalizers (pvc_Meta claim) ->
  AnnotationsToEnv (om_Annotations (pvc_Meta claim)) (sps_Env (sp_Spec p)) = (env, None) ->
  final (ReconcileJob pvc_jobs (provision_request claim env (bool_decide (cl_volumes s !! volume_key claim = None))) p) s
    = (Returned o, s') -> o.2.2 = None ->
  provision_run s = (Returned None, s').
Proof.
  intros Hr Hf Henv Hjob Hnone. rewrite (run_ready _ _ _ Hr). unfold AddString.
  apply HasString_elem in Hf. rewrite Hf. cbn [snd].
  assert (Hp : final (provision ManagerNamespace claim p) s = (Returned o.2, s')).
  { unfold provision. final_step. destruct o as [x [done err]]. cbn in Hnone. subst err.
    unfold provision_request, volume_key, selected_node, provisioner_pod_key in Hjob.
    pose proof (cr_node _ _ _ Hr) as Hnode. unfold selected_node in Hnode.
    destruct (cl_volumes s !! _) as [pv|] eqn:Ev; cbn [err_of fst];
      [|change (IsNotFound not_found) with true; cbn [negb]]; rewrite Henv;
      final_step; rewrite (cr_pod_name _ _ _ Hr); cbn [of_outcome]; final_step;
      rewrite (bool_decide_eq_true_2 (None = None)), (bool_decide_eq_false_2 (map_index _ _ = "")) by done.
    - rewrite bool_decide_eq_false_2 in Hjob by done. cbn [negb andb]. by rewrite final_bind, Hjob.
    - rewrite bool_decide_eq_true_2 in Hjob by done.
      rewrite (bool_decide_eq_false_2 (Some _ = None)) by done. cbn [negb andb]. by rewrite final_bind, Hjob. }
  rewrite final_bind, Hp. destruct o as [x [done err]]. cbn in Hnone. by subst err.
Qed.

(** The Pod is missing: it is created. *)
Lemma job_creates_provisioner claim p p' q env pod s :
  provisionable claim p p' q env pod -> cl_pods s !! provisioner_pod_key = None ->
  final (ReconcileJob pvc_jobs (provision_request claim env true) p) s =
    (Returned (p', (false, None)), put_provisioner_pod (stored_pod claim pod) s).
Proof.
  intros [_ (path & p1 & pod0 & Hpath & Hsub & Hnew & ->) _] Hpod. unfold ReconcileJob, provision_request.
  cbn [jq_ShouldRun jq_PodName jq_Create jq_Owner jq_Name negb]. unfold ReconcilePod. do 2 final_step. rewrite Hpod.
  change (IsNotFound not_found) with true. cbn [negb]. unfold provision_create. rewrite Hpath, Hsub, Hnew.
  unfold pvc_event. repeat final_step.
  match goal with |- context [om_key (pod_Meta ?q)] => change (om_key (pod_Meta q)) with provisioner_pod_key end.
  rewrite Hpod. reflexivity.
Qed.

(** The Pod is at work: the controller waits. *)
Lemma job_waits claim p env pod s :
  cl_pods s !! provisioner_pod_key = Some pod -> pod_Phase pod <> PodSucceeded -> pod_Phase pod <> PodFailed ->
  final (ReconcileJob pvc_jobs (provision_request claim env true) p) s = (Returned (p, (false, None)), s).
Proof.
  intros Hpod Hs Hf. unfold ReconcileJob, provision_request.
  cbn [jq_ShouldRun jq_PodName jq_Create jq_Owner jq_Name jq_OnCompleted negb]. unfold ReconcilePod. do 2 final_step.
  rewrite Hpod. unfold pod_state. rewrite !bool_decide_eq_false_2 by done. by final_step.
Qed.

(** The Pod has succeeded: the volume is created and the Pod deleted. *)
Lemma job_creates_volume claim p q pod s :
  cl_pods s !! provisioner_pod_key = Some pod -> pod_Phase pod = PodSucceeded ->
  om_key (pod_Meta pod) = provisioner_pod_key -> cl_volumes s !! volume_key claim = None ->
  StorageProvisionerFromJSON (map_index (om_Annotations (pod_Meta pod)) annStorageProvisionerSpec) = Ok q ->
  forall env, final (ReconcileJob pvc_jobs (provision_request claim env true) p) s =
    (Returned (q, (false, None)), drop_provisioner_pod (put_new_volume (provisioned_volume claim pod q) s)).
Proof.
  intros Hpod Hph Hk Hv Hq env. unfold ReconcileJob, provision_request.
  cbn [jq_ShouldRun jq_PodName jq_Create jq_Owner jq_Name jq_OnCompleted negb]. unfold ReconcilePod. do 2 final_step.
  rewrite Hpod. unfold pod_state. rewrite bool_decide_eq_true_2 by done. final_step.
  cbn [wrap_err fmap option_fmap option_map upper_first provisioner]. final_step.
  unfold provision_completed. rewrite Hq. do 2 final_step.
  change (om_key (vol_Meta (provisioned_volume claim pod q))) with (volume_key claim). rewrite Hv.
  cbn [fst snd with_objects]. unfold pvc_event, DeleteResource. repeat final_step.
  change (cl_pods (s <| cl_volumes := _ |>)) with (cl_pods s). rewrite Hk, Hpod. reflexivity.
Qed.

(** The volume exists and the Pod is gone: nothing is left to do. *)
Lemma job_nothing_left claim p env s :
  cl_pods s !! provisioner_pod_key = None ->
  final (ReconcileJob pvc_jobs (provision_request claim env false) p) s = (Returned (p, (true, None)), s).
Proof.
  intros Hpod. unfold ReconcileJob, provision_request. cbn [jq_ShouldRun jq_PodName negb].
  unfold DeletePod. do 2 final_step. by rewrite Hpod.
Qed.

Lemma finalized_ready claim p s :
  claim_ready claim p s -> claim_ready (finalized claim) p (put_claim (finalized claim) s) /\
    finalizer ∈ om_Finalizers (pvc_Meta (finalized claim)).
Proof.
  intros [Hs Hk Hd Ha Hreg Hv Hc Hm Hnode Hn]. split.
  - split; try done. cbn. by rewrite lookup_insert_eq.
  - unfold finalized, AddString. destruct (HasString _ _) eqn:E; cbn; [by apply HasString_elem|set_solver].
Qed.

(** A claim stays ready while Pods and volumes change. *)
Lemma claim_ready_frame claim p s s' :
  claim_ready claim p s -> cl_claims s' = cl_claims s -> cl_registry s' = cl_registry s ->
  cl_classes s' = cl_classes s -> claim_ready claim p s'.
Proof.
  intros [Hs Hk Hd Ha Hreg Hv Hc Hm Hnode Hn] E1 E2 E3.
  split; try done; [by rewrite E1|by rewrite E2|by rewrite E3].
Qed.

Lemma stored_pod_spec claim p p' q env pod :
  provisionable claim p p' q env pod ->
  StorageProvisionerFromJSON (map_index (om_Annotations (pod_Meta (stored_pod claim pod))) annStorageProvisionerSpec) = Ok q.
Proof.
  intros [_ (path & p1 & pod0 & _ & _ & _ & ->) Hq].
  change (om_Annotations (pod_Meta (stored_pod claim ?x))) with
    (om_Annotations (pod_Meta (job_pod pvc_jobs (pvc_owner claim) x))).
  erewrite job_pod_annotation; [|done|unfold annStorageProvisionerSpec, annPVCName, annPVCNamespace; set_solver].
  by rewrite map_index_insert.
Qed.

(** ** The runs, one after the other *)

Lemma run_finalizes claim p s :
  claim_ready claim p s -> finalizer ∉ om_Finalizers (pvc_Meta claim) ->
  provision_run s = (Returned None, put_claim (finalized claim) s).
Proof.
  intros Hr Hf. rewrite (run_ready _ _ _ Hr). unfold AddString.
  destruct (HasString _ _) eqn:E; [|done]. by apply HasString_elem in E.
Qed.

Section Runs.
Context (claim : PersistentVolumeClaim) (p p' q : StorageProvisioner) (env : list EnvVar) (pod : Pod) (s : cluster).
Context (Hr : claim_ready claim p s) (Hf : finalizer ∈ om_Finalizers (pvc_Meta claim)).
Context (Hp : provisionable claim p p' q env pod).

Lemma run_creates_provisioner :
  cl_volumes s !! volume_key claim = None -> cl_pods s !! provisioner_pod_key = None ->
  provision_run s = (Returned None, put_provisioner_pod (stored_pod claim pod) s).
Proof.
  intros Hv Hpod. eapply run_job; [done|done|apply Hp| |].
  - rewrite bool_decide_eq_true_2 by done. by eapply job_creates_provisioner.
  - done.
Qed.

Lemma run_waits pod' :
  cl_volumes s !! volume_key claim = None -> cl_pods s !! provisioner_pod_key = Some pod' ->
  pod_Phase pod' <> PodSucceeded -> pod_Phase pod' <> PodFailed ->
  provision_run s = (Returned None, s).
Proof.
  intros Hv Hpod Hs Hfl. eapply run_job; [done|done|apply Hp| |].
  - rewrite bool_decide_eq_true_2 by done. by eapply job_waits.
  - done.
Qed.

Lemma run_creates_volume pod' :
  cl_volumes s !! volume_key claim = None -> cl_pods s !! provisioner_pod_key = Some pod' ->
  pod_Phase pod' = PodSucceeded -> om_key (pod_Meta pod') = provisioner_pod_key ->
  StorageProvisionerFromJSON (map_index (om_Annotations (pod_Meta pod')) annStorageProvisionerSpec) = Ok q ->
  provision_run s = (Returned None, drop_provisioner_pod (put_new_volume (provisioned_volume claim pod' q) s)).
Proof.
  intros Hv Hpod Hph Hk Hq. eapply run_job; [done|done|apply Hp| |].
  - rewrite bool_decide_eq_true_2 by done. by apply job_creates_volume.
  - done.
Qed.

Lemma run_idle :
  cl_volumes s !! volume_key claim <> None -> cl_pods s !! provisioner_pod_key = None ->
  provision_run s = (Returned None, s).
Proof.
  intros Hv Hpod. eapply run_job; [done|done|apply Hp| |].
  - rewrite bool_decide_eq_false_2 by done. by apply job_nothing_left.
  - done.
Qed.
End Runs.

(** The Pod succeeds. *)
Definition provisioner_succeeds (s : cluster) : cluster :=
  s <| cl_pods := alter (fun p => p <| pod_Phase := PodSucceeded |>) provisioner_pod_key (cl_pods s) |>.

(** A claim that its provisioner can serve is provisioned: three runs of the
    controller, with the provisioner Pod succeeding after the second one, create
    a volume for it that refers to the claim and carries the finalizer, delete
    the Pod and return no error; a further run changes nothing. *)
Theorem claim_eventually_provisioned claim p p' q env pod s :
  claim_ready claim p s -> finalizer ∉ om_Finalizers (pvc_Meta claim) ->
  provisionable claim p p' q env pod ->
  cl_volumes s !! volume_key claim = None -> cl_pods s !! provisioner_pod_key = None ->
  let s1 := after_provision_run s in let s2 := after_provision_run s1 in
  let s3 := after_provision_run (provisioner_succeeds s2) in
  Forall (fun s => (provision_run s).1 = Returned None) [s; s1; provisioner_succeeds s2; s3] /\
  after_provision_run s3 = s3 /\ cl_pods s3 !! provisioner_pod_key = None /\
  exists pv, cl_volumes s3 !! volume_key claim = Some pv /\ finalizer ∈ om_Finalizers (vol_Meta pv) /\
    pvs_ClaimRef (vol_Spec pv) = Some (mkObjectReference "v1" "PersistentVolumeClaim" (om_Name (pvc_Meta claim))
      (om_Namespace (pvc_Meta claim)) (om_UID (pvc_Meta claim)) (om_ResourceVersion (pvc_Meta claim))).
Proof.
  intros Hr Hnf Hp Hv Hpod. destruct (finalized_ready _ _ _ Hr) as [Hr1 Hf1].
  set (claim' := finalized claim) in *. set (t1 := put_claim claim' s) in *.
  assert (Hp1 : provisionable claim' p p' q env pod) by (destruct Hp as [A B C]; split; [exact A|exact B|exact C]).
  assert (E1 : provision_run s = (Returned None, t1)) by by apply (run_finalizes claim p).
  set (t2 := put_provisioner_pod (stored_pod claim' pod) t1).
  assert (E2 : provision_run t1 = (Returned None, t2)) by by eapply run_creates_provisioner.
  set (pod' := (stored_pod claim' pod) <| pod_Phase := PodSucceeded |>).
  assert (Hr2 : claim_ready claim' p (provisioner_succeeds t2)) by by eapply claim_ready_frame.
  set (t3 := drop_provisioner_pod (put_new_volume (provisioned_volume claim' pod' q) (provisioner_succeeds t2))).
  assert (E3 : provision_run (provisioner_succeeds t2) = (Returned None, t3)).
  { eapply run_creates_volume; try done.
    - cbn. by rewrite lookup_alter_eq, lookup_insert_eq.
    - by eapply (stored_pod_spec claim'). }
  assert (Hvol : cl_volumes t3 !! volume_key claim' = Some (provisioned_volume claim' pod' q)) by apply lookup_insert_eq.
  assert (E4 : provision_run t3 = (Returned None, t3)).
  { eapply run_idle; [by eapply claim_ready_frame|done|done| |].
    - by rewrite Hvol.
    - apply lookup_delete_eq. }
  unfold after_provision_run. rewrite E1. cbn [snd]. rewrite E2. cbn [snd]. rewrite E3. cbn [snd]. rewrite E4.
  split; [repeat constructor; by rewrite ?E1, ?E2, ?E3, ?E4|]. split; [done|]. split; [apply lookup_delete_eq|].
  eexists. split; [exact Hvol|]. split; [cbn; set_solver|done].
Qed.

End Provisioning.

(** ** A concrete claim *)

Module ClaimExample.
Import PodExample TemplateExample RegistryExample TableCodec PvcExample LifecycleExample.

Definition claim0 : PersistentVolumeClaim := claim1 <| pvc_Meta := (pvc_Meta claim1) <| om_Finalizers := [] |> |>.
Definition begin : cluster := before <| cl_claims := {[claim_key := claim0]} |>.

Lemma claim0_ready : claim_ready claim_key "pvc-u1-provisioner" claim0 example begin.
Proof. split; try (vm_compute; reflexivity); try (vm_compute; eexists; reflexivity); try (vm_compute; discriminate).
  - split; [vm_compute; discriminate|]. vm_compute. eexists. reflexivity.
  - split; [vm_compute; eexists; reflexivity|vm_compute; reflexivity].
Qed.

Lemma claim0_provisionable :
  provisionable "system" "pvc-u1-provisioner" claim0 example used recorded_provisioner [mkEnvVar "CACHE" "x" None] provisioned_pod.
Proof.
  split; [vm_compute; reflexivity| |vm_compute; reflexivity].
  do 3 eexists. split_and!; vm_compute; reflexivity.
Qed.

Lemma claim_eventually_provisioned_witness :
  let run := after_provision_run "system" claim_key in
  let s3 := run (provisioner_succeeds "system" "pvc-u1-provisioner" (run (run begin))) in
  run s3 = s3 /\ exists pv, cl_volumes s3 !! mkNamespacedName "pvc-u1" "" = Some pv /\
    finalizer ∈ om_Finalizers (vol_Meta pv).
Proof.
  intros run s3.
  destruct (claim_eventually_provisioned "system" claim_key "pvc-u1-provisioner" claim0 example used recorded_provisioner
    [mkEnvVar "CACHE" "x" None] provisioned_pod begin claim0_ready) as (_ & Hq & _ & pv & Hpv & Hf & _).
  - apply not_elem_of_nil.
  - exact claim0_provisionable.
  - vm_compute. reflexivity.
  - vm_compute. reflexivity.
  - split; [exact Hq|]. exists pv. exact (conj Hpv Hf).
Defined.

End ClaimExample.
