(* ===== verification/ClaimEvents.v ===== *)
(** * Provisioning, driven by events

    The claim controller is run only when its work queue holds the claim, and
    the queue is filled by the watches that [SetupWithManager] installs.  Whatever
    the scheduler does, and whatever else happens in the cluster, a claim that
    its provisioner can serve is provisioned: no change that the controller waits
    for is missed. *)

From S2P Require Import Prelude Effects Api ApiServer GoPath Template Utils PodTemplate Registry Job Codec Cluster PvcController PvController Watches Lifecycle ClaimLifecycle.

Section Provisioning.
Context `{!EventDispatch, !Converter StorageProvisioner, !EnvSubst, !ProvisionerCodec} (ManagerNamespace : string).
Context (n : NamespacedName) (podName : string).
Context (claim : PersistentVolumeClaim) (p p' q : StorageProvisioner) (env : list EnvVar) (pod : Pod).

Local Abbreviation pod_key := (provisioner_pod_key ManagerNamespace podName).
Local Abbreviation ready := (claim_ready n podName).
Local Abbreviation claim' := (finalized claim).
Local Abbreviation ws := (pvc_SetupWithManager ManagerNamespace).

(** What the others leave alone: the claim, its Pod and its volume, the
    provisioner and the storage class. *)
Record claim_untouched (s s' : cluster) : Prop := {
  ct_claim : cl_claims s' !! n = cl_claims s !! n;
  ct_pod : cl_pods s' !! pod_key = cl_pods s !! pod_key;
  ct_volume : cl_volumes s' !! volume_key claim = cl_volumes s !! volume_key claim;
  ct_provisioner : forall name, name = map_index (om_Annotations (pvc_Meta claim)) annStorageProvisioner ->
    cl_registry s' !! name = cl_registry s !! name;
  ct_class : forall k, k = mkNamespacedName (persistentVolumeClaimClass claim) "" ->
    cl_classes s' !! k = cl_classes s !! k
}.

Definition claim_step : label -> system -> system -> Prop :=
  system_step ws (pvc_Reconcile ManagerNamespace) n pod_key claim_untouched.
Definition claim_execution : (nat -> system) -> (nat -> label) -> Prop :=
  fair_execution claim_step (system_pending n pod_key).

(** The Pod that the controller creates, in a phase. *)
Definition job_in_phase (ph : string) : Pod := (stored_pod ManagerNamespace podName claim' pod) <| pod_Phase := ph |>.
Definition claim_volume : PersistentVolume := provisioned_volume claim' (job_in_phase PodSucceeded) q.

(** The phases of provisioning: the claim as it is found, with the finalizer,
    with a Pod at work, with a Pod that has succeeded, with its volume. *)
Definition claim_phase (r : nat) (y : system) : Prop :=
  let s := sy_cluster y in let queued := n ∈ sy_queue y in
  let pod := cl_pods s !! pod_key in let volume := cl_volumes s !! volume_key claim in
  match r with
  | 4 => ready claim p s /\ pod = None /\ volume = None /\ queued
  | 3 => ready claim' p s /\ pod = None /\ volume = None /\ queued
  | 2 => ready claim' p s /\ volume = None /\
      exists ph, pod = Some (job_in_phase ph) /\ ph <> PodSucceeded /\ ph <> PodFailed
  | 1 => ready claim' p s /\ pod = Some (job_in_phase PodSucceeded) /\ volume = None /\ queued
  | 0 => ready claim' p s /\ pod = None /\ volume = Some claim_volume
  | _ => False
  end.

Lemma claim_ready_untouched c s s' :
  c = claim \/ c = claim' -> claim_untouched s s' -> ready c p s -> ready c p s'.
Proof.
  intros Hcase [U1 _ _ U4 U5] [Hs Hk Hd Ha Hreg Hv Hc Hm Hnode Hn]. split; try done.
  - by rewrite U1.
  - rewrite U4; [done|]. by destruct Hcase as [-> | ->].
  - rewrite U5; [done|]. by destruct Hcase as [-> | ->].
Qed.

(** The rest of the cluster does not matter. *)
Lemma claim_phase_untouched r y s' q' :
  claim_untouched (sy_cluster y) s' -> (n ∈ sy_queue y -> n ∈ q') ->
  claim_phase r y -> claim_phase r (mkSystem s' q').
Proof.
  intros Hu Hq. pose proof Hu as [_ U2 U3 _ _].
  destruct r as [|[|[|[|[|r]]]]]; cbn -[claim_volume]; rewrite ?U2, ?U3; try done;
    intros (Hr & Hx); (split; [by eapply claim_ready_untouched; eauto|]); naive_solver.
Qed.

(** ** What wakes the controller *)

Hypothesis named : nn_Name n <> "" /\ nn_Namespace n <> "".
Hypothesis claim_named : om_key (pvc_Meta claim) = n.

(** A change of the claim does. *)
Lemma claim_change_wakes s s' c c' :
  cl_claims s !! n = Some c -> cl_claims s' !! n = Some c' -> c <> c' -> om_key (pvc_Meta c') = n ->
  n ∈ woken ws s s'.
Proof.
  intros Hs Hs' Hne Hk. eapply (woken_intro ws (For KPersistentVolumeClaim []) n (Updated (k := KPersistentVolumeClaim) c c')).
  - apply list_elem_of_here.
  - cbn. rewrite Hs, Hs'. cbn. by rewrite bool_decide_eq_false_2.
  - apply Forall_nil_2.
  - cbn. rewrite Hk. apply list_elem_of_here.
Qed.

Lemma job_mapped ph :
  PodToRequestMapper ManagerNamespace annPVCName annPVCNamespace (pod_Meta (job_in_phase ph)) = [n].
Proof.
  destruct named as [Hn1 Hn2]. rewrite <- claim_named in Hn1, Hn2 |- *.
  change (pod_Meta (job_in_phase ph)) with
    (pod_Meta (job_pod pvc_jobs (pvc_owner claim) (pod <| pod_Meta := (pod_Meta pod) <| om_Name := podName |>
       <| om_Namespace := ManagerNamespace |> |>))).
  apply (job_pod_mapped_to_owner pvc_jobs); [done..|]. left. done.
Qed.

(** A change of the Pod does. *)
Lemma job_change_wakes s s' ph ph' :
  cl_pods s !! pod_key = Some (job_in_phase ph) -> cl_pods s' !! pod_key = Some (job_in_phase ph') -> ph <> ph' ->
  n ∈ woken ws s s'.
Proof.
  intros Hs Hs' Hne. eapply (woken_intro ws (Watches KPod (fun pod =>
    PodToRequestMapper ManagerNamespace annPVCName annPVCNamespace (pod_Meta pod))) pod_key
    (Updated (k := KPod) (job_in_phase ph) (job_in_phase ph'))).
  - apply list_elem_of_further, list_elem_of_here.
  - cbn. rewrite Hs, Hs'. cbn. rewrite bool_decide_eq_false_2; [done|]. intros E. by apply (f_equal pod_Phase) in E.
  - apply Forall_nil_2.
  - cbn -[PodToRequestMapper job_in_phase]. rewrite job_mapped. apply list_elem_of_here.
Qed.

(** ** The steps *)

Hypothesis unfinalized : finalizer ∉ om_Finalizers (pvc_Meta claim).
Hypothesis serviceable : provisionable ManagerNamespace podName claim' p p' q env pod.

Lemma finalized_finalizer : finalizer ∈ om_Finalizers (pvc_Meta claim').
Proof. unfold finalized, AddString. destruct (HasString _ _) eqn:E; cbn; [by apply HasString_elem|set_solver]. Qed.
Local Hint Resolve finalized_finalizer : core.

Lemma job_key ph : om_key (pod_Meta (job_in_phase ph)) = pod_key.
Proof. done. Qed.

Lemma job_alter ph ph' s :
  cl_pods s !! pod_key = Some (job_in_phase ph) ->
  cl_pods (set_phase pod_key ph' s) !! pod_key = Some (job_in_phase ph').
Proof. intros Hs. cbn. by rewrite lookup_alter_eq, Hs. Qed.

Lemma job_created : exists ph, stored_pod ManagerNamespace podName claim' pod = job_in_phase ph /\
  ph <> PodSucceeded /\ ph <> PodFailed.
Proof.
  exists (pod_Phase pod). split; [unfold job_in_phase; by destruct pod|].
  destruct (pr_pod _ _ _ _ _ _ _ _ serviceable) as (path & p1 & pod0 & _ & _ & Hnew & ->). cbn.
  destruct (NewProvisionerPod_new _ _ _ Hnew) as [-> _]. done.
Qed.

(** A run moves the claim on, unless its Pod is at work. *)
Lemma claim_phase_run r y :
  claim_phase r y -> n ∈ sy_queue y ->
  let y' := run_request ws (pvc_Reconcile ManagerNamespace) n y in
  match r with
  | 0 | 2 => claim_phase r y'
  | S r' => claim_phase r' y'
  end.
Proof.
  destruct y as [s qu]. intros Hph Hqu y'. destruct r as [|[|[|[|[|r]]]]]; [..|done].
  - destruct Hph as (Hr & Hpod & Hv).
    assert (E : provision_run ManagerNamespace n s = (Returned None, s))
      by (eapply run_idle; [done..| |done]; intros Hnv; by pose proof (eq_trans (eq_sym Hv) Hnv)).
    unfold y'. by rewrite (run_request_ok _ _ _ (mkSystem s qu) s E).
  - destruct Hph as (Hr & Hpod & Hv & _).
    pose proof (run_creates_volume ManagerNamespace n podName claim' p p' q env pod s Hr finalized_finalizer serviceable
      (job_in_phase PodSucceeded) Hv Hpod eq_refl eq_refl (stored_pod_spec _ _ _ _ _ _ _ _ serviceable)) as E.
    unfold y'. rewrite (run_request_ok _ _ _ (mkSystem s qu) _ E). split; [by eapply claim_ready_frame|].
    split; [apply lookup_delete_eq|apply lookup_insert_eq].
  - destruct Hph as (Hr & Hv & ph & Hpod & Hs1 & Hs2).
    assert (E : provision_run ManagerNamespace n s = (Returned None, s)) by by eapply run_waits.
    unfold y'. rewrite (run_request_ok _ _ _ (mkSystem s qu) s E). split; [done|]. split; [done|]. by exists ph.
  - destruct Hph as (Hr & Hpod & Hv & _).
    pose proof (run_creates_provisioner ManagerNamespace n podName claim' p p' q env pod s Hr finalized_finalizer serviceable Hv Hpod) as E.
    unfold y'. rewrite (run_request_ok _ _ _ (mkSystem s qu) _ E). split; [by eapply claim_ready_frame|].
    split; [done|]. destruct job_created as (ph & -> & Hph). exists ph. split; [apply lookup_insert_eq|done].
  - destruct Hph as (Hr & Hpod & Hv & _).
    pose proof (run_finalizes ManagerNamespace n podName claim p s Hr unfinalized) as E.
    unfold y'. rewrite (run_request_ok _ _ _ (mkSystem s qu) _ E). split; [by eapply finalized_ready|].
    split; [done|]. split; [done|]. cbn -[woken]. apply elem_of_union_r.
    eapply (claim_change_wakes s _ claim claim'); [apply Hr|apply lookup_insert_eq| |done].
    intros Heq. apply unfinalized. rewrite Heq. apply finalized_finalizer.
Qed.
(** Only a Pod at work can proceed. *)
Lemma claim_phase_unfinished r y : claim_phase r y -> unfinished pod_key (sy_cluster y) -> r = 2.
Proof.
  intros Hph (po & Hpo & Hs1 & Hs2).
  destruct r as [|[|[|[|[|r]]]]]; [..|done]; cbn -[job_in_phase] in Hph; rewrite ?Hpo in Hph; naive_solver.
Qed.

Lemma claim_phase_succeeds y q' :
  claim_phase 2 y -> queue_keeps ws n y (set_phase pod_key PodSucceeded (sy_cluster y)) q' ->
  claim_phase 1 (mkSystem (set_phase pod_key PodSucceeded (sy_cluster y)) q').
Proof.
  intros (Hr & Hv & ph & Hpod & Hs1 & _) Hq. pose proof (job_alter _ PodSucceeded _ Hpod) as Hpod'.
  split; [by eapply claim_ready_frame|]. split; [done|]. split; [done|].
  apply Hq, elem_of_union_r. by eapply job_change_wakes.
Qed.

(** Provisioned: the volume of the claim exists, refers to it and carries the
    finalizer; the Pod is gone. *)
Definition claim_provisioned (s : cluster) : Prop :=
  cl_pods s !! pod_key = None /\
  exists pv, cl_volumes s !! volume_key claim = Some pv /\ finalizer ∈ om_Finalizers (vol_Meta pv) /\
    pvs_ClaimRef (vol_Spec pv) = Some (mkObjectReference "v1" "PersistentVolumeClaim" (om_Name (pvc_Meta claim))
      (om_Namespace (pvc_Meta claim)) (om_UID (pvc_Meta claim)) (om_ResourceVersion (pvc_Meta claim))).


End Provisioning.

(** ** A concrete execution *)

Module ClaimEventsExample.
Import PodExample TemplateExample RegistryExample TableCodec PvcExample LifecycleExample ClaimExample.
#[local] Existing Instance plain_dispatch.

Definition job_key1 : NamespacedName := mkNamespacedName "pvc-u1-provisioner" "system".
Definition run : system -> system :=
  run_request (pvc_SetupWithManager "system") (pvc_Reconcile "system") claim_key.
Definition succeed (y : system) : system :=
  let s' := set_phase job_key1 PodSucceeded (sy_cluster y) in
  mkSystem s' (sy_queue y ∪ woken (pvc_SetupWithManager "system") (sy_cluster y) s').

Definition y0 : system := mkSystem begin {[claim_key]}.
Definition y1 := run y0.
Definition y2 := run y1.
Definition y3 := succeed y2.
Definition y4 := run y3.
Definition y5 := run y4.

Definition states (i : nat) : system :=
  match i with 0 => y0 | 1 => y1 | 2 => y2 | 3 => y3 | 4 => y4 | _ => y5 end.
Definition labels (i : nat) : label :=
  match i with 0 | 1 | 3 | 4 => LRun | 2 => LSucceeds | _ => LOthers end.

Definition queued (y : system) : bool := bool_decide (claim_key ∈ sy_queue y).
(** The creation of the Pod wakes the controller, which then waits; its last run
    leaves nothing to do. *)
Example queue_over_time : queued <$> (states <$> seq 0 6) = [true; true; true; true; true; false].
Proof. vm_compute. reflexivity. Qed.

Lemma claim_woken_nothing : claim_key ∉ sy_queue y5 ∪ woken (pvc_SetupWithManager "system") (sy_cluster y5) (sy_cluster y5).
Proof. apply (bool_decide_eq_false _). vm_compute. reflexivity. Qed.

Lemma claim_states_fair : claim_execution "system" claim_key "pvc-u1-provisioner" claim0 states labels.
Proof.
  assert (Hrun : forall y y', y' = run y -> queued y = true ->
    claim_step "system" claim_key "pvc-u1-provisioner" claim0 LRun y y').
  { intros y y' -> Hq. apply step_run, (proj1 (bool_decide_eq_true _) Hq). }
  split.
  - intros i. destruct i as [|[|[|[|[|i]]]]]; try (apply Hrun; [reflexivity|vm_compute; reflexivity]).
    + apply (step_succeeds _ _ claim_key job_key1 _ y2 (sy_queue y3)).
      * apply unfinishedb_spec. vm_compute. reflexivity.
      * intros _. apply (bool_decide_eq_true _). vm_compute. reflexivity.
    + apply (step_others _ _ claim_key job_key1 _ y5 (sy_cluster y5) (sy_queue y5)).
      * split; done.
      * intros Hq. by apply claim_woken_nothing in Hq.
  - intros a i Ha. destruct a; try done.
    + destruct i as [|[|[|[|[|i]]]]]; [exists 0|exists 1|exists 3|exists 3|exists 4|];
        try (split; [lia|reflexivity]).
      exfalso. apply claim_woken_nothing, elem_of_union_l, Ha.
    + apply unfinishedb_spec in Ha. destruct i as [|[|[|[|[|i]]]]]; try (vm_compute in Ha; discriminate).
      exists 2. split; [lia|done].
Qed.

End ClaimEventsExample.
