(* ===== verification/VolumeEvents.v ===== *)
(** * Releasing, driven by events

    The counterpart of ClaimEvents.v for the volume controller: its watches let
    only volumes through that are being deleted, and the Pods of its jobs.  They
    suffice: in every fair execution a volume that is being deleted after its
    claim loses the finalizer. *)

From S2P Require Import Prelude Effects Api ApiServer GoPath Template Utils PodTemplate Registry Job Codec Cluster PvcController PvController Watches Lifecycle.

Section Releasing.
Context {ED : EventDispatch} {CV : Converter StorageProvisioner} {ES : EnvSubst} {PC : ProvisionerCodec}.
Context (ManagerNamespace : string) (n : NamespacedName) (podName : string).
Context (pv : PersistentVolume) (ref : ObjectReference) (p : StorageProvisioner).

Local Abbreviation key := (pod_key ManagerNamespace podName).
Local Abbreviation ws := (pv_SetupWithManager ManagerNamespace).
Local Abbreviation claim_key := (mkNamespacedName (or_Name ref) (or_Namespace ref)).
Local Abbreviation provisioner_name := (map_index (om_Annotations (vol_Meta pv)) annStorageProvisioner).

(** What the others leave alone: the volume, its Pod, its provisioner, and they
    do not create a claim of the name of the one that is gone. *)
Record volume_untouched (s s' : cluster) : Prop := {
  vt_volume : cl_volumes s' !! n = cl_volumes s !! n;
  vt_pod : cl_pods s' !! key = cl_pods s !! key;
  vt_claim : cl_claims s' !! claim_key = cl_claims s !! claim_key;
  vt_provisioner : cl_registry s' !! provisioner_name = cl_registry s !! provisioner_name
}.

Definition volume_step : label -> system -> system -> Prop :=
  system_step ws (pv_Reconcile ManagerNamespace) n key volume_untouched.
Definition volume_execution : (nat -> system) -> (nat -> label) -> Prop :=
  fair_execution volume_step (system_pending n key).

Local Abbreviation pv1 := (unclaimed_volume pv ref).

(** ** What wakes the controller *)

Hypothesis cluster_scoped : nn_Name n <> "" /\ nn_Namespace n = "".

Lemma finalizer_admitted o s :
  HasString (om_Finalizers o) finalizer = true ->
  (final (hasSupportedProvisionerOrFinalizer o) s).1 = Returned true.
Proof.
  intros Hf. unfold hasSupportedProvisionerOrFinalizer, resolveProvisioner.
  unfold final, run_cluster. destruct (om_Annotations o); cbn; by rewrite Hf, ?orb_true_r.
Qed.

(** A change of a volume that is being deleted does, while it has the finalizer. *)
Lemma volume_change_wakes s s' v v' :
  cl_volumes s !! n = Some v -> v <> v' -> volume_deleting n v' s' -> n ∈ woken ws s s'.
Proof.
  intros Hs Hne (Hs' & Hk & Hd & Hf & _).
  eapply (woken_intro ws (hd (For KPersistentVolume []) ws) n (Updated (k := KPersistentVolume) v v')).
  - apply list_elem_of_here.
  - cbn. rewrite Hs, Hs'. cbn. by rewrite bool_decide_eq_false_2.
  - cbn. constructor; [|constructor; [by apply finalizer_admitted|constructor]].
    cbn. unfold hasDeletionTimestamp. by rewrite bool_decide_eq_false_2.
  - cbn. rewrite Hk. apply list_elem_of_here.
Qed.

Context (env : list EnvVar) (p' : StorageProvisioner) (pod : Pod) (a1 : gmap string string).
Hypothesis named : om_key (vol_Meta pv1) = n.
Hypothesis environment : AnnotationsToEnv (om_Annotations (vol_Meta pv1)) (sps_Env (sp_Spec p)) = (env, None).
Hypothesis built : NewProvisionerPod
  (mkPodSource key deprovisioner p (cs_Deprovisioner (sps_Containers (sp_Spec p))) env) = (p', Ok pod).
Hypothesis to_deprovision : needs_deprovisioning pv1 = true.
Hypothesis annotated : om_Annotations (vol_Meta pv1) = Some a1.

Local Abbreviation pv2 := (mark_deprovisioned pv1 a1).

Definition release_in_phase (ph : string) : Pod :=
  (release_pod ManagerNamespace podName pv1 pod) <| pod_Phase := ph |>.

Lemma release_mapped ph :
  PodToRequestMapper ManagerNamespace annPVName "" (pod_Meta (release_in_phase ph)) = [n].
Proof.
  destruct cluster_scoped as [Hn1 Hn2]. rewrite <- named in Hn1, Hn2 |- *.
  change (pod_Meta (release_in_phase ph)) with
    (pod_Meta (job_pod pv_jobs (om_key (vol_Meta pv1)) (pod <| pod_Meta := (pod_Meta pod) <| om_Name := podName |>
       <| om_Namespace := ManagerNamespace |> |>))).
  apply (job_pod_mapped_to_owner pv_jobs); [done..|]. right. split; [done|]. split; [done|].
  cbn. by destruct (NewProvisionerPod_new _ _ _ built) as [_ ->].
Qed.

(** Any change of the Pod of the job does. *)
Lemma release_change_wakes s s' c :
  change_of (k := KPod) (cl_pods s !! key) (cl_pods s' !! key) = Some c ->
  (exists ph, subject c = release_in_phase ph) -> n ∈ woken ws s s'.
Proof.
  intros Hc [ph Hs].
  eapply (woken_intro ws (Watches KPod (fun pod => PodToRequestMapper ManagerNamespace annPVName "" (pod_Meta pod))) key c).
  - apply list_elem_of_further, list_elem_of_here.
  - exact Hc.
  - apply Forall_nil_2.
  - cbn -[PodToRequestMapper release_in_phase subject]. rewrite Hs, release_mapped. apply list_elem_of_here.
Qed.
(** ** The phases

    The volume as it is found, without its claim, with a Pod at work, with a Pod
    that has succeeded, marked as deprovisioned, without the Pod, freed. *)

Definition volume_phase (r : nat) (y : system) : Prop :=
  let s := sy_cluster y in let queued := n ∈ sy_queue y in let po := cl_pods s !! key in
  match r with
  | 6 => release_scenario ManagerNamespace n podName pv ref p s /\ queued
  | 5 => volume_ready n podName pv1 p s /\ po = None /\ queued
  | 4 => volume_ready n podName pv1 p s /\
      exists ph, po = Some (release_in_phase ph) /\ ph <> PodSucceeded /\ ph <> PodFailed
  | 3 => volume_ready n podName pv1 p s /\ po = Some (release_in_phase PodSucceeded) /\ queued
  | 2 => volume_ready n podName pv2 p s /\ po = Some (release_in_phase PodSucceeded) /\ queued
  | 1 => volume_ready n podName pv2 p s /\ po = None /\ queued
  | 0 => cl_volumes s !! n = Some (freed_volume pv2) /\ po = None
  | _ => False
  end.

Definition volume_helper (r : nat) : label := match r with 4 => LSucceeds | _ => LRun end.

Lemma volume_ready_untouched v s s' :
  cl_volumes s' !! n = cl_volumes s !! n -> volume_ready n podName v p s -> volume_ready n podName v p s'.
Proof. intros E ((Hv & Hd) & Hr). split; [|done]. split; [by rewrite E|done]. Qed.

Lemma release_scenario_untouched s s' :
  volume_untouched s s' -> release_scenario ManagerNamespace n podName pv ref p s ->
  release_scenario ManagerNamespace n podName pv ref p s'.
Proof.
  intros [U1 U2 U3 U4] [[Hv Hd] Hc Hg Hreg Hn Hname Hspec Hpod Hno]. split; try done.
  - split; [by rewrite U1|done].
  - by rewrite U3.
  - by rewrite U4.
  - by rewrite U2.
Qed.

Lemma volume_phase_untouched r y s' q' :
  volume_untouched (sy_cluster y) s' -> (n ∈ sy_queue y -> n ∈ q') ->
  volume_phase r y -> volume_phase r (mkSystem s' q').
Proof.
  intros Hu Hq. pose proof Hu as [U1 U2 _ _].
  destruct r as [|[|[|[|[|[|[|r]]]]]]]; cbn -[release_in_phase]; rewrite ?U1, ?U2; try done; intros (Hr & Hx);
    (split; [done || by eapply volume_ready_untouched || by eapply release_scenario_untouched|]); naive_solver.
Qed.

(** ** The steps *)

Lemma release_alter ph ph' s :
  cl_pods s !! key = Some (release_in_phase ph) ->
  cl_pods (set_phase key ph' s) !! key = Some (release_in_phase ph').
Proof. intros Hs. cbn. by rewrite lookup_alter_eq, Hs. Qed.

Lemma release_created :
  release_pod ManagerNamespace podName pv1 pod = release_in_phase "".
Proof. pose proof (proj1 (NewProvisionerPod_new _ _ _ built)) as Hph. unfold release_in_phase. destruct pod. cbn in Hph. by subst. Qed.

Lemma unclaimed_differs : pvs_ClaimRef (vol_Spec pv) = Some ref -> pv <> pv1.
Proof. intros Hc E. rewrite E in Hc. done. Qed.

Lemma marked_needs_nothing : needs_deprovisioning pv2 = false.
Proof. unfold needs_deprovisioning. cbn. by rewrite map_index_insert. Qed.

Lemma volume_phase_run r y :
  volume_phase r y -> n ∈ sy_queue y ->
  let y' := run_request ws (pv_Reconcile ManagerNamespace) n y in
  match r with
  | 0 | 4 => volume_phase r y'
  | S r' => volume_phase r' y'
  end.
Proof.
  destruct y as [s qu]. intros Hph Hqu y'.
  assert (Hok : forall s', release_run ManagerNamespace n s = (Returned None, s') ->
    y' = mkSystem s' (qu ∖ {[n]} ∪ woken ws s s')) by (intros s' E; apply (run_request_ok _ _ _ (mkSystem s qu) s' E)).
  destruct r as [|[|[|[|[|[|[|r]]]]]]]; [..|done].
  - destruct Hph as [Hv Hpod]. by rewrite (Hok _ (run_ignores _ _ _ s Hv (freed_volume_finalizer _))).
  - destruct Hph as (Hr & Hpod & _). rewrite (Hok _ (run_frees _ _ _ _ _ _ Hr marked_needs_nothing Hpod)).
    split; [apply lookup_insert_eq|done].
  - destruct Hph as (Hr & Hpod & _). rewrite (Hok _ (run_deletes_pod _ _ _ _ _ _ _ Hr marked_needs_nothing Hpod eq_refl)).
    split; [by eapply volume_ready_untouched|]. split; [apply lookup_delete_eq|]. apply elem_of_union_r.
    eapply (release_change_wakes _ _ (Removed (k := KPod) (release_in_phase PodSucceeded))); [|by eexists].
    cbn in Hpod |- *. by rewrite Hpod, lookup_delete_eq.
  - destruct Hph as (Hr & Hpod & _). rewrite (Hok _ (run_marks _ _ _ _ _ _ _ _ Hr to_deprovision annotated Hpod eq_refl)).
    destruct (marked_ready n podName pv1 p a1 s (put_volume n pv2 s) Hr annotated) as [Hr' _]; [apply lookup_insert_eq|].
    split; [done|]. split; [done|]. apply elem_of_union_r. eapply (volume_change_wakes _ _ pv1 pv2); [apply Hr| |apply Hr'].
    intros E. pose proof to_deprovision as Ht. by rewrite E, marked_needs_nothing in Ht.
  - destruct Hph as (Hr & ph & Hpod & Hs1 & Hs2). rewrite (Hok _ (run_pends _ _ _ _ _ _ _ Hr to_deprovision Hpod Hs1 Hs2)).
    split; [done|]. by exists ph.
  - destruct Hph as (Hr & Hpod & _).
    rewrite (Hok _ (run_creates_pod _ _ _ _ _ _ _ _ _ Hr to_deprovision Hpod environment built)).
    split; [by eapply volume_ready_untouched|]. exists "". rewrite <- release_created. split; [apply lookup_insert_eq|done].
  - destruct Hph as (Hsc & _). destruct (unclaimed_ready _ _ _ _ _ _ _ Hsc) as (Hr & _).
    pose proof Hsc as [Hdel Hc Hgone Hreg Hn0 _ _ _ Hpod].
    rewrite (Hok (put_volume n pv1 s)).
    + split; [done|]. split; [done|]. apply elem_of_union_r.
      eapply (volume_change_wakes _ _ pv pv1); [apply Hdel|by apply unclaimed_differs|apply Hr].
    + apply release_claim; try done. intros E. unfold needs_deprovisioning in Hn0. by rewrite E in Hn0.
Qed.

(** Only a Pod at work can proceed. *)
Lemma volume_phase_unfinished r y : volume_phase r y -> unfinished key (sy_cluster y) -> r = 4.
Proof.
  intros Hph (po & Hpo & Hs1 & Hs2).
  destruct r as [|[|[|[|[|[|[|r]]]]]]]; [..|done]; cbn -[release_in_phase] in Hph; rewrite ?Hpo in Hph; try naive_solver.
  destruct Hph as ([_ _ _ _ _ _ _ _ Hno] & _). by rewrite Hpo in Hno.
Qed.

Lemma volume_phase_succeeds y q' :
  volume_phase 4 y -> queue_keeps ws n y (set_phase key PodSucceeded (sy_cluster y)) q' ->
  volume_phase 3 (mkSystem (set_phase key PodSucceeded (sy_cluster y)) q').
Proof.
  intros (Hr & ph & Hpod & Hs1 & _) Hq. pose proof (release_alter _ PodSucceeded _ Hpod) as Hpod'.
  split; [by eapply volume_ready_untouched|]. split; [done|]. apply Hq, elem_of_union_r.
  eapply (release_change_wakes _ _ (Updated (k := KPod) (release_in_phase ph) (release_in_phase PodSucceeded))); [|by eexists].
  etransitivity; [exact (f_equal2 (change_of (k := KPod)) Hpod Hpod')|]. cbn -[release_in_phase]. rewrite bool_decide_eq_false_2; [done|].
  intros E. by apply (f_equal pod_Phase) in E.
Qed.

Lemma volume_eventually e l :
  volume_phase 6 (e 0) -> volume_execution e l -> exists k, forall j, k <= j -> volume_phase 0 (e j).
Proof.
  intros H6 He. eapply (job_eventually _ _ _ _ _ volume_phase 4); [..|exact He|exact H6].
  - exact volume_phase_untouched.
  - intros r y Hph Hin. pose proof (volume_phase_run r y Hph Hin) as Hrun.
    destruct r as [|[|[|[|[|r]]]]]; eexists; (split; [|split; [exact Hrun|]]); lia.
  - exact volume_phase_unfinished.
  - intros y ph q' (Hr & ph0 & Hpod & _) Hs1 Hs2. split; [by eapply volume_ready_untouched|].
    exists ph. split; [by apply (release_alter ph0)|done].
  - intros y q' Hph Hk. exists 3. split; [lia|by apply volume_phase_succeeds].
  - intros [|[|[|[|[|[|r]]]]]] y; cbn -[release_in_phase]; try naive_solver.
    intros (_ & ph & Hpod & Hph). by exists (release_in_phase ph).
Qed.

End Releasing.

Section Release.
Context `{!EventDispatch, !Converter StorageProvisioner, !EnvSubst, !ProvisionerCodec}.
Context (ManagerNamespace : string) (n : NamespacedName) (podName : string).

End Release.

(** ** A concrete execution *)

Module VolumeEventsExample.
Import PodExample TemplateExample RegistryExample TableCodec PvcExample PvExample LifecycleExample.
#[local] Existing Instance plain_dispatch.

Definition job_key1 : NamespacedName := mkNamespacedName "pvc-u1-deprovisioner" "system".
Definition run : system -> system := run_request (pv_SetupWithManager "system") (pv_Reconcile "system") pv_name.
Definition succeed (y : system) : system :=
  let s' := set_phase job_key1 PodSucceeded (sy_cluster y) in
  mkSystem s' (sy_queue y ∪ woken (pv_SetupWithManager "system") (sy_cluster y) s').

Definition y0 : system := mkSystem start {[pv_name]}.
Definition y1 := run y0.
Definition y2 := run y1.
Definition y3 := succeed y2.
Definition y4 := run y3.
Definition y5 := run y4.
Definition y6 := run y5.
Definition y7 := run y6.

Definition states (i : nat) : system :=
  match i with 0 => y0 | 1 => y1 | 2 => y2 | 3 => y3 | 4 => y4 | 5 => y5 | 6 => y6 | _ => y7 end.
Definition labels (i : nat) : label :=
  match i with 2 => LSucceeds | 0 | 1 | 3 | 4 | 5 | 6 => LRun | _ => LOthers end.
Definition queued (y : system) : bool := bool_decide (pv_name ∈ sy_queue y).

Lemma volume_woken_nothing : pv_name ∉ sy_queue y7 ∪ woken (pv_SetupWithManager "system") (sy_cluster y7) (sy_cluster y7).
Proof. apply (bool_decide_eq_false _). vm_compute. reflexivity. Qed.

Lemma volume_states_fair : volume_execution "system" pv_name "pvc-u1-deprovisioner" deleted_volume claim_ref states labels.
Proof.
  assert (Hrun : forall y y', y' = run y -> queued y = true ->
    volume_step "system" pv_name "pvc-u1-deprovisioner" deleted_volume claim_ref LRun y y').
  { intros y y' -> Hq. apply step_run, (proj1 (bool_decide_eq_true _) Hq). }
  split.
  - intros i. destruct i as [|[|[|[|[|[|[|i]]]]]]]; try (apply Hrun; [reflexivity|vm_compute; reflexivity]).
    + apply (step_succeeds _ _ pv_name job_key1 _ y2 (sy_queue y3)).
      * apply unfinishedb_spec. vm_compute. reflexivity.
      * intros _. apply (bool_decide_eq_true _). vm_compute. reflexivity.
    + apply (step_others _ _ pv_name job_key1 _ y7 (sy_cluster y7) (sy_queue y7)).
      * split; done.
      * intros Hq. by apply volume_woken_nothing in Hq.
  - intros a i Ha. destruct a; try done.
    + destruct i as [|[|[|[|[|[|[|i]]]]]]];
        [exists 0|exists 1|exists 3|exists 3|exists 4|exists 5|exists 6|]; try (split; [lia|reflexivity]).
      exfalso. apply volume_woken_nothing, elem_of_union_l, Ha.
    + apply unfinishedb_spec in Ha. destruct i as [|[|[|[|[|[|[|i]]]]]]]; try (vm_compute in Ha; discriminate).
      exists 2. split; [lia|done].
Qed.

End VolumeEventsExample.
