(* ===== verification/LayerCmd.v ===== *)
(** * The command line of layerfs ([cmd/layerfs])

    The commands [mount], [umount] and [prune] over a store that is the local
    one or, with [--enable-k8s-sync], the synchronised one.  The flags come as
    parsed by cobra and override the environment variables.  The environment is made of
    three parts: the set-up calls of this file, the Kubernetes API and the one
    of the local store. *)

From S2P Require Import Prelude Effects GoPath GoFlag StoreApi LayerApi LayerStore Prune Api CacheStatusEdits CacheUpdater SyncedStore ApiServer.

(** ** Set-up calls *)

Record StoreOptions := mkStoreOptions {
  so_GraphRoot : string;
  so_RunRoot : string;
  so_GraphDriverName : string;
  so_GraphDriverOptions : list string
}.
#[global] Instance StoreOptions_settable : Settable StoreOptions := fun r =>
  mkStoreOptions (so_GraphRoot r) (so_RunRoot r) (so_GraphDriverName r) (so_GraphDriverOptions r).

(** The parts of [types.SystemContext] that are set. *)
Record SystemContext := mkSystemContext {
  sys_InsecureSkipTLSVerify : bool;
  sys_AuthConfig : option (string * string)
}.

Inductive ccmd :=
| DefaultStoreOptions
| GetStore (opts : StoreOptions)
| SetStore
| InClusterConfig
| NewDynamicRESTMapper
| NewClient.
Definition cresp (c : ccmd) : Type :=
  match c with
  | DefaultStoreOptions => result StoreOptions
  | SetStore => unit
  | _ => option goerr
  end.
Definition CliSig : Sig := {| cmd := ccmd; resp := cresp |}.

(** The local store lives below the cluster, and both below the command. *)
Definition ClusterSig : Sig := sum_sig KubeSig LayerSig.
Definition CommandSig : Sig := sum_sig CliSig ClusterSig.
Abbreviation cli A := (prog (S := CommandSig) A).

Definition setup (c : ccmd) : cli (cresp c) := lift_l (S := CliSig) (T := ClusterSig) (call (S := CliSig) c).
Definition local {A} (p : prog (S := LayerSig) A) : cli A :=
  lift_r (S := CliSig) (T := ClusterSig) (lift_r (S := KubeSig) (T := LayerSig) p).

Definition lift_store {S T : Sig} (s : Store T) : Store (sum_sig S T) := {|
  Free := lift_r (Free s);
  Mount opts := lift_r (Mount s opts);
  Unmount opts := lift_r (Unmount s opts);
  Prune := lift_r (Prune s)
|}.

Record Flags := mkFlags {
  fl_storageRoot : string;
  fl_storageRunRoot : string;
  fl_registry : string;
  fl_registryUsername : string;
  fl_registryPassword : string;
  fl_insecure : bool;
  fl_enableK8sSync : bool;
  fl_nodeName : string;
  fl_mode : Z
}.
#[global] Instance Flags_settable : Settable Flags := fun r =>
  mkFlags (fl_storageRoot r) (fl_storageRunRoot r) (fl_registry r) (fl_registryUsername r) (fl_registryPassword r)
    (fl_insecure r) (fl_enableK8sSync r) (fl_nodeName r) (fl_mode r).

(** ** Options *)

Definition validateOptions (o : MountOptions) : option goerr :=
  if (mo_Image o ==? "") && (mo_CacheName o ==? "") then
    Some (Errorf "neither --cache-name nor --image specified")
  else None.

Definition applyDefaults (registryFlag : string) (o : MountOptions) : MountOptions :=
  let o := if mo_CacheNamespace o ==? "" then o <| mo_CacheNamespace := "default" |> else o in
  if (mo_Image o ==? "") && (registryFlag !=? "") then
    o <| mo_Image := registryFlag +++ "/cache/" +++ mo_CacheNamespace o +++ ":" +++ mo_CacheName o |>
  else o.

(** The options of the storage, from the defaults and the flags. *)
Definition store_options (flags : Flags) (opts : StoreOptions) : StoreOptions :=
  let opts := if (fl_storageRoot flags !=? "") && (fl_storageRoot flags !=? so_GraphRoot opts) then
                opts <| so_GraphRoot := fl_storageRoot flags |>
                     <| so_RunRoot := Join (fl_storageRoot flags) "runroot" |>
              else opts in
  let opts := if fl_storageRunRoot flags !=? "" then opts <| so_RunRoot := fl_storageRunRoot flags |> else opts in
  if so_GraphDriverName opts ==? "" then
    opts <| so_GraphDriverName := "overlay" |> <| so_GraphDriverOptions := ["overlay.mountopt=nodev"] |>
  else opts.

Definition system_context (flags : Flags) : SystemContext :=
  mkSystemContext (fl_insecure flags)
    (if (fl_registryUsername flags !=? "") && (fl_registryPassword flags !=? "")
     then Some (fl_registryUsername flags, fl_registryPassword flags) else None).

(** ** Flags and environment variables *)

(** [os.Getenv] answers the empty string for a variable that is not set; the
    error of [ParseBool] is dropped by the code. *)
Section CommandLine.
Context (Getenv : string -> string).

(** The initial values of the flag variables; the mode is that of [mount]. *)
Definition flags_of_env : Flags := mkFlags
  (Getenv "LAYERFS_STORAGE_ROOT") (Getenv "LAYERFS_STORAGE_RUNROOT") (Getenv "LAYERFS_REGISTRY")
  (Getenv "LAYERFS_REGISTRY_USERNAME") (Getenv "LAYERFS_REGISTRY_PASSWORD")
  (default false (ParseBool (Getenv "LAYERFS_INSECURE_SKIP_TLS_VERIFY")))
  (default false (ParseBool (Getenv "LAYERFS_ENABLE_K8S_SYNC")))
  (Getenv "LAYERFS_NODE_NAME") 488.

Definition mountOptions : MountOptions := mkMountOptions
  (Getenv "LAYERFS_IMAGE") (Getenv "LAYERFS_CONTAINER_NAME") "" false
  (Getenv "LAYERFS_NAME") (Getenv "LAYERFS_NAMESPACE").

(** [addContainerFlag]; [namespaceFile] is the content of the file of the service
    account, empty if it cannot be read. *)
Definition addContainerFlag (namespaceFile : string) (o : MountOptions) : MountOptions :=
  let o := if mo_CacheNamespace o ==? "" then o <| mo_CacheNamespace := namespaceFile |> else o in
  o <| mo_Commit := false |>.

Inductive root_flag :=
| FStorageRoot (v : string)
| FStorageRunRoot (v : string)
| FRegistry (v : string)
| FRegistryUsername (v : string)
| FRegistryPassword (v : string)
| FInsecureSkipTLSVerify (v : bool)
| FEnableK8sSync (v : bool).

Definition set_root_flag (f : Flags) (x : root_flag) : Flags :=
  match x with
  | FStorageRoot v => f <| fl_storageRoot := v |>
  | FStorageRunRoot v => f <| fl_storageRunRoot := v |>
  | FRegistry v => f <| fl_registry := v |>
  | FRegistryUsername v => f <| fl_registryUsername := v |>
  | FRegistryPassword v => f <| fl_registryPassword := v |>
  | FInsecureSkipTLSVerify v => f <| fl_insecure := v |>
  | FEnableK8sSync v => f <| fl_enableK8sSync := v |>
  end.

Inductive container_flag :=
| FCommit (v : bool)
| FImage (v : string)
| FContainerName (v : string)
| FName (v : string)
| FNamespace (v : string).

Definition set_container_flag (o : MountOptions) (x : container_flag) : MountOptions :=
  match x with
  | FCommit v => o <| mo_Commit := v |>
  | FImage v => o <| mo_Image := v |>
  | FContainerName v => o <| mo_ContainerName := v |>
  | FName v => o <| mo_CacheName := v |>
  | FNamespace v => o <| mo_CacheNamespace := v |>
  end.

(** The flags of a command line, in their order. *)
Definition root_flags (xs : list root_flag) : Flags := foldl set_root_flag flags_of_env xs.
Definition container_options (namespaceFile : string) (xs : list container_flag) : MountOptions :=
  foldl set_container_flag (addContainerFlag namespaceFile mountOptions) xs.

Definition insecure_flag (x : root_flag) : option bool :=
  match x with FInsecureSkipTLSVerify v => Some v | _ => None end.

Lemma root_flags_snoc xs x : root_flags (xs ++ [x]) = set_root_flag (root_flags xs) x.
Proof. unfold root_flags. by rewrite foldl_app. Qed.

(** The certificates of the registry are not verified only on request: the last
    such flag decides, and without one the environment variable, which must be
    spelled as a true value; a malformed value keeps the verification. *)
Theorem insecure_only_on_request xs :
  sys_InsecureSkipTLSVerify (system_context (root_flags xs)) =
    match last (omap insecure_flag xs) with
    | Some v => v
    | None => bool_decide (Getenv "LAYERFS_INSECURE_SKIP_TLS_VERIFY" ∈ ["1"; "t"; "T"; "TRUE"; "true"; "True"])
    end.
Proof.
  unfold system_context. cbn [sys_InsecureSkipTLSVerify].
  induction xs as [|x xs IH] using rev_ind.
  - cbn. unfold ParseBool. case_bool_decide; [done|]. by case_bool_decide.
  - rewrite root_flags_snoc, omap_app, last_app. destruct x; cbn; try done; by rewrite IH.
Qed.

End CommandLine.

Section Commands.
Context `{!PushRetry, !ConflictRetry} (ErrNotAnImage ErrImageUsedByContainer : goerr) (fuel : nat).

(** [layerfs.New]; the calls of the local store carry the system context. *)
Definition New : Store LayerSig := {|
  Free := call (S := LayerSig) StoreFree;
  Mount := store_Mount;
  Unmount := store_Unmount;
  Prune := store_Prune ErrNotAnImage ErrImageUsedByContainer fuel
|}.

Definition toClusterSyncedStore (nodeNameFlag : string) : cli (result (Store CommandSig)) :=
  if nodeNameFlag ==? "" then Ret (Err (Errorf "node name has not been specified"))
  else
    let! err := setup InClusterConfig in
    match err with
    | Some err => Ret (Err (Wrap "needs to be run within a k8s pod with an access token mounted" err))
    | None =>
        let! err := setup NewDynamicRESTMapper in
        match err with
        | Some err => Ret (Err err)
        | None =>
            let! err := setup NewClient in
            match err with
            | Some err => Ret (Err err)
            | None => Ret (Ok (lift_store (S := CliSig) (Synchronized New nodeNameFlag)))
            end
        end
    end.

Definition newStore (flags : Flags) : cli (result (Store CommandSig)) :=
  let! opts := setup DefaultStoreOptions in
  match opts with
  | Err err => Ret (Err err)
  | Ok opts =>
      let opts := store_options flags opts in
      let! err := setup (GetStore opts) in
      match err with
      | Some err => Ret (Err (Wrap ("init store at " +++ so_GraphRoot opts) err))
      | None =>
          do! setup SetStore in
          if fl_enableK8sSync flags then
            let! r := toClusterSyncedStore (fl_nodeName flags) in
            match r with
            | Ok s => Ret (Ok s)
            | Err err => Ret (Err (Wrap "cannot enable k8s sync" err))
            end
          else Ret (Ok (lift_store (S := CliSig) (lift_store (S := KubeSig) New)))
      end
  end.

(** A command: the store is freed however the command ends. *)
Definition with_store (flags : Flags) (run : Store CommandSig -> cli (option goerr)) : cli (option goerr) :=
  let! store := newStore flags in
  match store with
  | Err err => Ret (Some err)
  | Ok store => finally (run store) (fun o => do! Free store in of_outcome o)
  end.

Definition mount_dir (args : list string) (o : MountOptions) : MountOptions :=
  match args with
  | dir :: _ => o <| mo_ExtMountDir := dir |>
  | [] => o
  end.

Definition runMountCmd (flags : Flags) (mountOptions : MountOptions) (args : list string) : cli (option goerr) :=
  let mountOptions := mount_dir args mountOptions in
  with_store flags (fun store =>
    let! (dir, err) := Mount store (applyDefaults (fl_registry flags) mountOptions) in
    match err with
    | Some _ => Ret err
    | None =>
        let! err := local (call (S := LayerSig) (OsChmod dir (fl_mode flags))) in
        match err with
        | Some _ => Ret err
        | None => do! local (call (S := LayerSig) (Println Stdout dir)) in Ret None
        end
    end).

Definition runUnmountCmd (flags : Flags) (mountOptions : MountOptions) (args : list string) : cli (option goerr) :=
  let mountOptions := mount_dir args mountOptions in
  with_store flags (fun store =>
    let! (imageID, _, err) := Unmount store (applyDefaults (fl_registry flags) mountOptions) in
    match err with
    | Some _ => Ret err
    | None =>
        if imageID !=? "" then do! local (call (S := LayerSig) (Println Stdout imageID)) in Ret None
        else Ret None
    end).

Definition runPruneCmd (flags : Flags) : cli (option goerr) := with_store flags (fun store => Prune store).

(** ** Runs of the commands *)

(** The call that frees the storage. *)
Definition store_freed : event (S := CommandSig) := Ev (S := CommandSig) (inr (inr StoreFree)) tt.

Lemma runs_setup {B} c (f : cresp c -> cli B) tr o :
  runs (bind (setup c) f) tr o <-> exists x tr', tr = Ev (S := CommandSig) (inl c) x :: tr' /\ runs (f x) tr' o.
Proof. done. Qed.

(** The store of the flags. *)
Definition chosen_store (flags : Flags) : Store CommandSig :=
  if fl_enableK8sSync flags then lift_store (S := CliSig) (Synchronized New (fl_nodeName flags))
  else lift_store (S := CliSig) (lift_store (S := KubeSig) New).

(** [newStore] returns that store or an error; without a node name there is no
    synchronised store. *)
Lemma newStore_returns flags tr o :
  runs (newStore flags) tr o ->
  exists r, o = Returned r /\
    match r with
    | Ok s => s = chosen_store flags /\ (fl_enableK8sSync flags = true -> fl_nodeName flags <> "")
    | Err _ => True
    end.
Proof.
  unfold chosen_store. intros ([opts|e] & t & -> & Hr)%runs_setup; [|destruct Hr as [_ ->]; by eexists].
  apply runs_setup in Hr as ([e|] & t2 & -> & Hr); [destruct Hr as [_ ->]; by eexists|].
  apply runs_setup in Hr as ([] & t3 & -> & Hr).
  destruct (fl_enableK8sSync flags); [|destruct Hr as [_ ->]; by eexists].
  unfold toClusterSyncedStore in Hr. case_bool_decide; [destruct Hr as [_ ->]; by eexists|].
  do 3 (destruct Hr as ([e|] & ? & _ & Hr); [destruct Hr as [_ ->]; by eexists|]; simpl in Hr).
  destruct Hr as [_ ->]. by eexists.
Qed.

Lemma chosen_store_free flags : Free (chosen_store flags) = Call (S := CommandSig) (inr (inr StoreFree)) Ret.
Proof. unfold chosen_store. by destruct (fl_enableK8sSync flags). Qed.

(** A command is the set-up of the store, what is run with it and its release;
    without a store nothing is run. *)
Lemma with_store_runs flags run tr o :
  runs (with_store flags run) tr o ->
  (exists e, runs (newStore flags) tr (Returned (Err e)) /\ o = Returned (Some e)) \/
  exists tr1 tr2, tr = tr1 ++ tr2 ++ [store_freed] /\
    runs (newStore flags) tr1 (Returned (Ok (chosen_store flags))) /\ runs (run (chosen_store flags)) tr2 o.
Proof.
  unfold with_store. intros [(m & Hr & _)|(r & tr1 & tr2 & -> & Hn & Hf)]%runs_bind.
  - by apply newStore_returns in Hr as (r & [=] & _).
  - destruct r as [s|e]; [right|left; destruct Hf as [-> ->]; rewrite app_nil_r; eauto].
    pose proof (newStore_returns _ _ _ Hn) as (? & [= <-] & -> & _).
    apply runs_finally in Hf as (o1 & t1 & t2 & -> & Hr & Hf). rewrite chosen_store_free in Hf.
    destruct Hf as ([] & t & -> & Hf). exists tr1, t1. by destruct o1; destruct Hf as [-> ->].
Qed.

(** The commands of the program. *)
Inductive command : cli (option goerr) -> Flags -> Prop :=
| command_mount flags opts args : command (runMountCmd flags opts args) flags
| command_umount flags opts args : command (runUnmountCmd flags opts args) flags
| command_prune flags : command (runPruneCmd flags) flags.

(** However a command ends, panics included, the storage is released last if it
    could be opened; if it could not, the command has done nothing but opening
    it and answers that error. *)
Theorem commands_free_store p flags tr o :
  command p flags -> runs p tr o ->
  (exists e, runs (newStore flags) tr (Returned (Err e)) /\ o = Returned (Some e)) \/
  (exists tr1 tr2, tr = tr1 ++ tr2 ++ [store_freed] /\
     runs (newStore flags) tr1 (Returned (Ok (chosen_store flags)))).
Proof.
  intros Hc Hr. destruct Hc; apply with_store_runs in Hr as [Hr|(t1 & t2 & Ht & Hn & _)];
    try by left. all: right; by exists t1, t2.
Qed.

(** *** Without synchronisation *)

(** A program that makes no call to the Kubernetes API. *)
Definition not_kube (c : cmd (Sig := CommandSig)) : Prop :=
  match c with inr (inl _) => False | _ => True end.
Abbreviation calls_no_kube p := (wp p (fun _ c => not_kube c) (fun _ _ => True)).

Lemma local_calls_no_kube {A} (p : prog (S := LayerSig) A) h : calls_no_kube (local p) h.
Proof. revert h. induction p as [a|m|c k IH]; intros h; [done..|]. split; [done|]. intros x. apply IH. Qed.

Lemma setup_calls_no_kube {B} c (f : cresp c -> cli B) h :
  (forall x h, calls_no_kube (f x) h) -> calls_no_kube (bind (setup c) f) h.
Proof. intros Hf. split; [done|]. intros x. apply Hf. Qed.

Lemma newStore_calls_no_kube flags h :
  wp (newStore flags) (fun _ c => not_kube c)
    (fun _ o => match o with
                | Returned (Ok s) => fl_enableK8sSync flags = false -> s = lift_store (lift_store New)
                | _ => True
                end) h.
Proof.
  split; [done|]. intros [opts|e]; [|done]. split; [done|]. intros [e|]; [done|]. split; [done|]. intros [].
  cbn beta iota. destruct (fl_enableK8sSync flags); [|by simpl]. unfold toClusterSyncedStore.
  cbn. destruct (_ ==? _); [done|]. do 3 (split; [done|]; intros [e|]; [done|]). simpl. done.
Qed.

(** Without [--enable-k8s-sync] no command talks to the cluster. *)
Theorem unsynced_commands_stay_local p flags tr1 c x tr2 o :
  command p flags -> fl_enableK8sSync flags = false ->
  runs p (tr1 ++ Ev (S := CommandSig) c x :: tr2) o -> not_kube c.
Proof.
  intros Hc Hs Hr. cut (calls_no_kube p []); [intros Hp; exact (wp_guard _ _ _ _ _ _ _ _ _ Hp Hr)|]. clear Hr.
  assert (Hw : forall run, (forall h, calls_no_kube (run (lift_store (lift_store New))) h) ->
    calls_no_kube (with_store flags run) []).
  { intros run Hrun. unfold with_store. apply wp_bind. eapply wp_mono; [apply newStore_calls_no_kube|done|].
    intros h [[s|e]|m] Hn; [|done..]. rewrite (Hn Hs). apply wp_finally. eapply wp_mono; [apply Hrun|done|].
    intros h' o' _. split; [done|]. intros []. by destruct o'. }
  destruct Hc; apply Hw; intros h.
  - apply wp_bind. eapply wp_mono; [apply local_calls_no_kube|done|]. intros h' [[dir [e|]]|m] _; [done| |done].
    split; [done|]. intros [e|]; [done|]. by split.
  - apply wp_bind. eapply wp_mono; [apply local_calls_no_kube|done|]. intros h' [[[id nw] [e|]]|m] _; [done| |done].
    cbn beta iota. destruct (_ !=? _); [by split|done].
  - apply local_calls_no_kube.
Qed.

(** *** With synchronisation *)

Definition cluster_event (e : event (S := KubeSig)) : event (S := CommandSig) :=
  event_r (S := CliSig) (T := ClusterSig) (event_l (S := KubeSig) (T := LayerSig) e).
Definition printed (line : string) : event (S := CommandSig) :=
  Ev (S := CommandSig) (inr (inr (Println Stdout line))) tt.

(** The defaults name a cache unless there is no cache name. *)
Lemma applyDefaults_cache registry o :
  cache_of (applyDefaults registry o) =
    if mo_CacheName o ==? "" then None
    else Some (mkNamespacedName (mo_CacheName o)
           (if mo_CacheNamespace o ==? "" then "default" else mo_CacheNamespace o)).
Proof.
  unfold cache_of, applyDefaults. destruct o as [im cn d cm name ns]; cbn.
  destruct (ns ==? "") eqn:Ens; cbn; destruct (_ && _); cbn; rewrite ?Ens; by destruct (name ==? "").
Qed.

(** C26: with synchronisation, the unmount command of a named cache releases the
    registration of the volume after whatever the local store has done, and
    its result is that of the release alone: a failed commit or push does not
    fail the command. *)
Theorem synced_umount_result flags opts args tr o :
  fl_enableK8sSync flags = true -> mo_CacheName opts <> "" ->
  runs (runUnmountCmd flags opts args) tr o ->
  (exists e, runs (newStore flags) tr (Returned (Err e)) /\ o = Returned (Some e)) \/
  exists key tr1 err tru r tr2,
    cache_of (applyDefaults (fl_registry flags) (mount_dir args opts)) = Some key /\
    tr = tr1 ++ map cluster_event tru ++ tr2 ++ [store_freed] /\
    runs (UnregisterCacheVolume key (fl_nodeName flags) (mo_ContainerName opts) err) tru (Returned r) /\
    match o with
    | Returned res => res = r /\ (tr2 = [] \/ r = None /\ exists id, tr2 = [printed id])
    | Panicked _ => tr2 = []
    end.
Proof.
  intros Hs Hname [Hr|(tr1 & tr2 & -> & Hn & Hr)]%with_store_runs; [by left|right].
  set (o' := applyDefaults (fl_registry flags) (mount_dir args opts)) in *.
  assert (Hc : mo_ContainerName o' = mo_ContainerName opts).
  { subst o'. unfold applyDefaults, mount_dir. destruct args; cbn; by repeat destruct (_ ==? _). }
  assert (Hk : exists key, cache_of o' = Some key).
  { subst o'. rewrite applyDefaults_cache, bool_decide_eq_false_2; [by eexists|].
    unfold mount_dir. by destruct args. }
  destruct Hk as [key Hk]. exists key.
  assert (Hu : forall t oo, runs (Unmount (chosen_store flags) o') t oo ->
    exists t1 err tru r, t = t1 ++ map cluster_event tru /\
      runs (UnregisterCacheVolume key (fl_nodeName flags) (mo_ContainerName opts) err) tru (Returned r) /\
      match oo with Returned (_, _, e) => e = r | Panicked _ => True end).
  { unfold chosen_store. rewrite Hs. cbn [lift_store Unmount Synchronized]. intros t oo (t0 & -> & Hr0)%runs_lift_r.
    apply (synced_unmount_history _ _ _ key) in Hr0; [|done]. unfold unmount_history in Hr0. rewrite Hc in Hr0.
    destruct Hr0 as (u1 & cm & se & u2 & oi & u3 & -> & _ & _ & Hoi). rewrite app_assoc, map_app, !map_map.
    destruct oi as [[[id nw] e]|m].
    - destruct Hoi as (r & -> & Hun). by do 4 eexists.
    - destruct Hoi as (-> & r & Hun). by do 4 eexists. }
  apply runs_bind in Hr as [(m & Hr & ->)|([[id nw] e] & t1 & t2 & -> & Hr & Hf)];
    apply Hu in Hr as (u1 & err & tru & r & -> & Hun & Hres); exists (tr1 ++ u1), err, tru, r.
  - exists []. rewrite <- !app_assoc. done.
  - subst e. destruct r as [e|].
    + destruct Hf as [-> ->]. exists []. rewrite app_nil_r, <- !app_assoc. eauto 10.
    + destruct (id !=? "").
      * destruct Hf as ([] & t & -> & -> & ->). exists [printed id]. rewrite <- !app_assoc. eauto 10.
      * destruct Hf as [-> ->]. exists []. rewrite app_nil_r, <- !app_assoc. eauto 10.
Qed.

End Commands.

(** Options that pass the check of the command line are refused by the store
    for a relative mount directory only. *)
Theorem validated_options registry o :
  validateOptions o = None ->
  validate (applyDefaults registry o) =
    if (mo_ExtMountDir o !=? "") && negb (IsAbs (mo_ExtMountDir o)) then
      Some (Errorf ("non-absolute mount path " +++ quoted (mo_ExtMountDir o) +++ " provided"))
    else None.
Proof.
  unfold validateOptions, validate, applyDefaults. destruct o as [im cn d cm name ns]; cbn.
  destruct (im ==? "") eqn:Ei, (name ==? "") eqn:En; cbn; intros Hv; try done;
    destruct (ns ==? ""); cbn; rewrite ?Ei, ?En; cbn; try done;
    destruct (registry ==? ""); cbn; rewrite ?Ei, ?En, ?andb_false_r; cbn; done.
Qed.

(** ** Concrete commands *)

Module CommandExample.
Import LayerExample.
#[local] Existing Instance retry_loop_impl.

Definition default_options : StoreOptions := mkStoreOptions "/var/lib/containers/storage" "/run/containers/storage" "" [].
Definition cli_answer (c : ccmd) : cresp c :=
  match c with
  | DefaultStoreOptions => Ok default_options
  | SetStore => tt
  | _ => None
  end.

(** A cluster, and a local store whose push may fail. *)
Definition handle (pushed : option goerr) (c : cmd (Sig := CommandSig)) : mem -> resp c * mem :=
  match c as c0 return mem -> resp (Sig := CommandSig) c0 * mem with
  | inl a => fun s => (cli_answer a, s)
  | inr (inl a) => mem_handle a
  | inr (inr (CopyImage _ _)) => fun s => (pushed, s)
  | inr (inr (OsChmod _ _)) => fun s => (None, s)
  | inr (inr a) => fun s => (ans None None a, s)
  end.

Definition flags (sync : bool) : Flags := mkFlags "/cache/root" "" "registry" "" "" false sync "node1" 488.
Definition not_image : goerr := Errorf "not an image".
Definition in_use : goerr := Errorf "image is in use by a container".
Definition umount (sync : bool) : cli (option goerr) :=
  runUnmountCmd not_image in_use 10 (flags sync) opts ["/data/pv1"].
Definition denied : goerr := Errorf "unauthorized".
Definition umount_run (sync : bool) := exec (handle (Some denied)) (umount sync) mem_empty.

Example storage_at_root :
  store_options (flags true) default_options =
    mkStoreOptions "/cache/root" "/cache/root/runroot" "overlay" ["overlay.mountopt=nodev"].
Proof. vm_compute. reflexivity. Qed.

Lemma umount_runs sync : runs (umount sync) (umount_run sync).1.1 (umount_run sync).1.2.
Proof. apply exec_runs_proj. Qed.

(** The same failed push fails the command without synchronisation only. *)
Lemma synced_umount_result_witness :
  (umount_run true).1.2 = Returned None /\ (umount_run false).1.2 <> Returned None /\
  exists tr1 tru tr2, (umount_run true).1.1 = tr1 ++ map cluster_event tru ++ tr2 ++ [store_freed] /\
    exists key err, runs (UnregisterCacheVolume key "node1" "pv1" err) tru (Returned None).
Proof.
  assert (E : (umount_run true).1.2 = Returned None) by (vm_compute; reflexivity).
  split; [exact E|]. split; [vm_compute; discriminate|].
  destruct (synced_umount_result not_image in_use 10 (flags true) opts ["/data/pv1"] _ _ eq_refl ltac:(discriminate) (umount_runs true))
    as [(e & _ & He)|(key & t1 & err & tru & r & t2 & _ & Ht & Hu & Ho)].
  - exfalso. rewrite E in He. discriminate He.
  - rewrite E in Ho. destruct Ho as [<- _]. exists t1, tru, t2. split; [exact Ht|]. exists key, err. exact Hu.
Defined.

Lemma commands_free_store_witness :
  exists tr1 tr2, (umount_run true).1.1 = tr1 ++ tr2 ++ [store_freed].
Proof.
  assert (E : (umount_run true).1.2 = Returned None) by (vm_compute; reflexivity).
  destruct (commands_free_store not_image in_use 10 _ _ _ _ (command_umount not_image in_use 10 (flags true) opts ["/data/pv1"]) (umount_runs true))
    as [(e & _ & He)|(t1 & t2 & Ht & _)].
  - exfalso. rewrite E in He. discriminate He.
  - exists t1, t2. exact Ht.
Defined.

End CommandExample.
