(* ===== verification/Signals.v ===== *)
(** * Signals ([newContext] of [cmd/layerfs/common.go])

    [newContext] registers a channel of capacity 1 for SIGINT and SIGTERM and
    starts a goroutine that cancels the context on the first signal and ends the
    process on the second one.  The package makes a context when it is
    initialised, [prune] makes another one.  The Go runtime sends a signal to
    every registered channel without blocking: a signal that finds a channel full
    is lost for it.  Goroutines and signals interleave in any order. *)

From S2P Require Import Prelude Effects.

Inductive os_signal := SIGINT | SIGTERM | OtherSignal.
#[global] Instance os_signal_eq_dec : EqDecision os_signal.
Proof. solve_decision. Defined.

(** The signals that [signal.Notify] is called with. *)
Definition notified (sig : os_signal) : bool := bool_decide (sig ∈ [SIGINT; SIGTERM]).

(** Where the goroutine is: before [<-sigs], before [cancel()], before the second
    [<-sigs], before [os.Exit(254)]. *)
Inductive position := AwaitFirst | BeforeCancel | AwaitSecond | BeforeExit.

Record context := mkContext {
  cx_sigs : option os_signal;
  cx_position : position;
  cx_cancelled : bool
}.
#[global] Instance context_settable : Settable context := fun r =>
  mkContext (cx_sigs r) (cx_position r) (cx_cancelled r).

Record process_state := mkProcess {
  pr_contexts : list context;
  pr_exit : option Z
}.
#[global] Instance process_settable : Settable process_state := fun r =>
  mkProcess (pr_contexts r) (pr_exit r).

(** [newContext] *)
Definition newContext : context := mkContext None AwaitFirst false.

(** The runtime sends a signal to a channel. *)
Definition send (sig : os_signal) (c : context) : context :=
  match cx_sigs c with
  | None => c <| cx_sigs := Some sig |>
  | Some _ => c
  end.

(** One step of the goroutine, and the exit code if it ends the process; [None]
    if it is blocked. *)
Definition goroutine (c : context) : option (context * option Z) :=
  match cx_position c, cx_sigs c with
  | AwaitFirst, Some _ => Some (c <| cx_sigs := None |> <| cx_position := BeforeCancel |>, None)
  | BeforeCancel, _ => Some (c <| cx_cancelled := true |> <| cx_position := AwaitSecond |>, None)
  | AwaitSecond, Some _ => Some (c <| cx_sigs := None |> <| cx_position := BeforeExit |>, None)
  | BeforeExit, _ => Some (c, Some 254%Z)
  | AwaitFirst, None | AwaitSecond, None => None
  end.

Inductive action := Deliver (sig : os_signal) | Schedule (i : nat) | MakeContext.

(** After the end of the process nothing happens. *)
Definition act (p : process_state) (a : action) : process_state :=
  match pr_exit p with
  | Some _ => p
  | None =>
      match a with
      | Deliver sig => if notified sig then p <| pr_contexts := send sig <$> pr_contexts p |> else p
      | Schedule i =>
          match pr_contexts p !! i ≫= goroutine with
          | Some (c, exit) => mkProcess (<[i := c]> (pr_contexts p)) exit
          | None => p
          end
      | MakeContext => p <| pr_contexts := pr_contexts p ++ [newContext] |>
      end
  end.

(** The process starts with the context of [mountOptions]. *)
Definition process_start : process_state := mkProcess [newContext] None.
Definition process_run (acts : list action) : process_state := foldl act process_start acts.

(** ** What signals do *)

(** The number of signals that the channels are registered for. *)
Definition counts (a : action) : bool := match a with Deliver sig => notified sig | _ => false end.
Definition delivered (acts : list action) : nat := length (filter (fun a => counts a = true) acts).

(** The signals that the goroutine of a context has taken, and the one in its
    channel. *)
Definition taken (c : context) : nat :=
  match cx_position c with AwaitFirst => 0 | BeforeCancel | AwaitSecond => 1 | BeforeExit => 2 end.
Definition seen (c : context) : nat := taken c + (if cx_sigs c then 1 else 0).
Definition has_cancelled (c : context) : bool :=
  match cx_position c with AwaitFirst | BeforeCancel => false | _ => true end.

(** Every context has seen at most the signals that were delivered, is cancelled
    once its goroutine is past that point, and the process has ended only by a
    goroutine at its end. *)
Definition process_inv (k : nat) (p : process_state) : Prop :=
  Forall (fun c => seen c <= k /\ cx_cancelled c = has_cancelled c) (pr_contexts p) /\
  forall code, pr_exit p = Some code -> code = 254%Z /\ Exists (fun c => cx_position c = BeforeExit) (pr_contexts p).

Lemma delivered_one a : delivered [a] = if counts a then 1 else 0.
Proof. unfold delivered. cbn. by destruct (counts a). Qed.

Lemma delivered_app xs ys : delivered (xs ++ ys) = delivered xs + delivered ys.
Proof. unfold delivered. by rewrite filter_app, length_app. Qed.

Lemma goroutine_inv k c c' exit :
  goroutine c = Some (c', exit) -> seen c <= k /\ cx_cancelled c = has_cancelled c ->
  (seen c' <= k /\ cx_cancelled c' = has_cancelled c') /\
  forall code, exit = Some code -> code = 254%Z /\ cx_position c' = BeforeExit.
Proof.
  destruct c as [sigs pos b]. unfold goroutine, seen, taken, has_cancelled. cbn.
  destruct pos, sigs; intros; simplify_eq/=; (split; [split; [lia|naive_solver]|naive_solver]).
Qed.

Lemma send_inv k sig c :
  seen c <= k /\ cx_cancelled c = has_cancelled c ->
  seen (send sig c) <= S k /\ cx_cancelled (send sig c) = has_cancelled (send sig c).
Proof. destruct c as [[] pos b]; unfold seen, taken, send; cbn; intros [? ?]; (split; [lia|done]). Qed.

Lemma act_inv k p a : process_inv k p -> process_inv (k + delivered [a]) (act p a).
Proof.
  intros [Hc Hx]. unfold act. destruct p as [cs [code|]]; cbn [pr_exit pr_contexts] in *.
  - split; [|done]. eapply Forall_impl; [exact Hc|]. cbn. intros c [? ?]. split; [lia|done].
  - rewrite delivered_one. destruct a as [sig|i|]; cbn.
    + destruct (notified sig) eqn:E; cbn.
      * split; [|done]. cbn. apply Forall_fmap.
        eapply Forall_impl; [exact Hc|]. intros c ?. replace (k + 1) with (S k) by lia. by apply send_inv.
      * rewrite Nat.add_0_r. by split.
    + rewrite Nat.add_0_r.
      destruct (cs !! i) as [c|] eqn:Ei; cbn; [|by split]. destruct (goroutine c) as [[c' exit]|] eqn:Eg; [|by split].
      pose proof (Forall_lookup_1 _ _ _ _ Hc Ei) as Hci. destruct (goroutine_inv k c c' exit Eg Hci) as [Hc' Hexit].
      split; cbn; [by apply Forall_insert|]. intros code Hcode. destruct (Hexit code Hcode) as [? ?]. split; [done|].
      apply Exists_exists. exists c'. split; [|done]. eapply list_elem_of_lookup_2, list_lookup_insert_eq, lookup_lt_Some, Ei.
    + rewrite Nat.add_0_r. split; [|done]. cbn.
      apply Forall_app. split; [done|]. repeat constructor. cbn. lia.
Qed.

Lemma process_run_inv acts : process_inv (delivered acts) (process_run acts).
Proof.
  induction acts as [|a acts IH] using rev_ind.
  - split; [|done]. repeat constructor.
  - unfold process_run in *. rewrite foldl_app, delivered_app. by apply act_inv.
Qed.

(** ** Progress

    A context that is at distance [r] from a goal, a distance that signals do not
    change and that every step of its goroutine lowers, reaches the goal once the
    goroutine has been scheduled [r] times, unless the process has ended. *)

Definition schedules (i : nat) (a : action) : bool := match a with Schedule j => bool_decide (j = i) | _ => false end.
Fixpoint scheduled (i : nat) (acts : list action) : nat :=
  match acts with
  | [] => 0
  | a :: acts => if schedules i a then S (scheduled i acts) else scheduled i acts
  end.

Lemma exited_stays p acts : pr_exit p <> None -> foldl act p acts = p.
Proof.
  intros Hx. induction acts as [|a acts IH]; [done|]. cbn.
  replace (act p a) with p; [done|]. unfold act. by destruct (pr_exit p).
Qed.

Section Progress.
Context (at_distance : nat -> context -> Prop) (i : nat).
Hypothesis distance_send : forall r c sig, at_distance r c -> at_distance r (send sig c).
Hypothesis distance_step : forall r c, at_distance (S r) c ->
  exists c' exit, goroutine c = Some (c', exit) /\ (exit <> None \/ at_distance r c').
Hypothesis distance_done : forall c c', at_distance 0 c -> goroutine c = Some (c', None) -> at_distance 0 c'.

Lemma act_elsewhere p a c r :
  pr_exit p = None -> pr_contexts p !! i = Some c -> at_distance r c -> schedules i a = false ->
  pr_exit (act p a) <> None \/ exists c', pr_contexts (act p a) !! i = Some c' /\ at_distance r c'.
Proof.
  intros Hx Hc Hd Ha. unfold act. rewrite Hx. right. destruct a as [sig|j|].
  - destruct (notified sig); [|eauto]. exists (send sig c). split; [|auto]. cbn. by rewrite list_lookup_fmap, Hc.
  - cbn in Ha. case_bool_decide; [done|]. destruct (_ ≫= _) as [[c' exit]|]; [|eauto].
    exists c. split; [|done]. cbn. by rewrite list_lookup_insert_ne.
  - exists c. split; [|done]. cbn. by rewrite lookup_app_l by (by eapply lookup_lt_Some).
Qed.

Lemma act_here p c r :
  pr_exit p = None -> pr_contexts p !! i = Some c -> at_distance r c ->
  pr_exit (act p (Schedule i)) <> None \/
  exists c', pr_contexts (act p (Schedule i)) !! i = Some c' /\ at_distance (pred r) c'.
Proof.
  intros Hx Hc Hd. unfold act. rewrite Hx, Hc. cbn [mbind option_bind].
  pose proof (lookup_lt_Some _ _ _ Hc) as Hi. destruct r as [|r].
  - destruct (goroutine c) as [[c' [code|]]|] eqn:Eg; [by left|right|right; by exists c].
    exists c'. split; [by apply list_lookup_insert_eq|by eapply distance_done].
  - destruct (distance_step r c Hd) as (c' & exit & -> & [Hexit|Hd']); [by left|].
    right. exists c'. split; [by apply list_lookup_insert_eq|done].
Qed.

Lemma reaches_goal acts p c r :
  pr_contexts p !! i = Some c -> at_distance r c -> r <= scheduled i acts ->
  pr_exit (foldl act p acts) <> None \/
  exists c', pr_contexts (foldl act p acts) !! i = Some c' /\ at_distance 0 c'.
Proof.
  revert p c r. induction acts as [|a acts IH]; intros p c r Hc Hd; cbn; intros Hr.
  { right. exists c. by replace 0 with r by lia. }
  destruct (pr_exit p) eqn:Hx.
  { left. change (foldl act (act p a) acts) with (foldl act p (a :: acts)). rewrite exited_stays; by rewrite Hx. }
  assert (Hnext : pr_exit (act p a) <> None \/ exists c' r', pr_contexts (act p a) !! i = Some c' /\
    at_distance r' c' /\ r' <= scheduled i acts).
  { destruct (schedules i a) eqn:Ha.
    - destruct a as [|j|]; try done. cbn in Ha. apply bool_decide_eq_true in Ha as ->.
      destruct (act_here p c r Hx Hc Hd) as [?|(c' & ? & ?)]; [by left|]. right. exists c', (pred r). split_and!; [done..|lia].
    - destruct (act_elsewhere p a c r Hx Hc Hd Ha) as [?|(c' & ? & ?)]; [by left|]. right. by exists c', r. }
  destruct Hnext as [Hexit|(c' & r' & Hc' & Hd' & Hr')]; [|by eapply IH].
  left. by rewrite exited_stays.
Qed.
End Progress.

(** How far the goroutine is from cancelling the context, and from ending the
    process. *)
Definition to_cancel (r : nat) (c : context) : Prop :=
  match r with
  | 0 => has_cancelled c = true
  | 1 => cx_position c = BeforeCancel
  | 2 => cx_position c = AwaitFirst /\ cx_sigs c <> None
  | _ => False
  end.
Definition to_exit (r : nat) (c : context) : Prop :=
  match r with
  | 1 => cx_position c = BeforeExit
  | 2 => cx_position c = AwaitSecond /\ cx_sigs c <> None
  | _ => False
  end.

Ltac context_cases c :=
  destruct c as [[sig'|] pos b]; unfold send, goroutine, has_cancelled in *; destruct pos; cbn in *; simplify_eq/=; naive_solver.

Lemma cancel_reached acts p c i r :
  pr_contexts p !! i = Some c -> to_cancel r c -> r <= scheduled i acts ->
  pr_exit (foldl act p acts) <> None \/
  exists c', pr_contexts (foldl act p acts) !! i = Some c' /\ has_cancelled c' = true.
Proof.
  apply (reaches_goal to_cancel).
  - intros [|[|[|]]] ? ? ?; context_cases c0.
  - intros [|[|[|]]] ? ?; context_cases c0.
  - intros; context_cases c0.
Qed.

Lemma exit_reached acts p c i r :
  pr_contexts p !! i = Some c -> to_exit r c -> r <= scheduled i acts -> pr_exit (foldl act p acts) <> None.
Proof.
  intros Hc Hr Hs. destruct (reaches_goal to_exit i) with (acts := acts) (p := p) (c := c) (r := r)
    as [?|(c' & _ & [])]; try done.
  - intros [|[|[|]]] ? ? ?; context_cases c0.
  - intros [|[|[|]]] ? ?; context_cases c0.
Qed.

(** The signal is in the channel of a context that is not at its end. *)
Lemma deliver_context p sig i c :
  pr_exit p = None -> notified sig = true -> pr_contexts p !! i = Some c ->
  exists c', pr_contexts (act p (Deliver sig)) !! i = Some c' /\ cx_sigs c' <> None /\ cx_position c' = cx_position c.
Proof.
  intros Hx Hs Hc. exists (send sig c). unfold act. rewrite Hx, Hs. cbn. rewrite list_lookup_fmap, Hc.
  split; [done|]. unfold send. destruct (cx_sigs c) eqn:E; cbn; by rewrite ?E.
Qed.

Lemma process_run_app acts1 acts2 : process_run (acts1 ++ acts2) = foldl act (process_run acts1) acts2.
Proof. apply foldl_app. Qed.

(** C20: signals cancel the contexts first and end the process then, in every
    interleaving of the signals with the goroutines:
    - a context is cancelled only after a signal, and the process ends only after
      two, with code 254;
    - a signal cancels every context, once its goroutine was scheduled twice;
    - a signal that finds a context cancelled ends the process, once the
      goroutine of that context was scheduled twice. *)
Theorem signals_cancel_then_exit acts :
  let p := process_run acts in
  (forall i c, pr_contexts p !! i = Some c -> cx_cancelled c = true -> 1 <= delivered acts) /\
  (forall code, pr_exit p = Some code -> code = 254%Z /\ 2 <= delivered acts) /\
  forall sig i c acts', notified sig = true -> pr_contexts p !! i = Some c -> 2 <= scheduled i acts' ->
    let p' := process_run (acts ++ Deliver sig :: acts') in
    (pr_exit p' <> None \/ exists c', pr_contexts p' !! i = Some c' /\ cx_cancelled c' = true) /\
    (cx_cancelled c = true -> pr_exit p' = Some 254%Z).
Proof.
  intros p. destruct (process_run_inv acts) as [Hcs Hexit]. fold p in Hcs, Hexit. split_and!.
  - intros i c Hc Hcan. destruct (Forall_lookup_1 _ _ _ _ Hcs Hc) as [Hseen E]. rewrite Hcan in E.
    unfold seen, taken, has_cancelled in *. destruct (cx_position c); lia || done.
  - intros code Hx. destruct (Hexit code Hx) as [-> He]. split; [done|].
    apply Exists_exists in He as (c & Hc & Hpos). rewrite Forall_forall in Hcs. destruct (Hcs c Hc) as [Hseen _].
    unfold seen, taken in Hseen. rewrite Hpos in Hseen. lia.
  - intros sig i c acts' Hsig Hc Hs p'.
    destruct (process_run_inv (acts ++ Deliver sig :: acts')) as [Hcs' Hexit']. fold p' in Hcs', Hexit'.
    assert (Hp' : p' = foldl act (act p (Deliver sig)) acts') by (unfold p'; by rewrite process_run_app).
    destruct (Forall_lookup_1 _ _ _ _ Hcs Hc) as [_ Hcan].
    destruct (pr_exit p) as [code|] eqn:Hx.
    { assert (p' = p) as -> by (unfold p'; rewrite process_run_app; apply exited_stays; by fold p; rewrite Hx).
      rewrite Hx. destruct (Hexit code eq_refl) as [-> _]. split; [by left|done]. }
    destruct (deliver_context p sig i c Hx Hsig Hc) as (c1 & Hc1 & Hs1 & Hpos). split.
    + destruct (cancel_reached acts' _ c1 i (match cx_position c with AwaitFirst => 2 | BeforeCancel => 1 | _ => 0 end) Hc1)
        as [He|(c' & Hc' & Hdone)].
      * unfold to_cancel, has_cancelled. rewrite Hpos. by destruct (cx_position c).
      * destruct (cx_position c); lia.
      * left. by rewrite Hp'.
      * right. rewrite <- Hp' in Hc'. exists c'. split; [done|]. destruct (Forall_lookup_1 _ _ _ _ Hcs' Hc') as [_ ->]. done.
    + intros Hc0. rewrite Hc0 in Hcan. assert (He : pr_exit p' <> None).
      { rewrite Hp'. apply (exit_reached acts' _ c1 i (match cx_position c with AwaitSecond => 2 | _ => 1 end) Hc1).
        - unfold to_exit. unfold has_cancelled in Hcan. rewrite Hpos. by destruct (cx_position c).
        - destruct (cx_position c); lia. }
      destruct (pr_exit p') as [code|] eqn:Ex; [|done]. by destruct (Hexit' code eq_refl) as [-> _].
Qed.

(** Two signals in a row, before the goroutine has run, count as one. *)
Example second_signal_lost :
  let p := process_run [Deliver SIGTERM; Deliver SIGINT; Schedule 0; Schedule 0; Schedule 0; Schedule 0] in
  p = mkProcess [mkContext None AwaitSecond true] None.
Proof. reflexivity. Qed.

(** [prune] waits on a second context; both are cancelled by one signal. *)
Example prune_contexts :
  let acts := [MakeContext; Deliver SIGTERM; Schedule 1; Schedule 0; Schedule 1; Schedule 0] in
  cx_cancelled <$> pr_contexts (process_run acts) = [true; true] /\
  pr_exit (process_run (acts ++ [Deliver SIGINT; Schedule 1; Schedule 1])) = Some 254%Z.
Proof. done. Qed.

Lemma signals_cancel_then_exit_witness :
  pr_exit (process_run ([Deliver SIGTERM; Schedule 0; Schedule 0] ++ Deliver SIGINT :: [Schedule 0; Schedule 0])) = Some 254%Z.
Proof.
  destruct (signals_cancel_then_exit [Deliver SIGTERM; Schedule 0; Schedule 0]) as (_ & _ & Hlast).
  apply (Hlast SIGINT 0 (mkContext None AwaitSecond true) [Schedule 0; Schedule 0]).
  - reflexivity.
  - reflexivity.
  - apply Nat.leb_le. reflexivity.
  - reflexivity.
Defined.
