(* ===== verification/Scheme.v ===== *)
(** * Registered types ([api/v1alpha1/groupversion_info.go] and the [init] functions)

    A client can address a resource only if its type is registered with the
    scheme that the client was made with.  The package of the API collects its
    types in a builder; the manager adds those of Kubernetes, layerfs does not.
    Schemes and builders belong to apimachinery and controller-runtime: the class
    [SchemeApi] states what is used of them. *)

From S2P Require Import Prelude Effects Api ApiServer CacheStatusEdits CacheUpdater StoreApi SyncedStore LayerApi LayerStore Prune LayerCmd.

Record GroupVersion := mkGroupVersion { gv_Group : string; gv_Version : string }.
#[global] Instance GroupVersion_eq_dec : EqDecision GroupVersion.
Proof. solve_decision. Defined.

Class SchemeApi := {
  scheme : Type;
  builder : Type;
  Recognizes : scheme -> GroupVersion * string -> bool;
  NewScheme : scheme;
  Builder : GroupVersion -> builder;
  Register : list string -> builder -> builder;
  (** [Builder.AddToScheme]; the error comes with the scheme as it is then. *)
  Builder_AddToScheme : builder -> scheme -> scheme * option goerr;
  (** The types of a builder. *)
  builds : builder -> GroupVersion * string -> bool;
  builds_Builder : forall gv t, builds (Builder gv) t = false;
  builder_version : builder -> GroupVersion;
  builder_version_Builder : forall gv, builder_version (Builder gv) = gv;
  builder_version_Register : forall ts b, builder_version (Register ts b) = builder_version b;
  builds_Register : forall ts b t,
    builds (Register ts b) t = bool_decide (t ∈ pair (builder_version b) <$> ts) || builds b t;
  Recognizes_New : forall t, Recognizes NewScheme t = false;
  Recognizes_Add : forall b s t, (Builder_AddToScheme b s).2 = None /\
    Recognizes (Builder_AddToScheme b s).1 t = builds b t || Recognizes s t
}.

(** The package [v1alpha1]: its variables, then the [init] functions of its files
    in the order of their names. *)
Section Package.
Context `{!SchemeApi}.

Definition v1alpha1 : GroupVersion := mkGroupVersion "k8storagex.mgoltzsche.github.com" "v1alpha1".
Definition init_cache_types : builder -> builder := Register ["Cache"; "CacheList"].
Definition init_storageprovisioner_types : builder -> builder := Register ["StorageProvisioner"; "StorageProvisionerList"].
Definition SchemeBuilder : builder := init_storageprovisioner_types (init_cache_types (Builder v1alpha1)).
Definition AddToScheme : scheme -> scheme * option goerr := Builder_AddToScheme SchemeBuilder.

Lemma AddToScheme_recognizes s t :
  (AddToScheme s).2 = None /\
  Recognizes (AddToScheme s).1 t =
    bool_decide (t ∈ pair v1alpha1 <$> ["Cache"; "CacheList"; "StorageProvisioner"; "StorageProvisionerList"]) || Recognizes s t.
Proof.
  destruct (Recognizes_Add SchemeBuilder s t) as [He Hr]. split; [done|]. unfold AddToScheme. rewrite Hr. f_equal.
  unfold SchemeBuilder, init_storageprovisioner_types, init_cache_types.
  rewrite !builds_Register, builder_version_Register, builder_version_Builder, builds_Builder, orb_false_r.
  apply eq_true_iff_eq. rewrite orb_true_iff, !bool_decide_eq_true. set_solver.
Qed.

(** The scheme of the client of layerfs; its error is ignored. *)
Definition layerfs_scheme : scheme := (AddToScheme NewScheme).1.

(** The scheme of the manager: an error ends the process. *)
Definition manager_scheme (clientgo : scheme -> scheme * option goerr) : outcome scheme :=
  match clientgo NewScheme with
  | (_, Some e) => Panicked (Error e)
  | (s, None) => match AddToScheme s with
                 | (_, Some e) => Panicked (Error e)
                 | (s, None) => Returned s
                 end
  end.

Definition core_v1 : GroupVersion := mkGroupVersion "" "v1".
Definition storage_v1 : GroupVersion := mkGroupVersion "storage.k8s.io" "v1".
Definition kind_type (k : kind) : GroupVersion * string :=
  match k with
  | KPod => (core_v1, "Pod")
  | KPersistentVolumeClaim => (core_v1, "PersistentVolumeClaim")
  | KPersistentVolume => (core_v1, "PersistentVolume")
  | KStorageClass => (storage_v1, "StorageClass")
  | KCache => (v1alpha1, "Cache")
  | KStorageProvisioner => (v1alpha1, "StorageProvisioner")
  end.

(** The manager knows every kind that a controller calls the client with. *)
Theorem manager_knows_all_kinds clientgo k :
  (clientgo NewScheme).2 = None ->
  (forall t, t ∈ [kind_type KPod; kind_type KPersistentVolumeClaim; kind_type KPersistentVolume; kind_type KStorageClass] ->
     Recognizes (clientgo NewScheme).1 t = true) ->
  exists s, manager_scheme clientgo = Returned s /\ Recognizes s (kind_type k) = true.
Proof.
  unfold manager_scheme. destruct (clientgo NewScheme) as [s0 e]. cbn. intros -> Hcore.
  destruct (AddToScheme s0) as [s e] eqn:E. pose proof (AddToScheme_recognizes s0 (kind_type k)) as [He Hr].
  rewrite E in He, Hr. cbn in He, Hr. subst e. exists s. split; [done|]. rewrite Hr. apply orb_true_iff.
  destruct k; try (right; apply Hcore; set_solver); left; apply bool_decide_eq_true; set_solver.
Qed.

End Package.

(** ** The calls of layerfs *)

(** The kind of resource that a call of the client is about. *)
Definition kind_of_call (c : kcmd) : option kind :=
  match c with
  | Get k _ | Create k _ | Update k _ | StatusUpdate k _ | Delete k _ => Some k
  | ListProvisioners _ => Some KStorageProvisioner
  | RecordEvent _ _ _ _ | Clock | ProvisionersGet _ | ProvisionersPut _ | ProvisionersDelete _ => None
  end.
Definition cache_call (c : kcmd) : Prop := kind_of_call c = Some KCache \/ kind_of_call c = None.

(** All calls of a program satisfy a condition. *)
Definition only {S : Sig} (P : cmd -> Prop) {A} (p : prog A) : Prop :=
  forall tr o, runs p tr o -> Forall (fun e => P (ev_cmd e)) tr.

Section Only.
Context {S : Sig} (P : cmd -> Prop).

Lemma only_bind {A B} (p : prog A) (f : A -> prog B) : only P p -> (forall a, only P (f a)) -> only P (bind p f).
Proof.
  intros Hp Hf tr o [(m & Hr & _)|(a & t1 & t2 & -> & Hr & Hr2)]%runs_bind; [by eapply Hp|].
  apply Forall_app. split; [by eapply Hp|by eapply Hf].
Qed.
Lemma only_finally {A B} (p : prog A) (f : outcome A -> prog B) :
  only P p -> (forall o, only P (f o)) -> only P (finally p f).
Proof.
  intros Hp Hf tr o (o1 & t1 & t2 & -> & Hr & Hr2)%runs_finally.
  apply Forall_app. split; [by eapply Hp|by eapply Hf].
Qed.
Lemma only_Ret {A} (a : A) : only P (Ret a).
Proof. by intros tr o [-> _]. Qed.
Lemma only_Panic {A} m : only P (Panic (A := A) m).
Proof. by intros tr o [-> _]. Qed.
Lemma only_Call {A} c (k : resp c -> prog A) : P c -> (forall x, only P (k x)) -> only P (Call c k).
Proof. intros Hc Hk tr o (x & t & -> & Hr). constructor; [done|by eapply Hk]. Qed.
End Only.

Lemma only_lift_l {S T : Sig} P Q {A} (p : prog (S := S) A) :
  only P p -> (forall c, P c -> Q (inl c)) -> only (S := sum_sig S T) Q (lift_l p).
Proof.
  intros Hp HQ tr o (t & -> & Hr)%runs_lift_l. apply Forall_fmap. eapply Forall_impl; [by eapply Hp|].
  intros e He. by apply HQ.
Qed.
Lemma only_lift_r {S T : Sig} P Q {A} (p : prog (S := T) A) :
  only P p -> (forall c, P c -> Q (inr c)) -> only (S := sum_sig S T) Q (lift_r p).
Proof.
  intros Hp HQ tr o (t & -> & Hr)%runs_lift_r. apply Forall_fmap. eapply Forall_impl; [by eapply Hp|].
  intros e He. by apply HQ.
Qed.

Section Commands.
Context `{!PushRetry, !ConflictRetry} (ErrNotAnImage ErrImageUsedByContainer : goerr) (fuel : nat).

Abbreviation only_caches := (only (S := KubeSig) cache_call).

Ltac only_steps :=
  unfold call; repeat first
    [ apply only_Ret | apply only_Panic | apply only_bind; [|intros] | apply only_finally; [|intros]
    | apply only_Call; [first [by left|by right|done]|intros] | case_match ].

Lemma update_attempt_only {X} name create (modify : X -> Cache -> (nat -> Time) -> Cache * X) x :
  only_caches (update_attempt name create modify x).
Proof. unfold update_attempt. only_steps. Qed.

Lemma updateCache_only {X} name create (modify : X -> Cache -> (nat -> Time) -> Cache * X) x :
  only_caches (updateCache name create modify x).
Proof.
  intros tr o Hr%RetryOnConflict_attempts.
  induction Hr as [n x tr x' e Hr _|n x tr m Hr|n x tr x' err tr' o Hr _ _ IH]; [by eapply update_attempt_only..|].
  apply Forall_app. split; [by eapply update_attempt_only|done].
Qed.

Lemma updater_only key node v :
  (forall image commit, only_caches (RegisterCacheVolume key node v image commit)) /\
  only_caches (PrepareCommit key node v) /\ (forall err, only_caches (UnregisterCacheVolume key node v err)).
Proof. split_and!; intros; (apply only_bind; [apply updateCache_only|intros; only_steps]). Qed.

(** A call of layerfs: to the cluster only for caches. *)
Definition layerfs_call (c : cmd (Sig := CommandSig)) : Prop :=
  match c with inr (inl c) => cache_call c | _ => True end.
Definition store_call (c : cmd (Sig := ClusterSig)) : Prop :=
  match c with inl c => cache_call c | inr _ => True end.

Lemma only_True {S : Sig} {A} (p : prog A) : only (fun _ => True) p.
Proof. intros tr o _. by apply Forall_true. Qed.

Lemma kube_only {A} (p : prog (S := KubeSig) A) : only_caches p -> only (S := ClusterSig) store_call (lift_l p).
Proof. intros Hp. by eapply only_lift_l. Qed.
Lemma layer_only {A} (p : prog (S := LayerSig) A) : only (S := ClusterSig) store_call (lift_r p).
Proof. by eapply only_lift_r; [apply only_True|]. Qed.

Lemma synced_store_only (inner : Store LayerSig) node o :
  only (S := ClusterSig) store_call (synced_Mount inner node o) /\
  only (S := ClusterSig) store_call (synced_Unmount inner node o).
Proof.
  pose proof (fun key v => updater_only key node v) as Hup.
  split; [unfold synced_Mount|unfold synced_Unmount]; only_steps; try apply layer_only; apply kube_only, Hup.
Qed.

Lemma cluster_only {A} (p : prog (S := ClusterSig) A) : only store_call p -> only (S := CommandSig) layerfs_call (lift_r p).
Proof. intros Hp. by eapply only_lift_r. Qed.
Lemma local_only {A} (p : prog (S := LayerSig) A) : only (S := CommandSig) layerfs_call (local p).
Proof. apply cluster_only, layer_only. Qed.

Local Abbreviation chosen := (chosen_store ErrNotAnImage ErrImageUsedByContainer fuel).

Lemma chosen_store_only flags :
  (forall o, only layerfs_call (Mount (chosen flags) o)) /\ (forall o, only layerfs_call (Unmount (chosen flags) o)) /\
  only layerfs_call (Prune (chosen flags)).
Proof.
  unfold chosen_store.
  destruct (fl_enableK8sSync flags); cbn [lift_store Mount Unmount Prune Synchronized];
    split_and!; intros; apply cluster_only; try apply layer_only; apply synced_store_only.
Qed.

Lemma newStore_only flags : only layerfs_call (newStore ErrNotAnImage ErrImageUsedByContainer fuel flags).
Proof. unfold newStore, toClusterSyncedStore, setup. cbn [lift_l call]. only_steps. Qed.

(** layerfs calls the cluster only for kinds that are registered with the scheme
    of its client. *)
Theorem layerfs_calls_registered_kinds `{!SchemeApi} p flags tr1 c x tr2 o k :
  command ErrNotAnImage ErrImageUsedByContainer fuel p flags ->
  runs p (tr1 ++ Ev (S := CommandSig) (inr (inl c)) x :: tr2) o ->
  kind_of_call c = Some k -> Recognizes layerfs_scheme (kind_type k) = true.
Proof.
  intros Hc Hr Hk. assert (Hp : only layerfs_call p).
  { destruct (chosen_store_only flags) as (Hm & Hu & Hpr).
    assert (Hw : forall run, only layerfs_call (run (chosen flags)) ->
      only layerfs_call (with_store ErrNotAnImage ErrImageUsedByContainer fuel flags run)).
    { intros run Hrun tr o' [(e & Hn & _)|(t1 & t2 & -> & Hn & Hr2)]%with_store_runs; [by eapply newStore_only|].
      rewrite !Forall_app. split; [by eapply newStore_only|]. split; [by eapply Hrun|]. by repeat constructor. }
    destruct Hc; apply Hw; [apply only_bind; [apply Hm|]|apply only_bind; [apply Hu|]|apply Hpr];
      intros; only_steps; apply local_only. }
  apply Hp, Forall_app in Hr as [_ Hr]. apply Forall_inv in Hr. cbn in Hr.
  destruct Hr as [E|E]; rewrite E in Hk; [|done]. injection Hk as <-.
  unfold layerfs_scheme. destruct (AddToScheme_recognizes NewScheme (kind_type KCache)) as [_ ->]. apply orb_true_iff. left.
  apply bool_decide_eq_true. set_solver.
Qed.
End Commands.

(** ** Schemes as sets of types *)

Module SchemeExample.
Program Definition set_schemes : SchemeApi := {|
  scheme := list (GroupVersion * string);
  builder := GroupVersion * list (GroupVersion * string);
  Recognizes s t := bool_decide (t ∈ s);
  NewScheme := [];
  Builder gv := (gv, []);
  Register ts b := (b.1, (pair b.1 <$> ts) ++ b.2);
  Builder_AddToScheme b s := (b.2 ++ s, None);
  builds b t := bool_decide (t ∈ b.2);
  builder_version := fst
|}.
Next Obligation. done. Qed.
Next Obligation. done. Qed.
Next Obligation. done. Qed.
Next Obligation. intros ts b t. apply eq_true_iff_eq. rewrite orb_true_iff, !bool_decide_eq_true. cbn. set_solver. Qed.
Next Obligation. done. Qed.
Next Obligation.
  intros b s t. split; [done|]. apply eq_true_iff_eq. rewrite orb_true_iff, !bool_decide_eq_true. cbn. set_solver.
Qed.
#[local] Existing Instance set_schemes.
#[local] Existing Instance retry_loop_impl.

Definition clientgo (s : scheme) : scheme * option goerr :=
  ((kind_type <$> [KPod; KPersistentVolumeClaim; KPersistentVolume; KStorageClass]) ++ s, None).

Lemma manager_knows_all_kinds_witness :
  exists s, manager_scheme clientgo = Returned s /\ Recognizes s (kind_type KPod) = true.
Proof.
  apply (manager_knows_all_kinds clientgo KPod).
  - reflexivity.
  - intros t Ht. apply bool_decide_eq_true. exact Ht.
Defined.

Import CommandExample LayerExample.

(** A synchronised unmount looks for its cache. *)
Lemma layerfs_calls_registered_kinds_witness : Recognizes layerfs_scheme (kind_type KCache) = true.
Proof.
  assert (E : (umount_run true).1.1 !! 6 = Some (Ev (S := CommandSig) (inr (inl (Get KCache (mkNamespacedName "build" "default")))) (Err not_found)))
    by (vm_compute; reflexivity).
  pose proof (umount_runs true) as Hr. rewrite <- (take_drop_middle _ _ _ E) in Hr.
  exact (layerfs_calls_registered_kinds not_image in_use 10 _ _ _ _ _ _ _ KCache
    (command_umount not_image in_use 10 (flags true) opts ["/data/pv1"]) Hr eq_refl).
Defined.
End SchemeExample.
